(* ===== verification/_CoqProject ===== *)
-Q . S2P
Prelude.v
Uri.v
GoRandom.v
Murmur3.v
AttributeValue.v
Effects.v
Streams.v
RoutingScope.v
NodeHealth.v
QueryPlan.v
KeyRouteAffinity.v
HttpCompression.v
Zlib.v
StoredZlib.v
Config.v
SocketClient.v
HttpMessages.v
ScriptedSockets.v
CurlClient.v
LocalNodesJson.v
LiveNodes.v
LiveNodesSelection.v
LiveNodesRefresh.v
DynamoDBHelper.v
DiscoveryWorkers.v
AwsHttpClient.v
HelperOperations.v
Failover.v
ScriptedSdk.v
BackgroundThread.v
LiveNodesWorld.v
LiveNodesHttp.v
Threads.v
ThreadLogic.v
LiveNodesThreads.v
LiveNodesAlone.v
LiveNodesProtocol.v
RoutingProperties.v
ThreadProperties.v
CoreProperties.v
HelperProperties.v
ClientProperties.v
NetworkProperties.v
HelperThreads.v
HelperAlone.v
HelperPool.v
HelperProtocol.v
HelperInvariant.v
HelperSafety.v
HelperWork.v
HelperRoutes.v
HelperThreadProperties.v
