(* ===== verification/Prelude.v ===== *)
(** * The Alternator client for C++: a model and its correctness

    The program is a client-side library for the Alternator API of ScyllaDB: it
    keeps track of the nodes of a cluster and decides, per request, which nodes
    to try and in which order.  This development models the library's core and
    proves what makes it correct.  Paths below are relative to the repository.

    ** The parts of the program and where they are modelled

    - Prelude.v (this file): fixed-width integers, exceptions and results,
      strings, and the list and sorting lemmas shared by the other files.
    - Uri.v: [Url] of src/uri.cpp, with [operator==] on fields and [operator<]
      on printed text, and [SortAndDedupeNodes] of src/query_plan.cpp.
    - GoRandom.v: [GoRandom] of src/go_random.cpp, a generator with the
      sequences of Go's math/rand, so that clients in both languages agree.
    - Murmur3.v and AttributeValue.v: src/murmur3.cpp, src/attribute_value.cpp,
      the hash of partition-key values.
    - Effects.v: a state-and-exception monad, a program logic for it, and the
      class [World] of what the program observes: two clocks and
      [HttpClient::Get].  Every theorem about stateful code holds for every
      instance of that class.
    - Streams.v: [std::iostream] as the compression code and the SDK's bodies
      use it: positions, state bits, and buffers that fault or run out.
    - RoutingScope.v: src/routing_scope.cpp, cluster, datacenter and rack scopes
      with their fallbacks.
    - NodeHealth.v: src/node_health.cpp, the store that classifies nodes as
      active, quarantined or down.
    - QueryPlan.v: src/query_plan.cpp, plans as iterators, and the interface
      [NodesSource] they are fed from (a type class).
    - KeyRouteAffinity.v: src/key_route_affinity.cpp, plans for a partition key
      and for batches, written against [NodesSource] and proved against the
      laws [NodesSourceLaws].
    - HttpCompression.v: the encoding names, advertising, header lookup and
      layered decoding of src/http_compression.cpp; Zlib.v: its compressor and
      decoder, over zlib as the class [Zlib] with the laws [ZlibLaws];
      StoredZlib.v: a small instance that satisfies them.
    - Config.v: src/config.cpp and the [Config] structure.
    - SocketClient.v: the HTTP client of src/http_client.cpp over sockets (class
      [Sockets], laws [SocketLaws]); HttpMessages.v: facts of its response
      parser; ScriptedSockets.v: a peer that satisfies the laws.
    - CurlClient.v: the HTTP client of src/http_client.cpp over libcurl (class
      [Curl], laws [CurlLaws], with a scripted instance).
    - LocalNodesJson.v: [ParseJsonStringArray] of src/live_nodes.cpp.
    - LiveNodes.v: [AlternatorLiveNodes] of src/live_nodes.cpp, every member
      function, and the invariant [live_inv].  LiveNodesSelection.v proves
      facts of node selection and discharges [NodesSourceLaws] for it;
      LiveNodesRefresh.v proves those of discovery and refreshing.
    - BackgroundThread.v: [Start], [Stop] and [BackgroundLoop] of
      src/live_nodes.cpp as a state machine, and the step relation
      [system_step] of clients and thread together, whole operations at a time.
    - LiveNodesWorld.v: what operations of the live nodes keep of the world, and
      what a refresh makes of the nodes' replies; LiveNodesHttp.v: the worlds
      that the two HTTP clients make ([NewDefaultHttpClient]).
    - Threads.v: C++ threads: programs of atomic accesses, mutexes, a condition
      variable, [std::thread], and pools of threads with their interleavings;
      ThreadLogic.v: a program logic for them (classes [Protocol] and
      [ProtocolLaws]) and what follows for every interleaving.
      LiveNodesThreads.v: every member function of the live nodes and of the
      health store, and the background thread, as such programs;
      LiveNodesAlone.v: run alone, they are the functions of LiveNodes.v;
      LiveNodesProtocol.v: the protocol of the object's mutexes and its proof.
    - DynamoDBHelper.v: the routing half of src/aws_dynamodb_helper.cpp, from an
      SDK write request to a plan and a client, and [UpdatePartitionKeyName];
      DiscoveryWorkers.v: the threads that learn partition keys, interleaved
      with writes.
    - AwsHttpClient.v: the half of src/aws_dynamodb_helper.cpp that wraps the
      SDK's HTTP client, and the request hooks of
      include/scylladb/alternator/aws/dynamodb_helper.h (class [AwsHttp], laws
      [AwsHttpLaws]); ScriptedSdk.v: an instance of them.
      HelperOperations.v: the writes of [DynamoDBHelper] through the client of
      their plan, and the calls it passes on.  Failover.v: the attempts of one
      SDK call in a row, and an attempt with the retry hook.
    - HelperThreads.v: the writes, plans, key names, client cache and destructor
      of [DynamoDBHelper] and its discovery threads as programs of accesses,
      with the helper's three mutexes; HelperAlone.v: run alone, they are the
      functions of DynamoDBHelper.v and HelperOperations.v; HelperPool.v: pools
      of threads that call one helper, with the discovery threads they start.
      HelperProtocol.v: which mutex each program holds where and what a thread
      owes to [in_progress]; HelperInvariant.v: the invariant [helper_ok] of
      pools; HelperSafety.v: exclusion, races, progress, the destructor;
      HelperWork.v: how many steps a call is worth; HelperRoutes.v: what the
      programs answer while the live nodes and the key names change.
    - RoutingProperties.v, ThreadProperties.v, CoreProperties.v,
      HelperProperties.v, HelperThreadProperties.v, ClientProperties.v and
      NetworkProperties.v: the properties.  Those numbered C1 to C40 are the
      main ones; each that has hypotheses comes with an instance at concrete
      data.

    The parts meet as in the code.  The SDK adapter ([write_plan],
    [BatchWriteItemQueryPlanFor]) asks [QueryPlanForPartitionKey] or
    [QueryPlanForBatchWrite] for a plan; they hash the key ([HashPartitionKey],
    [Murmur3H1]) and ask the live nodes for candidates; the plan draws from
    [GoRandom] seeded with the hash.  The write goes out through a client fixed
    to the first node of the plan ([item_write]); its attempts pass
    [MakeRequest], which compresses the body ([GzipRequestCompressor]), moves
    retries on ([NextNode]) and reports results ([ReportNodeResult]) to the
    health store.  The background thread replaces the node set through
    [UpdateLiveNodes], which asks the nodes with [HttpClient::Get]; the two
    implementations of that method are SocketClient.v and CurlClient.v.

    ** What the theorems show

    - Routing (C1 to C8): one partition key takes one route through the active
      nodes in every client, for every kind of write and from every thread;
      while a node is active, every write has a plan and is sent to its first
      node, also while other threads write and learn partition keys; each attempt is reported for the
      node it was sent to; retries get through while an active node can be
      reached; a batch prefers the nodes its keys vote for.  Further theorems:
      the vote does not depend on the order of the operations; requests to
      other services pass untouched.
    - Threads of the live nodes (C9 to C11): in every interleaving of single
      accesses by any number of callers and the background thread, the object
      satisfies its invariant, the health store is an image of the live list
      outside [mutex_], there is no data race and no deadlock, and [Stop] ends.
      Further: run alone, the threads' programs are the sequential functions the
      other theorems are about ([threads_run_the_methods]); the same at the
      granularity of operations.
    - Threads of the helper (C12 to C14): no two discoveries of a table run at
      once and none leaves its table behind in [in_progress]; no data race, no
      deadlock, and a bound on the steps of all threads together; the
      destructor leaves no discovery thread running.  Further: run alone, the
      programs are the sequential functions ([threads_run_the_helper]); bounded
      requests per discovery; the same at the granularity of operations.
    - Refreshing (C15 to C17): what a refresh installs, also from the bytes on
      the sockets to the health store, and along a chain of fallback scopes.
    - Plans (C18): draining ends with a permutation of the candidates.
      Further: seeded order is canonical, the shortcut [FirstNodeWithSeed]
      agrees with plans, preferred nodes come first.
    - Requests and responses (C19 to C25): a compressed body decodes to the
      original and a rendered response parses back; the loops around zlib end;
      bytes go over sockets exactly; the live nodes leak no descriptors; a
      libcurl transfer runs with its own options only; only allowed headers are
      sent.  Further: the live nodes leave no libcurl handles behind; advertised
      encodings, layered decoding, header lookup.
    - Selection (C26, C27), node health (C28, C29), the [/localnodes] grammar
      (C30).  Further: round robin is fair, activity and refreshing, the pools,
      probing, what discovery reports and that it ends, validation.
    - Where the code goes wrong (C31 to C34, and C29, C40): a bracketed host, a
      notification lost before the wait, a thread without timers that activity
      cannot wake, the retry hook's counting; discovery threads that failed keep
      their handles until the helper is destroyed.  Further: attempts ten to
      nineteen, gzip bodies of several members, chunked replies, overlapping
      calls of [Stop], an error that blocks the fallback scopes, a sum of the
      generator that overflows.
    - The generator (C35 to C37): [Int31n] terminates and is unbiased, the ring
      buffer refines a queue, seeding stays within 32 bits; the hash (C38):
      agreement with a byte-stream reference; URLs (C39).

    ** How code is rendered

    Integers are [Z] with every wrap-around written out ([u32], [u64], [i64]);
    signed arithmetic whose overflow C++ leaves undefined is computed modulo
    the width, and [uint64_addition_overflows] shows where that matters.  Time points and durations are
    integers (nanoseconds and milliseconds) without overflow.  [std::map] keyed
    by [Url] is a [gmap] keyed by the printed URL, which is what its comparison
    sees.  [std::sort] is a merge sort: where keys can be equal for different
    values ([Url]s that print alike) the standard leaves the order open, and
    the theorems that depend on it ask for [node_url] or [key_inj].  A throwing
    function returns a [result]; a [const] method that moves a [mutable] member
    is a state function.  A library the program calls (zlib, the socket
    interface, libcurl, the AWS SDK) is a class of its entry points, and what
    its documentation promises is a second class of laws over states the first
    leaves abstract; a theorem that needs the laws names them, and an instance
    in this development shows that they can hold.  A destructor is [finally].

    A thread is a program whose steps are accesses to one region of the object:
    the members a mutex guards together, one atomic counter, or the world (a
    clock reading or a request).  Members that no mutex guards and that are not
    atomic must not be accessed by two threads at once, which is what C10 says;
    programs without such races behave as if their accesses were interleaved,
    which is how they are run here.  The relaxed atomic counters are single
    read-modify-write steps.  A wait releases its mutex and sleeps in one step
    and may end by a notification, by its time or for no reason.  The
    configuration and the initial nodes do not change after construction and
    are parameters of the programs.  [Start] and [Stop] may not overlap: callers
    that use them from several threads take a lock of their own
    ([ControlMutex]), and [overlapping_stops_race] shows why.

    The threads of the helper are rendered alike (C13 is their freedom from
    races), with a type of programs of their own, since they start and join
    further threads.  To them a call of the live nodes, a request, a clock
    reading or a sleep is one access to their surroundings, which may also
    change by themselves between any two accesses.  That leaves every order in
    which such calls take effect; that a call of the live nodes made of several
    accesses keeps their invariant is C9.  The destructor's wait for the refresh
    thread is that of [Stop] (C11).

    ** Fuel

    Loops that are not structural carry fuel, and throw [out_of_fuel], which no
    code throws, when it ends: no theorem takes that for a result.  [Int31n] gets
    64 * 607 draws; C35 proves that it returns from every well-formed state (at
    most 63 * 607 draws can be rejected in a row).  [DrainPlan] and [discovery_loop] get one
    turn more than the plan has nodes, and the JSON parser one more than the
    body has characters; C18, [discovery_loop_ends] and C30 show that this is
    enough.  [DeflateBody] reads at most once more than its input has bytes and
    its inner loop turns once more than [deflateBound] of them; [InflateBody]
    gets 1033 turns per byte of input, since a byte of deflate data stands for at
    most 1032 bytes; C21 shows that neither runs out.  How often [send] and
    [recv] are called depends on the peer and on signals, so the socket client
    takes its fuel as an argument, and C22 and C16 say how much is enough.
    The programs of threads carry no fuel: they are inductive, and C13 counts
    their steps ([call_steps]: a constant for each attempt that the discoveries
    of a call may make, and for each operation of a batch).

    ** What is not modelled

    A request is one step of the thread that makes it: the mutex around the
    reusable libcurl handle and the calls inside a request are not interleaved
    with other threads.  The threads of the helper and those inside its live
    nodes are separate models: no single run interleaves the accesses of both.
    Destroying an object that other threads still use is undefined, and no
    theorem depends on it.  Releasing memory ([deflateEnd], [inflateEnd]) has no
    effect in the model.  Methods that only forward to the SDK (the default
    endpoint provider, [CreateHttpRequest], static state) have no definition.
    The builds without zlib and without OpenSSL replace the modelled functions
    by ones that throw or do nothing. *)
From Stdlib Require Export ZArith Lia.
From Stdlib Require Ascii.
From stdpp Require Export base tactics list strings pretty gmap sorting numbers.
Export list_basics.list list_relations.list list_misc.list list_monad.list
  list_numbers.list list_tactics.list.
Export Stdlib.Strings.Ascii (ascii(..), ascii_of_N, N_of_ascii, ascii_of_nat, nat_of_ascii).
Export (notations) Stdlib.Strings.Ascii.

#[global] Open Scope Z_scope.

(** ** Fixed-width integers

    A C++ integer of width [w] is the mathematical integer it denotes; every
    operation that can leave the range goes through one of these. *)

Definition u32 (z : Z) : Z := z mod 2 ^ 32.
Definition u64 (z : Z) : Z := z mod 2 ^ 64.
Definition i32 (z : Z) : Z := (z + 2 ^ 31) mod 2 ^ 32 - 2 ^ 31.
Definition i64 (z : Z) : Z := (z + 2 ^ 63) mod 2 ^ 64 - 2 ^ 63.

Definition is_u32 (z : Z) : Prop := 0 <= z < 2 ^ 32.
Definition is_u64 (z : Z) : Prop := 0 <= z < 2 ^ 64.
Definition is_i64 (z : Z) : Prop := - 2 ^ 63 <= z < 2 ^ 63.

(** [ranges] exposes the bounds hidden in the width predicates to [lia]. *)
Ltac ranges := unfold is_u32, is_u64, is_i64 in *; try lia.

Lemma u64_range z : is_u64 (u64 z).
Proof. unfold is_u64, u64. apply Z.mod_pos_bound. lia. Qed.
Lemma u32_range z : is_u32 (u32 z).
Proof. unfold is_u32, u32. apply Z.mod_pos_bound. lia. Qed.
Lemma i64_range z : is_i64 (i64 z).
Proof.
  unfold is_i64, i64. pose proof (Z.mod_pos_bound (z + 2 ^ 63) (2 ^ 64)). lia.
Qed.
Lemma u64_small z : is_u64 z → u64 z = z.
Proof. intros. by apply Z.mod_small. Qed.
Lemma u32_small z : is_u32 z → u32 z = z.
Proof. intros. by apply Z.mod_small. Qed.
Lemma i64_small z : is_i64 z → i64 z = z.
Proof. unfold is_i64, i64. intros. rewrite Z.mod_small; lia. Qed.
Lemma i32_small z : - 2 ^ 31 <= z < 2 ^ 31 → i32 z = z.
Proof. unfold i32. intros. rewrite Z.mod_small; lia. Qed.

(** A signed 64-bit value and its unsigned reinterpretation are congruent. *)
Lemma u64_i64 z : u64 (i64 z) = u64 z.
Proof.
  unfold u64, i64.
  rewrite (Z.mod_eq (z + 2 ^ 63) (2 ^ 64)) by lia.
  replace (z + 2 ^ 63 - 2 ^ 64 * ((z + 2 ^ 63) / 2 ^ 64) - 2 ^ 63)
    with (z + - ((z + 2 ^ 63) / 2 ^ 64) * 2 ^ 64) by lia.
  apply Z.mod_add. lia.
Qed.
Lemma i64_u64 z : i64 (u64 z) = i64 z.
Proof.
  unfold u64, i64. f_equal. by rewrite Zplus_mod_idemp_l.
Qed.

Create HintDb alternator.
Create Rewrite HintDb alternator.
#[export] Hint Resolve u64_range u32_range i64_range : alternator.
#[export] Hint Rewrite u64_i64 i64_u64 : alternator.

(** ** Exceptions and results

    The exceptions the program throws, by the class it throws them with, and
    the outcome of an expression that may throw. *)

Inductive exn :=
  | InvalidArgument (what : string)
  | RuntimeError (what : string)
  | HttpStatusError (what : string) (status_code : Z)
  | InvalidHttpResponseError (what : string).

#[global] Instance exn_eq_dec : EqDecision exn.
Proof. solve_decision. Defined.

(** Not an exception of the program: a loop of the model ran out of fuel. *)
Definition out_of_fuel : exn := RuntimeError "out of fuel".

Inductive result (A : Type) :=
  | Ok (a : A)
  | Throw (e : exn).
Arguments Ok {_} _.
Arguments Throw {_} _.

#[global] Instance result_eq_dec `{EqDecision A} : EqDecision (result A).
Proof. solve_decision. Defined.

#[global] Instance result_ret : MRet result := λ A a, Ok a.
#[global] Instance result_bind : MBind result := λ A B f r,
  match r with Ok a => f a | Throw e => Throw e end.
#[global] Instance result_fmap : FMap result := λ A B f r,
  match r with Ok a => Ok (f a) | Throw e => Throw e end.

(** ** Characters and strings of the C locale *)

Definition isspace (c : ascii) : bool := Ascii.is_space c.

Fixpoint string_has (c : ascii) (s : string) : bool :=
  match s with
  | EmptyString => false
  | String d s => bool_decide (c = d) || string_has c s
  end.

Definition string_front_is (c : ascii) (s : string) : bool :=
  match s with
  | EmptyString => false
  | String d _ => bool_decide (c = d)
  end.

(** [std::string(x.c_str())]: the text up to the first NUL. *)
Fixpoint c_str (s : string) : string :=
  match s with
  | EmptyString => ""
  | String c s => if bool_decide (c = ascii_of_N 0) then "" else String c (c_str s)
  end.

Lemma append_cons c s t : String c s +:+ t = String c (s +:+ t).
Proof. done. Qed.
Lemma append_empty_l s : "" +:+ s = s.
Proof. done. Qed.
Lemma append_empty_r s : s +:+ "" = s.
Proof. induction s as [|c s IH]; [done|]. by rewrite append_cons, IH. Qed.
Lemma append_assoc s t r : (s +:+ t) +:+ r = s +:+ t +:+ r.
Proof. induction s as [|c s IH]; [done|]. by rewrite !append_cons, IH. Qed.
Lemma string_length_app s t : String.length (s +:+ t) = (String.length s + String.length t)%nat.
Proof. induction s as [|c s IH]; [done|]. rewrite append_cons. simpl. by rewrite IH. Qed.

(** Concatenations as right-nested lists of characters and pieces. *)
Create Rewrite HintDb strings.
#[export] Hint Rewrite append_assoc append_cons append_empty_l append_empty_r : strings.
Ltac norm_app := autorewrite with strings in *.

Lemma string_has_app c s t :
  string_has c (s +:+ t) = string_has c s || string_has c t.
Proof.
  induction s as [|d s IH]; [done|].
  rewrite append_cons. simpl.
  by rewrite IH, orb_assoc.
Qed.

(** Two prefixes free of [c], each followed by a suffix that is empty or
    starts with [c], are determined by their concatenation. *)
Definition starts_or_empty (c : ascii) (t : string) : Prop :=
  t = EmptyString ∨ string_front_is c t = true.

Lemma append_split_inj c s1 s2 t1 t2 :
  string_has c s1 = false → string_has c s2 = false →
  starts_or_empty c t1 → starts_or_empty c t2 →
  s1 +:+ t1 = s2 +:+ t2 → s1 = s2 ∧ t1 = t2.
Proof.
  revert s2. induction s1 as [|d s1 IH]; intros [|d' s2] H1 H2 T1 T2 E.
  - done.
  - exfalso. change (t1 = String d' (s2 +:+ t2)) in E. subst t1.
    simpl in H2. destruct T1 as [T1|T1]; [done|]. simpl in T1.
    by rewrite T1 in H2.
  - exfalso. change (String d (s1 +:+ t1) = t2) in E. subst t2.
    simpl in H1. destruct T2 as [T2|T2]; [done|]. simpl in T2.
    by rewrite T2 in H1.
  - change (String d (s1 +:+ t1) = String d' (s2 +:+ t2)) in E.
    simpl in H1, H2. apply orb_false_iff in H1 as [_ H1].
    apply orb_false_iff in H2 as [_ H2]. simplify_eq.
    by destruct (IH s2 H1 H2 T1 T2) as [-> ->].
Qed.

(** ** Filters that keep or drop everything *)

Section filter_facts.
Context {A : Type} (P : A → Prop) `{P_dec : !∀ x, Decision (P x)}.

Lemma filter_keep (l : list A) : (∀ x, x ∈ l → P x) → filter P l = l.
Proof.
  induction l as [|x l IH]; intros Hl; [done|].
  rewrite filter_cons_True by (apply Hl; set_solver). f_equal. apply IH. set_solver.
Qed.
Lemma filter_drop (l : list A) : (∀ x, x ∈ l → ¬ P x) → filter P l = [].
Proof.
  induction l as [|x l IH]; intros Hl; [done|].
  rewrite filter_cons_False by (apply Hl; set_solver). apply IH. set_solver.
Qed.
Lemma StronglySorted_filter (R : relation A) (l : list A) :
  StronglySorted R l → StronglySorted R (filter P l).
Proof.
  induction 1 as [|x l S IH F]; [constructor|]. rewrite filter_cons.
  case_decide; [|done]. constructor; [done|].
  rewrite Forall_forall in *. intros y [_ Hy]%list_elem_of_filter. by apply F.
Qed.
End filter_facts.

Lemma filter_ext_elem {A} (P Q : A → Prop) `{∀ x, Decision (P x)} `{∀ x, Decision (Q x)}
    (l : list A) : (∀ x, x ∈ l → P x ↔ Q x) → filter P l = filter Q l.
Proof.
  induction l as [|x l IH]; intros E; [done|]. rewrite !filter_cons.
  rewrite IH by (intros; apply E; by right).
  assert (P x ↔ Q x) as Hx by (apply E; by left).
  do 2 case_decide; tauto.
Qed.

Lemma StronglySorted_weaken {A} (R Q : relation A) (l : list A) :
  StronglySorted R l → (∀ x y, x ∈ l → y ∈ l → R x y → Q x y) → StronglySorted Q l.
Proof.
  induction 1 as [|x l S IH F]; intros H; [constructor|]. constructor.
  - apply IH. intros y z Hy Hz. apply H; by right.
  - rewrite Forall_forall in *. intros y Hy. apply H; [by left|by right|by apply F].
Qed.

Lemma Permutation_nil_iff {A} (l k : list A) : l ≡ₚ k → l = [] ↔ k = [].
Proof.
  intros E. split; intros ->; [symmetry; by apply Permutation_nil_l|by apply Permutation_nil_r].
Qed.

Lemma NoDup_snoc {A} (l : list A) x : NoDup l → x ∉ l → NoDup (l ++ [x]).
Proof.
  intros ND Hx. apply NoDup_app. split_and!; [done| |apply NoDup_singleton].
  intros y Hy Hyx. apply list_elem_of_singleton in Hyx. by subst.
Qed.

(** ** [std::unique] *)

Section std_unique.
Context {A : Type} `{EqDecision A}.

Fixpoint unique_from (last : A) (l : list A) : list A :=
  match l with
  | [] => []
  | y :: l => if decide (last = y) then unique_from last l
              else y :: unique_from y l
  end.
Definition std_unique (l : list A) : list A :=
  match l with
  | [] => []
  | x :: l => x :: unique_from x l
  end.

Lemma elem_of_unique_from x last l :
  x ∈ last :: unique_from last l ↔ x ∈ last :: l.
Proof.
  revert last. induction l as [|y l IH]; intros last; [done|]. simpl.
  case_decide as D.
  - subst y. rewrite IH, !elem_of_cons. clear IH. tauto.
  - rewrite (elem_of_cons _ x last), IH, !elem_of_cons. tauto.
Qed.
Lemma elem_of_std_unique x l : x ∈ std_unique l ↔ x ∈ l.
Proof. destruct l as [|y l]; [done|]. apply elem_of_unique_from. Qed.

Lemma unique_from_id last l : NoDup (last :: l) → unique_from last l = l.
Proof.
  revert last. induction l as [|y l IH]; intros last ND; [done|]. simpl.
  apply NoDup_cons in ND as [N1 ND]. case_decide as D; [set_solver|].
  by rewrite IH.
Qed.
Lemma std_unique_id l : NoDup l → std_unique l = l.
Proof. destruct l as [|y l]; [done|]. intros. simpl. by rewrite unique_from_id. Qed.
End std_unique.

(** ** Sorting by a string key

    [std::sort] with a comparison on a string key. *)

Section key_sort.
Context {A : Type} `{EqDecision A} (key : A → string).

Definition key_le (x y : A) : Prop := String.le (key x) (key y).

#[global] Instance key_le_dec : RelDecision key_le.
Proof. intros x y. apply _. Defined.
#[global] Instance key_le_trans : Transitive key_le.
Proof. intros x y z. unfold key_le. apply transitivity. Qed.
#[global] Instance key_le_refl : Reflexive key_le.
Proof. intros x. unfold key_le. apply reflexivity. Qed.
#[global] Instance key_le_total : Total key_le.
Proof. intros x y. apply String.le_total. Qed.

Definition key_sort (l : list A) : list A := merge_sort key_le l.

(** The key tells the elements of [l] apart. *)
Definition key_inj (l : list A) : Prop :=
  ∀ x y, x ∈ l → y ∈ l → key x = key y → x = y.

Lemma key_inj_subseteq (l k : list A) : k ⊆ l → key_inj l → key_inj k.
Proof. intros Hs Hl x y Hx Hy. apply Hl; by apply Hs. Qed.

Lemma key_le_antisymm_key x y : key_le x y → key_le y x → key x = key y.
Proof. apply (anti_symm String.le). Qed.

Lemma key_sort_perm l : key_sort l ≡ₚ l.
Proof. apply merge_sort_Permutation. Qed.
Lemma elem_of_key_sort x l : x ∈ key_sort l ↔ x ∈ l.
Proof. by rewrite key_sort_perm. Qed.
Lemma key_sort_sorted l : StronglySorted key_le (key_sort l).
Proof. apply StronglySorted_merge_sort; apply _. Qed.

(** Any sorting routine gives the same list when the key tells the
    elements apart: the model's choice of sort is immaterial. *)
Lemma sorted_perm_unique l1 l2 :
  key_inj l1 → StronglySorted key_le l1 → StronglySorted key_le l2 →
  l1 ≡ₚ l2 → l1 = l2.
Proof.
  intros Hi S1 S2 E. apply (StronglySorted_unique_strong key_le); auto.
  intros x y Hx Hy Hxy Hyx. apply Hi; [done|by rewrite E|].
  by apply key_le_antisymm_key.
Qed.
Lemma key_sort_perm_eq l1 l2 :
  key_inj l1 → l1 ≡ₚ l2 → key_sort l1 = key_sort l2.
Proof.
  intros Hi E. apply sorted_perm_unique; auto using key_sort_sorted.
  - eapply key_inj_subseteq; [|exact Hi]. intros x. by rewrite elem_of_key_sort.
  - by rewrite !key_sort_perm.
Qed.
Lemma key_sort_id l :
  key_inj l → StronglySorted key_le l → key_sort l = l.
Proof.
  intros Hi S. symmetry. apply sorted_perm_unique; auto using key_sort_sorted.
  by rewrite key_sort_perm.
Qed.

Lemma unique_from_sorted last l :
  StronglySorted key_le (last :: l) →
  StronglySorted key_le (last :: unique_from last l).
Proof.
  revert last. induction l as [|y l IH]; intros last S; [done|]. simpl.
  apply StronglySorted_inv in S as [S F]. case_decide as D.
  - subst y. by apply IH.
  - apply SSorted_cons; [by apply IH|].
    apply Forall_forall. intros z Hz. rewrite elem_of_unique_from in Hz.
    rewrite Forall_forall in F. by apply F.
Qed.
Lemma std_unique_sorted l :
  StronglySorted key_le l → StronglySorted key_le (std_unique l).
Proof. destruct l as [|y l]; [done|]. apply unique_from_sorted. Qed.

Lemma unique_from_NoDup last l :
  key_inj (last :: l) → StronglySorted key_le (last :: l) →
  NoDup (last :: unique_from last l).
Proof.
  revert last. induction l as [|y l IH]; intros last Hi S; simpl.
  { apply NoDup_singleton. }
  apply StronglySorted_inv in S as [S F]. case_decide as D.
  - subst y. apply IH; [|done]. eapply key_inj_subseteq; [|exact Hi]. set_solver.
  - apply NoDup_cons. split; [|apply IH; [|done]].
    + rewrite elem_of_unique_from. intros Hin. apply D.
      apply Hi; [set_solver..|]. apply key_le_antisymm_key.
      * rewrite Forall_forall in F. apply F. set_solver.
      * apply elem_of_cons in Hin as [->|Hin]; [done|].
        apply StronglySorted_inv in S as [_ S].
        rewrite Forall_forall in S. by apply S.
    + eapply key_inj_subseteq; [|exact Hi]. set_solver.
Qed.
Lemma std_unique_NoDup l :
  key_inj l → StronglySorted key_le l → NoDup (std_unique l).
Proof. destruct l as [|y l]; [constructor|]. apply unique_from_NoDup. Qed.
End key_sort.

#[export] Hint Resolve key_sort_sorted std_unique_sorted std_unique_NoDup : alternator.
