(* ===== verification/Uri.v ===== *)
(** The [Url] value type (src/uri.cpp, include/scylladb/alternator/uri.h): its
    printer, its two comparison operators, and the sorting and de-duplication
    of node lists that the rest of the library builds on them.

    [operator==] compares the five fields, [operator<] the printed text.  The
    two agree on node URLs whose hosts carry no brackets ([node_url]); the last
    section shows where they part. *)
From S2P Require Import Prelude.

Record Url := mkUrl {
  url_scheme : string;
  url_host : string;
  url_port : N;
  url_path : string;
  url_query : string;
}.

#[global] Instance Url_eq_dec : EqDecision Url.
Proof. solve_decision. Defined.

(** [Url()], and the three-argument constructor. *)
Definition Url_default : Url := mkUrl "" "" 0 "" "".
Definition Url_make (scheme host : string) (port : N) : Url :=
  mkUrl scheme host port "" "".
Definition FromHostPort (scheme host : string) (port : N) : Url :=
  Url_make scheme host port.

Definition FormatHostForAuthority (host : string) : string :=
  if string_has ":" host &&
     (bool_decide (host = "") || negb (string_front_is "[" host))
  then "[" +:+ host +:+ "]"
  else host.

Definition Url_Empty (u : Url) : bool := bool_decide (url_host u = "").

Definition Authority (u : Url) : string :=
  FormatHostForAuthority (url_host u) +:+
  (if bool_decide (url_port u = 0%N) then "" else ":" +:+ pretty (url_port u)).

Definition Url_ToString (u : Url) : string :=
  if bool_decide (url_host u = "") then ""
  else url_scheme u +:+ "://" +:+ Authority u +:+
       (if bool_decide (url_path u = "") then "" else url_path u) +:+
       (if bool_decide (url_query u = "") then "" else "?" +:+ url_query u).

Definition WithPathAndQuery (u : Url) (path query : string) : Url :=
  mkUrl (url_scheme u) (url_host u) (url_port u) path query.

Definition Url_eqb (l r : Url) : bool :=
  bool_decide (url_scheme l = url_scheme r) &&
  bool_decide (url_host l = url_host r) &&
  bool_decide (url_port l = url_port r) &&
  bool_decide (url_path l = url_path r) &&
  bool_decide (url_query l = url_query r).

Definition Url_neqb (l r : Url) : bool := negb (Url_eqb l r).

Definition Url_ltb (l r : Url) : bool :=
  String.ltb (Url_ToString l) (Url_ToString r).

(** [std::sort] of URLs: ascending for [operator<]. *)
Definition Url_le (l r : Url) : Prop := key_le Url_ToString l r.
Definition sort_urls (l : list Url) : list Url := key_sort Url_ToString l.

(** src/query_plan.cpp declares this helper; every node list goes through it. *)
Definition SortAndDedupeNodes (nodes : list Url) : list Url :=
  std_unique (sort_urls nodes).

(** ** Agreement of the operators with the model's equality and order *)

Lemma Url_eqb_eq l r : Url_eqb l r = true ↔ l = r.
Proof.
  unfold Url_eqb. rewrite !andb_true_iff, !bool_decide_eq_true.
  destruct l, r; simpl; naive_solver.
Qed.

Lemma Url_le_not_lt l r : Url_le l r ↔ Url_ltb r l = false.
Proof.
  unfold Url_le, key_le, String.le, Url_ltb, String.leb, String.ltb.
  rewrite (String.compare_antisym (Url_ToString r)).
  by destruct (String.compare (Url_ToString l) (Url_ToString r)).
Qed.
Lemma Url_ltb_trans u v w : Url_ltb u v = true → Url_ltb v w = true → Url_ltb u w = true.
Proof.
  intros Huv Hvw. destruct (Url_ltb u w) eqn:E; [done|]. apply Url_le_not_lt in E.
  assert (Url_ltb v w = false) as Hn; [|congruence]. apply Url_le_not_lt.
  destruct (key_le_total Url_ToString u v) as [Hle|Hle]; [exact (key_le_trans _ _ _ _ E Hle)|].
  apply Url_le_not_lt in Hle. congruence.
Qed.

(** A host with a colon prints the same with its brackets and without. *)
Lemma bracketed_prints scheme host port :
  string_has ":" host = true → string_front_is "[" host = false → host ≠ "" →
  Url_ToString (Url_make scheme ("[" +:+ host +:+ "]") port) = Url_ToString (Url_make scheme host port).
Proof.
  intros Hc Hf Hne. unfold Url_ToString, Authority, FormatHostForAuthority. simpl.
  rewrite Hc, Hf, (bool_decide_eq_false_2 (host = "")) by done. simpl. by rewrite andb_false_r.
Qed.

(** ** Printed node URLs are distinct for distinct nodes *)

Definition plain_host (h : string) : Prop :=
  h ≠ "" ∧ string_has "[" h = false ∧ string_has "]" h = false.

(** A URL as [AlternatorLiveNodes] builds them: no path, no query, a scheme
    without a colon and a host without brackets. *)
Definition node_url (u : Url) : Prop :=
  string_has ":" (url_scheme u) = false ∧ plain_host (url_host u) ∧
  url_path u = "" ∧ url_query u = "".

#[global] Instance node_url_dec u : Decision (node_url u).
Proof. unfold node_url, plain_host. apply _. Defined.

Lemma node_ToString u :
  node_url u → Url_ToString u = url_scheme u +:+ "://" +:+ Authority u.
Proof.
  intros (_ & [Hh _] & Ep & Eq). unfold Url_ToString. rewrite Ep, Eq.
  rewrite bool_decide_eq_false_2 by done. by rewrite !append_empty_r.
Qed.

Lemma port_suffix_inj p q :
  (if bool_decide (p = 0%N) then "" else ":" +:+ pretty p) =
  (if bool_decide (q = 0%N) then "" else ":" +:+ pretty q) → p = q.
Proof.
  repeat case_bool_decide; subst; try done.
  intros E. change (String ":" (pretty p) = String ":" (pretty q)) in E.
  simplify_eq. by apply (inj pretty).
Qed.

Lemma port_suffix_starts p c :
  c = ":"%char →
  starts_or_empty c (if bool_decide (p = 0%N) then "" else ":" +:+ pretty p).
Proof. intros ->. case_bool_decide; [by left|by right]. Qed.

Lemma FormatHost_plain h :
  plain_host h →
  FormatHostForAuthority h =
    if string_has ":" h then "[" +:+ h +:+ "]" else h.
Proof.
  intros (Hn & Hl & _). unfold FormatHostForAuthority.
  destruct h as [|c h]; [done|]. simpl string_front_is.
  simpl in Hl. apply orb_false_iff in Hl as [-> _].
  by rewrite orb_true_r, andb_true_r.
Qed.

Lemma Authority_inj u v :
  plain_host (url_host u) → plain_host (url_host v) →
  Authority u = Authority v → url_host u = url_host v ∧ url_port u = url_port v.
Proof.
  intros Hu Hv. unfold Authority. rewrite !FormatHost_plain by done.
  destruct (string_has ":" (url_host u)) eqn:Cu, (string_has ":" (url_host v)) eqn:Cv.
  - rewrite !append_assoc. intros E%(inj (String.append "[")).
    apply (append_split_inj "]") in E as [? E];
      [|apply Hu|apply Hv|by right|by right].
    apply (inj (String.append "]")) in E. by apply port_suffix_inj in E.
  - intros E. exfalso. destruct Hv as (Hn & Hl & _).
    destruct (url_host v) as [|c h]; [done|]. simpl in Hl.
    rewrite append_assoc in E. simplify_eq.
  - intros E. exfalso. destruct Hu as (Hn & Hl & _).
    destruct (url_host u) as [|c h]; [done|]. simpl in Hl.
    rewrite append_assoc in E. simplify_eq.
  - intros E. apply (append_split_inj ":") in E as [? E];
      [|done|done|by apply port_suffix_starts|by apply port_suffix_starts].
    by apply port_suffix_inj in E.
Qed.

Lemma ToString_inj u v :
  node_url u → node_url v → Url_ToString u = Url_ToString v → u = v.
Proof.
  intros Hu Hv. rewrite !node_ToString by done.
  destruct Hu as (Su & Pu & Qu & Ru), Hv as (Sv & Pv & Qv & Rv). intros E.
  apply (append_split_inj ":") in E as [Es E]; [|done|done|by right|by right].
  apply (inj (String.append "://")) in E.
  apply Authority_inj in E as [Eh Ep]; [|done|done].
  destruct u, v; simpl in *; by subst.
Qed.

Lemma key_inj_nodes l : Forall node_url l → key_inj Url_ToString l.
Proof.
  rewrite Forall_forall. intros H x y Hx Hy. apply ToString_inj; by apply H.
Qed.

(** ** Sorted, duplicate-free node lists *)

Definition sorted_nodes (l : list Url) : Prop := StronglySorted Url_le l.

Lemma elem_of_sort_urls x l : x ∈ sort_urls l ↔ x ∈ l.
Proof. apply elem_of_key_sort. Qed.
Lemma elem_of_SortAndDedupe x l : x ∈ SortAndDedupeNodes l ↔ x ∈ l.
Proof. unfold SortAndDedupeNodes. by rewrite elem_of_std_unique, elem_of_sort_urls. Qed.
Lemma sort_urls_sorted l : sorted_nodes (sort_urls l).
Proof. apply key_sort_sorted. Qed.
Lemma SortAndDedupe_sorted l : sorted_nodes (SortAndDedupeNodes l).
Proof. apply std_unique_sorted, key_sort_sorted. Qed.
Lemma SortAndDedupe_NoDup l :
  key_inj Url_ToString l → NoDup (SortAndDedupeNodes l).
Proof.
  intros Hi. apply (std_unique_NoDup Url_ToString); [|apply sort_urls_sorted].
  eapply key_inj_subseteq; [|exact Hi]. intros x. by rewrite elem_of_sort_urls.
Qed.
Lemma SortAndDedupe_node_url l :
  Forall node_url l → Forall node_url (SortAndDedupeNodes l).
Proof.
  rewrite !Forall_forall. intros H x Hx. apply H. by rewrite <-elem_of_SortAndDedupe.
Qed.
Lemma SortAndDedupe_nil l : SortAndDedupeNodes l = [] ↔ l = [].
Proof.
  split; [|by intros ->]. intros E. destruct l as [|x l]; [done|].
  assert (x ∈ SortAndDedupeNodes (x :: l)) as H by (rewrite elem_of_SortAndDedupe; set_solver).
  rewrite E in H. set_solver.
Qed.

(** Sorted duplicate-free lists with the same members are equal. *)
Lemma sorted_nodes_ext l1 l2 :
  key_inj Url_ToString l1 → NoDup l1 → NoDup l2 →
  sorted_nodes l1 → sorted_nodes l2 → (∀ x, x ∈ l1 ↔ x ∈ l2) → l1 = l2.
Proof.
  intros Hi N1 N2 S1 S2 E. apply (sorted_perm_unique Url_ToString); auto.
  by apply NoDup_Permutation.
Qed.

Lemma SortAndDedupe_set_eq l1 l2 :
  Forall node_url l1 → (∀ x, x ∈ l1 ↔ x ∈ l2) →
  SortAndDedupeNodes l1 = SortAndDedupeNodes l2.
Proof.
  intros H1 E.
  assert (Forall node_url l2) as H2
    by (rewrite Forall_forall in *; intros; apply H1; by apply E).
  apply sorted_nodes_ext;
    auto using SortAndDedupe_sorted, SortAndDedupe_NoDup, key_inj_nodes, SortAndDedupe_node_url.
  intros x. by rewrite !elem_of_SortAndDedupe.
Qed.

(** The helper is the identity on lists already in its normal form. *)
Lemma SortAndDedupe_id l :
  key_inj Url_ToString l → NoDup l → sorted_nodes l → SortAndDedupeNodes l = l.
Proof.
  intros Hi ND S. unfold SortAndDedupeNodes, sort_urls.
  rewrite key_sort_id by done. by apply std_unique_id.
Qed.

#[export] Hint Resolve key_inj_nodes SortAndDedupe_sorted SortAndDedupe_NoDup
  SortAndDedupe_node_url sort_urls_sorted : alternator.

(** ** Maps keyed by URLs

    [std::map<Url, A>] identifies and orders its keys by the printed URL: a
    map from the printed URL to the stored key and value. *)

Section url_maps.
Context {A : Type}.
Implicit Types (m : gmap string (Url * A)) (e : Url * A).

(** Iteration, in ascending order of the printed URL. *)
Definition url_entries m : list (Url * A) := map snd (key_sort fst (map_to_list m)).

Definition url_keys_ok m : Prop := map_Forall (λ k e, k = Url_ToString e.1) m.

Lemma elem_of_url_entries m e :
  url_keys_ok m → e ∈ url_entries m ↔ m !! Url_ToString e.1 = Some e.
Proof.
  intros Hm. unfold url_entries. rewrite list_elem_of_fmap. split.
  - intros ([k e'] & -> & Hin). rewrite elem_of_key_sort, elem_of_map_to_list in Hin.
    simpl. by rewrite <-(Hm _ _ Hin).
  - intros Hl. exists (Url_ToString e.1, e). split; [done|].
    by rewrite elem_of_key_sort, elem_of_map_to_list.
Qed.
Lemma elem_of_url_keys m u :
  url_keys_ok m → u ∈ map fst (url_entries m) ↔ ∃ a, m !! Url_ToString u = Some (u, a).
Proof.
  intros Hm. rewrite list_elem_of_fmap. split.
  - intros ([v a] & -> & Hin). rewrite elem_of_url_entries in Hin by done. by exists a.
  - intros (a & Hl). exists (u, a). by rewrite elem_of_url_entries.
Qed.

Lemma url_entries_keys m :
  url_keys_ok m →
  map Url_ToString (map fst (url_entries m)) = map fst (key_sort fst (map_to_list m)).
Proof.
  intros Hm. unfold url_entries. rewrite !map_map.
  apply map_ext_in. intros [k e] Hin. simpl.
  apply list_elem_of_In in Hin. rewrite elem_of_key_sort, elem_of_map_to_list in Hin.
  by rewrite (Hm _ _ Hin).
Qed.
Lemma url_entries_NoDup m : url_keys_ok m → NoDup (map fst (url_entries m)).
Proof.
  intros Hm. apply (NoDup_fmap_1 Url_ToString).
  change (NoDup (map Url_ToString (map fst (url_entries m)))).
  rewrite url_entries_keys by done.
  change (NoDup ((key_sort fst (map_to_list m)).*1)).
  rewrite key_sort_perm. apply NoDup_fst_map_to_list.
Qed.
Lemma url_entries_key_inj m : url_keys_ok m → key_inj Url_ToString (map fst (url_entries m)).
Proof.
  intros Hm x y Hx Hy E. rewrite elem_of_url_keys in Hx, Hy by done.
  destruct Hx as [a Hx], Hy as [b Hy]. congruence.
Qed.
End url_maps.

#[export] Hint Resolve url_entries_NoDup url_entries_key_inj : alternator.
