(* ===== verification/GoRandom.v ===== *)
(** The pseudo-random generator behind seeded query plans
    (src/go_random.cpp, include/scylladb/alternator/detail/go_random.h): Go's
    additive lagged Fibonacci source and the rejection sampling of [Int31n].

    The ring buffer is proved to refine a FIFO queue that computes
    [x(n) = x(n-607) + x(n-273) mod 2^64]; the refinement carries the proof
    that the rejection loop of [Int31n] always ends, whatever the state. *)
From S2P Require Import Prelude.

Definition rng_len : Z := 607.
Definition rng_tap : Z := 273.
Definition int32_max : Z := 2 ^ 31 - 1.
Definition rng_mask : Z := 2 ^ 63 - 1.

Definition rng_cooked : list Z := [
  -4181792142133755926; -4576982950128230565; 1395769623340756751; 5333664234075297259;
  -6347679516498800754; 9033628115061424579; 7143218595135194537; 4812947590706362721;
  7937252194349799378; 5307299880338848416; 8209348851763925077; -7107630437535961764;
  4593015457530856296; 8140875735541888011; -5903942795589686782; -603556388664454774;
  -7496297993371156308; 113108499721038619; 4569519971459345583; -4160538177779461077;
  -6835753265595711384; -6507240692498089696; 6559392774825876886; 7650093201692370310;
  7684323884043752161; -8965504200858744418; -2629915517445760644; 271327514973697897;
  -6433985589514657524; 1065192797246149621; 3344507881999356393; -4763574095074709175;
  7465081662728599889; 1014950805555097187; -4773931307508785033; -5742262670416273165;
  2418672789110888383; 5796562887576294778; 4484266064449540171; 3738982361971787048;
  -4699774852342421385; 10530508058128498; -589538253572429690; -6598062107225984180;
  8660405965245884302; 10162832508971942; -2682657355892958417; 7031802312784620857;
  6240911277345944669; 831864355460801054; -1218937899312622917; 2116287251661052151;
  2202309800992166967; 9161020366945053561; 4069299552407763864; 4936383537992622449;
  457351505131524928; -8881176990926596454; -6375600354038175299; -7155351920868399290;
  4368649989588021065; 887231587095185257; -3659780529968199312; -2407146836602825512;
  5616972787034086048; -751562733459939242; 1686575021641186857; -5177887698780513806;
  -4979215821652996885; -1375154703071198421; 5632136521049761902; -8390088894796940536;
  -193645528485698615; -5979788902190688516; -4907000935050298721; -285522056888777828;
  -2776431630044341707; 1679342092332374735; 6050638460742422078; -2229851317345194226;
  -1582494184340482199; 5881353426285907985; 812786550756860885; 4541845584483343330;
  -6497901820577766722; 4980675660146853729; -4012602956251539747; -329088717864244987;
  -2896929232104691526; 1495812843684243920; -2153620458055647789; 7370257291860230865;
  -2466442761497833547; 4706794511633873654; -1398851569026877145; 8549875090542453214;
  -9189721207376179652; -7894453601103453165; 7297902601803624459; 1011190183918857495;
  -6985347000036920864; 5147159997473910359; -8326859945294252826; 2659470849286379941;
  6097729358393448602; -7491646050550022124; -5117116194870963097; -896216826133240300;
  -745860416168701406; 5803876044675762232; -787954255994554146; -3234519180203704564;
  -4507534739750823898; -1657200065590290694; 505808562678895611; -4153273856159712438;
  -8381261370078904295; 572156825025677802; 1791881013492340891; 3393267094866038768;
  -5444650186382539299; 2352769483186201278; -7930912453007408350; -325464993179687389;
  -3441562999710612272; -6489413242825283295; 5092019688680754699; -227247482082248967;
  4234737173186232084; 5027558287275472836; 4635198586344772304; -536033143587636457;
  5907508150730407386; -8438615781380831356; 972392927514829904; -3801314342046600696;
  -4064951393885491917; -174840358296132583; 2407211146698877100; -1640089820333676239;
  3940796514530962282; -5882197405809569433; 3095313889586102949; -1818050141166537098;
  5832080132947175283; 7890064875145919662; 8184139210799583195; -8073512175445549678;
  -7758774793014564506; -4581724029666783935; 3516491885471466898; -8267083515063118116;
  6657089965014657519; 5220884358887979358; 1796677326474620641; 5340761970648932916;
  1147977171614181568; 5066037465548252321; 2574765911837859848; 1085848279845204775;
  -5873264506986385449; 6116438694366558490; 2107701075971293812; -7420077970933506541;
  2469478054175558874; -1855128755834809824; -5431463669011098282; -9038325065738319171;
  -6966276280341336160; 7217693971077460129; -8314322083775271549; 7196649268545224266;
  -3585711691453906209; -5267827091426810625; 8057528650917418961; -5084103596553648165;
  -2601445448341207749; -7850010900052094367; 6527366231383600011; 3507654575162700890;
  9202058512774729859; 1954818376891585542; -2582991129724600103; 8299563319178235687;
  -5321504681635821435; 7046310742295574065; -2376176645520785576; -7650733936335907755;
  8850422670118399721; 3631909142291992901; 5158881091950831288; -6340413719511654215;
  4763258931815816403; 6280052734341785344; -4979582628649810958; 2043464728020827976;
  -2678071570832690343; 4562580375758598164; 5495451168795427352; -7485059175264624713;
  553004618757816492; 6895160632757959823; -989748114590090637; 7139506338801360852;
  -672480814466784139; 5535668688139305547; 2430933853350256242; -3821430778991574732;
  -1063731997747047009; -3065878205254005442; 7632066283658143750; 6308328381617103346;
  3681878764086140361; 3289686137190109749; 6587997200611086848; 244714774258135476;
  -5143583659437639708; 8090302575944624335; 2945117363431356361; -8359047641006034763;
  3009039260312620700; -793344576772241777; 401084700045993341; -1968749590416080887;
  4707864159563588614; -3583123505891281857; -3240864324164777915; -5908273794572565703;
  -3719524458082857382; -5281400669679581926; 8118566580304798074; 3839261274019871296;
  7062410411742090847; -8481991033874568140; 6027994129690250817; -6725542042704711878;
  -2971981702428546974; -7854441788951256975; 8809096399316380241; 6492004350391900708;
  2462145737463489636; -8818543617934476634; -5070345602623085213; -8961586321599299868;
  -3758656652254704451; -8630661632476012791; 6764129236657751224; -709716318315418359;
  -3403028373052861600; -8838073512170985897; -3999237033416576341; -2920240395515973663;
  -2073249475545404416; 368107899140673753; -6108185202296464250; -6307735683270494757;
  4782583894627718279; 6718292300699989587; 8387085186914375220; 3387513132024756289;
  4654329375432538231; -292704475491394206; -3848998599978456535; 7623042350483453954;
  7725442901813263321; 9186225467561587250; -5132344747257272453; -6865740430362196008;
  2530936820058611833; 1636551876240043639; -3658707362519810009; 1452244145334316253;
  -7161729655835084979; -7943791770359481772; 9108481583171221009; -3200093350120725999;
  5007630032676973346; 2153168792952589781; 6720334534964750538; -3181825545719981703;
  3433922409283786309; 2285479922797300912; 3110614940896576130; -2856812446131932915;
  -3804580617188639299; 7163298419643543757; 4891138053923696990; 580618510277907015;
  1684034065251686769; 4429514767357295841; -8893025458299325803; -8103734041042601133;
  7177515271653460134; 4589042248470800257; -1530083407795771245; 143607045258444228;
  246994305896273627; -8356954712051676521; 6473547110565816071; 3092379936208876896;
  2058427839513754051; -4089587328327907870; 8785882556301281247; -3074039370013608197;
  -637529855400303673; 6137678347805511274; -7152924852417805802; 5708223427705576541;
  -3223714144396531304; 4358391411789012426; 325123008708389849; 6837621693887290924;
  4843721905315627004; -3212720814705499393; -3825019837890901156; 4602025990114250980;
  1044646352569048800; 9106614159853161675; -8394115921626182539; -4304087667751778808;
  2681532557646850893; 3681559472488511871; -3915372517896561773; -2889241648411946534;
  -6564663803938238204; -8060058171802589521; 581945337509520675; 3648778920718647903;
  -4799698790548231394; -7602572252857820065; 220828013409515943; -1072987336855386047;
  4287360518296753003; -4633371852008891965; 5513660857261085186; -2258542936462001533;
  -8744380348503999773; 8746140185685648781; 228500091334420247; 1356187007457302238;
  3019253992034194581; 3152601605678500003; -8793219284148773595; 5559581553696971176;
  4916432985369275664; -8559797105120221417; -5802598197927043732; 2868348622579915573;
  -7224052902810357288; -5894682518218493085; 2587672709781371173; -7706116723325376475;
  3092343956317362483; -5561119517847711700; 972445599196498113; -1558506600978816441;
  1708913533482282562; -2305554874185907314; -6005743014309462908; -6653329009633068701;
  -483583197311151195; 2488075924621352812; -4529369641467339140; -4663743555056261452;
  2997203966153298104; 1282559373026354493; 240113143146674385; 8665713329246516443;
  628141331766346752; -4651421219668005332; -7750560848702540400; 7596648026010355826;
  -3132152619100351065; 7834161864828164065; 7103445518877254909; 4390861237357459201;
  -4780718172614204074; -319889632007444440; 622261699494173647; -3186110786557562560;
  -8718967088789066690; -1948156510637662747; -8212195255998774408; -7028621931231314745;
  2623071828615234808; -4066058308780939700; -5484966924888173764; -6683604512778046238;
  -6756087640505506466; 5256026990536851868; 7841086888628396109; 6640857538655893162;
  -8021284697816458310; -7109857044414059830; -1689021141511844405; -4298087301956291063;
  -4077748265377282003; -998231156719803476; 2719520354384050532; 9132346697815513771;
  4332154495710163773; -2085582442760428892; 6994721091344268833; -2556143461985726874;
  -8567931991128098309; 59934747298466858; -3098398008776739403; -265597256199410390;
  2332206071942466437; -7522315324568406181; 3154897383618636503; -7585605855467168281;
  -6762850759087199275; 197309393502684135; -8579694182469508493; 2543179307861934850;
  4350769010207485119; -4468719947444108136; -7207776534213261296; -1224312577878317200;
  4287946071480840813; 8362686366770308971; 6486469209321732151; -5605644191012979782;
  -1669018511020473564; 4450022655153542367; -7618176296641240059; -3896357471549267421;
  -4596796223304447488; -6531150016257070659; -8982326463137525940; -4125325062227681798;
  -1306489741394045544; -8338554946557245229; 5329160409530630596; 7790979528857726136;
  4955070238059373407; -4304834761432101506; -6215295852904371179; 3007769226071157901;
  -6753025801236972788; 8928702772696731736; 7856187920214445904; -4748497451462800923;
  7900176660600710914; -7082800908938549136; -6797926979589575837; -6737316883512927978;
  4186670094382025798; 1883939007446035042; -414705992779907823; 3734134241178479257;
  4065968871360089196; 6953124200385847784; -7917685222115876751; -7585632937840318161;
  -5567246375906782599; -5256612402221608788; 3106378204088556331; -2894472214076325998;
  4565385105440252958; 1979884289539493806; -6891578849933910383; 3783206694208922581;
  8464961209802336085; 2843963751609577687; 3030678195484896323; -4429654462759003204;
  4459239494808162889; 402587895800087237; 8057891408711167515; 4541888170938985079;
  1042662272908816815; -3666068979732206850; 2647678726283249984; 2144477441549833761;
  -3417019821499388721; -2105601033380872185; 5916597177708541638; -8760774321402454447;
  8833658097025758785; 5970273481425315300; 563813119381731307; -6455022486202078793;
  1598828206250873866; -4016978389451217698; -2988328551145513985; -6071154634840136312;
  8469693267274066490; 125672920241807416; -3912292412830714870; -2559617104544284221;
  -486523741806024092; -4735332261862713930; 5923302823487327109; -9082480245771672572;
  -1808429243461201518; 7990420780896957397; 4317817392807076702; 3625184369705367340;
  -6482649271566653105; -3480272027152017464; -3225473396345736649; -368878695502291645;
  -3981164001421868007; -8522033136963788610; 7609280429197514109; 3020985755112334161;
  -2572049329799262942; 2635195723621160615; 5144520864246028816; -8188285521126945980;
  1567242097116389047; 8172389260191636581; -2885551685425483535; -7060359469858316883;
  -6480181133964513127; -7317004403633452381; 6011544915663598137; 5932255307352610768;
  2241128460406315459; -8327867140638080220; 3094483003111372717; 4583857460292963101;
  9079887171656594975; -384082854924064405; -3460631649611717935; 4225072055348026230;
  -7385151438465742745; 3801620336801580414; -399845416774701952; -7446754431269675473;
  7899055018877642622; 5421679761463003041; 5521102963086275121; -4975092593295409910;
  8735487530905098534; -7462844945281082830; -2080886987197029914; -1000715163927557685;
  -4253840471931071485; -5828896094657903328; 6424174453260338141; 359248545074932887;
  -5949720754023045210; -2426265837057637212; 3030918217665093212; -9077771202237461772;
  -3186796180789149575; 740416251634527158; -2142944401404840226; 6951781370868335478;
  399922722363687927; -8928469722407522623; -1378421100515597285; -8343051178220066766;
  -3030716356046100229; -8811767350470065420; 9026808440365124461; 6440783557497587732;
  4615674634722404292; 539897290441580544; 2096238225866883852; 8751955639408182687;
  -7316147128802486205; 7381039757301768559; 6157238513393239656; -1473377804940618233;
  8629571604380892756; 5280433031239081479; 7101611890139813254; 2479018537985767835;
  7169176924412769570; -1281305539061572506; -7865612307799218120; 2278447439451174845;
  3625338785743880657; 6477479539006708521; 8976185375579272206; -3712000482142939688;
  1326024180520890843; 7537449876596048829; 5464680203499696154; 3189671183162196045;
  6346751753565857109; -8982212049534145501; -6127578587196093755; -245039190118465649;
  -6320577374581628592; 7208698530190629697; 7276901792339343736; -7490986807540332668;
  4133292154170828382; 2918308698224194548; -7703910638917631350; -3929437324238184044;
  -4300543082831323144; -6344160503358350167; 5896236396443472108; -758328221503023383;
  -1894351639983151068; -307900319840287220; -6278469401177312761; -2171292963361310674;
  8382142935188824023; 9103922860780351547; 4152330101494654406].

(** One step of the seeding generator, in 32-bit signed arithmetic
    (Schrage's decomposition). *)
Definition SeedRand (x : Z) : Z :=
  let a := 48271 in
  let q := 44488 in
  let r := 3399 in
  let hi := Z.quot x q in
  let lo := Z.rem x q in
  let x := i32 (i32 (a * lo) - i32 (r * hi)) in
  if x <? 0 then i32 (x + int32_max) else x.

Record GoRandom := mkGoRandom {
  tap_ : Z;
  feed_ : Z;
  vec_ : list Z;
}.

(** The body of the seeding loop of [GoRandom::Seed] for index [i], run for
    the remaining [k] iterations. *)
Fixpoint seed_loop (k : nat) (i x : Z) (vec : list Z) : list Z :=
  match k with
  | O => vec
  | S k =>
      let x := SeedRand x in
      if 0 <=? i then
        let u := i64 (Z.shiftl x 40) in
        let x := SeedRand x in
        let u := Z.lxor u (Z.shiftl x 20) in
        let x := SeedRand x in
        let u := Z.lxor u x in
        let u := Z.lxor u (rng_cooked !!! Z.to_nat i) in
        seed_loop k (i + 1) x (<[Z.to_nat i := u]> vec)
      else seed_loop k (i + 1) x vec
  end.

(** The reduction of the 64-bit seed to the 32-bit generator's domain. *)
Definition seed_start (seed : Z) : Z :=
  let seed := Z.rem seed int32_max in
  let seed := if seed <? 0 then seed + int32_max else seed in
  if seed =? 0 then 89482311 else seed.

Definition Seed (seed : Z) : GoRandom :=
  {| tap_ := 0;
     feed_ := rng_len - rng_tap;
     vec_ := seed_loop 627 (-20) (seed_start seed) (replicate 607 0) |}.

(** [GoRandom(seed)]. *)
Definition GoRandom_make (seed : Z) : GoRandom := Seed seed.

(** The index decrement shared by [tap_] and [feed_]. *)
Definition ring_dec (i : Z) : Z := let i := i - 1 in if i <? 0 then i + rng_len else i.

(** The sum is a signed 64-bit addition in the source; it is modelled with
    the two's-complement wrap of Go's generator. *)
Definition Uint64 (r : GoRandom) : Z * GoRandom :=
  let tap := ring_dec (tap_ r) in
  let feed := ring_dec (feed_ r) in
  let x := i64 (vec_ r !!! Z.to_nat feed + vec_ r !!! Z.to_nat tap) in
  (u64 x, mkGoRandom tap feed (<[Z.to_nat feed := x]> (vec_ r))).

Definition Int63 (r : GoRandom) : Z * GoRandom :=
  let '(x, r) := Uint64 r in (Z.land x rng_mask, r).

Definition Int31 (r : GoRandom) : Z * GoRandom :=
  let '(x, r) := Int63 r in (Z.shiftr x 32, r).

(** [v = Int31(); while (v > max) v = Int31();] with the number of draws
    bounded by [fuel]; [None] when the bound is hit. *)
Fixpoint int31n_loop (fuel : nat) (max : Z) (r : GoRandom) : option (Z * GoRandom) :=
  match fuel with
  | O => None
  | S fuel =>
      let '(v, r) := Int31 r in
      if v >? max then int31n_loop fuel max r else Some (v, r)
  end.

(** 64 turns of the ring: [int31n_loop_total] shows the loop ends before. *)
Definition int31n_fuel : nat := Z.to_nat (64 * rng_len).

Definition int31n_max (n : Z) : Z := i32 (u32 (2 ^ 31 - 1 - 2 ^ 31 mod n)).

Definition Int31n (r : GoRandom) (n : Z) : result (Z * GoRandom) :=
  if n <=? 0 then Throw (InvalidArgument "GoRandom::Int31n requires n > 0")
  else if Z.land n (n - 1) =? 0 then
    let '(v, r) := Int31 r in Ok (Z.land v (n - 1), r)
  else
    match int31n_loop int31n_fuel (int31n_max n) r with
    | Some (v, r) => Ok (Z.rem v n, r)
    | None => Throw out_of_fuel
    end.

(** ** The seeding generator is the minimal standard generator *)

Lemma schrage_bounds x :
  0 < x < int32_max →
  0 <= 48271 * Z.rem x 44488 < 2 ^ 31 ∧ 0 <= 3399 * Z.quot x 44488 < 2 ^ 31.
Proof.
  unfold int32_max. intros Hx.
  pose proof (Z.rem_bound_pos x 44488). pose proof (Z.quot_rem' x 44488). lia.
Qed.

Lemma SeedRand_mod x :
  0 < x < int32_max → SeedRand x = (48271 * x) mod int32_max.
Proof.
  intros Hx. pose proof (schrage_bounds x Hx) as [B1 B2].
  unfold int32_max in Hx. pose proof (Z.quot_rem' x 44488) as E.
  pose proof (Z.rem_bound_pos x 44488) as Hr.
  unfold SeedRand. cbv zeta.
  rewrite (i32_small (48271 * _)), (i32_small (3399 * _)) by lia.
  set (d := 48271 * Z.rem x 44488 - 3399 * Z.quot x 44488) in *.
  rewrite (i32_small d) by lia. unfold int32_max.
  destruct (Z.ltb_spec d 0) as [Hd|Hd].
  - rewrite i32_small by lia.
    apply (Z.mod_unique_pos _ _ (Z.quot x 44488 - 1)); lia.
  - apply (Z.mod_unique_pos _ _ (Z.quot x 44488)); lia.
Qed.

Lemma SeedRand_range x : 0 < x < int32_max → 0 < SeedRand x < int32_max.
Proof.
  intros Hx. rewrite SeedRand_mod by done.
  pose proof (Z.mod_pos_bound (48271 * x) int32_max ltac:(done)) as B.
  destruct (decide ((48271 * x) mod int32_max = 0)) as [E|]; [|lia].
  exfalso. apply Z.mod_divide in E; [|done].
  apply Z.gauss in E; [|reflexivity].
  apply Z.divide_pos_le in E; lia.
Qed.

Lemma seed_start_range seed : 0 < seed_start seed < int32_max.
Proof.
  unfold seed_start. pose proof (Z.rem_bound_abs seed int32_max ltac:(done)).
  unfold int32_max in *. repeat case_match; lia.
Qed.

Lemma SeedRand_iter seed k :
  let x := Nat.iter k SeedRand (seed_start seed) in
  0 < x < int32_max ∧ x = (48271 ^ Z.of_nat k * seed_start seed) mod int32_max.
Proof.
  cbv zeta. pose proof (seed_start_range seed) as Hs. induction k as [|k [Hx E]].
  - cbn. rewrite Z.mul_1_l, Z.mod_small by lia. lia.
  - rewrite Nat.iter_succ. split; [by apply SeedRand_range|]. rewrite SeedRand_mod by done. rewrite E.
    rewrite Zmult_mod_idemp_r, Nat2Z.inj_succ, Z.pow_succ_r by lia. f_equal. lia.
Qed.

(** ** The ring buffer invariant *)

Record wf_rng (r : GoRandom) : Prop := {
  wf_vec_len : length (vec_ r) = 607%nat;
  wf_feed : 0 <= feed_ r < 607;
  wf_tap : tap_ r = (feed_ r - 334) mod 607;
}.

Lemma length_seed_loop k i x vec : length (seed_loop k i x vec) = length vec.
Proof.
  revert i x vec. induction k as [|k IH]; intros i x vec; [done|]. cbn -[Z.shiftl rng_cooked].
  case_match; rewrite IH, ?length_insert; done.
Qed.

Lemma wf_Seed seed : wf_rng (Seed seed).
Proof.
  constructor; [|done|done].
  change (vec_ (Seed seed)) with (seed_loop 627 (-20) (seed_start seed) (replicate 607 0)).
  by rewrite length_seed_loop, length_replicate.
Qed.

Lemma ring_dec_mod i : 0 <= i < 607 → ring_dec i = (i - 1) mod 607.
Proof.
  unfold ring_dec, rng_len. intros H. cbv zeta.
  destruct (Z.ltb_spec (i - 1) 0) as [L|L].
  - apply (Z.mod_unique_pos _ _ (-1)); lia.
  - symmetry. apply Z.mod_small. lia.
Qed.

Lemma wf_Uint64 r : wf_rng r → wf_rng (snd (Uint64 r)).
Proof.
  intros [L F T]. pose proof (Z.mod_pos_bound (feed_ r - 334) 607).
  pose proof (Z.mod_pos_bound (feed_ r - 1) 607).
  constructor; simpl.
  - by rewrite length_insert.
  - rewrite ring_dec_mod; lia.
  - rewrite !ring_dec_mod by lia. rewrite T.
    rewrite Zminus_mod_idemp_l, Zminus_mod_idemp_l. f_equal. lia.
Qed.

(** ** Refinement: the ring buffer is a FIFO queue *)

(** The abstract generator: a queue of the last 607 outputs, oldest first. *)
Definition fifo_out (q : list Z) : Z := u64 (q !!! 0%nat + q !!! 334%nat).
Definition fifo_step (q : list Z) : list Z := drop 1 q ++ [fifo_out q].

(** What a generator state stands for: the values in the order in which they
    are going to be overwritten. *)
Definition rng_queue (r : GoRandom) : list Z :=
  (λ j : nat, u64 (vec_ r !!! Z.to_nat ((feed_ r - 1 - Z.of_nat j) mod 607))) <$> seq 0 607.

#[global] Arguments rng_queue : simpl never.

Lemma length_rng_queue r : length (rng_queue r) = 607%nat.
Proof. unfold rng_queue. by rewrite length_fmap, length_seq. Qed.

Lemma rng_queue_lookup r (j : nat) :
  (j < 607)%nat →
  rng_queue r !!! j = u64 (vec_ r !!! Z.to_nat ((feed_ r - 1 - Z.of_nat j) mod 607)).
Proof.
  intros Hj. apply list_lookup_total_correct. unfold rng_queue.
  rewrite list_lookup_fmap, lookup_seq_lt by done. done.
Qed.

Lemma u64_add a b : u64 (a + b) = u64 (u64 a + u64 b).
Proof. unfold u64. by rewrite Zplus_mod. Qed.

Lemma Uint64_out r : wf_rng r → fst (Uint64 r) = fifo_out (rng_queue r).
Proof.
  intros [L F T]. pose proof (Z.mod_pos_bound (feed_ r - 334) 607). simpl.
  unfold fifo_out. rewrite !rng_queue_lookup by lia.
  rewrite !ring_dec_mod, T by lia. rewrite u64_i64, u64_add.
  rewrite Zminus_mod_idemp_l. rewrite Z.sub_0_r. do 2 f_equal. f_equal. f_equal. f_equal. f_equal. lia.
Qed.

Lemma ring_index_ne f (j : nat) :
  0 <= f < 607 → (1 <= j < 607)%nat →
  Z.to_nat f ≠ Z.to_nat ((f - Z.of_nat j) mod 607).
Proof.
  intros Hf Hj E. pose proof (Z.mod_pos_bound (f - Z.of_nat j) 607).
  assert (f = (f - Z.of_nat j) mod 607) as E' by lia.
  rewrite Z.mod_eq in E' by lia. nia.
Qed.

Lemma Uint64_queue r : wf_rng r → rng_queue (snd (Uint64 r)) = fifo_step (rng_queue r).
Proof.
  intros W. pose proof (Uint64_out r W) as Ho. destruct W as [L F T].
  pose proof (Z.mod_pos_bound (feed_ r - 1) 607) as B.
  assert (Hfeed : feed_ (snd (Uint64 r)) = (feed_ r - 1) mod 607)
    by (simpl; by apply ring_dec_mod).
  apply (list_eq_same_length _ _ 607); [|apply length_rng_queue|].
  { unfold fifo_step. rewrite length_app, length_drop, length_rng_queue. done. }
  intros j x y Hj Hx Hy.
  apply list_lookup_total_correct in Hx, Hy. subst x y.
  rewrite rng_queue_lookup by done. rewrite Hfeed. unfold fifo_step.
  destruct (decide (j < 606)%nat) as [Hlt|Hge].
  - rewrite lookup_total_app_l by (rewrite length_drop, length_rng_queue; lia).
    rewrite lookup_total_drop, rng_queue_lookup by lia. f_equal. simpl vec_.
    rewrite ring_dec_mod by done.
    rewrite list_lookup_total_insert_ne.
    + f_equal. f_equal. rewrite <-Z.sub_add_distr, Zminus_mod_idemp_l. f_equal. lia.
    + replace ((feed_ r - 1) mod 607 - 1 - Z.of_nat j)
        with ((feed_ r - 1) mod 607 - Z.of_nat (S j)) by lia.
      apply ring_index_ne; lia.
  - assert (j = 606%nat) as -> by lia.
    rewrite list_lookup_total_middle by (rewrite length_drop, length_rng_queue; lia).
    rewrite <-Ho. cbn [Uint64 fst snd vec_]. f_equal.
    replace (((feed_ r - 1) mod 607 - 1 - Z.of_nat 606) mod 607) with (ring_dec (feed_ r)).
    + rewrite list_lookup_total_insert_eq; [done|].
      rewrite L, ring_dec_mod by done. lia.
    + rewrite ring_dec_mod by done.
      rewrite <-Z.sub_add_distr, Zminus_mod_idemp_l.
      rewrite <-(Z.mod_add (feed_ r - 1 - (1 + Z.of_nat 606)) 1) by lia. f_equal. lia.
Qed.

(** ** The rejection loop ends

    A draw is rejected when its low 63 bits are at least [2^62 + 2^32].  Call
    the distance of those bits from [2^63] the deficit: if two rejected values
    are added, their deficits add up.  So during a run of rejections every
    turn of the ring at least doubles the smallest deficit, which cannot go on
    for more than 63 turns. *)

Definition deficit (x : Z) : Z := 2 ^ 63 - x mod 2 ^ 63.
Definition rejected (x : Z) : Prop := deficit x <= 2 ^ 62 - 2 ^ 32.

Lemma deficit_pos x : 1 <= deficit x <= 2 ^ 63.
Proof. unfold deficit. pose proof (Z.mod_pos_bound x (2 ^ 63)). lia. Qed.

Lemma deficit_add a b :
  rejected a → rejected b → deficit (u64 (a + b)) = deficit a + deficit b.
Proof.
  unfold rejected, deficit. intros Ha Hb.
  pose proof (Z.mod_pos_bound a (2 ^ 63)). pose proof (Z.mod_pos_bound b (2 ^ 63)).
  assert (u64 (a + b) mod 2 ^ 63 = a mod 2 ^ 63 + b mod 2 ^ 63 - 2 ^ 63) as ->; [|lia].
  unfold u64. change (2 ^ 64) with (2 ^ 63 * 2).
  rewrite Z.rem_mul_r by lia. rewrite Z.mul_comm, Z.mod_add, Z.mod_mod by lia.
  rewrite Zplus_mod. symmetry.
  apply (Z.mod_unique_pos _ _ 1); lia.
Qed.

(** Runs of the abstract generator. *)
Fixpoint fifo_run (k : nat) (q : list Z) : list Z :=
  match k with
  | O => q
  | S k => fifo_run k (fifo_step q)
  end.
Fixpoint all_rejected (k : nat) (q : list Z) : Prop :=
  match k with
  | O => True
  | S k => rejected (fifo_out q) ∧ all_rejected k (fifo_step q)
  end.

Lemma fifo_run_add a b q : fifo_run (a + b) q = fifo_run b (fifo_run a q).
Proof. revert q. induction a as [|a IH]; intros q; simpl; auto. Qed.
Lemma all_rejected_add a b q :
  all_rejected (a + b) q ↔ all_rejected a q ∧ all_rejected b (fifo_run a q).
Proof. revert q. induction a as [|a IH]; intros q; simpl; [|rewrite IH]; tauto. Qed.
Lemma all_rejected_le a b q : (a <= b)%nat → all_rejected b q → all_rejected a q.
Proof.
  intros H. replace b with (a + (b - a))%nat by lia. rewrite all_rejected_add. tauto.
Qed.

(** During a run of rejections the new entries satisfy [B] as soon as the
    sum of two entries satisfying [A] does. *)
Lemma fifo_window (A B : Z → Prop) k q :
  (∀ a b, A a → A b → rejected (u64 (a + b)) → B (u64 (a + b))) →
  (∀ a, B a → A a) →
  length q = 607%nat → (k <= 607)%nat → Forall A q → all_rejected k q →
  ∃ new, fifo_run k q = drop k q ++ new ∧ length new = k ∧ Forall B new.
Proof.
  intros HAB HBA Lq. induction k as [|k IH]; intros Hk HA HR.
  { exists []. by rewrite app_nil_r. }
  replace (S k) with (k + 1)%nat in HR |- * by lia.
  apply all_rejected_add in HR as [HR [Hrej _]].
  destruct IH as (new & E & Ln & FB); [lia|done|done|].
  rewrite fifo_run_add. simpl. rewrite E in Hrej |- *.
  assert (Hl : length (drop k q ++ new) = 607%nat) by (rewrite length_app, length_drop; lia).
  assert (HA' : Forall A (drop k q ++ new)).
  { apply Forall_app. split; [by apply Forall_drop|]. by eapply Forall_impl. }
  exists (new ++ [fifo_out (drop k q ++ new)]). split_and!.
  - unfold fifo_step. rewrite drop_app_le by (rewrite length_drop; lia).
    rewrite drop_drop, <-app_assoc. done.
  - rewrite length_app. simpl. lia.
  - apply Forall_app. split; [done|]. apply Forall_singleton.
    apply HAB; [..|done]; eapply Forall_lookup_total_1; try done; lia.
Qed.

Definition rej_at_least (m : Z) (x : Z) : Prop := rejected x ∧ m <= deficit x.

Lemma fifo_turn (A B : Z → Prop) q :
  (∀ a b, A a → A b → rejected (u64 (a + b)) → B (u64 (a + b))) →
  (∀ a, B a → A a) →
  length q = 607%nat → Forall A q → all_rejected 607 q →
  length (fifo_run 607 q) = 607%nat ∧ Forall B (fifo_run 607 q).
Proof.
  intros HAB HBA Lq HA HR.
  destruct (fifo_window A B 607 q) as (new & E & Ln & FB); auto.
  rewrite E, drop_ge, app_nil_l by lia. done.
Qed.

Lemma fifo_turns (j : nat) m q :
  0 < m → length q = 607%nat → Forall (rej_at_least m) q →
  all_rejected (j * 607) q →
  length (fifo_run (j * 607) q) = 607%nat ∧
  Forall (rej_at_least (m * 2 ^ Z.of_nat j)) (fifo_run (j * 607) q).
Proof.
  revert m q. induction j as [|j IH]; intros m q Hm Lq HA HR.
  { change (0 * 607)%nat with 0%nat. simpl fifo_run. by rewrite Z.mul_1_r. }
  change (S j * 607)%nat with (607 + j * 607)%nat in HR |- *.
  apply all_rejected_add in HR as [HR1 HR2]. rewrite fifo_run_add.
  destruct (fifo_turn (rej_at_least m) (rej_at_least (m * 2)) q) as [L F]; auto.
  { intros a b [Ra Da] [Rb Db] R. split; [done|]. rewrite deficit_add by done. lia. }
  { intros a [R D]. split; [done|lia]. }
  replace (m * 2 ^ Z.of_nat (S j)) with (m * 2 * 2 ^ Z.of_nat j)
    by (rewrite Nat2Z.inj_succ, Z.pow_succ_r; lia).
  apply IH; auto with lia.
Qed.

(** No 63 turns of the ring are rejected throughout. *)
Lemma not_all_rejected q :
  length q = 607%nat → all_rejected (63 * 607) q → False.
Proof.
  intros Lq HR. change (63 * 607)%nat with (607 + 62 * 607)%nat in HR.
  apply all_rejected_add in HR as [HR1 HR2].
  destruct (fifo_turn (λ _, True) rejected q) as [L F]; auto using Forall_true.
  destruct (fifo_turns 62 1 (fifo_run 607 q)) as [L' F']; [lia|done| |done|].
  { eapply Forall_impl; [exact F|]. intros x Hx. split; [done|]. apply deficit_pos. }
  destruct (fifo_run (62 * 607) (fifo_run 607 q)) as [|x l]; [done|].
  apply Forall_cons_1 in F' as [[R D] _]. unfold rejected in R.
  change (1 * 2 ^ Z.of_nat 62) with (2 ^ 62) in D. lia.
Qed.

Lemma int31n_max_ge n : 1 < n < 2 ^ 31 → 2 ^ 30 <= int31n_max n < 2 ^ 31.
Proof.
  intros Hn. unfold int31n_max.
  assert (0 <= 2 ^ 31 mod n < 2 ^ 30) as B.
  { pose proof (Z.mod_pos_bound (2 ^ 31) n). split; [lia|].
    destruct (decide (n <= 2 ^ 30)); [lia|].
    rewrite (Z.mod_eq (2 ^ 31) n) by lia.
    assert (2 ^ 31 / n = 1) as -> by (symmetry; apply (Z.div_unique_pos _ _ _ (2 ^ 31 - n)); lia).
    lia. }
  rewrite u32_small by ranges. rewrite i32_small; lia.
Qed.

Lemma Int31_value r : fst (Int31 r) = (fst (Uint64 r) mod 2 ^ 63) / 2 ^ 32.
Proof.
  unfold Int31, Int63. destruct (Uint64 r) as [x r']. simpl fst.
  rewrite Z.shiftr_div_pow2 by lia. f_equal.
  change rng_mask with (Z.ones 63). by rewrite Z.land_ones.
Qed.

Lemma Int31_range r : 0 <= fst (Int31 r) < 2 ^ 31.
Proof.
  rewrite Int31_value. pose proof (Z.mod_pos_bound (fst (Uint64 r)) (2 ^ 63)).
  split; [apply Z.div_pos; lia|]. apply Z.div_lt_upper_bound; lia.
Qed.

Lemma Int31_state r : snd (Int31 r) = snd (Uint64 r).
Proof. unfold Int31, Int63. by destruct (Uint64 r). Qed.

Lemma int31n_loop_rejects fuel max r :
  wf_rng r → 2 ^ 30 <= max → int31n_loop fuel max r = None →
  all_rejected fuel (rng_queue r).
Proof.
  revert r. induction fuel as [|fuel IH]; intros r W Hm E; [done|].
  cbn [int31n_loop all_rejected] in E |- *.
  pose proof (Int31_value r) as Hv. pose proof (Int31_state r) as Hs.
  destruct (Int31 r) as [v r'].
  cbn [fst snd] in Hv, Hs. destruct (Z.gtb_spec v max) as [Hgt|]; [|done].
  rewrite <-Uint64_out, <-Uint64_queue, <-Hs by done.
  split; [|apply IH; [rewrite Hs; by apply wf_Uint64|done|done]].
  unfold rejected, deficit.
  pose proof (Z.mul_div_le (fst (Uint64 r) mod 2 ^ 63) (2 ^ 32) ltac:(lia)). lia.
Qed.

Lemma int31n_loop_mono a b max r x :
  (a <= b)%nat → int31n_loop a max r = Some x → int31n_loop b max r = Some x.
Proof.
  revert b r. induction a as [|a IH]; intros b r Hab E; [done|].
  destruct b as [|b]; [lia|]. cbn [int31n_loop] in E |- *. destruct (Int31 r) as [v r'].
  destruct (v >? max); [|done]. apply IH; [lia|done].
Qed.

Lemma int31n_fuel_enough : (63 * 607 <= int31n_fuel)%nat.
Proof. unfold int31n_fuel, rng_len. lia. Qed.
Lemma int31n_fuel_turns : int31n_fuel = (64 * 607)%nat.
Proof. unfold int31n_fuel, rng_len. lia. Qed.
#[global] Opaque int31n_fuel.

(** For every well-formed state and every bound, the rejection loop returns
    within 63 turns of the ring. *)
Lemma int31n_loop_total fuel r n :
  (63 * 607 <= fuel)%nat → wf_rng r → 1 < n < 2 ^ 31 →
  is_Some (int31n_loop fuel (int31n_max n) r).
Proof.
  intros Hf W Hn. destruct (int31n_loop fuel (int31n_max n) r) eqn:E; [done|].
  exfalso. apply (not_all_rejected (rng_queue r)); [apply length_rng_queue|].
  apply (all_rejected_le _ fuel); [done|].
  eapply int31n_loop_rejects; [done| |exact E]. by apply int31n_max_ge.
Qed.

Lemma int31n_loop_wf fuel max r v r' :
  wf_rng r → int31n_loop fuel max r = Some (v, r') → wf_rng r' ∧ 0 <= v < 2 ^ 31.
Proof.
  revert r. induction fuel as [|fuel IH]; intros r W E; [done|].
  cbn [int31n_loop] in E.
  pose proof (Int31_range r) as Hv. pose proof (Int31_state r) as Hs.
  destruct (Int31 r) as [v1 r1].
  cbn [fst snd] in Hv, Hs.
  assert (wf_rng r1) by (subst r1; by apply wf_Uint64).
  destruct (v1 >? max); [by eapply IH|]. by simplify_eq.
Qed.

Lemma land_range a n : 0 < n → 0 <= Z.land a (n - 1) < n.
Proof.
  intros Hn. split; [apply Z.land_nonneg; lia|].
  assert (0 <= (n - 1) - Z.land a (n - 1)); [|lia].
  rewrite Z.sub_nocarry_ldiff.
  - apply Z.ldiff_nonneg. left. lia.
  - apply Z.bits_inj'. intros i Hi.
    rewrite Z.ldiff_spec, Z.land_spec, Z.bits_0.
    by destruct (Z.testbit a i), (Z.testbit (n - 1) i).
Qed.

(** [Int31n] always returns, a value below its bound, in a well-formed state. *)
Lemma Int31n_ok r n :
  wf_rng r → 0 < n < 2 ^ 31 →
  ∃ v r', Int31n r n = Ok (v, r') ∧ 0 <= v < n ∧ wf_rng r'.
Proof.
  intros W Hn. unfold Int31n.
  destruct (Z.leb_spec n 0); [lia|].
  destruct (Z.eqb_spec (Z.land n (n - 1)) 0) as [E|E].
  - pose proof (Int31_state r) as Hs. destruct (Int31 r) as [v r'].
    eexists _, _. split_and!; [done|apply land_range; lia..|].
    simpl in Hs. subst r'. by apply wf_Uint64.
  - assert (1 < n) as Hn1.
    { destruct (decide (n = 1)) as [->|]; [done|lia]. }
    destruct (int31n_loop_total int31n_fuel r n) as [[v r'] Hl];
      [apply int31n_fuel_enough|done|lia|].
    rewrite Hl. apply int31n_loop_wf in Hl as [W' Hv]; [|done].
    eexists _, _. split_and!; [done|..|done]; apply Z.rem_bound_pos; lia.
Qed.

(** *** What [Int31n] returns

    The [k]th value of [Int31] from a state, and the state after [k] draws. *)
Definition after_draws (k : nat) (r : GoRandom) : GoRandom := Nat.iter k (λ r, (Int31 r).2) r.
Definition nth_draw (k : nat) (r : GoRandom) : Z := (Int31 (after_draws k r)).1.
(** The largest multiple of [n] up to 2^31: below it every remainder is as
    frequent as every other. *)
Definition unbiased (n : Z) : Z := n * (2 ^ 31 / n).

Lemma after_draws_S k r : after_draws (S k) r = after_draws k (Int31 r).2.
Proof. apply (Nat.iter_succ_r k (λ r, (Int31 r).2)). Qed.
Lemma nth_draw_0 r : nth_draw 0 r = (Int31 r).1.
Proof. done. Qed.
Lemma wf_after_draws k r : wf_rng r → wf_rng (after_draws k r).
Proof.
  intros W. induction k as [|k IH]; [done|]. unfold after_draws. rewrite Nat.iter_succ, Int31_state.
  by apply wf_Uint64.
Qed.

Lemma int31n_loop_spec fuel max r x :
  int31n_loop fuel max r = Some x →
  ∃ k, (k < fuel)%nat ∧ (∀ i, (i < k)%nat → max < nth_draw i r) ∧ nth_draw k r <= max ∧
    x = (nth_draw k r, after_draws (S k) r).
Proof.
  revert r. induction fuel as [|fuel IH]; intros r E; [done|]. cbn [int31n_loop] in E.
  destruct (Int31 r) as [v r'] eqn:Ev. destruct (Z.gtb_spec v max) as [Hv|Hv].
  - destruct (IH r' E) as (k & Hk & Hrej & Hacc & ->).
    assert (∀ i, nth_draw i r' = nth_draw (S i) r) as Hd
      by (intros i; unfold nth_draw; by rewrite after_draws_S, Ev).
    exists (S k). rewrite <-Hd, (after_draws_S (S k)), Ev. split_and!; [lia| |done|done].
    intros [|i] Hi; [by rewrite nth_draw_0, Ev|]. rewrite <-Hd. apply Hrej. lia.
  - simplify_eq. exists O. rewrite nth_draw_0, after_draws_S, Ev. split_and!; [lia|lia|done|done].
Qed.

Lemma int31n_max_unbiased n : 1 < n < 2 ^ 31 → int31n_max n = unbiased n - 1.
Proof.
  intros Hn. pose proof (Z.mod_pos_bound (2 ^ 31) n ltac:(lia)) as B.
  pose proof (Z.div_mod (2 ^ 31) n ltac:(lia)) as E.
  unfold int31n_max, unbiased. rewrite u32_small by ranges. rewrite i32_small; lia.
Qed.

Lemma power_of_two n : 0 < n → Z.land n (n - 1) = 0 → n = 2 ^ Z.log2 n.
Proof.
  intros Hn E. pose proof (Z.log2_nonneg n) as H0. destruct (Z.log2_spec n Hn) as [Hlo Hhi].
  destruct (decide (n = 2 ^ Z.log2 n)) as [|Hne]; [done|]. exfalso.
  assert (Z.log2 (n - 1) = Z.log2 n) as El by (apply Z.log2_unique; lia).
  assert (Z.testbit (Z.land n (n - 1)) (Z.log2 n) = true) as Hb.
  { rewrite Z.land_spec, Z.bit_log2 by done. rewrite <-El. apply Z.bit_log2.
    assert (0 < 2 ^ Z.log2 n) by (apply Z.pow_pos_nonneg; lia). lia. }
  by rewrite E, Z.bits_0 in Hb.
Qed.

(** [Int31n] returns the first draw below [unbiased n], reduced modulo [n]. *)
Lemma Int31n_spec r n :
  wf_rng r → 0 < n < 2 ^ 31 →
  ∃ k, (k < int31n_fuel)%nat ∧ (∀ i, (i < k)%nat → unbiased n <= nth_draw i r) ∧
    nth_draw k r < unbiased n ∧ Int31n r n = Ok (nth_draw k r mod n, after_draws (S k) r).
Proof.
  intros W Hn. unfold Int31n. destruct (Z.leb_spec n 0); [lia|].
  destruct (Z.eqb_spec (Z.land n (n - 1)) 0) as [E|E].
  - pose proof (power_of_two n ltac:(lia) E) as Hp. pose proof (Z.log2_nonneg n) as H0.
    assert (unbiased n = 2 ^ 31) as Hu.
    { assert (Z.log2 n < 31) by (apply Z.log2_lt_pow2; lia). unfold unbiased. rewrite Hp.
      rewrite <-Z.pow_sub_r, <-Z.pow_add_r by lia. f_equal. lia. }
    exists O. rewrite Hu. pose proof int31n_fuel_enough. pose proof (Int31_range r) as Hr.
    rewrite nth_draw_0, after_draws_S. split_and!; [lia|lia|lia|].
    destruct (Int31 r) as [v r']. cbn [fst snd]. do 2 f_equal.
    rewrite Hp at 1. rewrite Z.sub_1_r, <-Z.ones_equiv, Z.land_ones by done. by rewrite <-Hp.
  - assert (1 < n) as Hn1 by (destruct (decide (n = 1)) as [->|]; [done|lia]).
    destruct (int31n_loop_total int31n_fuel r n) as [x Hl]; [apply int31n_fuel_enough|done|lia|].
    rewrite Hl. destruct (int31n_loop_spec _ _ _ _ Hl) as (k & Hk & Hrej & Hacc & ->).
    rewrite int31n_max_unbiased in * by lia. exists k. split_and!; [done| |lia|].
    + intros i Hi. specialize (Hrej i Hi). lia.
    + pose proof (Int31_range (after_draws k r)). by rewrite Z.rem_mod_nonneg by (unfold nth_draw; lia).
Qed.

Lemma Int31n_nonpos r n :
  n <= 0 → Int31n r n = Throw (InvalidArgument "GoRandom::Int31n requires n > 0").
Proof. intros H. unfold Int31n. by rewrite (proj2 (Z.leb_le n 0)). Qed.

#[export] Hint Resolve wf_Seed wf_Uint64 : alternator.
