(* ===== verification/Murmur3.v ===== *)
(** The 64-bit MurmurHash3 half used for partition keys (src/murmur3.cpp,
    include/scylladb/alternator/murmur3.h).

    [Murmur3H1Bytes] follows the source: the block loop, the fall-through
    [switch] over the last [length & 15] bytes, the finalisation.  The
    [switch] is proved equivalent to reading the tail as two zero-padded
    little-endian words, and [Fmix] to be injective on 64-bit words. *)
From S2P Require Import Prelude.

Definition c1 : Z := 0x87c37b91114253d5.
Definition c2 : Z := 0x4cf5ad432745937f.
Definition fmix1 : Z := 0xff51afd7ed558ccd.
Definition fmix2 : Z := 0xc4ceb9fe1a85ec53.

(** Unsigned 64-bit multiplication, addition and left shift. *)
Definition mul64 (a b : Z) : Z := u64 (a * b).
Definition add64 (a b : Z) : Z := u64 (a + b).
Definition shl64 (a r : Z) : Z := u64 (Z.shiftl a r).

Definition Rotl (x r : Z) : Z := Z.lor (shl64 x r) (Z.shiftr x (64 - r)).

Definition Fmix (k : Z) : Z :=
  let k := Z.lxor k (Z.shiftr k 33) in
  let k := mul64 k fmix1 in
  let k := Z.lxor k (Z.shiftr k 33) in
  let k := mul64 k fmix2 in
  Z.lxor k (Z.shiftr k 33).

(** [data[i]] for a byte sequence: the reads of the code are all in range. *)
Definition byte_at (data : list Z) (i : nat) : Z := data !!! i.

(** [for (i = 0; i < 8; ++i) out |= data[i] << (8 * i)], from index [i] on. *)
Fixpoint read_loop (k i : nat) (out : Z) (data : list Z) : Z :=
  match k with
  | O => out
  | S k => read_loop k (S i) (Z.lor out (shl64 (byte_at data i) (8 * Z.of_nat i))) data
  end.
Definition ReadLittleEndian64 (data : list Z) : Z := read_loop 8 0 0 data.

Definition mix_k1 (k1 : Z) : Z := mul64 (Rotl (mul64 k1 c1) 31) c2.
Definition mix_k2 (k2 : Z) : Z := mul64 (Rotl (mul64 k2 c2) 33) c1.

(** One iteration of the block loop on the words [k1], [k2]. *)
Definition murmur_block (h : Z * Z) (k1 k2 : Z) : Z * Z :=
  let '(h1, h2) := h in
  let h1 := Z.lxor h1 (mix_k1 k1) in
  let h1 := Rotl h1 27 in
  let h1 := add64 h1 h2 in
  let h1 := add64 (mul64 h1 5) 0x52dce729 in
  let h2 := Z.lxor h2 (mix_k2 k2) in
  let h2 := Rotl h2 31 in
  let h2 := add64 h2 h1 in
  let h2 := add64 (mul64 h2 5) 0x38495ab5 in
  (h1, h2).

Fixpoint murmur_blocks (nblocks i : nat) (h : Z * Z) (data : list Z) : Z * Z :=
  match nblocks with
  | O => h
  | S nblocks =>
      let k1 := ReadLittleEndian64 (drop (i * 16) data) in
      let k2 := ReadLittleEndian64 (drop (i * 16 + 8) data) in
      murmur_blocks nblocks (S i) (murmur_block h k1 k2) data
  end.

(** The [switch (length & 15U)] with its fall-through cases; [tail] is the
    part of the data after the last full block, [h] the hash so far.  Case [n]
    performs its own update and continues with case [n - 1]. *)
Fixpoint murmur_tail (n : nat) (tail : list Z) (k1 k2 : Z) (h : Z * Z) : Z * Z :=
  let '(h1, h2) := h in
  match n with
  | O => (h1, h2)
  | S n' =>
      if bool_decide (9 < n)%nat then
        murmur_tail n' tail k1
          (Z.lxor k2 (shl64 (byte_at tail n') (8 * (Z.of_nat n' - 8)))) (h1, h2)
      else if bool_decide (n = 9)%nat then
        let k2 := Z.lxor k2 (byte_at tail 8) in
        murmur_tail n' tail k1 k2 (h1, Z.lxor h2 (mix_k2 k2))
      else if bool_decide (1 < n)%nat then
        murmur_tail n' tail
          (Z.lxor k1 (shl64 (byte_at tail n') (8 * Z.of_nat n'))) k2 (h1, h2)
      else
        let k1 := Z.lxor k1 (byte_at tail 0) in
        (Z.lxor h1 (mix_k1 k1), h2)
  end.

Definition murmur_final (h : Z * Z) (length : Z) : Z :=
  let '(h1, h2) := h in
  let h1 := Z.lxor h1 length in
  let h2 := Z.lxor h2 length in
  let h1 := add64 h1 h2 in
  let h2 := add64 h2 h1 in
  let h1 := Fmix h1 in
  let h2 := Fmix h2 in
  let h1 := add64 h1 h2 in
  i64 h1.

Definition Murmur3H1Bytes (data : list Z) : Z :=
  let len := length data in
  let nblocks := (len / 16)%nat in
  let h := murmur_blocks nblocks 0 (0, 0) data in
  let tail := drop (nblocks * 16) data in
  let h := murmur_tail (Z.to_nat (Z.land (Z.of_nat len) 15)) tail 0 0 h in
  murmur_final h (u64 (Z.of_nat len)).

(** The two public overloads: a byte vector, and the bytes of a string. *)
Definition Murmur3H1 (data : list Z) : Z := Murmur3H1Bytes data.
Fixpoint string_bytes (s : string) : list Z :=
  match s with
  | EmptyString => []
  | String c s => Z.of_N (N_of_ascii c) :: string_bytes s
  end.
Definition Murmur3H1_string (data : string) : Z := Murmur3H1Bytes (string_bytes data).

Lemma Murmur3H1_range data : is_i64 (Murmur3H1 data).
Proof. unfold Murmur3H1, Murmur3H1Bytes, murmur_final. repeat case_match; apply i64_range. Qed.

(** ** Disjoint bits add up *)

Lemma testbit_high a n i : 0 <= a < 2 ^ n → n <= i → Z.testbit a i = false.
Proof.
  intros Ha Hi. rewrite <-(Z.mod_small a (2 ^ n)) by done.
  apply Z.mod_pow2_bits_high. pose proof (Z.pow_neg_r 2 n). lia.
Qed.

Lemma land_disjoint a b n :
  0 <= n → 0 <= a < 2 ^ n → Z.land a (b * 2 ^ n) = 0.
Proof.
  intros Hn Ha. rewrite <-Z.shiftl_mul_pow2 by done. apply Z.bits_inj'. intros i Hi.
  rewrite Z.land_spec, Z.bits_0, Z.shiftl_spec by done.
  destruct (decide (i < n)).
  - by rewrite (Z.testbit_neg_r b), andb_false_r by lia.
  - by rewrite (testbit_high a n) by lia.
Qed.

Lemma lor_disjoint a b n :
  0 <= n → 0 <= a < 2 ^ n → Z.lor a (b * 2 ^ n) = a + b * 2 ^ n.
Proof.
  intros Hn Ha. pose proof (land_disjoint a b n Hn Ha) as E.
  by rewrite Z.add_nocarry_lxor, Z.lxor_lor.
Qed.
Lemma lxor_disjoint a b n :
  0 <= n → 0 <= a < 2 ^ n → Z.lxor (b * 2 ^ n) a = a + b * 2 ^ n.
Proof.
  intros Hn Ha. pose proof (land_disjoint a b n Hn Ha) as E.
  by rewrite Z.add_nocarry_lxor, Z.lxor_comm.
Qed.

(** ** Little-endian words *)

Definition is_byte (b : Z) : Prop := 0 <= b < 256.

Fixpoint le_word (bs : list Z) : Z :=
  match bs with
  | [] => 0
  | b :: bs => b + 256 * le_word bs
  end.

Lemma le_word_range bs :
  Forall is_byte bs → 0 <= le_word bs < 2 ^ (8 * Z.of_nat (length bs)).
Proof.
  induction 1 as [|b bs Hb _ IH]; [done|]. unfold is_byte in Hb.
  simpl le_word. simpl length.
  replace (8 * Z.of_nat (S (length bs))) with (8 + 8 * Z.of_nat (length bs)) by lia.
  rewrite Z.pow_add_r by lia. lia.
Qed.

Lemma shl64_byte b (i : nat) :
  is_byte b → (i < 8)%nat →
  shl64 b (8 * Z.of_nat i) = b * 2 ^ (8 * Z.of_nat i) ∧
  0 <= b * 2 ^ (8 * Z.of_nat i) < 2 ^ (8 * Z.of_nat (S i)).
Proof.
  unfold is_byte, shl64. intros Hb Hi. rewrite Z.shiftl_mul_pow2 by lia.
  replace (8 * Z.of_nat (S i)) with (8 + 8 * Z.of_nat i) by lia.
  rewrite Z.pow_add_r by lia.
  assert (2 ^ (8 * Z.of_nat i) <= 2 ^ 56) by (apply Z.pow_le_mono_r; lia).
  assert (0 < 2 ^ (8 * Z.of_nat i)) by lia.
  split; [apply u64_small; ranges|]; nia.
Qed.

Lemma le_word_drop (i : nat) t :
  (i < length t)%nat → le_word (drop i t) = byte_at t i + 256 * le_word (drop (S i) t).
Proof.
  intros Hi. destruct (lookup_lt_is_Some_2 t i Hi) as [b Hb].
  rewrite (drop_S _ b) by done. unfold byte_at.
  by rewrite (list_lookup_total_correct _ _ _ Hb).
Qed.

Lemma byte_at_is_byte t i : Forall is_byte t → (i < length t)%nat → is_byte (byte_at t i).
Proof. intros H L. unfold byte_at. by apply (Forall_lookup_total_1 is_byte). Qed.

Lemma read_loop_spec k i out data :
  Forall is_byte data → (k + i <= 8)%nat → (k + i <= length data)%nat →
  0 <= out < 2 ^ (8 * Z.of_nat i) →
  read_loop k i out data = out + 2 ^ (8 * Z.of_nat i) * le_word (take k (drop i data)).
Proof.
  intros Hd. revert i out. induction k as [|k IH]; intros i out Hk Hl Ho.
  { simpl. lia. }
  cbn [read_loop]. destruct (shl64_byte (byte_at data i) i) as [-> Hb];
    [apply byte_at_is_byte; [done|lia]|lia|].
  rewrite lor_disjoint by lia.
  assert (2 ^ (8 * Z.of_nat (S i)) = 256 * 2 ^ (8 * Z.of_nat i)) as E.
  { replace (8 * Z.of_nat (S i)) with (8 + 8 * Z.of_nat i) by lia.
    by rewrite Z.pow_add_r by lia. }
  rewrite IH; [|lia|lia|].
  - destruct (lookup_lt_is_Some_2 data i) as [b Hi]; [lia|].
    rewrite (drop_S data b i) by done. simpl take. simpl le_word.
    unfold byte_at. rewrite (list_lookup_total_correct _ _ _ Hi), E. lia.
  - pose proof (byte_at_is_byte data i Hd) as B. unfold is_byte in B.
    rewrite E. assert (i < length data)%nat by lia. nia.
Qed.

Lemma ReadLittleEndian64_spec data :
  Forall is_byte data → (8 <= length data)%nat →
  ReadLittleEndian64 data = le_word (take 8 data).
Proof.
  intros Hd Hl. unfold ReadLittleEndian64.
  rewrite read_loop_spec by (done || lia). by rewrite drop_0, Z.add_0_l, Z.mul_1_l.
Qed.

(** ** The tail switch reads two zero-padded words *)

Lemma tail_push w b (i : nat) :
  is_byte b → (i < 8)%nat →
  Z.lxor (w * 2 ^ (8 * Z.of_nat (S i))) (shl64 b (8 * Z.of_nat i)) =
  (b + 256 * w) * 2 ^ (8 * Z.of_nat i).
Proof.
  intros Hb Hi. destruct (shl64_byte b i) as [-> B]; [done..|].
  rewrite lxor_disjoint by lia.
  replace (8 * Z.of_nat (S i)) with (8 + 8 * Z.of_nat i) by lia.
  rewrite Z.pow_add_r by lia. lia.
Qed.

Lemma tail_push_last w b :
  is_byte b → Z.lxor (w * 2 ^ 8) b = b + 256 * w.
Proof.
  intros Hb. pose proof (tail_push w b 0 Hb ltac:(lia)) as E.
  change (8 * Z.of_nat 0) with 0 in E. change (8 * Z.of_nat 1) with 8 in E.
  destruct (shl64_byte b 0 Hb ltac:(lia)) as [E' _].
  change (8 * Z.of_nat 0) with 0 in E'. change (2 ^ 0) with 1 in E, E'.
  rewrite Z.mul_1_r in E, E'. by rewrite E' in E.
Qed.

Lemma murmur_tail_gt9 (n : nat) t k1 k2 h1 h2 :
  (8 < n)%nat →
  murmur_tail (S n) t k1 k2 (h1, h2) =
  murmur_tail n t k1 (Z.lxor k2 (shl64 (byte_at t n) (8 * (Z.of_nat n - 8)))) (h1, h2).
Proof. intros. cbn [murmur_tail]. by rewrite bool_decide_eq_true_2 by lia. Qed.
Lemma murmur_tail_9 (n : nat) t k1 k2 h1 h2 :
  n = 8%nat →
  murmur_tail (S n) t k1 k2 (h1, h2) =
  murmur_tail n t k1 (Z.lxor k2 (byte_at t 8))
    (h1, Z.lxor h2 (mix_k2 (Z.lxor k2 (byte_at t 8)))).
Proof.
  intros. cbn [murmur_tail].
  by rewrite bool_decide_eq_false_2, bool_decide_eq_true_2 by lia.
Qed.
Lemma murmur_tail_gt1 (n : nat) t k1 k2 h1 h2 :
  (0 < n < 8)%nat →
  murmur_tail (S n) t k1 k2 (h1, h2) =
  murmur_tail n t (Z.lxor k1 (shl64 (byte_at t n) (8 * Z.of_nat n))) k2 (h1, h2).
Proof.
  intros. cbn [murmur_tail].
  by rewrite !bool_decide_eq_false_2, bool_decide_eq_true_2 by lia.
Qed.

Lemma murmur_tail_high (n : nat) t k1 h1 h2 :
  Forall is_byte t → (8 < n <= length t)%nat → (length t <= 15)%nat →
  ∃ k2, murmur_tail n t k1 (le_word (drop n t) * 2 ^ (8 * (Z.of_nat n - 8))) (h1, h2)
        = murmur_tail 8 t k1 k2 (h1, Z.lxor h2 (mix_k2 (le_word (drop 8 t)))).
Proof.
  intros Ht. induction n as [|n IH]; intros Hn Hl; [lia|].
  destruct (decide (n = 8%nat)) as [E|Hne].
  - rewrite murmur_tail_9, E by done. change (8 * (Z.of_nat 9 - 8)) with 8.
    rewrite tail_push_last by (apply byte_at_is_byte; [done|lia]).
    rewrite <-le_word_drop by lia. by eexists.
  - rewrite murmur_tail_gt9 by lia.
    replace (8 * (Z.of_nat (S n) - 8)) with (8 * Z.of_nat (S (n - 8))) by lia.
    replace (8 * (Z.of_nat n - 8)) with (8 * Z.of_nat (n - 8)) by lia.
    rewrite tail_push by (try apply byte_at_is_byte; done || lia).
    rewrite <-le_word_drop by lia.
    replace (8 * Z.of_nat (n - 8)) with (8 * (Z.of_nat n - 8)) by lia.
    apply IH; lia.
Qed.

Lemma le_word_take_drop (i : nat) t :
  (i < length t)%nat → (i < 8)%nat →
  le_word (take (8 - i) (drop i t)) =
  byte_at t i + 256 * le_word (take (8 - S i) (drop (S i) t)).
Proof.
  intros Hi H8. destruct (lookup_lt_is_Some_2 t i Hi) as [b Hb].
  rewrite (drop_S t b i) by done. replace (8 - i)%nat with (S (8 - S i)) by lia.
  simpl take. simpl le_word. unfold byte_at. by rewrite (list_lookup_total_correct _ _ _ Hb).
Qed.

Lemma murmur_tail_low (n : nat) t k2 h1 h2 :
  Forall is_byte t → (n <= 8)%nat → (0 < n <= length t)%nat →
  murmur_tail n t (le_word (take (8 - n) (drop n t)) * 2 ^ (8 * Z.of_nat n)) k2 (h1, h2)
  = (Z.lxor h1 (mix_k1 (le_word (take 8 t))), h2).
Proof.
  intros Ht. induction n as [|n IH]; intros H8 Hn; [lia|].
  destruct (decide (n = 0%nat)) as [->|Hne].
  - cbn [murmur_tail bool_decide]. rewrite !bool_decide_eq_false_2 by lia.
    change (8 * Z.of_nat 1) with 8.
    rewrite tail_push_last by (apply byte_at_is_byte; [done|lia]).
    change (8 - 1)%nat with (8 - S 0)%nat.
    rewrite <-le_word_take_drop by lia. by rewrite drop_0.
  - rewrite murmur_tail_gt1 by lia.
    rewrite tail_push by (try apply byte_at_is_byte; done || lia).
    rewrite <-le_word_take_drop by lia. apply IH; lia.
Qed.

Lemma murmur_tail_spec t h1 h2 :
  Forall is_byte t → (length t <= 15)%nat →
  murmur_tail (length t) t 0 0 (h1, h2) =
  (Z.lxor h1 (mix_k1 (le_word (take 8 t))), Z.lxor h2 (mix_k2 (le_word (drop 8 t)))).
Proof.
  intros Ht Hl. destruct (decide (length t = 0%nat)) as [E|Hne].
  { apply nil_length_inv in E as ->. cbn. by rewrite !Z.lxor_0_r. }
  destruct (decide (length t <= 8)%nat) as [H8|H8].
  - pose proof (murmur_tail_low (length t) t 0 h1 h2 Ht H8 ltac:(lia)) as E.
    rewrite drop_all, take_nil in E. simpl le_word in E. rewrite Z.mul_0_l in E.
    rewrite E, (drop_ge t 8) by lia. cbn. by rewrite Z.lxor_0_r.
  - destruct (murmur_tail_high (length t) t 0 h1 h2) as [k2 E]; [done|lia|lia|].
    rewrite drop_all in E. simpl le_word in E. rewrite Z.mul_0_l in E. rewrite E.
    pose proof (murmur_tail_low 8 t k2 h1 (Z.lxor h2 (mix_k2 (le_word (drop 8 t))))) as E'.
    change (8 - 8)%nat with 0%nat in E'. rewrite take_0 in E'. simpl le_word in E' at 1.
    rewrite Z.mul_0_l in E'. apply E'; [done|lia..].
Qed.

(** ** The hash as a consumer of 16-byte chunks *)

(** The reference: full chunks are mixed in order; the rest, at most 15
    bytes, is read as two zero-padded words. *)
Fixpoint murmur_ref (n : nat) (h : Z * Z) (data : list Z) : Z * Z :=
  match n with
  | O => (Z.lxor h.1 (mix_k1 (le_word (take 8 data))),
          Z.lxor h.2 (mix_k2 (le_word (drop 8 data))))
  | S n => murmur_ref n (murmur_block h (le_word (take 8 data))
                           (le_word (take 8 (drop 8 data)))) (drop 16 data)
  end.

Lemma murmur_blocks_ref n i h data :
  Forall is_byte data → ((n + i) * 16 <= length data)%nat →
  (length data < (n + i + 1) * 16)%nat →
  let t := drop ((n + i) * 16) data in
  murmur_tail (length t) t 0 0 (murmur_blocks n i h data) =
  murmur_ref n h (drop (i * 16) data).
Proof.
  intros Hd. revert i h. induction n as [|n IH]; intros i h Hl Hu t.
  - destruct h as [h1 h2]. cbn [murmur_blocks murmur_ref fst snd].
    apply murmur_tail_spec; [by apply Forall_drop|].
    unfold t. rewrite length_drop. lia.
  - cbn [murmur_blocks murmur_ref]. subst t.
    replace (S n + i)%nat with (n + S i)%nat by lia.
    rewrite IH by lia. rewrite !ReadLittleEndian64_spec
      by (try apply Forall_drop; try rewrite length_drop; done || lia).
    rewrite !drop_drop. do 2 f_equal. f_equal. lia.
Qed.

Lemma land_15_mod n : Z.to_nat (Z.land (Z.of_nat n) 15) = (n mod 16)%nat.
Proof.
  change 15 with (Z.ones 4). rewrite Z.land_ones by lia.
  change (2 ^ 4) with (Z.of_nat 16). rewrite <-Nat2Z.inj_mod. apply Nat2Z.id.
Qed.

Lemma Murmur3H1Bytes_ref data :
  Forall is_byte data →
  Murmur3H1Bytes data =
  murmur_final (murmur_ref (length data / 16) (0, 0) data) (u64 (Z.of_nat (length data))).
Proof.
  intros Hd. unfold Murmur3H1Bytes. cbv zeta. f_equal.
  pose proof (Nat.div_mod_eq (length data) 16) as E.
  pose proof (Nat.mod_upper_bound (length data) 16 ltac:(lia)) as B.
  pose proof (murmur_blocks_ref (length data / 16) 0 (0, 0) data Hd) as H.
  rewrite Nat.add_0_r, drop_0 in H. rewrite <-H by lia. cbv zeta.
  rewrite land_15_mod. do 2 f_equal. rewrite length_drop. lia.
Qed.

(** ** [Fmix] is a bijection of 64-bit words *)

Definition xorshift33 (k : Z) : Z := Z.lxor k (Z.shiftr k 33).
Definition unFmix (k : Z) : Z :=
  xorshift33 (mul64 (xorshift33 (mul64 (xorshift33 k) 0x9cb4b2f8129337db))
                    0x4f74430c22a54005).

Lemma shiftr_small k : is_u64 k → Z.shiftr k 66 = 0.
Proof.
  unfold is_u64. intros. rewrite Z.shiftr_div_pow2 by lia. apply Z.div_small. lia.
Qed.

Lemma xorshift33_involutive k : is_u64 k → xorshift33 (xorshift33 k) = k.
Proof.
  intros H. unfold xorshift33.
  rewrite Z.shiftr_lxor, Z.shiftr_shiftr by lia. change (33 + 33) with 66.
  rewrite shiftr_small, Z.lxor_0_r, Z.lxor_assoc, Z.lxor_nilpotent by done.
  apply Z.lxor_0_r.
Qed.

Lemma is_u64_lxor a b : is_u64 a → is_u64 b → is_u64 (Z.lxor a b).
Proof.
  unfold is_u64. intros Ha Hb.
  assert (0 <= Z.lxor a b) by (apply Z.lxor_nonneg; lia). split; [done|].
  destruct (decide (Z.lxor a b = 0)) as [->|]; [lia|].
  apply Z.log2_lt_pow2; [lia|].
  pose proof (Z.log2_lxor a b). pose proof (Z.log2_lt_cancel a (2 ^ 64)).
  assert (∀ z, 0 <= z < 2 ^ 64 → Z.log2 z < 64) as L.
  { intros z Hz. destruct (decide (z = 0)) as [->|]; [done|]. apply Z.log2_lt_pow2; lia. }
  pose proof (L a). pose proof (L b). lia.
Qed.

Lemma is_u64_xorshift33 k : is_u64 k → is_u64 (xorshift33 k).
Proof.
  intros H. apply is_u64_lxor; [done|]. unfold is_u64 in *.
  rewrite Z.shiftr_div_pow2 by lia. split; [apply Z.div_pos; lia|].
  apply Z.div_lt_upper_bound; lia.
Qed.

Lemma mul64_inverse k c d :
  is_u64 k → (c * d) mod 2 ^ 64 = 1 → mul64 (mul64 k c) d = k.
Proof.
  intros Hk E. unfold mul64, u64. rewrite Zmult_mod_idemp_l, <-Z.mul_assoc.
  rewrite <-Zmult_mod_idemp_r, E, Z.mul_1_r. by apply u64_small.
Qed.

Lemma unFmix_Fmix k : is_u64 k → unFmix (Fmix k) = k.
Proof.
  intros H. change (Fmix k)
    with (xorshift33 (mul64 (xorshift33 (mul64 (xorshift33 k) fmix1)) fmix2)).
  unfold unFmix.
  rewrite xorshift33_involutive by apply u64_range.
  rewrite (mul64_inverse _ fmix2) by (done || apply is_u64_xorshift33, u64_range).
  rewrite xorshift33_involutive by apply u64_range.
  rewrite (mul64_inverse _ fmix1) by (done || by apply is_u64_xorshift33).
  by apply xorshift33_involutive.
Qed.

Lemma string_bytes_byte s : Forall is_byte (string_bytes s).
Proof.
  induction s as [|c s IH]; simpl; constructor; [|done].
  unfold is_byte. pose proof (Stdlib.Strings.Ascii.N_ascii_bounded c). lia.
Qed.
