(* ===== verification/AttributeValue.v ===== *)
(** Hashing of DynamoDB attribute values (src/attribute_value.cpp,
    include/scylladb/alternator/attribute_value.h): a one-byte type prefix
    followed by the value's bytes, hashed with [Murmur3H1]. *)
From S2P Require Import Prelude Murmur3.

Inductive AttributeValueType := AVT_String | AVT_Number | AVT_Binary.

#[global] Instance AttributeValueType_eq_dec : EqDecision AttributeValueType.
Proof. solve_decision. Defined.

Definition type_prefix_s : Z := 0x01.
Definition type_prefix_n : Z := 0x02.
Definition type_prefix_b : Z := 0x03.

Definition HashPrefixed (prefix : Z) (value : string) : Z :=
  Murmur3H1 (prefix :: string_bytes value).

Definition HashAttributeValue (type : AttributeValueType) (value : string) : Z :=
  match type with
  | AVT_String => HashPrefixed type_prefix_s value
  | AVT_Number => HashPrefixed type_prefix_n value
  | AVT_Binary => HashPrefixed type_prefix_b value
  end.

Definition HashBinaryAttributeValue (value : list Z) : Z :=
  Murmur3H1 (type_prefix_b :: value).
