(* ===== verification/Effects.v ===== *)
(** Effects of the stateful components: a state-and-exception monad with
    [throw] and [try]/[catch], a small program logic for it, and the world the
    program observes (clocks and the HTTP client) as a class of parameters.

    A member function that may throw, reads a clock or performs a request is a
    value of [M (S * W) A]: it takes the object's state [S] and the world [W]
    and returns an outcome together with the state and world it leaves behind,
    also when it throws. *)
From S2P Require Import Prelude Uri.

Definition M (σ A : Type) : Type := σ → result A * σ.

#[global] Instance M_ret {σ} : MRet (M σ) := λ A a s, (Ok a, s).
#[global] Instance M_bind {σ} : MBind (M σ) := λ A B f m s,
  match m s with
  | (Ok a, s) => f a s
  | (Throw e, s) => (Throw e, s)
  end.

Definition throw {σ A} (e : exn) : M σ A := λ s, (Throw e, s).
Definition try_catch {σ A} (m : M σ A) (handler : exn → M σ A) : M σ A := λ s,
  match m s with
  | (Throw e, s) => handler e s
  | r => r
  end.
Definition gets {σ A} (f : σ → A) : M σ A := λ s, (Ok (f s), s).
Definition modify {σ} (f : σ → σ) : M σ unit := λ s, (Ok tt, f s).
Definition lift_result {σ A} (r : result A) : M σ A := λ s, (r, s).

(** A destructor that runs when the scope is left, by a return or an exception. *)
Definition finally {σ A} (m : M σ A) (destroy : σ → σ) : M σ A := λ s,
  let '(r, s) := m s in (r, destroy s).

(** A total function of the state. *)
Definition of_state {σ A} (f : σ → A * σ) : M σ A := λ s, let '(a, s) := f s in (Ok a, s).

(** An operation of the world alone, and one of a component of the state. *)
Definition on_world {S W A} (f : W → A * W) : M (S * W) A := λ '(s, w),
  let '(a, w) := f w in (Ok a, (s, w)).
Definition state_op {S W A} (f : S → A * S) : M (S * W) A := λ '(s, w),
  let '(a, s) := f s in (Ok a, (s, w)).
Definition zoom {S T W A} (get : S → T) (set : T → S → S) (m : M (T * W) A) : M (S * W) A :=
  λ '(s, w), let '(r, (t, w)) := m (get s, w) in (r, (set t s, w)).

(** ** The world *)

Record HttpResponse := mkResponse {
  status_code : Z;
  body : string;
}.

(** What [HttpClient::Get] does: reply, or throw an exception of a class that
    none of its callers name. *)
Inductive http_outcome :=
  | HttpReply (resp : HttpResponse)
  | HttpFailure (what : string).

(** [steady_now] and [high_resolution_now] count nanoseconds. *)
Class World (W : Type) := {
  steady_now : W → Z * W;
  high_resolution_now : W → Z * W;
  http_get : Url → W → http_outcome * W;
}.

Definition HttpClient_Get {S W} `{World W} (url : Url) : M (S * W) HttpResponse :=
  out ← on_world (http_get url);
  match out with
  | HttpReply resp => mret resp
  | HttpFailure what => throw (RuntimeError what)
  end.

(** A scripted world, for concrete runs: the time, and what each printed URL
    answers; every clock reading advances the time by one. *)
Record script := mkScript {
  script_time : Z;
  script_http : list (string * http_outcome);
  script_log : list string;
}.
Definition script_tick (w : script) : Z * script :=
  (script_time w, mkScript (script_time w + 1) (script_http w) (script_log w)).
Fixpoint script_lookup (url : string) (l : list (string * http_outcome)) : http_outcome :=
  match l with
  | [] => HttpFailure "connection refused"
  | (u, o) :: l => if bool_decide (u = url) then o else script_lookup url l
  end.
#[global] Instance script_world : World script := {
  steady_now := script_tick;
  high_resolution_now := script_tick;
  http_get url w :=
    let u := Url_ToString url in
    (script_lookup u (script_http w),
     mkScript (script_time w) (script_http w) (script_log w ++ [u]));
}.

(** ** Equations of the monad *)

Lemma bind_lift_ok {σ A B} (a : A) (f : A → M σ B) s : (lift_result (Ok a) ≫= f) s = f a s.
Proof. done. Qed.
Lemma bind_lift_throw {σ A B} e (f : A → M σ B) s : (lift_result (Throw e) ≫= f) s = (Throw e, s).
Proof. done. Qed.
Lemma bind_run_ok {σ A B} (m : M σ A) (f : A → M σ B) s a s' :
  m s = (Ok a, s') → (m ≫= f) s = f a s'.
Proof. unfold mbind, M_bind. by intros ->. Qed.
Lemma bind_ext {σ A B} (m : M σ A) (f g : A → M σ B) s :
  (∀ a s', f a s' = g a s') → (m ≫= f) s = (m ≫= g) s.
Proof. intros E. unfold mbind, M_bind. destruct (m s) as [[a|e] s']; [apply E|done]. Qed.

(** ** A program logic: outcomes under a precondition *)

Section triples.
Context {σ : Type}.

Definition triple {A} (P : σ → Prop) (m : M σ A) (Q : A → σ → Prop)
    (X : exn → σ → Prop) : Prop :=
  ∀ s, P s → match m s with
             | (Ok a, s') => Q a s'
             | (Throw e, s') => X e s'
             end.

(** [m] keeps [I] whether it returns or throws. *)
Definition preserves {A} (I : σ → Prop) (m : M σ A) : Prop :=
  ∀ s, I s → I (m s).2.

Lemma preserves_ret {A} I (a : A) : preserves I (mret a).
Proof. by intros s. Qed.
Lemma preserves_throw {A} I e : preserves (A := A) I (throw e).
Proof. by intros s. Qed.
Lemma preserves_gets {A} I (f : σ → A) : preserves I (gets f).
Proof. by intros s. Qed.
Lemma preserves_lift {A} I (r : result A) : preserves I (lift_result r).
Proof. by intros s. Qed.
Lemma preserves_modify I f : (∀ s, I s → I (f s)) → preserves I (modify f).
Proof. intros H s. apply H. Qed.
Lemma preserves_bind {A B} I (m : M σ A) (f : A → M σ B) :
  preserves I m → (∀ a, preserves I (f a)) → preserves I (m ≫= f).
Proof.
  intros Hm Hf s Hs. unfold mbind, M_bind. specialize (Hm s Hs).
  destruct (m s) as [[a|e] s']; [by apply Hf|done].
Qed.
Lemma preserves_try {A} I (m : M σ A) h :
  preserves I m → (∀ e, preserves I (h e)) → preserves I (try_catch m h).
Proof.
  intros Hm Hh s Hs. unfold try_catch. specialize (Hm s Hs).
  destruct (m s) as [[a|e] s']; [done|by apply Hh].
Qed.

Lemma preserves_finally {A} I (m : M σ A) destroy :
  preserves I m → (∀ s, I s → I (destroy s)) → preserves I (finally m destroy).
Proof.
  intros Hm Hd s Hs. unfold finally. specialize (Hm s Hs). destruct (m s). by apply Hd.
Qed.
Lemma preserves_of_state {A} I (f : σ → A * σ) :
  (∀ s, I s → I (f s).2) → preserves I (of_state f).
Proof. intros H s Hs. unfold of_state. specialize (H s Hs). by destruct (f s). Qed.

Lemma triple_preserves {A} I (m : M σ A) :
  triple I m (λ _, I) (λ _, I) ↔ preserves I m.
Proof.
  split; intros H s Hs; specialize (H s Hs); destruct (m s) as [[]]; done.
Qed.
Lemma triple_ret {A} (P : σ → Prop) (a : A) (Q : A → σ → Prop) X :
  (∀ s, P s → Q a s) → triple P (mret a) Q X.
Proof. intros H s Hs. by apply H. Qed.
Lemma triple_bind {A B} P R Q X (m : M σ A) (f : A → M σ B) :
  triple P m R X → (∀ a, triple (R a) (f a) Q X) → triple P (m ≫= f) Q X.
Proof.
  intros Hm Hf s Hs. unfold mbind, M_bind. specialize (Hm s Hs).
  destruct (m s) as [[a|e] s']; [|done]. by apply Hf.
Qed.
Lemma triple_try {A} P Q X Y (m : M σ A) h :
  triple P m Q Y → (∀ e, triple (Y e) (h e) Q X) → triple P (try_catch m h) Q X.
Proof.
  intros Hm Hh s Hs. unfold try_catch. specialize (Hm s Hs).
  destruct (m s) as [[a|e] s']; [done|]. by apply Hh.
Qed.
Lemma triple_conseq {A} P P' (Q Q' : A → σ → Prop) X X' m :
  triple P' m Q' X' → (∀ s, P s → P' s) → (∀ a s, Q' a s → Q a s) →
  (∀ e s, X' e s → X e s) → triple P m Q X.
Proof.
  intros H HP HQ HX s Hs. specialize (H s (HP s Hs)).
  destruct (m s) as [[a|e] s']; auto.
Qed.
End triples.

Lemma preserves_on_world {S W A} (I : S → Prop) (f : W → A * W) :
  preserves (λ σ, I σ.1) (on_world (S := S) f).
Proof. intros [s w] Hs. unfold on_world. by destruct (f w). Qed.
Lemma preserves_state_op {S W A} (I : S → Prop) (f : S → A * S) :
  (∀ s, I s → I (f s).2) → preserves (λ σ : S * W, I σ.1) (state_op f).
Proof. intros H [s w] Hs. specialize (H s Hs). unfold state_op. by destruct (f s). Qed.
Lemma preserves_zoom {S T W A} (I : S → Prop) (J : S → T → Prop) get set (m : M (T * W) A) :
  (∀ s, I s → J s (get s)) → (∀ s t, I s → J s t → I (set t s)) →
  (∀ s, preserves (λ σ, J s σ.1) m) → preserves (λ σ, I σ.1) (zoom get set m).
Proof.
  intros Hg Hs Hm [s w] H. unfold zoom. specialize (Hm s (get s, w) (Hg s H)).
  destruct (m (get s, w)) as [r [t w']]. by apply Hs.
Qed.
Lemma preserves_http_get {S W} `{World W} (I : S → Prop) url :
  preserves (λ σ, I σ.1) (HttpClient_Get (S := S) (W := W) url).
Proof.
  apply preserves_bind; [apply preserves_on_world|].
  intros []; [apply preserves_ret|apply preserves_throw].
Qed.

#[export] Hint Resolve preserves_ret preserves_throw preserves_gets preserves_lift
  preserves_bind preserves_try preserves_on_world preserves_http_get : alternator.
