(* ===== verification/Streams.v ===== *)
(** [std::iostream] as the compression code and the SDK's bodies use it: a
    sequence of bytes with a read and a write position and the three state bits.

    What the stream buffer behind it supports is part of the value: whether it
    can be repositioned, after how many reads it raises (which the stream turns
    into [badbit]), and how many bytes it accepts. A member function of the
    stream is a state function. *)
From S2P Require Import Prelude.

(** ** Prefixes of byte strings *)

Fixpoint stake (n : nat) (s : string) : string :=
  match n, s with
  | S n, String c s => String c (stake n s)
  | _, _ => EmptyString
  end.
Fixpoint sdrop (n : nat) (s : string) : string :=
  match n, s with
  | S n, String _ s => sdrop n s
  | _, _ => s
  end.

Lemma stake_sdrop n s : stake n s +:+ sdrop n s = s.
Proof. revert s. induction n as [|n IH]; intros [|c s]; [done..|]. simpl. by rewrite append_cons, IH. Qed.
Lemma stake_length n s : String.length (stake n s) = Nat.min n (String.length s).
Proof. revert s. induction n as [|n IH]; intros [|c s]; [done..|]. simpl. by rewrite IH. Qed.
Lemma sdrop_length n s : String.length (sdrop n s) = (String.length s - n)%nat.
Proof. revert s. induction n as [|n IH]; intros [|c s]; [done..|]. simpl. by rewrite IH. Qed.
Lemma stake_all n s : (String.length s <= n)%nat → stake n s = s.
Proof.
  revert s. induction n as [|n IH]; intros [|c s] H; [done|simpl in H; lia|done|].
  simpl in *. by rewrite IH by lia.
Qed.
Lemma sdrop_all n s : (String.length s <= n)%nat → sdrop n s = "".
Proof.
  revert s. induction n as [|n IH]; intros [|c s] H; [done|simpl in H; lia|done|].
  simpl in *. by rewrite IH by lia.
Qed.
Lemma stake_app s t : stake (String.length s) (s +:+ t) = s.
Proof. induction s as [|c s IH]; [by destruct t|]. rewrite append_cons. simpl. by rewrite IH. Qed.
Lemma sdrop_app s t : sdrop (String.length s) (s +:+ t) = t.
Proof. induction s as [|c s IH]; [by destruct t|]. rewrite append_cons. simpl. by rewrite IH. Qed.
Lemma sdrop_sdrop m n s : sdrop m (sdrop n s) = sdrop (n + m) s.
Proof.
  revert s. induction n as [|n IH]; intros [|c s]; [done..| |apply IH].
  simpl. by destruct m.
Qed.
Lemma string_length_zero s : String.length s = 0%nat → s = "".
Proof. by destruct s. Qed.

(** ** The stream *)

Record iostream := mkStream {
  contents : string;
  get_pos : nat;
  put_pos : nat;
  eofbit : bool;
  failbit : bool;
  badbit : bool;
  seekable : bool;
  reads_before_fault : option nat;
  room : option nat;
}.

(** An empty [std::stringstream], and one holding [s]. *)
Definition stringstream (s : string) : iostream :=
  mkStream s 0 0 false false false true None None.

Definition set_bits (eof fail bad : bool) (b : iostream) : iostream :=
  mkStream (contents b) (get_pos b) (put_pos b) eof fail bad
    (seekable b) (reads_before_fault b) (room b).

Definition good (b : iostream) : bool := negb (eofbit b || failbit b || badbit b).
(** [fail()] reads both [failbit] and [badbit]; so does [operator!]. *)
Definition fail (b : iostream) : bool := failbit b || badbit b.

Definition clear (b : iostream) : iostream := set_bits false false false b.
Definition set_failbit (b : iostream) : iostream := set_bits (eofbit b) true (badbit b) b.
Definition set_badbit (b : iostream) : iostream := set_bits (eofbit b) (failbit b) true b.
Definition set_get_pos (p : nat) (b : iostream) : iostream :=
  mkStream (contents b) p (put_pos b) (eofbit b) (failbit b) (badbit b)
    (seekable b) (reads_before_fault b) (room b).

(** The bytes that can still be read. *)
Definition unread (b : iostream) : string := sdrop (get_pos b) (contents b).

(** [seekg(pos)] to the beginning or the end: drops [eofbit]; does nothing but
    set [failbit] on a stream that has failed; a buffer that cannot be
    repositioned sets [failbit]. *)
Definition seek_get (p : nat) (b : iostream) : iostream :=
  let b := set_bits false (failbit b) (badbit b) b in
  if fail b then set_failbit b
  else if seekable b then set_get_pos p b
  else set_failbit b.
Definition seekg_beg (b : iostream) : iostream := seek_get 0 b.
Definition seekg_end (b : iostream) : iostream := seek_get (String.length (contents b)) b.

(** [tellg] and [tellp]; [None] is [streampos(-1)]. [tellg] builds a sentry,
    which sets [failbit] on a stream that is not good. *)
Definition tellg (b : iostream) : option nat * iostream :=
  let b := if good b then b else set_failbit b in
  ((if fail b then None else if seekable b then Some (get_pos b) else None), b).
Definition tellp (b : iostream) : option nat :=
  if fail b then None else if seekable b then Some (put_pos b) else None.

(** [read(n)]: the bytes stored ([gcount] is their number). Fewer than [n]
    bytes set [eofbit] and [failbit]. *)
Definition read (n : nat) (b : iostream) : string * iostream :=
  if good b then
    match reads_before_fault b with
    | Some O => ("", set_badbit b)
    | faults =>
        let got := stake n (unread b) in
        let short := (String.length got <? n)%nat in
        (got, mkStream (contents b) (get_pos b + String.length got) (put_pos b)
                short short (badbit b) (seekable b) (pred <$> faults) (room b))
    end
  else ("", set_failbit b).

(** Reading to the end through [std::istreambuf_iterator], which goes to the
    buffer past the stream's state bits. *)
Definition read_buffer (b : iostream) : string * iostream :=
  (unread b, set_get_pos (String.length (contents b)) b).

(** [write]: on a good stream the bytes go to the write position; a buffer that
    runs out of room takes what fits and the stream sets [badbit]. *)
Definition write (data : string) (b : iostream) : iostream :=
  if good b then
    let taken := match room b with None => data | Some r => stake r data end in
    mkStream
      (stake (put_pos b) (contents b) +:+ taken +:+
       sdrop (put_pos b + String.length taken) (contents b))
      (get_pos b) (put_pos b + String.length taken)
      (eofbit b) (failbit b)
      (String.length taken <? String.length data)%nat
      (seekable b) (reads_before_fault b) ((λ r, r - String.length taken)%nat <$> room b)
  else set_failbit b.

(** ** Streams over memory *)

(** A source that never raises, positioned before [s]. *)
Definition source_of (s : string) (b : iostream) : Prop :=
  good b = true ∧ reads_before_fault b = None ∧ unread b = s.

Lemma good_bits b : good b = true ↔ eofbit b = false ∧ failbit b = false ∧ badbit b = false.
Proof. unfold good. destruct (eofbit b), (failbit b), (badbit b); naive_solver. Qed.

(** A sink in memory that has been written [s], at its end. *)
Definition sink_of (s : string) (b : iostream) : Prop :=
  good b = true ∧ room b = None ∧ seekable b = true ∧ reads_before_fault b = None ∧
  contents b = s ∧ put_pos b = String.length s.

Lemma stringstream_source s : source_of s (stringstream s).
Proof. done. Qed.
Lemma stringstream_sink : sink_of "" (stringstream "").
Proof. done. Qed.

Lemma write_sink data s b : sink_of s b → sink_of (s +:+ data) (write data b).
Proof.
  intros (G & R & S & N & C & P). unfold write. rewrite G, R, C, P. cbn zeta.
  apply good_bits in G as (E & F & B).
  split; [|split; [done|split; [done|split; [done|]]]].
  - apply good_bits. cbn. rewrite E, F. split_and!; [done..|].
    apply Nat.ltb_ge. lia.
  - cbn. rewrite stake_all, sdrop_all by lia. rewrite append_empty_r.
    by rewrite string_length_app.
Qed.
Lemma sink_fail s b : sink_of s b → fail b = false.
Proof. intros [(_ & F & B)%good_bits _]. unfold fail. by rewrite F, B. Qed.

(** What any read can do: fault, reach the end, or take a full block. *)
Definition read_failed (b : iostream) : bool := badbit b || (fail b && negb (eofbit b)).

Lemma unread_advance n b : unread b = stake n (unread b) +:+ sdrop (get_pos b + n) (contents b).
Proof. unfold unread. by rewrite <-sdrop_sdrop, stake_sdrop. Qed.

(** The outcomes of a read, as a relation of the stream before and after. *)
Definition read_outcome (n : nat) (b : iostream) (got : string) (b' : iostream) : Prop :=
  (String.length got <= String.length (unread b))%nat ∧
  (read_failed b' = true ∧ ¬ source_of (unread b) b ∨
   read_failed b' = false ∧ eofbit b' = true ∧ (source_of (unread b) b → got = unread b) ∨
   read_failed b' = false ∧ eofbit b' = false ∧ String.length got = n ∧
     unread b = got +:+ unread b' ∧ (source_of (unread b) b → source_of (unread b') b')).

Lemma read_block n b faults :
  (reads_before_fault b = None → faults = None) →
  let got := stake n (unread b) in
  let short := (String.length got <? n)%nat in
  read_outcome n b got
    (mkStream (contents b) (get_pos b + String.length got) (put_pos b)
       short short false (seekable b) faults (room b)).
Proof.
  intros R. cbn zeta. pose proof (stake_length n (unread b)) as Hl.
  split; [lia|]. right. unfold read_failed, fail. cbn [badbit failbit eofbit].
  destruct (Nat.ltb_spec (String.length (stake n (unread b))) n) as [Hlt|Hge]; [left|right].
  - split_and!; [done..|]. intros _. apply stake_all. lia.
  - assert (String.length (stake n (unread b)) = n) as E by lia.
    split_and!; [done..| |].
    + unfold unread at 3. cbn. rewrite E. apply unread_advance.
    + intros (_ & R' & _). split; [done|]. by rewrite (R R').
Qed.

Lemma read_cases n b : read_outcome n b (read n b).1 (read n b).2.
Proof.
  unfold read. destruct (good b) eqn:G.
  - pose proof G as (_ & _ & ->)%good_bits.
    destruct (reads_before_fault b) as [[|k]|] eqn:R; [|apply read_block; by rewrite R..].
    split; [cbn; lia|]. left. split; [done|]. intros (_ & R' & _). congruence.
  - split; [cbn; lia|]. destruct (eofbit b) eqn:E, (badbit b) eqn:B;
      unfold read_failed, fail; cbn; rewrite E, ?B; cbn;
      [left|right; left|left|left]; split_and!; try done; intros (G' & _); congruence.
Qed.

Lemma read_length n b : (String.length (read n b).1 <= n)%nat.
Proof.
  unfold read. destruct (good b); [|cbn; lia].
  destruct (reads_before_fault b) as [[|k]|]; cbn [fst String.length]; rewrite ?stake_length; lia.
Qed.

(** A stream in memory, rewound. *)
Lemma rewound b :
  seekable b = true →
  let b' := seekg_beg (clear b) in
  good b' = true ∧ contents b' = contents b ∧ unread b' = contents b ∧
  seekable b' = true ∧ reads_before_fault b' = reads_before_fault b.
Proof. intros Hs. unfold seekg_beg, seek_get. cbn. by rewrite Hs. Qed.
