(* ===== verification/RoutingScope.v ===== *)
(** Routing scopes (src/routing_scope.cpp,
    include/scylladb/alternator/routing_scope.h): which nodes a client routes
    to, with the chain of wider scopes it falls back to.

    The class hierarchy is the inductive type [RoutingScope]; a
    [RoutingScopePtr] is an [option], [None] for a null pointer. *)
From S2P Require Import Prelude.

Inductive RoutingScope :=
  | ClusterScope
  | DatacenterScope (datacenter : string) (fallback : option RoutingScope)
  | RackScope (datacenter rack : string) (fallback : option RoutingScope).

Definition RoutingScopePtr : Type := option RoutingScope.

Definition Scope_Name (s : RoutingScope) : string :=
  match s with
  | ClusterScope => "Cluster"
  | DatacenterScope _ _ => "Datacenter"
  | RackScope _ _ _ => "Rack"
  end.

Definition Scope_ToString (s : RoutingScope) : string :=
  match s with
  | ClusterScope => "Cluster()"
  | DatacenterScope dc _ => "Datacenter(dc=" +:+ dc +:+ ")"
  | RackScope dc rack _ => "Rack(dc=" +:+ dc +:+ ", rack=" +:+ rack +:+ ")"
  end.

Definition LocalNodesQuery (s : RoutingScope) : string :=
  match s with
  | ClusterScope => ""
  | DatacenterScope dc _ => "dc=" +:+ dc
  | RackScope dc rack _ => "dc=" +:+ dc +:+ "&rack=" +:+ rack
  end.

Definition Fallback (s : RoutingScope) : RoutingScopePtr :=
  match s with
  | ClusterScope => None
  | DatacenterScope _ f => f
  | RackScope _ _ f => f
  end.

Definition IsCluster (s : RoutingScope) : bool :=
  match s with ClusterScope => true | _ => false end.

Definition NewClusterScope : RoutingScopePtr := Some ClusterScope.
Definition NewDCScope (datacenter : string) (fallback : RoutingScopePtr) : RoutingScopePtr :=
  Some (DatacenterScope datacenter fallback).
Definition NewRackScope (datacenter rack : string) (fallback : RoutingScopePtr) : RoutingScopePtr :=
  Some (RackScope datacenter rack fallback).

(** The values the loop [while (scope) { ...; scope = scope->Fallback(); }]
    gives its variable. *)
Fixpoint scope_and_fallbacks (s : RoutingScope) : list RoutingScope :=
  s :: match s with
       | ClusterScope => []
       | DatacenterScope _ f | RackScope _ _ f =>
           match f with Some f => scope_and_fallbacks f | None => [] end
       end.
Definition scope_chain (p : RoutingScopePtr) : list RoutingScope :=
  match p with Some s => scope_and_fallbacks s | None => [] end.

Lemma scope_chain_step s : scope_chain (Some s) = s :: scope_chain (Fallback s).
Proof. by destruct s. Qed.

(** Nothing follows the cluster scope. *)
Lemma scope_chain_cluster p l s k : scope_chain p = l ++ s :: k → IsCluster s = true → k = [].
Proof.
  revert p. induction l as [|t l IH]; intros [u|] E Hs; try done;
    rewrite scope_chain_step in E; injection E as -> E.
  - by destruct s.
  - by eapply IH.
Qed.
