(* ===== verification/NodeHealth.v ===== *)
(** Node health (src/node_health.cpp,
    include/scylladb/alternator/node_health.h): the store that classifies every
    known node as active, quarantined or down from the results reported for it.

    [std::map<Url, NodeHealthStatus>] orders and identifies its keys with
    [operator<], which compares printed URLs: the map is a [gmap] from the
    printed URL to the stored key and status, and iterates in ascending order
    of the printed URL.  Counters are [uint32_t]. *)
From S2P Require Import Prelude Uri Effects.

Inductive NodeHealthObservation := Success | ServerError | ConnectionFailure.
Inductive NodeHealthState := Active | Quarantined | Down.

#[global] Instance NodeHealthObservation_eq_dec : EqDecision NodeHealthObservation.
Proof. solve_decision. Defined.
#[global] Instance NodeHealthState_eq_dec : EqDecision NodeHealthState.
Proof. solve_decision. Defined.

Record NodeHealthStoreConfig := mkHealthConfig {
  consecutive_server_error_threshold : Z;
  quarantine_success_threshold : Z;
  down_node_probe_period : Z;
  quarantine_traffic_interval : Z;
  disabled : bool;
}.

Definition default_health_config : NodeHealthStoreConfig :=
  mkHealthConfig 3 3 30000 10 false.

Record NodeHealthStatus := mkStatus {
  state : NodeHealthState;
  consecutive_server_errors : Z;
  consecutive_successes : Z;
  updated : Z;
}.

Record NodeHealthStore := mkStore {
  health_config : NodeHealthStoreConfig;
  statuses_ : gmap string (Url * NodeHealthStatus);
}.

Definition set_statuses (s : NodeHealthStore) (m : gmap string (Url * NodeHealthStatus)) :=
  mkStore (health_config s) m.

(** The three zero checks of the constructor. *)
Definition normalize_health_config (c : NodeHealthStoreConfig) : NodeHealthStoreConfig :=
  let at_least_1 z := if z =? 0 then 1 else z in
  mkHealthConfig (at_least_1 (consecutive_server_error_threshold c))
    (at_least_1 (quarantine_success_threshold c))
    (down_node_probe_period c)
    (at_least_1 (quarantine_traffic_interval c))
    (disabled c).

(** Iteration over [statuses_]. *)
Definition status_entries (s : NodeHealthStore) : list (Url * NodeHealthStatus) :=
  url_entries (statuses_ s).

Definition GetNodesByState (st : NodeHealthState) (s : NodeHealthStore) : list Url :=
  sort_urls (map fst (filter (λ e, state e.2 = st) (status_entries s))).

Definition Store_GetActiveNodes (s : NodeHealthStore) : list Url :=
  if disabled (health_config s) then sort_urls (map fst (status_entries s))
  else GetNodesByState Active s.
Definition Store_GetQuarantinedNodes (s : NodeHealthStore) : list Url :=
  if disabled (health_config s) then [] else GetNodesByState Quarantined s.
Definition Store_GetDownNodes (s : NodeHealthStore) : list Url :=
  if disabled (health_config s) then [] else GetNodesByState Down s.

Definition GetNodeStatus (node : Url) (s : NodeHealthStore) : option NodeHealthStatus :=
  match statuses_ s !! Url_ToString node with
  | Some (_, st) => Some st
  | None => None
  end.

(** [now] is the reading of the steady clock. *)
Definition AddNode (now : Z) (node : Url) (s : NodeHealthStore) : NodeHealthStore :=
  match statuses_ s !! Url_ToString node with
  | Some _ => s
  | None =>
      set_statuses s (<[Url_ToString node :=
        (node, mkStatus Active 0 (quarantine_success_threshold (health_config s)) now)]>
        (statuses_ s))
  end.

Definition RemoveNode (node : Url) (s : NodeHealthStore) : NodeHealthStore :=
  set_statuses s (delete (Url_ToString node) (statuses_ s)).

(** The [switch] of [ReportNodeResult] and the assignment after it. *)
Definition observe (c : NodeHealthStoreConfig) (now : Z) (observation : NodeHealthObservation)
    (st : NodeHealthStatus) : NodeHealthStatus :=
  match observation with
  | Success =>
      match state st with
      | Down => mkStatus Quarantined 0 1 now
      | Quarantined =>
          let successes := u32 (consecutive_successes st + 1) in
          if quarantine_success_threshold c <=? successes
          then mkStatus Active 0 (quarantine_success_threshold c) now
          else mkStatus Quarantined 0 successes now
      | Active => mkStatus Active 0 (quarantine_success_threshold c) now
      end
  | ServerError =>
      let errors := u32 (consecutive_server_errors st + 1) in
      mkStatus (if consecutive_server_error_threshold c <=? errors then Down else state st)
        errors 0 now
  | ConnectionFailure =>
      mkStatus Down (consecutive_server_error_threshold c) 0 now
  end.

Definition Store_ReportNodeResult (now : Z) (node : Url) (observation : NodeHealthObservation)
    (s : NodeHealthStore) : NodeHealthStore :=
  if disabled (health_config s) then s
  else match statuses_ s !! Url_ToString node with
       | None => s
       | Some (key, st) =>
           set_statuses s (<[Url_ToString node :=
             (key, observe (health_config s) now observation st)]> (statuses_ s))
       end.

(** The same with its reading of the clock, which the early returns skip. *)
Definition Store_Report {W} `{World W} (node : Url) (observation : NodeHealthObservation)
    : M (NodeHealthStore * W) unit :=
  s ← gets fst;
  if disabled (health_config s) || bool_decide (statuses_ s !! Url_ToString node = None)
  then mret tt
  else now ← on_world steady_now;
       modify (λ σ, (Store_ReportNodeResult now node observation σ.1, σ.2)).

(** The constructor; the clock is read once for every node added. *)
Fixpoint add_nodes {W} `{World W} (nodes : list Url) (s : NodeHealthStore) (w : W)
    : NodeHealthStore * W :=
  match nodes with
  | [] => (s, w)
  | node :: nodes =>
      let '(now, w) := match statuses_ s !! Url_ToString node with
                       | Some _ => (0, w)
                       | None => steady_now w
                       end in
      add_nodes nodes (AddNode now node s) w
  end.
Definition NodeHealthStore_make {W} `{World W} (c : NodeHealthStoreConfig)
    (initial_nodes : list Url) (w : W) : NodeHealthStore * W :=
  add_nodes initial_nodes (mkStore (normalize_health_config c) ∅) w.

(** [ProbeDownNodes]; the probe may act on the world and may throw. *)
Section probing.
Context {W : Type} `{World W}.
Context (probe : Url → NodeHealthStatus → W → result NodeHealthObservation * W).

Fixpoint probe_loop (candidates : list Url) : M (NodeHealthStore * W) (list Url) :=
  match candidates with
  | [] => mret []
  | node :: candidates =>
      status ← gets (λ σ, GetNodeStatus node σ.1);
      match status with
      | None => probe_loop candidates
      | Some status =>
          answer ← on_world (probe node status);
          observation ← lift_result answer;
          _ ← Store_Report node observation;
          responsive ← probe_loop candidates;
          mret (if bool_decide (observation = Success) then node :: responsive
                else responsive)
      end
  end.
End probing.

Definition Store_ProbeDownNodes {W} `{World W}
    (probe : option (Url → NodeHealthStatus → W → result NodeHealthObservation * W))
    : M (NodeHealthStore * W) (list Url) :=
  is_disabled ← gets (λ σ, disabled (health_config σ.1));
  match probe with
  | Some probe =>
      if (is_disabled : bool) then mret []
      else candidates ← gets (λ σ, Store_GetDownNodes σ.1); probe_loop probe candidates
  | None => mret []
  end.

(** ** The status of one node under a sequence of observations *)

Definition health_config_ok (c : NodeHealthStoreConfig) : Prop :=
  1 <= consecutive_server_error_threshold c < 2 ^ 32 ∧
  1 <= quarantine_success_threshold c < 2 ^ 32 ∧
  1 <= quarantine_traffic_interval c < 2 ^ 32.

Definition health_config_u32 (c : NodeHealthStoreConfig) : Prop :=
  is_u32 (consecutive_server_error_threshold c) ∧
  is_u32 (quarantine_success_threshold c) ∧
  is_u32 (quarantine_traffic_interval c).

Lemma normalize_ok c : health_config_u32 c → health_config_ok (normalize_health_config c).
Proof.
  unfold health_config_u32, health_config_ok, normalize_health_config. ranges. simpl.
  intros. repeat case_match; lia.
Qed.

(** The counters each state allows. *)
Definition status_ok (c : NodeHealthStoreConfig) (st : NodeHealthStatus) : Prop :=
  is_u32 (consecutive_server_errors st) ∧
  match state st with
  | Active =>
      consecutive_server_errors st < consecutive_server_error_threshold c ∧
      (consecutive_successes st = 0 ∨
       consecutive_successes st = quarantine_success_threshold c)
  | Quarantined =>
      consecutive_server_errors st < consecutive_server_error_threshold c ∧
      0 <= consecutive_successes st ∧
      (consecutive_successes st < quarantine_success_threshold c ∨
       consecutive_successes st = 1)
  | Down => consecutive_successes st = 0
  end.

Lemma fresh_status_ok c now :
  health_config_ok c → status_ok c (mkStatus Active 0 (quarantine_success_threshold c) now).
Proof. unfold health_config_ok, status_ok. simpl. ranges. Qed.

(** [observe_cases] splits on the observation, the state and the two threshold
    tests, with the counter increments computed. *)
Ltac observe_cases st :=
  unfold observe; destruct st as [[] errs succs ?]; simpl in *;
  repeat match goal with
    | |- context [u32 (?x + 1)] => rewrite (u32_small (x + 1)) by ranges
    | |- context [?x <=? ?y] => destruct (Z.leb_spec x y); simpl in *
    end.

Lemma observe_ok c now o st :
  health_config_ok c → status_ok c st → status_ok c (observe c now o st).
Proof.
  intros (Ce & Cs & _) [He Hs]. pose proof (u32_range (consecutive_server_errors st + 1)).
  destruct o; [| |unfold status_ok; simpl; ranges].
  - unfold status_ok. observe_cases st; ranges.
  - unfold status_ok. destruct st as [[] errs succs ?]; simpl in *;
      destruct (Z.leb_spec (consecutive_server_error_threshold c) (u32 (errs + 1)));
      simpl; ranges.
Qed.

Definition run_observations (c : NodeHealthStoreConfig) (obs : list (Z * NodeHealthObservation))
    (st : NodeHealthStatus) : NodeHealthStatus :=
  foldl (λ st '(now, o), observe c now o st) st obs.

Lemma run_snoc c obs now o st :
  run_observations c (obs ++ [(now, o)]) st = observe c now o (run_observations c obs st).
Proof. unfold run_observations. by rewrite foldl_app. Qed.

Lemma run_ok c obs st :
  health_config_ok c → status_ok c st → status_ok c (run_observations c obs st).
Proof.
  intros Hc Hs. induction obs as [|[now o] obs IH] using rev_ind; [done|].
  rewrite run_snoc. by apply observe_ok.
Qed.

(** [obs] ends in, or has, [n] consecutive observations [o]. *)
Definition ends_in (o : NodeHealthObservation) (n : Z) (obs : list (Z * NodeHealthObservation)) :=
  ∃ pre, obs.*2 = pre ++ replicate (Z.to_nat n) o.
Definition has_streak (o : NodeHealthObservation) (n : Z) (obs : list (Z * NodeHealthObservation)) :=
  ∃ pre post, obs.*2 = pre ++ replicate (Z.to_nat n) o ++ post.

Lemma ends_in_0 o obs : ends_in o 0 obs.
Proof. exists obs.*2. by rewrite app_nil_r. Qed.
Lemma ends_in_snoc o n obs now :
  0 <= n → ends_in o n obs → ends_in o (n + 1) (obs ++ [(now, o)]).
Proof.
  intros Hn [pre E]. exists pre. rewrite fmap_app, E. simpl.
  replace (Z.to_nat (n + 1)) with (Z.to_nat n + 1)%nat by lia.
  by rewrite replicate_add, <-app_assoc.
Qed.
Lemma ends_in_1 o obs now : ends_in o 1 (obs ++ [(now, o)]).
Proof. apply (ends_in_snoc o 0); [lia|]. apply ends_in_0. Qed.
Lemma ends_in_streak o n m obs : m <= n → ends_in o n obs → has_streak o m obs.
Proof.
  intros Hm [pre E]. exists pre, (replicate (Z.to_nat n - Z.to_nat m) o).
  rewrite E, <-replicate_add. do 2 f_equal. lia.
Qed.
Lemma has_streak_snoc o n obs x : has_streak o n obs → has_streak o n (obs ++ [x]).
Proof.
  intros (pre & post & E). exists pre, (post ++ [x.2]).
  by rewrite fmap_app, E, !app_assoc.
Qed.

(** A node leaves the active pool only on a connection failure or after
    [consecutive_server_error_threshold] server errors in a row. *)
Lemma stays_active c now obs :
  health_config_ok c →
  let st := run_observations c obs (mkStatus Active 0 (quarantine_success_threshold c) now) in
  state st = Active ∧ ends_in ServerError (consecutive_server_errors st) obs ∨
  ConnectionFailure ∈ obs.*2 ∨
  has_streak ServerError (consecutive_server_error_threshold c) obs.
Proof.
  intros Hc st0. subst st0. induction obs as [|[t o] obs IH] using rev_ind.
  { left. split; [done|]. apply ends_in_0. }
  rewrite run_snoc, fmap_app. destruct IH as [[Ha He]|[IH|IH]];
    [|set_solver|by right; right; apply has_streak_snoc].
  assert (status_ok c (run_observations c obs
    (mkStatus Active 0 (quarantine_success_threshold c) now))) as Hok
    by (by apply run_ok, fresh_status_ok).
  destruct Hok as [Hu Hok]. rewrite Ha in Hok. destruct Hc as (Hc & _).
  set (st := run_observations _ _ _) in *.
  destruct o; [left| |right; left; set_solver].
  - unfold observe. rewrite Ha. simpl. split; [done|]. apply ends_in_0.
  - unfold observe. rewrite Ha. simpl. rewrite u32_small by ranges.
    assert (ends_in ServerError (consecutive_server_errors st + 1) (obs ++ [(t, ServerError)]))
      by (apply ends_in_snoc; [ranges|done]).
    destruct (Z.leb_spec (consecutive_server_error_threshold c)
                (consecutive_server_errors st + 1)); simpl; [right; right|by left].
    by eapply ends_in_streak.
Qed.

(** From down, [quarantine_success_threshold] successes in a row are needed. *)
Lemma promotion_streak c obs st :
  health_config_ok c → status_ok c st → state st = Down →
  let st' := run_observations c obs st in
  state st' = Down ∨
  state st' = Quarantined ∧ ends_in Success (consecutive_successes st') obs ∨
  has_streak Success (quarantine_success_threshold c) obs.
Proof.
  intros Hc Hok Hd st'. subst st'. induction obs as [|[t o] obs IH] using rev_ind; [by left|].
  rewrite run_snoc. pose proof (run_ok c obs st Hc Hok) as [Hu Hok'].
  set (st' := run_observations c obs st) in *. destruct Hc as (_ & Hc & _).
  destruct IH as [Ed|[[Eq He]|IH]]; [| |by right; right; apply has_streak_snoc];
    destruct o; unfold observe; simpl; [| |by left| | |by left].
  - rewrite Ed. right. left. split; [done|]. apply ends_in_1.
  - rewrite Ed. left. by destruct (_ <=? _).
  - rewrite Eq in Hok' |- *. rewrite u32_small by ranges.
    assert (ends_in Success (consecutive_successes st' + 1) (obs ++ [(t, Success)]))
      by (apply ends_in_snoc; [lia|done]).
    destruct (Z.leb_spec (quarantine_success_threshold c) (consecutive_successes st' + 1)); simpl.
    + right. right. by eapply ends_in_streak.
    + right. left. done.
  - rewrite Eq. destruct (_ <=? _); [by left|]. right. left. split; [done|]. apply ends_in_0.
Qed.

(** The exact promotion schedule of an undisturbed recovery. *)
Lemma recovery_schedule c (ts : list Z) st :
  health_config_ok c → status_ok c st → state st = Down →
  let st' := run_observations c (map (λ t, (t, Success)) ts) st in
  let n := Z.of_nat (length ts) in
  let needed := Z.max 2 (quarantine_success_threshold c) in
  match state st' with
  | Down => n = 0
  | Quarantined => 1 <= n < needed ∧ consecutive_successes st' = n
  | Active => needed <= n
  end.
Proof.
  intros (_ & Hc & _) _ Hd st'. subst st'.
  induction ts as [|t ts IH] using rev_ind; [by simpl; rewrite Hd|].
  rewrite map_app, length_app. simpl map. rewrite run_snoc. simpl length.
  set (st' := run_observations _ _ st) in *.
  rewrite Nat2Z.inj_add. change (Z.of_nat 1) with 1.
  simpl in IH. simpl. unfold observe. destruct (state st'); simpl; try lia.
  destruct IH as [Hn Es]. rewrite Es.
  rewrite u32_small by ranges.
  destruct (Z.leb_spec (quarantine_success_threshold c) (Z.of_nat (length ts) + 1)); simpl; lia.
Qed.

(** A connection failure, or a full streak of server errors, takes any node
    down, whatever its counters. *)
Lemma server_errors_stay_down c (ts : list Z) st :
  state st = Down → state (run_observations c (map (λ t, (t, ServerError)) ts) st) = Down.
Proof.
  intros Hd. induction ts as [|t ts IH] using rev_ind; [done|].
  rewrite map_app. simpl map. rewrite run_snoc. unfold observe. simpl. rewrite IH. by destruct (_ <=? _).
Qed.
Lemma streak_takes_down c (ts : list Z) st :
  health_config_ok c → status_ok c st →
  consecutive_server_error_threshold c <= Z.of_nat (length ts) →
  state (run_observations c (map (λ t, (t, ServerError)) ts) st) = Down.
Proof.
  intros Hc Hok Hl.
  cut (let st' := run_observations c (map (λ t, (t, ServerError)) ts) st in
    state st' = Down ∨ Z.of_nat (length ts) <= consecutive_server_errors st' <
      consecutive_server_error_threshold c).
  { intros [?|?]; [done|simpl in *; lia]. }
  clear Hl. induction ts as [|t ts IH] using rev_ind.
  { destruct Hok as [Hu Hok]. simpl. destruct (state st); ranges; auto; right; lia. }
  rewrite map_app, length_app. simpl map. rewrite run_snoc. simpl length.
  rewrite Nat2Z.inj_add. set (st' := run_observations _ _ st) in *.
  destruct Hc as (Hc & _). unfold observe. simpl. destruct IH as [->|IH].
  { left. by destruct (_ <=? _). }
  rewrite u32_small by ranges.
  destruct (Z.leb_spec (consecutive_server_error_threshold c)
    (consecutive_server_errors st' + 1)); [by left|right; simpl; lia].
Qed.

(** ** The store *)

Definition entry_ok (c : NodeHealthStoreConfig) (k : string) (e : Url * NodeHealthStatus) : Prop :=
  k = Url_ToString e.1 ∧ status_ok c e.2.

(** Normalised thresholds, keys that are their nodes' printed form, statuses
    whose counters fit their state. *)
Definition wf_store (s : NodeHealthStore) : Prop :=
  health_config_ok (health_config s) ∧ map_Forall (entry_ok (health_config s)) (statuses_ s).

Lemma wf_AddNode now node s : wf_store s → wf_store (AddNode now node s).
Proof.
  intros [Hc Hm]. unfold AddNode. destruct (_ !! _) as [e|] eqn:E; [done|].
  split; [done|]. simpl. apply map_Forall_insert_2; [|done].
  split; [done|]. by apply fresh_status_ok.
Qed.
Lemma wf_RemoveNode node s : wf_store s → wf_store (RemoveNode node s).
Proof. intros [Hc Hm]. split; [done|]. by apply map_Forall_delete. Qed.
Lemma wf_Report now node o s : wf_store s → wf_store (Store_ReportNodeResult now node o s).
Proof.
  intros [Hc Hm]. unfold Store_ReportNodeResult. destruct (disabled _); [done|].
  destruct (_ !! _) as [[k st]|] eqn:E; [|done]. split; [done|]. simpl.
  apply map_Forall_insert_2; [|done]. destruct (Hm _ _ E) as [Hk Hs].
  split; [done|]. by apply observe_ok.
Qed.
#[export] Hint Resolve wf_AddNode wf_RemoveNode wf_Report : alternator.

Lemma wf_add_nodes {W} `{World W} nodes s (w : W) : wf_store s → wf_store (add_nodes nodes s w).1.
Proof.
  revert s w. induction nodes as [|n nodes IH]; intros s w Hs; [done|]. simpl.
  destruct (match _ with Some _ => _ | None => _ end) as [now w']. auto with alternator.
Qed.
Lemma config_AddNode now node s : health_config (AddNode now node s) = health_config s.
Proof. unfold AddNode. by case_match. Qed.
Lemma config_add_nodes {W} `{World W} nodes s (w : W) :
  health_config (add_nodes nodes s w).1 = health_config s.
Proof.
  revert s w. induction nodes as [|n nodes IH]; intros s w; [done|]. simpl.
  destruct (match _ with Some _ => _ | None => _ end) as [now w'].
  by rewrite IH, config_AddNode.
Qed.
Lemma wf_remove_nodes nodes s :
  wf_store s → wf_store (foldl (flip RemoveNode) s nodes) ∧
  health_config (foldl (flip RemoveNode) s nodes) = health_config s.
Proof.
  revert s. induction nodes as [|n nodes IH]; intros s Hs; [done|]. simpl.
  apply (IH (RemoveNode n s)). auto with alternator.
Qed.

Lemma wf_make {W} `{World W} c nodes (w : W) :
  health_config_u32 c → wf_store (NodeHealthStore_make c nodes w).1.
Proof.
  intros. apply wf_add_nodes. split; [by apply normalize_ok|]. apply map_Forall_empty.
Qed.

Lemma preserves_Report {W} `{World W} (I : NodeHealthStore → Prop) node o :
  (∀ now s, I s → I (Store_ReportNodeResult now node o s)) →
  preserves (λ σ : NodeHealthStore * W, I σ.1) (Store_Report node o).
Proof.
  intros HI. apply preserves_bind; [apply preserves_gets|]. intros s.
  case_match; [apply preserves_ret|].
  apply preserves_bind; [apply preserves_on_world|]. intros now.
  apply preserves_modify. intros σ. apply HI.
Qed.

Lemma preserves_ProbeDownNodes {W} `{World W} (I : NodeHealthStore → Prop) probe :
  (∀ now node o s, I s → I (Store_ReportNodeResult now node o s)) →
  preserves (λ σ : NodeHealthStore * W, I σ.1) (Store_ProbeDownNodes probe).
Proof.
  intros HI. apply preserves_bind; [apply preserves_gets|]. intros d.
  destruct probe as [probe|]; [|apply preserves_ret]. destruct d; [apply preserves_ret|].
  apply preserves_bind; [apply preserves_gets|]. intros candidates.
  induction candidates as [|node l IH]; [apply preserves_ret|]. simpl.
  apply preserves_bind; [apply preserves_gets|]. intros [st|]; [|done].
  apply preserves_bind; [apply preserves_on_world|]. intros a.
  apply preserves_bind; [apply preserves_lift|]. intros o.
  apply preserves_bind; [apply preserves_Report; auto|]. intros [].
  apply preserves_bind; [done|]. intros r. apply preserves_ret.
Qed.

(** *** Lookups after each operation *)

Lemma GetNodeStatus_AddNode now node s u :
  GetNodeStatus u (AddNode now node s) =
  if bool_decide (Url_ToString u = Url_ToString node) && bool_decide (GetNodeStatus u s = None)
  then Some (mkStatus Active 0 (quarantine_success_threshold (health_config s)) now)
  else GetNodeStatus u s.
Proof.
  unfold GetNodeStatus, AddNode. case_bool_decide as Eu; simpl.
  - rewrite Eu. destruct (statuses_ s !! Url_ToString node) as [[k st]|] eqn:E; simpl.
    + by rewrite E.
    + by rewrite lookup_insert_eq.
  - destruct (statuses_ s !! Url_ToString node) as [[k st]|] eqn:E; simpl; [done|].
    by rewrite lookup_insert_ne.
Qed.
Lemma GetNodeStatus_RemoveNode node s u :
  GetNodeStatus u (RemoveNode node s) =
  if bool_decide (Url_ToString u = Url_ToString node) then None else GetNodeStatus u s.
Proof.
  unfold GetNodeStatus, RemoveNode. simpl. case_bool_decide as Eu.
  - by rewrite Eu, lookup_delete_eq.
  - by rewrite lookup_delete_ne.
Qed.
Lemma GetNodeStatus_Report now node o s u :
  disabled (health_config s) = false →
  GetNodeStatus u (Store_ReportNodeResult now node o s) =
  if bool_decide (Url_ToString u = Url_ToString node)
  then observe (health_config s) now o <$> GetNodeStatus u s
  else GetNodeStatus u s.
Proof.
  intros Hd. unfold GetNodeStatus, Store_ReportNodeResult. rewrite Hd.
  case_bool_decide as Eu.
  - rewrite Eu. destruct (statuses_ s !! Url_ToString node) as [[k st]|] eqn:E; simpl.
    + by rewrite lookup_insert_eq.
    + by rewrite E.
  - destruct (statuses_ s !! Url_ToString node) as [[k st]|] eqn:E; simpl; [|done].
    by rewrite lookup_insert_ne.
Qed.

Lemma config_Report now node o s :
  health_config (Store_ReportNodeResult now node o s) = health_config s.
Proof.
  unfold Store_ReportNodeResult. destruct (disabled _); [done|].
  by destruct (_ !! _) as [[]|].
Qed.

(** *** Which nodes are stored *)

Definition stored (s : NodeHealthStore) (u : Url) : Prop :=
  ∃ st, statuses_ s !! Url_ToString u = Some (u, st).

Lemma stored_Report now node o s u :
  stored (Store_ReportNodeResult now node o s) u ↔ stored s u.
Proof.
  unfold stored, Store_ReportNodeResult. destruct (disabled _); [done|].
  destruct (statuses_ s !! Url_ToString node) as [[k st]|] eqn:E; [|done]. simpl.
  destruct (decide (Url_ToString u = Url_ToString node)) as [Eu|Eu].
  - rewrite Eu, E, lookup_insert_eq. split; intros [x ?]; simplify_eq; by eexists.
  - by rewrite lookup_insert_ne.
Qed.

Lemma stored_AddNode now node s u :
  stored (AddNode now node s) u ↔
  stored s u ∨ u = node ∧ statuses_ s !! Url_ToString node = None.
Proof.
  unfold stored, AddNode. destruct (statuses_ s !! Url_ToString node) as [e|] eqn:E.
  { split; [by left|]. by intros [?|[_ ?]]. }
  simpl. destruct (decide (Url_ToString u = Url_ToString node)) as [Eu|Eu].
  - rewrite Eu, E, lookup_insert_eq. split.
    + intros [x Hx]. simplify_eq. by right.
    + intros [[x Hx]|[-> _]]; [done|by eexists].
  - rewrite lookup_insert_ne by done. split; [by left|]. intros [?|[-> _]]; done.
Qed.

Lemma stored_RemoveNode node s u :
  stored (RemoveNode node s) u ↔ stored s u ∧ Url_ToString u ≠ Url_ToString node.
Proof.
  unfold stored, RemoveNode. simpl.
  destruct (decide (Url_ToString u = Url_ToString node)) as [Eu|Eu].
  - rewrite Eu, lookup_delete_eq. split; [by intros []|]. by intros [_ ?].
  - rewrite lookup_delete_ne by done. tauto.
Qed.

(** Adding nodes adds exactly them, when no two of the URLs involved print
    alike. *)
Lemma stored_add_nodes {W} `{World W} all nodes s (w : W) u :
  wf_store s → key_inj Url_ToString all → (∀ x, stored s x → x ∈ all) → nodes ⊆ all →
  stored (add_nodes nodes s w).1 u ↔ stored s u ∨ u ∈ nodes.
Proof.
  revert s w. induction nodes as [|n nodes IH]; intros s w Hs Hi Ha Hn; [set_solver|]. simpl.
  destruct (match _ with Some _ => _ | None => _ end) as [now w'].
  assert (∀ x, stored (AddNode now n s) x ↔ stored s x ∨ x = n) as Hadd.
  { intros x. rewrite stored_AddNode.
    destruct (statuses_ s !! Url_ToString n) as [[k st]|] eqn:E; [|tauto].
    assert (Url_ToString n = Url_ToString k) as Ek
      by (destruct Hs as [_ Hs]; by destruct (Hs _ _ E)).
    assert (stored s k) as Hk by (exists st; by rewrite <-Ek).
    assert (k = n) as -> by (apply Hi; [by apply Ha|set_solver|done]).
    split; [intuition|]. intros [?| ->]; by left. }
  rewrite IH; [|auto with alternator|done| |set_solver].
  - rewrite Hadd, elem_of_cons. tauto.
  - intros x. rewrite Hadd. intros [?| ->]; [by apply Ha|set_solver].
Qed.

Lemma stored_remove_nodes nodes s u :
  stored (foldl (flip RemoveNode) s nodes) u ↔
  stored s u ∧ Url_ToString u ∉ map Url_ToString nodes.
Proof.
  revert s. induction nodes as [|n nodes IH]; intros s; simpl; [set_solver|].
  rewrite IH. rewrite stored_RemoveNode, not_elem_of_cons. tauto.
Qed.

(** *** The three pools *)

(** Every node the store knows, in iteration order. *)
Definition known_nodes (s : NodeHealthStore) : list Url := map fst (status_entries s).

Lemma wf_keys_ok s : wf_store s → url_keys_ok (statuses_ s).
Proof. intros [_ Hm] k e He. by destruct (Hm k e He). Qed.
#[export] Hint Resolve wf_keys_ok : alternator.

Lemma elem_of_status_entries s e :
  wf_store s → e ∈ status_entries s ↔ statuses_ s !! Url_ToString e.1 = Some e.
Proof. intros. apply elem_of_url_entries. auto with alternator. Qed.
Lemma elem_of_known_nodes s u :
  wf_store s → u ∈ known_nodes s ↔ ∃ h, statuses_ s !! Url_ToString u = Some (u, h).
Proof. intros. apply elem_of_url_keys. auto with alternator. Qed.
Lemma known_nodes_NoDup s : wf_store s → NoDup (known_nodes s).
Proof. intros. apply url_entries_NoDup. auto with alternator. Qed.
Lemma known_nodes_key_inj s : wf_store s → key_inj Url_ToString (known_nodes s).
Proof. intros. apply url_entries_key_inj. auto with alternator. Qed.

Lemma elem_of_GetNodesByState st s u :
  wf_store s →
  u ∈ GetNodesByState st s ↔
  ∃ h, statuses_ s !! Url_ToString u = Some (u, h) ∧ state h = st.
Proof.
  intros Hs. unfold GetNodesByState. rewrite elem_of_sort_urls, list_elem_of_fmap. split.
  - intros ([v h] & -> & Hin). apply list_elem_of_filter in Hin as [Hst Hin].
    rewrite elem_of_status_entries in Hin by done. by exists h.
  - intros (h & Hl & Hst). exists (u, h). split; [done|].
    apply list_elem_of_filter. by rewrite elem_of_status_entries.
Qed.
Lemma entries_by_state (l : list (Url * NodeHealthStatus)) :
  filter (λ e, state e.2 = Active) l ++ filter (λ e, state e.2 = Quarantined) l ++
  filter (λ e, state e.2 = Down) l ≡ₚ l.
Proof.
  induction l as [|[u h] l IH]; [done|]. rewrite !filter_cons. simpl.
  destruct (state h); simpl; rewrite <-IH at 4; solve_Permutation.
Qed.

(** The pools the store hands out are together its known nodes, each once. *)
Lemma pools_partition s :
  Store_GetActiveNodes s ++ Store_GetQuarantinedNodes s ++ Store_GetDownNodes s
  ≡ₚ known_nodes s.
Proof.
  unfold Store_GetActiveNodes, Store_GetQuarantinedNodes, Store_GetDownNodes, sort_urls.
  destruct (disabled _).
  { rewrite !app_nil_r. apply key_sort_perm. }
  unfold GetNodesByState, sort_urls. rewrite !key_sort_perm, <-!map_app.
  unfold known_nodes. apply Permutation_map, entries_by_state.
Qed.
Lemma pools_NoDup s :
  wf_store s →
  NoDup (Store_GetActiveNodes s ++ Store_GetQuarantinedNodes s ++ Store_GetDownNodes s).
Proof. intros. rewrite pools_partition. by apply known_nodes_NoDup. Qed.
Lemma active_NoDup s : wf_store s → NoDup (Store_GetActiveNodes s).
Proof. intros Hs. by apply pools_NoDup, NoDup_app in Hs as (? & _). Qed.
Lemma quarantined_NoDup s : wf_store s → NoDup (Store_GetQuarantinedNodes s).
Proof.
  intros Hs. apply pools_NoDup, NoDup_app in Hs as (_ & _ & Hs).
  by apply NoDup_app in Hs as (? & _).
Qed.
Lemma active_sorted s : sorted_nodes (Store_GetActiveNodes s).
Proof. unfold Store_GetActiveNodes. case_match; apply sort_urls_sorted. Qed.
Lemma active_known s : Store_GetActiveNodes s ⊆ known_nodes s.
Proof. intros u Hu. rewrite <-pools_partition. set_solver. Qed.
Lemma quarantined_known s : Store_GetQuarantinedNodes s ⊆ known_nodes s.
Proof. intros u Hu. rewrite <-pools_partition. set_solver. Qed.
Lemma active_not_quarantined s u :
  wf_store s → u ∈ Store_GetActiveNodes s → u ∉ Store_GetQuarantinedNodes s.
Proof.
  intros Hs. apply pools_NoDup, NoDup_app in Hs as (_ & Hd & _). set_solver.
Qed.

Lemma quarantined_status s u :
  wf_store s → disabled (health_config s) = false →
  u ∈ Store_GetQuarantinedNodes s ↔
  ∃ h, statuses_ s !! Url_ToString u = Some (u, h) ∧ state h = Quarantined.
Proof.
  intros Hs Hd. unfold Store_GetQuarantinedNodes. rewrite Hd.
  by apply elem_of_GetNodesByState.
Qed.

(** *** Probing *)

Section probe_facts.
Context {W : Type} `{World W}.
Context (probe : Url → NodeHealthStatus → W → result NodeHealthObservation * W).

Definition state_of (u : Url) (s : NodeHealthStore) : option NodeHealthState :=
  state <$> GetNodeStatus u s.

(** What a loop over [candidates] that returned [responsive] did to [s]. *)
Definition probed (s : NodeHealthStore) (candidates responsive : list Url)
    (s' : NodeHealthStore) : Prop :=
  health_config s' = health_config s ∧ responsive ⊆ candidates ∧
  (∀ u, Url_ToString u ∉ map Url_ToString candidates →
        GetNodeStatus u s' = GetNodeStatus u s) ∧
  (∀ u, u ∈ candidates →
        state_of u s' = Some (if bool_decide (u ∈ responsive) then Quarantined else Down)).

Lemma Store_Report_run node o s (w : W) :
  disabled (health_config s) = false → is_Some (GetNodeStatus node s) →
  Store_Report node o (s, w) =
  (Ok tt, (Store_ReportNodeResult (steady_now w).1 node o s, (steady_now w).2)).
Proof.
  intros Hd Hn. unfold Store_Report, mbind, M_bind, gets, on_world, modify. simpl.
  rewrite Hd. unfold GetNodeStatus in Hn.
  destruct (statuses_ s !! Url_ToString node) eqn:E; [|by destruct Hn].
  simpl. by destruct (steady_now w).
Qed.

Lemma observe_down c now o st :
  state st = Down → state (observe c now o st) = if bool_decide (o = Success) then Quarantined else Down.
Proof. intros E. destruct o; unfold observe; rewrite ?E; simpl; by try destruct (_ <=? _). Qed.

Lemma probe_loop_spec candidates s (w : W) :
  disabled (health_config s) = false →
  NoDup (map Url_ToString candidates) →
  (∀ u, u ∈ candidates → state_of u s = Some Down) →
  match probe_loop probe candidates (s, w) with
  | (Ok responsive, (s', _)) => probed s candidates responsive s'
  | (Throw _, _) => True
  end.
Proof.
  revert s w. induction candidates as [|n l IH]; intros s w Hd ND HD.
  { by split_and!. }
  simpl. apply NoDup_cons in ND as [Hn ND].
  assert (state_of n s = Some Down) as Sn by (apply HD; set_solver).
  unfold mbind, M_bind, gets. simpl.
  destruct (GetNodeStatus n s) as [st|] eqn:En; unfold state_of in Sn; rewrite En in Sn;
    simpl in Sn; [|done].
  unfold on_world, lift_result. destruct (probe n st w) as [[o|e] w1]; [|done].
  rewrite Store_Report_run by (by rewrite ?En).
  set (s1 := Store_ReportNodeResult _ n o s). set (w2 := (steady_now w1).2).
  specialize (IH s1 w2). assert (health_config s1 = health_config s) as Hc by apply config_Report.
  rewrite Hc in IH. specialize (IH Hd ND).
  assert (∀ u, Url_ToString u ≠ Url_ToString n → GetNodeStatus u s1 = GetNodeStatus u s) as Ho.
  { intros u Hu. unfold s1. rewrite GetNodeStatus_Report by done.
    by rewrite bool_decide_eq_false_2. }
  assert (∀ u, u ∈ l → Url_ToString u ≠ Url_ToString n) as Hl.
  { intros u Hu E. apply Hn. rewrite <-E. by apply list_elem_of_fmap_2. }
  destruct (probe_loop probe l (s1, w2)) as [[r|e] [s' w']]; [|done].
  destruct IH as (Ec & Hsub & Hout & Hin).
  { intros u Hu. unfold state_of. rewrite Ho by auto. apply HD. set_solver. }
  assert (state_of n s' = Some (if bool_decide (o = Success) then Quarantined else Down)) as Sn'.
  { unfold state_of. rewrite Hout by done. unfold s1.
    rewrite GetNodeStatus_Report by done. rewrite bool_decide_eq_true_2 by done.
    rewrite En. simpl. rewrite observe_down; [done|congruence]. }
  assert (n ∉ l) as Hnl by (intros Hin'; by apply (Hl n)).
  simpl. split_and!; [by rewrite Ec|case_bool_decide; set_solver| |].
  - intros u Hu. rewrite Hout by set_solver. apply Ho. set_solver.
  - intros u Hu. apply elem_of_cons in Hu as [->|Hu].
    + rewrite Sn'. do 2 f_equal. repeat case_bool_decide; set_solver.
    + rewrite Hin by done. do 2 f_equal. assert (u ≠ n) by congruence.
      repeat case_bool_decide; set_solver.
Qed.
End probe_facts.

Lemma down_known s : Store_GetDownNodes s ⊆ known_nodes s.
Proof. intros u Hu. rewrite <-pools_partition. set_solver. Qed.

Lemma ProbeDownNodes_spec {W} `{World W} probe s (w : W) :
  wf_store s → disabled (health_config s) = false →
  match Store_ProbeDownNodes (Some probe) (s, w) with
  | (Ok responsive, (s', _)) => probed s (Store_GetDownNodes s) responsive s'
  | (Throw _, _) => True
  end.
Proof.
  intros Hs Hd. unfold Store_ProbeDownNodes, mbind, M_bind, gets. cbn [fst]. rewrite Hd.
  apply probe_loop_spec; [done| |].
  - change (map ?f ?l) with (f <$> l). apply NoDup_fmap_2_strong.
    + intros x y Hx Hy. apply (known_nodes_key_inj s Hs); by apply down_known.
    + apply pools_NoDup, NoDup_app in Hs as (_ & _ & Hs). by apply NoDup_app in Hs as (_ & _ & ?).
  - intros u. unfold Store_GetDownNodes. rewrite Hd. rewrite elem_of_GetNodesByState by done.
    intros (h & E & Eh). unfold state_of, GetNodeStatus. rewrite E. simpl. by rewrite Eh.
Qed.

(** A probe that never throws makes [ProbeDownNodes] return. *)
Lemma ProbeDownNodes_returns {W} `{World W} probe s (w : W) :
  (∀ n st w, ∃ o w', probe n st w = (Ok o, w')) →
  ∃ l s' w', Store_ProbeDownNodes (Some probe) (s, w) = (Ok l, (s', w')).
Proof.
  intros Hp. unfold Store_ProbeDownNodes, mbind, M_bind, gets. simpl.
  destruct (disabled (health_config s)); [by eexists _, _, _|].
  cbn [fst]. generalize (Store_GetDownNodes s) as l. intros l. revert s w.
  induction l as [|n l IH]; intros s w; [by eexists _, _, _|]. simpl.
  unfold mbind, M_bind, gets. simpl. destruct (GetNodeStatus n s) as [st|]; [|apply IH].
  unfold on_world, lift_result. destruct (Hp n st w) as (o & w1 & ->).
  assert (∃ s2 w2, Store_Report n o (s, w1) = (Ok tt, (s2, w2))) as (s2 & w2 & ->).
  { unfold Store_Report, mbind, M_bind, gets, on_world, modify. simpl.
    destruct (_ || _); [by eexists _, _|]. destruct (steady_now w1). by eexists _, _. }
  destruct (IH s2 w2) as (k & s3 & w3 & ->). by eexists _, _, _.
Qed.
