(* ===== verification/QueryPlan.v ===== *)
(** Query plans (src/query_plan.cpp, include/scylladb/alternator/query_plan.h):
    a per-request iterator over candidate nodes, in seeded random order, in
    sorted order, or with preferred nodes first; and the [NodesSource]
    interface plans are fed from.

    [QueryPlan_Next] is the whole method: preparation, the preferred-node loop
    and the removal of the picked node.  A plan is drained by calling it until
    it returns an empty URL ([drain_loop]). *)
From S2P Require Import Prelude Uri GoRandom.

Record QueryPlan := mkPlan {
  nodes_ : list Url;
  seed_ : Z;
  go_rng_ : option GoRandom;
  deterministic_order_ : bool;
  sort_nodes_ : bool;
  prepared_ : bool;
  preferred_nodes_ : list Url;
}.

(** The private constructor. *)
Definition QueryPlan_init (nodes : list Url) (seed : Z)
    (deterministic_order sort_nodes : bool) (preferred_nodes : list Url) : QueryPlan :=
  {| nodes_ := nodes; seed_ := i64 seed; go_rng_ := None;
     deterministic_order_ := deterministic_order; sort_nodes_ := sort_nodes;
     prepared_ := false; preferred_nodes_ := preferred_nodes |}.

(** [std::find] followed by [erase]: removes the first occurrence. *)
Fixpoint remove_first (target : Url) (nodes : list Url) : list Url :=
  match nodes with
  | [] => []
  | n :: nodes => if decide (n = target) then nodes else n :: remove_first target nodes
  end.

Definition PopNode (nodes : list Url) (target : Url) : option (Url * list Url) :=
  if bool_decide (target ∈ nodes) then Some (target, remove_first target nodes)
  else None.

(** The loop of [DedupePreservingOrder]; [out] is the output so far. *)
Fixpoint dedupe_onto (out nodes : list Url) : list Url :=
  match nodes with
  | [] => out
  | n :: nodes =>
      if Url_Empty n then dedupe_onto out nodes
      else if bool_decide (n ∈ out) then dedupe_onto out nodes
      else dedupe_onto (out ++ [n]) nodes
  end.
Definition DedupePreservingOrder (nodes : list Url) : list Url := dedupe_onto [] nodes.

(** [clock] is the reading of the high-resolution clock. *)
Definition SeedFromClock (clock : Z) : Z := u64 clock.
Definition QueryPlan_make (clock : Z) (nodes : list Url) : QueryPlan :=
  QueryPlan_init nodes (SeedFromClock clock) false false [].
Definition WithSeed (nodes : list Url) (seed : Z) : QueryPlan :=
  QueryPlan_init nodes (u64 seed) false false [].
Definition WithSortedSeed (nodes : list Url) (seed : Z) : QueryPlan :=
  QueryPlan_init nodes (u64 seed) false true [].
Definition WithPreferredNodes (nodes preferred_nodes : list Url) : QueryPlan :=
  QueryPlan_init nodes 0 true true preferred_nodes.
Definition WithPreferredNode (nodes : list Url) (preferred_node : Url) : QueryPlan :=
  WithPreferredNodes nodes (if Url_Empty preferred_node then [] else [preferred_node]).
Definition FromOrderedNodes (nodes : list Url) : QueryPlan :=
  QueryPlan_init (DedupePreservingOrder nodes) 0 true false [].

Definition Prepare (p : QueryPlan) : QueryPlan :=
  if prepared_ p then p
  else mkPlan (if sort_nodes_ p then sort_urls (nodes_ p) else nodes_ p)
         (seed_ p) (go_rng_ p) (deterministic_order_ p) (sort_nodes_ p) true
         (preferred_nodes_ p).

Definition set_nodes (p : QueryPlan) (nodes : list Url) (rng : option GoRandom) : QueryPlan :=
  mkPlan nodes (seed_ p) rng (deterministic_order_ p) (sort_nodes_ p)
    (prepared_ p) (preferred_nodes_ p).
Definition set_preferred (p : QueryPlan) (preferred nodes : list Url) : QueryPlan :=
  mkPlan nodes (seed_ p) (go_rng_ p) (deterministic_order_ p) (sort_nodes_ p)
    (prepared_ p) preferred.

(** [nodes[idx] = nodes.back(); nodes.pop_back();] *)
Definition swap_remove (idx : nat) (nodes : list Url) : list Url :=
  take (length nodes - 1)
    (<[idx := default Url_default (last nodes)]> nodes).

(** [PickAndRemove], called with a non-empty [nodes_]. *)
Definition PickAndRemove (p : QueryPlan) : result Url * QueryPlan :=
  if deterministic_order_ p then
    match nodes_ p with
    | [] => (Ok Url_default, p)
    | out :: nodes => (Ok out, set_nodes p nodes (go_rng_ p))
    end
  else
    let rng := match go_rng_ p with Some r => r | None => GoRandom_make (seed_ p) end in
    match Int31n rng (i32 (Z.of_nat (length (nodes_ p)))) with
    | Throw e => (Throw e, set_nodes p (nodes_ p) (Some rng))
    | Ok (v, rng) =>
        let idx := Z.to_nat v in
        (Ok (default Url_default (nodes_ p !! idx)),
         set_nodes p (swap_remove idx (nodes_ p)) (Some rng))
    end.

(** The [while (!preferred_nodes_.empty())] loop: the node it returns, if
    any, the preferred nodes left and the nodes left. *)
Fixpoint pop_preferred (preferred nodes : list Url) : option Url * list Url * list Url :=
  match preferred with
  | [] => (None, [], nodes)
  | p :: preferred =>
      if Url_Empty p then pop_preferred preferred nodes
      else match PopNode nodes p with
           | Some (out, nodes) => (Some out, preferred, nodes)
           | None => pop_preferred preferred nodes
           end
  end.

Definition QueryPlan_Next (p : QueryPlan) : result Url * QueryPlan :=
  let p := Prepare p in
  let '(out, preferred, nodes) := pop_preferred (preferred_nodes_ p) (nodes_ p) in
  let p := set_preferred p preferred nodes in
  match out with
  | Some u => (Ok u, p)
  | None =>
      match nodes_ p with
      | [] => (Ok Url_default, p)
      | _ => PickAndRemove p
      end
  end.

(** [for (node = plan.Next(); !node.Empty(); node = plan.Next()) out.push_back(node)];
    [None] when [fuel] calls were not enough. *)
Fixpoint drain_loop (fuel : nat) (p : QueryPlan) : option (result (list Url)) :=
  match fuel with
  | O => None
  | S fuel =>
      match QueryPlan_Next p with
      | (Throw e, _) => Some (Throw e)
      | (Ok u, p) =>
          if Url_Empty u then Some (Ok [])
          else match drain_loop fuel p with
               | Some (Ok l) => Some (Ok (u :: l))
               | r => r
               end
      end
  end.

(** Of src/key_route_affinity.cpp; every call but the last removes a node. *)
Definition DrainPlan (p : QueryPlan) : result (list Url) :=
  match drain_loop (S (length (nodes_ p))) p with
  | Some r => r
  | None => Throw out_of_fuel
  end.

Definition FirstNodeWithSeed (nodes : list Url) (seed : Z) : result Url :=
  let nodes := SortAndDedupeNodes nodes in
  match nodes with
  | [] => Ok Url_default
  | _ =>
      match Int31n (GoRandom_make seed) (i32 (Z.of_nat (length nodes))) with
      | Throw e => Throw e
      | Ok (v, _) => Ok (default Url_default (nodes !! Z.to_nat v))
      end
  end.

(** ** The interface plans are built from

    The methods of [NodesSource] are [const] in the source and still may move
    the counters of the live-node implementation, so each returns the source
    it leaves behind. *)
Class NodesSource (S : Type) := {
  ns_GetActiveNodes : S → list Url;
  ns_GetQueryPlanNodes : S → list Url * S;
  ns_GetQueryPlanNodesForHash : Z → S → result (list Url) * S;
  ns_GetDownNodes : S → list Url;
}.

(** The base class's implementations of the two optional methods. *)
Definition NodesSource_GetQueryPlanNodes {S} (active : S → list Url) (s : S) : list Url * S :=
  (active s, s).
Definition NodesSource_GetQueryPlanNodesForHash {S} (plan : S → list Url * S)
    (hash : Z) (s : S) : result (list Url) * S :=
  let '(l, s) := plan s in (Ok l, s).

Definition FromNodesSource {S} `{NodesSource S} (clock : Z) (source : S) : QueryPlan * S :=
  let '(nodes, source) := ns_GetQueryPlanNodes source in
  (QueryPlan_make clock nodes, source).

(** ** Removing nodes *)

Lemma remove_first_perm x l : x ∈ l → l ≡ₚ x :: remove_first x l.
Proof.
  induction l as [|y l IH]; intros Hx; [set_solver|]. simpl.
  case_decide as D; [by subst|].
  apply elem_of_cons in Hx as [->|Hx]; [done|].
  rewrite (IH Hx) at 1. apply Permutation_swap.
Qed.

Lemma remove_first_not_in x l : x ∉ l → remove_first x l = l.
Proof.
  induction l as [|y l IH]; intros Hx; [done|]. simpl.
  case_decide as D; [set_solver|]. rewrite IH; set_solver.
Qed.

Lemma remove_first_filter x l :
  NoDup l → remove_first x l = filter (λ y, y ≠ x) l.
Proof.
  induction 1 as [|y l Hy ND IH]; [done|]. simpl. rewrite filter_cons.
  case_decide as D; subst; case_decide; try done.
  - by rewrite filter_keep by (by intros z Hz ->).
  - by rewrite IH.
Qed.

Lemma swap_remove_perm (idx : nat) x l :
  l !! idx = Some x → l ≡ₚ x :: swap_remove idx l.
Proof.
  intros Hx. destruct l as [|z l' _] using rev_ind; [done|].
  unfold swap_remove. rewrite last_snoc. simpl default.
  rewrite length_app. replace (length l' + length [z] - 1)%nat with (length l') by (simpl; lia).
  destruct (decide (idx < length l')%nat) as [Hlt|Hge].
  - rewrite lookup_app_l in Hx by done.
    rewrite insert_app_l, take_app_length' by (try rewrite length_insert; done).
    rewrite (insert_take_drop l' idx z) by done.
    rewrite <-(take_drop_middle l' idx x) at 1 by done.
    solve_Permutation.
  - assert (idx = length l') as ->.
    { apply lookup_lt_Some in Hx. rewrite length_app in Hx. simpl in Hx. lia. }
    rewrite list_lookup_middle in Hx by done. simplify_eq.
    rewrite list_insert_id by (by apply list_lookup_middle).
    rewrite take_app_length. by rewrite Permutation_app_comm.
Qed.

Lemma pop_preferred_spec pref nodes :
  let '(out, pref', nodes') := pop_preferred pref nodes in
  match out with
  | Some u => u ∈ pref ∧ nodes ≡ₚ u :: nodes'
  | None => pref' = [] ∧ nodes' = nodes ∧
            Forall (λ u, Url_Empty u = true ∨ u ∉ nodes) pref
  end.
Proof.
  induction pref as [|p pref IH]; [done|]. simpl.
  destruct (Url_Empty p) eqn:Ep.
  - destruct (pop_preferred pref nodes) as [[[u|] pref'] nodes'];
      destruct_and?; split_and?; auto; set_solver.
  - unfold PopNode. case_bool_decide as Hin.
    + split; [set_solver|]. by apply remove_first_perm.
    + destruct (pop_preferred pref nodes) as [[[u|] pref'] nodes'];
        destruct_and?; split_and?; auto; set_solver.
Qed.

(** ** One call of [Next] *)

Definition wf_plan (p : QueryPlan) : Prop :=
  match go_rng_ p with Some r => wf_rng r | None => True end.

Definition nonempty_nodes (l : list Url) : Prop := Forall (λ u, Url_Empty u = false) l.

Lemma wf_init nodes seed d s pref : wf_plan (QueryPlan_init nodes seed d s pref).
Proof. done. Qed.

Lemma Prepare_nodes p : nodes_ (Prepare p) ≡ₚ nodes_ p.
Proof.
  unfold Prepare. destruct (prepared_ p); [done|]. simpl.
  destruct (sort_nodes_ p); [|done]. apply key_sort_perm.
Qed.

Lemma Prepare_idemp p : Prepare (Prepare p) = Prepare p.
Proof. unfold Prepare. by destruct (prepared_ p) eqn:E; simpl; rewrite ?E. Qed.

Lemma Next_Prepare p : QueryPlan_Next (Prepare p) = QueryPlan_Next p.
Proof. unfold QueryPlan_Next. by rewrite Prepare_idemp. Qed.

Lemma i32_length {A} (l : list A) :
  Z.of_nat (length l) < 2 ^ 31 → i32 (Z.of_nat (length l)) = Z.of_nat (length l).
Proof. intros. apply i32_small. lia. Qed.

Lemma PickAndRemove_spec p :
  wf_plan p → Z.of_nat (length (nodes_ p)) < 2 ^ 31 → nodes_ p ≠ [] →
  ∃ u p', PickAndRemove p = (Ok u, p') ∧ wf_plan p' ∧ nodes_ p ≡ₚ u :: nodes_ p'.
Proof.
  intros W Hl Hne. unfold PickAndRemove.
  destruct (deterministic_order_ p) eqn:Hd.
  - destruct (nodes_ p) as [|u l]; [done|]. by eexists _, _.
  - rewrite i32_length by done.
    set (rng := match go_rng_ p with Some r => r | None => _ end).
    assert (wf_rng rng) as Wr.
    { unfold wf_plan in W. subst rng. destruct (go_rng_ p); [done|]. apply wf_Seed. }
    destruct (Int31n_ok rng (Z.of_nat (length (nodes_ p)))) as (v & r' & -> & Hv & W').
    { done. }
    { destruct (nodes_ p); [done|]. simpl in *. lia. }
    destruct (lookup_lt_is_Some_2 (nodes_ p) (Z.to_nat v)) as [u Hu]; [lia|].
    rewrite Hu. eexists _, _. split_and!; [done|done|]. by apply swap_remove_perm.
Qed.

Lemma Next_spec p :
  wf_plan p → Z.of_nat (length (nodes_ p)) < 2 ^ 31 →
  ∃ u p', QueryPlan_Next p = (Ok u, p') ∧ wf_plan p' ∧
    (nodes_ p = [] ∧ u = Url_default ∧ nodes_ p' = [] ∨ nodes_ p ≡ₚ u :: nodes_ p').
Proof.
  intros W Hl. pose proof (Prepare_nodes p) as HP. rewrite <-Next_Prepare.
  assert (wf_plan (Prepare p)) as WP
    by (unfold wf_plan, Prepare in *; by destruct (prepared_ p)).
  assert (Z.of_nat (length (nodes_ (Prepare p))) < 2 ^ 31) as HlP by (by rewrite HP).
  unfold QueryPlan_Next. rewrite Prepare_idemp.
  pose proof (pop_preferred_spec (preferred_nodes_ (Prepare p)) (nodes_ (Prepare p))) as Hpop.
  destruct (pop_preferred _ _) as [[[u|] pref'] nodes'].
  - destruct Hpop as [_ Hn]. eexists _, _. split_and!; [done|done|].
    right. simpl. by rewrite <-HP.
  - destruct Hpop as (-> & -> & _). simpl.
    destruct (nodes_ (Prepare p)) as [|y l] eqn:En.
    + eexists _, _. split_and!; [done|done|]. left.
      split_and!; [by apply Permutation_nil|done|done].
    + destruct (PickAndRemove_spec (set_preferred (Prepare p) [] (y :: l)))
        as (u & p' & -> & W' & Hn); [done|by simpl|done|].
      eexists _, _. split_and!; [done|done|]. right. by rewrite <-HP.
Qed.

(** ** Draining a plan *)

Lemma drain_loop_spec fuel p :
  wf_plan p → Z.of_nat (length (nodes_ p)) < 2 ^ 31 → nonempty_nodes (nodes_ p) →
  (length (nodes_ p) < fuel)%nat →
  ∃ l, drain_loop fuel p = Some (Ok l) ∧ l ≡ₚ nodes_ p.
Proof.
  revert p. induction fuel as [|fuel IH]; intros p W Hl Hne Hf; [lia|]. simpl.
  destruct (Next_spec p) as (u & p' & -> & W' & [(E & -> & _)|Hn]); [done|done| |].
  { exists []. by rewrite E. }
  assert (Url_Empty u = false) as ->.
  { unfold nonempty_nodes in Hne. rewrite Hn in Hne. by apply Forall_cons_1 in Hne as [? _]. }
  assert (length (nodes_ p) = S (length (nodes_ p'))) as HL by (by rewrite Hn).
  destruct (IH p') as (l & -> & Hp); [done|lia| |lia|].
  { unfold nonempty_nodes in *. rewrite Hn in Hne. by apply Forall_cons_1 in Hne as [_ ?]. }
  exists (u :: l). split; [done|]. by rewrite Hn, Hp.
Qed.

Lemma DrainPlan_perm p :
  wf_plan p → Z.of_nat (length (nodes_ p)) < 2 ^ 31 → nonempty_nodes (nodes_ p) →
  ∃ l, DrainPlan p = Ok l ∧ l ≡ₚ nodes_ p.
Proof.
  intros W Hl Hne. unfold DrainPlan.
  destruct (drain_loop_spec (S (length (nodes_ p))) p) as (l & -> & Hp); auto. by exists l.
Qed.

Lemma Next_length p u p' :
  QueryPlan_Next p = (Ok u, p') → Url_Empty u = false →
  length (nodes_ p) = S (length (nodes_ p')).
Proof.
  intros E Hu. rewrite <-(Prepare_nodes p). rewrite <-Next_Prepare in E.
  unfold QueryPlan_Next in E. rewrite Prepare_idemp in E.
  pose proof (pop_preferred_spec (preferred_nodes_ (Prepare p)) (nodes_ (Prepare p))) as Hpop.
  destruct (pop_preferred _ _) as [[[v|] pref'] nodes'].
  { destruct Hpop as [_ ->]. by simplify_eq/=. }
  destruct Hpop as (-> & -> & _). simpl in E.
  destruct (nodes_ (Prepare p)) as [|y l] eqn:En; [by simplify_eq/=|].
  unfold PickAndRemove in E. simpl in E.
  destruct (deterministic_order_ _); [by simplify_eq/=|].
  destruct (Int31n _ _) as [[v r]|]; [|done]. simplify_eq/=.
  unfold swap_remove. rewrite length_take, length_insert. simpl. lia.
Qed.

(** Draining ends for every plan, also one that holds empty URLs. *)
Lemma drain_loop_total fuel p :
  (length (nodes_ p) < fuel)%nat → is_Some (drain_loop fuel p).
Proof.
  revert p. induction fuel as [|fuel IH]; intros p Hf; [lia|]. simpl.
  destruct (QueryPlan_Next p) as [[u|e] p'] eqn:E; [|done].
  destruct (Url_Empty u) eqn:Eu; [done|].
  apply Next_length in E; [|done].
  destruct (IH p') as [[l|e] ->]; [lia|done|done].
Qed.

(** The drained sequence depends on the plan only through [Next]. *)
Lemma DrainPlan_Prepare p : DrainPlan (Prepare p) = DrainPlan p.
Proof.
  unfold DrainPlan. rewrite (Prepare_nodes p). simpl. by rewrite Next_Prepare.
Qed.

(** ** First occurrences, in order *)

Lemma elem_of_dedupe_onto x out nodes :
  x ∈ dedupe_onto out nodes ↔ x ∈ out ∨ (x ∈ nodes ∧ Url_Empty x = false).
Proof.
  revert out. induction nodes as [|n nodes IH]; intros out; simpl.
  { rewrite elem_of_nil. tauto. }
  rewrite elem_of_cons.
  destruct (Url_Empty n) eqn:En; [|case_bool_decide]; rewrite IH.
  - destruct (decide (x = n)) as [->|]; [rewrite En; intuition done|tauto].
  - destruct (decide (x = n)) as [->|]; tauto.
  - rewrite elem_of_app, list_elem_of_singleton.
    destruct (decide (x = n)) as [->|]; tauto.
Qed.

Lemma dedupe_onto_NoDup out nodes : NoDup out → NoDup (dedupe_onto out nodes).
Proof.
  revert out. induction nodes as [|n nodes IH]; intros out ND; simpl; [done|].
  destruct (Url_Empty n); [by apply IH|]. case_bool_decide; [by apply IH|].
  apply IH. by apply NoDup_snoc.
Qed.

(** The part appended to [out]: the new first occurrences. *)
Lemma dedupe_onto_prefix out nodes : ∃ k, dedupe_onto out nodes = out ++ k.
Proof.
  revert out. induction nodes as [|n nodes IH]; intros out; simpl.
  { exists []. by rewrite app_nil_r. }
  destruct (Url_Empty n); [apply IH|]. case_bool_decide; [apply IH|].
  destruct (IH (out ++ [n])) as [k ->]. exists (n :: k). by rewrite <-app_assoc.
Qed.

Lemma dedupe_onto_filter out nodes :
  NoDup nodes → nonempty_nodes nodes →
  dedupe_onto out nodes = out ++ filter (λ n, n ∉ out) nodes.
Proof.
  intros ND. revert out. induction ND as [|n nodes Hn ND IH]; intros out Hne; simpl.
  { by rewrite app_nil_r. }
  apply Forall_cons_1 in Hne as [-> Hne]. rewrite filter_cons. case_bool_decide as D.
  - rewrite decide_False by tauto. by apply IH.
  - rewrite decide_True by done. rewrite IH by done. rewrite <-app_assoc. simpl. do 2 f_equal.
    apply filter_ext_elem. intros x Hx. rewrite not_elem_of_app.
    assert (x ≠ n) by congruence. set_solver.
Qed.

Lemma dedupe_id nodes :
  NoDup nodes → nonempty_nodes nodes → DedupePreservingOrder nodes = nodes.
Proof.
  intros. unfold DedupePreservingOrder. rewrite dedupe_onto_filter by done.
  simpl. apply filter_keep. set_solver.
Qed.

(** ** Plans with a fixed order *)

(** Preferred nodes that are candidates, then the other candidates. *)
Definition preferred_order (prefs nodes : list Url) : list Url :=
  filter (λ u, u ∈ nodes) prefs ++ filter (λ u, u ∉ prefs) nodes.

Lemma preferred_order_pop p prefs nodes :
  NoDup (p :: prefs) → NoDup nodes → p ∈ nodes →
  preferred_order (p :: prefs) nodes = p :: preferred_order prefs (remove_first p nodes).
Proof.
  intros [Hp ND]%NoDup_cons NDn Hin. unfold preferred_order.
  rewrite filter_cons_True by done. rewrite remove_first_filter by done. simpl. f_equal. f_equal.
  - apply filter_ext_elem. intros x Hx. rewrite list_elem_of_filter.
    assert (x ≠ p) by congruence. tauto.
  - rewrite list_filter_filter. apply list_filter_iff. intros x.
    rewrite not_elem_of_cons. tauto.
Qed.

Lemma preferred_order_skip p prefs nodes :
  p ∉ nodes → preferred_order (p :: prefs) nodes = preferred_order prefs nodes.
Proof.
  intros Hp. unfold preferred_order. rewrite filter_cons_False by done. f_equal.
  apply filter_ext_elem. intros x Hx. rewrite not_elem_of_cons.
  assert (x ≠ p) by congruence. tauto.
Qed.

Lemma pop_preferred_order prefs nodes :
  NoDup prefs → NoDup nodes → nonempty_nodes nodes →
  let '(out, prefs', nodes') := pop_preferred prefs nodes in
  match out with
  | Some u => preferred_order prefs nodes = u :: preferred_order prefs' nodes' ∧
              u ∈ nodes ∧ NoDup prefs' ∧ nodes' = remove_first u nodes
  | None => prefs' = [] ∧ nodes' = nodes ∧ preferred_order prefs nodes = nodes
  end.
Proof.
  intros NDp NDn Hne. induction NDp as [|p prefs Hp NDp IH].
  { split_and!; [done|done|]. unfold preferred_order. simpl.
    apply filter_keep. set_solver. }
  simpl. destruct (Url_Empty p) eqn:Ep.
  - rewrite preferred_order_skip; [done|]. intros Hin.
    unfold nonempty_nodes in Hne. rewrite Forall_forall in Hne.
    by rewrite Hne in Ep.
  - unfold PopNode. case_bool_decide as Hin.
    + split_and!; [|done|done|done]. by apply preferred_order_pop; [apply NoDup_cons|..].
    + by rewrite preferred_order_skip.
Qed.

Lemma remove_first_NoDup x l : NoDup l → NoDup (remove_first x l).
Proof. intros. rewrite remove_first_filter by done. by apply NoDup_filter. Qed.
Lemma remove_first_nonempty x l : nonempty_nodes l → nonempty_nodes (remove_first x l).
Proof.
  induction 1 as [|y l Hy F IH]; [constructor|]. simpl.
  case_decide; [done|]. by constructor.
Qed.

Lemma drain_deterministic fuel p :
  prepared_ p = true → deterministic_order_ p = true →
  NoDup (preferred_nodes_ p) → NoDup (nodes_ p) → nonempty_nodes (nodes_ p) →
  (length (nodes_ p) < fuel)%nat →
  drain_loop fuel p = Some (Ok (preferred_order (preferred_nodes_ p) (nodes_ p))).
Proof.
  revert p. induction fuel as [|fuel IH]; intros p Hp Hd NDp NDn Hne Hf; [lia|].
  cbn [drain_loop]. unfold QueryPlan_Next, Prepare. rewrite Hp.
  pose proof (pop_preferred_order _ _ NDp NDn Hne) as Hpop.
  destruct (pop_preferred _ _) as [[[u|] prefs'] nodes'].
  - destruct Hpop as (-> & Hu & ND' & ->).
    assert (Url_Empty u = false) as ->
      by (unfold nonempty_nodes in Hne; rewrite Forall_forall in Hne; auto).
    rewrite IH; simpl; auto using remove_first_NoDup, remove_first_nonempty.
    rewrite (remove_first_perm u (nodes_ p)) in Hf by done. simpl in Hf. lia.
  - destruct Hpop as (-> & -> & ->). simpl nodes_.
    destruct (nodes_ p) as [|u l] eqn:En; [done|].
    unfold PickAndRemove. simpl. rewrite Hd.
    apply NoDup_cons in NDn as [Hu NDl]. apply Forall_cons_1 in Hne as [-> Hne].
    rewrite IH; simpl; auto; [|constructor|simpl in Hf; lia].
    unfold preferred_order. simpl. by rewrite filter_keep by set_solver.
Qed.

Lemma sort_urls_NoDup l : NoDup l → NoDup (sort_urls l).
Proof. intros. unfold sort_urls. by rewrite key_sort_perm. Qed.
Lemma sort_urls_nonempty l : nonempty_nodes l → nonempty_nodes (sort_urls l).
Proof. intros. unfold nonempty_nodes, sort_urls in *. by rewrite key_sort_perm. Qed.

Lemma DrainPlan_preferred nodes prefs :
  NoDup nodes → NoDup prefs → nonempty_nodes nodes →
  DrainPlan (WithPreferredNodes nodes prefs) = Ok (preferred_order prefs (sort_urls nodes)).
Proof.
  intros. rewrite <-DrainPlan_Prepare. unfold DrainPlan.
  rewrite drain_deterministic; simpl; auto using sort_urls_NoDup, sort_urls_nonempty.
Qed.

Lemma DrainPlan_ordered nodes :
  NoDup nodes → nonempty_nodes nodes → DrainPlan (FromOrderedNodes nodes) = Ok nodes.
Proof.
  intros ND Hne. rewrite <-DrainPlan_Prepare. unfold DrainPlan.
  rewrite drain_deterministic; simpl; rewrite ?dedupe_id by done; auto.
  - unfold preferred_order. simpl. by rewrite filter_keep by set_solver.
  - constructor.
Qed.

(** ** Seeded plans *)

(** A sorted seeded plan depends on its nodes as a set only. *)
Lemma WithSortedSeed_perm nodes1 nodes2 seed :
  key_inj Url_ToString nodes1 → nodes1 ≡ₚ nodes2 →
  DrainPlan (WithSortedSeed nodes1 seed) = DrainPlan (WithSortedSeed nodes2 seed).
Proof.
  intros Hi E. rewrite <-DrainPlan_Prepare, <-(DrainPlan_Prepare (WithSortedSeed nodes2 _)).
  unfold Prepare. simpl. unfold sort_urls. by rewrite (key_sort_perm_eq _ nodes1 nodes2).
Qed.

Lemma FirstNodeWithSeed_Next nodes seed :
  is_i64 seed → key_inj Url_ToString nodes →
  FirstNodeWithSeed nodes seed =
  fst (QueryPlan_Next (WithSortedSeed (SortAndDedupeNodes nodes) seed)).
Proof.
  intros Hs Hi. unfold FirstNodeWithSeed, QueryPlan_Next, Prepare, WithSortedSeed. simpl.
  unfold sort_urls. rewrite key_sort_id.
  - destruct (SortAndDedupeNodes nodes) as [|u l]; [done|].
    unfold PickAndRemove. simpl. rewrite i64_u64, i64_small by done.
    by destruct (Int31n _ _) as [[v r]|].
  - eapply key_inj_subseteq; [|exact Hi]. intros x. by rewrite elem_of_SortAndDedupe.
  - apply SortAndDedupe_sorted.
Qed.

Lemma FirstNodeWithSeed_elem nodes seed :
  nodes ≠ [] → Z.of_nat (length (SortAndDedupeNodes nodes)) < 2 ^ 31 →
  ∃ u, FirstNodeWithSeed nodes seed = Ok u ∧ u ∈ nodes.
Proof.
  intros Hne Hl. unfold FirstNodeWithSeed. rewrite i32_length by done.
  destruct (SortAndDedupeNodes nodes) as [|y l] eqn:E.
  { rewrite SortAndDedupe_nil in E. done. }
  destruct (Int31n_ok (GoRandom_make seed) (Z.of_nat (length (y :: l))))
    as (v & r & -> & Hv & _); [apply wf_Seed|simpl in *; lia|].
  destruct (lookup_lt_is_Some_2 (y :: l) (Z.to_nat v)) as [u Hu]; [lia|].
  rewrite Hu. exists u. split; [done|].
  apply elem_of_SortAndDedupe. rewrite E. by eapply list_elem_of_lookup_2.
Qed.

(** The first node a drained plan yields is the one [Next] returns. *)
Lemma DrainPlan_head p u p' :
  QueryPlan_Next p = (Ok u, p') → Url_Empty u = false →
  ∀ l, DrainPlan p = Ok l → head l = Some u.
Proof.
  intros E Hu l. unfold DrainPlan. cbn [drain_loop]. rewrite E, Hu.
  pose proof (Next_length p u p' E Hu) as HL.
  destruct (drain_loop_total (length (nodes_ p)) p') as [[k|e] ->]; [lia| |done].
  intros. by simplify_eq/=.
Qed.
