(* ===== verification/KeyRouteAffinity.v ===== *)
(** Key-route affinity (src/key_route_affinity.cpp,
    include/scylladb/alternator/key_route_affinity.h): writes for the same
    partition key try the cluster's nodes in the same order, so that the
    read-before-write of lightweight transactions meets the same coordinator.

    The functions are generic in the source of nodes: they are defined for any
    [NodesSource] and their theorems are proved for any source that keeps the
    laws of [NodesSourceLaws]. *)
From S2P Require Import Prelude Uri GoRandom Murmur3 AttributeValue Effects QueryPlan.

Inductive KeyRouteAffinityMode := KRA_None | KRA_ReadBeforeWrite | KRA_AnyWrite.

Record KeyRouteAffinityConfig := mkAffinityConfig {
  mode : KeyRouteAffinityMode;
  partition_key_by_table : gmap string string;
  partition_key_discovery_attempts : Z;
  partition_key_discovery_initial_backoff : Z;
}.

Definition PartitionKeyMetadata : Type := gmap string string.

Definition SetPartitionKeyName (table_name partition_key_name : string)
    (m : PartitionKeyMetadata) : PartitionKeyMetadata := <[table_name := partition_key_name]> m.
Definition GetPartitionKeyName (table_name : string) (m : PartitionKeyMetadata) : string :=
  match (m : gmap string string) !! table_name with Some name => name | None => "" end.
Definition Snapshot (m : PartitionKeyMetadata) : gmap string string := m.

Record AttributeValue := mkAttributeValue {
  av_type : AttributeValueType;
  av_text : string;
  av_binary : list Z;
}.
Definition AttributeValue_String (value : string) := mkAttributeValue AVT_String value [].
Definition AttributeValue_Number (value : string) := mkAttributeValue AVT_Number value [].
Definition AttributeValue_Binary (value : list Z) := mkAttributeValue AVT_Binary "" value.

Definition AttributeValue_Hash (v : AttributeValue) : Z :=
  match av_type v with
  | AVT_Binary => HashBinaryAttributeValue (av_binary v)
  | t => HashAttributeValue t (av_text v)
  end.

Definition AttributeMap : Type := gmap string AttributeValue.

Inductive WriteOperationKind := PutItem | UpdateItem | DeleteItem.
Inductive ReturnValues := RV_NotSet | RV_None | RV_AllOld | RV_UpdatedOld | RV_AllNew | RV_UpdatedNew.
Inductive AttributeAction := Action_Put | Action_Add | Action_Delete.

Record AttributeUpdate := mkUpdate { action : AttributeAction; has_value : bool }.

Record WriteOperationOptions := mkWriteOptions {
  has_update_expression : bool;
  has_condition_expression : bool;
  has_expected : bool;
  return_values : ReturnValues;
  attribute_updates : list AttributeUpdate;
}.

Record BatchWriteOperation := mkBatchOp { table_name : string; op_values : AttributeMap }.
Definition BatchWriteOperation_Put (table : string) (item : AttributeMap) := mkBatchOp table item.
Definition BatchWriteOperation_Delete (table : string) (key : AttributeMap) := mkBatchOp table key.

Definition update_needs_read (u : AttributeUpdate) : bool :=
  match action u with
  | Action_Add => true
  | Action_Delete => has_value u
  | Action_Put => false
  end.

Definition is_all_old (r : ReturnValues) : bool :=
  match r with RV_AllOld => true | _ => false end.

Definition DoesWriteNeedReadBeforeWrite (kind : WriteOperationKind)
    (options : WriteOperationOptions) : bool :=
  match kind with
  | PutItem | DeleteItem =>
      has_expected options || has_condition_expression options ||
      is_all_old (return_values options)
  | UpdateItem =>
      if has_update_expression options || has_condition_expression options ||
         has_expected options then true
      else match return_values options with
           | RV_AllOld | RV_UpdatedOld | RV_AllNew => true
           | RV_NotSet | RV_None | RV_UpdatedNew =>
               existsb update_needs_read (attribute_updates options)
           end
  end.

Definition ShouldUseKeyRouteAffinity (m : KeyRouteAffinityMode) (kind : WriteOperationKind)
    (options : WriteOperationOptions) : bool :=
  match m with
  | KRA_None => false
  | KRA_ReadBeforeWrite => DoesWriteNeedReadBeforeWrite kind options
  | KRA_AnyWrite => true
  end.

Definition HashPartitionKey (values : AttributeMap) (table : string)
    (metadata : PartitionKeyMetadata) : result Z :=
  let key_name := GetPartitionKeyName table metadata in
  if bool_decide (key_name = "") then
    Throw (InvalidArgument ("partition key information not found for table " +:+ table))
  else match (values : gmap string AttributeValue) !! key_name with
       | None => Throw (InvalidArgument ("value for partition key " +:+ key_name +:+ " not found"))
       | Some v => Ok (AttributeValue_Hash v)
       end.

(** [AppendMissingNodes], the loop of [DedupePreservingOrder] over an output
    that may hold nodes already. *)
Definition AppendMissingNodes (out nodes : list Url) : list Url := dedupe_onto out nodes.

Fixpoint missing_onto (out nodes present : list Url) : list Url :=
  match nodes with
  | [] => out
  | n :: nodes =>
      if negb (Url_Empty n) && bool_decide (n ∉ present) && bool_decide (n ∉ out)
      then missing_onto (out ++ [n]) nodes present
      else missing_onto out nodes present
  end.
Definition NodesMissingFrom (nodes present : list Url) : list Url := missing_onto [] nodes present.

(** The hash of one operation's partition key; [None] where the loops
    [continue]. *)
Definition operation_hash (metadata : PartitionKeyMetadata) (op : BatchWriteOperation) : option Z :=
  let key_name := GetPartitionKeyName (table_name op) metadata in
  if bool_decide (key_name = "") then None
  else match (op_values op : gmap string AttributeValue) !! key_name with
       | None => None
       | Some v => Some (AttributeValue_Hash v)
       end.

Definition BatchWriteHashes (operations : list BatchWriteOperation)
    (metadata : PartitionKeyMetadata) : list Z :=
  omap (operation_hash metadata) operations.

(** [std::map<Url, int>], keyed by the printed URL; [++votes[node]]. *)
Definition Votes : Type := gmap string (Url * Z).
Definition add_vote (node : Url) (votes : Votes) : Votes :=
  match (votes : gmap string (Url * Z)) !! Url_ToString node with
  | Some (key, n) => <[Url_ToString node := (key, i32 (n + 1))]> (votes : gmap string (Url * Z))
  | None => <[Url_ToString node := (node, 1)]> (votes : gmap string (Url * Z))
  end.
Definition votes_at (votes : Votes) (node : Url) : Z :=
  match (votes : gmap string (Url * Z)) !! Url_ToString node with
  | Some (_, n) => n
  | None => 0
  end.

Fixpoint count_votes (candidate_nodes : list Url) (operations : list BatchWriteOperation)
    (metadata : PartitionKeyMetadata) (votes : Votes) : result Votes :=
  match operations with
  | [] => Ok votes
  | op :: operations =>
      match operation_hash metadata op with
      | None => count_votes candidate_nodes operations metadata votes
      | Some h =>
          node ← FirstNodeWithSeed candidate_nodes h;
          count_votes candidate_nodes operations metadata
            (if Url_Empty node then votes else add_vote node votes)
      end
  end.

(** The order of the final sort: more votes first, then the printed URL. *)
Definition vote_le (votes : Votes) (lhs rhs : Url) : Prop :=
  votes_at votes rhs < votes_at votes lhs ∨
  votes_at votes lhs = votes_at votes rhs ∧ Url_le lhs rhs.
#[global] Instance vote_le_dec votes : RelDecision (vote_le votes).
Proof. intros l r. unfold vote_le, Url_le. apply _. Defined.

Definition SelectBatchWritePreferredNodesForCandidates (candidate_nodes : list Url)
    (operations : list BatchWriteOperation) (metadata : PartitionKeyMetadata)
    : result (list Url) :=
  if bool_decide (candidate_nodes = []) then
    Throw (InvalidArgument "batch write request does not have candidate nodes")
  else
    votes ← count_votes candidate_nodes operations metadata ∅;
    if bool_decide ((votes : gmap string (Url * Z)) = ∅) then
      Throw (InvalidArgument "batch write request does not have usable preferred nodes")
    else
      let entries := url_entries (votes : gmap string (Url * Z)) in
      let preferred_nodes := map fst (filter (λ e, 0 < e.2) entries) in
      Ok (merge_sort (vote_le votes) preferred_nodes).

Section affinity_plans.
Context {S : Type} `{NodesSource S}.

Definition plan_nodes : M S (list Url) := λ s,
  let '(l, s) := ns_GetQueryPlanNodes s in (Ok l, s).

Fixpoint nodes_for_hashes (hashes : list Z) (out : list Url) : M S (list Url) :=
  match hashes with
  | [] => mret out
  | h :: hashes =>
      l ← (ns_GetQueryPlanNodesForHash h : M S (list Url));
      nodes_for_hashes hashes (AppendMissingNodes out l)
  end.
Definition QueryPlanNodesForHashes (hashes : list Z) : M S (list Url) :=
  out ← nodes_for_hashes hashes [];
  if bool_decide (out = []) then plan_nodes
  else mret out.

Definition AffinityNodes : M S (list Url) :=
  active_nodes ← gets ns_GetActiveNodes;
  if bool_decide (active_nodes = []) then plan_nodes
  else mret (SortAndDedupeNodes active_nodes).

Definition QueryPlanForPartitionKey (values : AttributeMap) (table : string)
    (metadata : PartitionKeyMetadata) : M S QueryPlan :=
  seed ← lift_result (HashPartitionKey values table metadata);
  active_nodes ← gets ns_GetActiveNodes;
  query_plan_nodes ← (ns_GetQueryPlanNodesForHash seed : M S (list Url));
  if bool_decide (active_nodes = []) then mret (WithSortedSeed query_plan_nodes seed)
  else
    let active_nodes := SortAndDedupeNodes active_nodes in
    let ordered_nodes := NodesMissingFrom query_plan_nodes active_nodes in
    seeded ← lift_result (DrainPlan (WithSortedSeed active_nodes seed));
    mret (FromOrderedNodes (AppendMissingNodes ordered_nodes seeded)).

Definition SelectBatchWritePreferredNodes (operations : list BatchWriteOperation)
    (metadata : PartitionKeyMetadata) : M S (list Url) :=
  candidates ← AffinityNodes;
  lift_result (SelectBatchWritePreferredNodesForCandidates candidates operations metadata).

Definition QueryPlanForBatchWrite (operations : list BatchWriteOperation)
    (metadata : PartitionKeyMetadata) : M S QueryPlan :=
  active_nodes ← gets ns_GetActiveNodes;
  query_plan_nodes ← QueryPlanNodesForHashes (BatchWriteHashes operations metadata);
  if bool_decide (active_nodes = []) then
    preferred ← lift_result
      (SelectBatchWritePreferredNodesForCandidates query_plan_nodes operations metadata);
    mret (WithPreferredNodes query_plan_nodes preferred)
  else
    let active_nodes := SortAndDedupeNodes active_nodes in
    let ordered_nodes := NodesMissingFrom query_plan_nodes active_nodes in
    preferred ← lift_result
      (SelectBatchWritePreferredNodesForCandidates active_nodes operations metadata);
    mret (FromOrderedNodes
      (AppendMissingNodes (AppendMissingNodes ordered_nodes preferred) active_nodes)).
End affinity_plans.

(** ** Partition-key metadata *)

Lemma GetPartitionKeyName_set table key m :
  GetPartitionKeyName table (SetPartitionKeyName table key m) = key.
Proof.
  unfold GetPartitionKeyName, SetPartitionKeyName, PartitionKeyMetadata in *.
  by rewrite lookup_insert_eq.
Qed.
Lemma GetPartitionKeyName_set_ne t table key m :
  t ≠ table →
  GetPartitionKeyName t (SetPartitionKeyName table key m) = GetPartitionKeyName t m.
Proof.
  intros Hne. unfold GetPartitionKeyName, SetPartitionKeyName, PartitionKeyMetadata in *.
  by rewrite lookup_insert_ne.
Qed.

(** ** What a source of nodes promises *)

(** A source the seeded order can be computed for. *)
Definition usable_nodes (l : list Url) : Prop :=
  nonempty_nodes l ∧ Z.of_nat (length l) + 1 < 2 ^ 31.

(** [l] offers every active node and at most one other. *)
Definition offers (active l : list Url) : Prop :=
  NoDup l ∧ nonempty_nodes l ∧ key_inj Url_ToString l ∧ active ⊆ l ∧
  (length (filter (λ u, u ∉ active) l) <= 1)%nat.

Class NodesSourceLaws (S : Type) `{NodesSource S} := {
  ns_inv : S → Prop;
  ns_active_law s :
    ns_inv s → NoDup (ns_GetActiveNodes s) ∧ key_inj Url_ToString (ns_GetActiveNodes s);
  ns_hash_law h s :
    ns_inv s → usable_nodes (ns_GetActiveNodes s) →
    ∃ l s', ns_GetQueryPlanNodesForHash h s = (Ok l, s') ∧ ns_inv s' ∧
      ns_GetActiveNodes s' = ns_GetActiveNodes s ∧ offers (ns_GetActiveNodes s) l;
  ns_plan_law s :
    ns_inv s → usable_nodes (ns_GetActiveNodes s) →
    ∃ l s', ns_GetQueryPlanNodes s = (l, s') ∧ ns_inv s' ∧
      ns_GetActiveNodes s' = ns_GetActiveNodes s ∧ offers (ns_GetActiveNodes s) l;
}.

(** ** Helpers on node lists *)

Lemma missing_onto_dedupe out nodes present :
  missing_onto out nodes present = dedupe_onto out (filter (λ n, n ∉ present) nodes).
Proof.
  revert out. induction nodes as [|n nodes IH]; intros out; [done|]. simpl.
  rewrite filter_cons. case_decide as D.
  - rewrite (bool_decide_eq_true_2 (n ∉ present)) by done. rewrite andb_true_r.
    simpl. destruct (Url_Empty n); simpl; [apply IH|].
    case_bool_decide; case_bool_decide; try done; apply IH.
  - rewrite (bool_decide_eq_false_2 (n ∉ present)) by tauto. rewrite andb_false_r. apply IH.
Qed.

Lemma nonempty_filter P `{∀ u, Decision (P u)} l : nonempty_nodes l → nonempty_nodes (filter P l).
Proof.
  unfold nonempty_nodes. rewrite !Forall_forall. intros Hl u Hu.
  apply list_elem_of_filter in Hu as [_ Hu]. by apply Hl.
Qed.

Lemma NodesMissingFrom_filter nodes present :
  NoDup nodes → nonempty_nodes nodes →
  NodesMissingFrom nodes present = filter (λ n, n ∉ present) nodes.
Proof.
  intros. unfold NodesMissingFrom. rewrite missing_onto_dedupe.
  apply dedupe_id; [by apply NoDup_filter|by apply nonempty_filter].
Qed.

Lemma AppendMissing_disjoint out nodes :
  NoDup nodes → nonempty_nodes nodes → (∀ u, u ∈ nodes → u ∉ out) →
  AppendMissingNodes out nodes = out ++ nodes.
Proof.
  intros. unfold AppendMissingNodes. rewrite dedupe_onto_filter by done.
  by rewrite filter_keep.
Qed.

Lemma usable_small l : usable_nodes l → Z.of_nat (length l) < 2 ^ 31.
Proof. intros [_ ?]. lia. Qed.
Lemma usable_perm l k : l ≡ₚ k → usable_nodes l → usable_nodes k.
Proof. unfold usable_nodes, nonempty_nodes. intros ->. done. Qed.

Lemma SortAndDedupe_perm l :
  NoDup l → key_inj Url_ToString l → SortAndDedupeNodes l ≡ₚ l.
Proof.
  intros ND Hi. apply NoDup_Permutation; auto with alternator.
  intros. apply elem_of_SortAndDedupe.
Qed.

(** ** Single-key plans *)

Section partition_key_plans.
Context {S : Type} `{NodesSourceLaws S}.

Lemma seeded_drain active seed :
  NoDup active → key_inj Url_ToString active → usable_nodes active →
  ∃ seeded, DrainPlan (WithSortedSeed (SortAndDedupeNodes active) seed) = Ok seeded ∧
    DrainPlan (WithSortedSeed active seed) = Ok seeded ∧ seeded ≡ₚ active.
Proof.
  intros ND Hi Hu.
  rewrite <-(WithSortedSeed_perm active) by (done || by rewrite SortAndDedupe_perm).
  destruct (DrainPlan_perm (WithSortedSeed active seed)) as (l & E & Hp);
    [done|by apply usable_small|apply Hu|].
  by exists l.
Qed.

Lemma QueryPlanForPartitionKey_run values table metadata seed s :
  ns_inv s → usable_nodes (ns_GetActiveNodes s) → ns_GetActiveNodes s ≠ [] →
  HashPartitionKey values table metadata = Ok seed →
  ∃ p s' extra seeded,
    QueryPlanForPartitionKey values table metadata s = (Ok p, s') ∧ ns_inv s' ∧
    DrainPlan p = Ok (extra ++ seeded) ∧
    DrainPlan (WithSortedSeed (ns_GetActiveNodes s) seed) = Ok seeded ∧
    seeded ≡ₚ ns_GetActiveNodes s ∧ (length extra <= 1)%nat ∧
    (∀ u, u ∈ extra → u ∉ ns_GetActiveNodes s).
Proof.
  intros Hs Hu Hne Hh. destruct (ns_active_law s Hs) as [ND Hi].
  destruct (ns_hash_law seed s Hs Hu) as (l & s' & El & Hs' & Ea & NDl & Nel & _ & Hsub & Hlen).
  destruct (seeded_drain _ seed ND Hi Hu) as (seeded & Ed & Ed' & Hp).
  assert (∀ u, u ∈ SortAndDedupeNodes (ns_GetActiveNodes s) ↔ u ∈ ns_GetActiveNodes s) as Hin
    by (intros; apply elem_of_SortAndDedupe).
  set (extra := filter (λ u, u ∉ ns_GetActiveNodes s) l) in *.
  assert (NodesMissingFrom l (SortAndDedupeNodes (ns_GetActiveNodes s)) = extra) as Ex.
  { rewrite NodesMissingFrom_filter by done. apply filter_ext_elem. intros u _. by rewrite Hin. }
  assert (∀ u, u ∈ extra → u ∉ ns_GetActiveNodes s) as Hex
    by (intros u Hx; by apply list_elem_of_filter in Hx as [? _]).
  assert (nonempty_nodes seeded) as Nes by (unfold nonempty_nodes; rewrite Hp; apply Hu).
  assert (NoDup seeded) as NDs by (by rewrite Hp).
  eexists _, s', extra, seeded.
  unfold QueryPlanForPartitionKey, mbind, M_bind, lift_result, gets, mret, M_ret.
  rewrite Hh, El, bool_decide_eq_false_2, Ed by done.
  split_and!; [done|done| |done|done|done|done].
  rewrite Ex, AppendMissing_disjoint by (done || intros u Hx; rewrite Hp in Hx; set_solver).
  apply DrainPlan_ordered.
  - apply NoDup_app. split_and!; [by apply NoDup_filter|intros u; rewrite Hp; apply Hex|done].
  - apply Forall_app. split; [by apply nonempty_filter|done].
Qed.
End partition_key_plans.

(** ** Counting votes *)

(** Occurrences of [u]. *)
Definition tally (l : list Url) (u : Url) : Z := Z.of_nat (length (filter (λ v, v = u) l)).

Lemma tally_snoc l x u : tally (l ++ [x]) u = tally l u + (if decide (x = u) then 1 else 0).
Proof.
  unfold tally. rewrite filter_app, length_app, filter_cons.
  destruct (decide (x = u)); simpl; lia.
Qed.
Lemma tally_bound l u : 0 <= tally l u <= Z.of_nat (length l).
Proof. unfold tally. pose proof (length_filter (λ v, v = u) l). lia. Qed.
Lemma tally_not_in l u : u ∉ l → tally l u = 0.
Proof. intros Hu. unfold tally. by rewrite filter_drop by (by intros v Hv ->). Qed.
Lemma tally_pos l u : u ∈ l → 0 < tally l u.
Proof.
  intros Hu. unfold tally. destruct (filter _ l) as [|v k] eqn:E; [|simpl; lia].
  assert (u ∈ filter (λ v, v = u) l) as Hf by (by apply list_elem_of_filter).
  rewrite E in Hf. set_solver.
Qed.
Lemma tally_perm l k u : l ≡ₚ k → tally l u = tally k u.
Proof. intros E. unfold tally. by rewrite E. Qed.

Definition cast_votes (l : list Url) : Votes := foldl (flip add_vote) ∅ l.

Lemma cast_votes_spec l :
  key_inj Url_ToString l → Z.of_nat (length l) < 2 ^ 31 →
  (∀ u, u ∈ l → (cast_votes l : gmap string (Url * Z)) !! Url_ToString u = Some (u, tally l u)) ∧
  (∀ k, k ∉ map Url_ToString l → (cast_votes l : gmap string (Url * Z)) !! k = None).
Proof.
  induction l as [|x l IH] using rev_ind; intros Hi Hl.
  { split; [set_solver|]. intros k _. apply lookup_empty. }
  rewrite length_app in Hl. simpl in Hl. destruct IH as [IHin IHout]; [|lia|].
  { eapply key_inj_subseteq; [|exact Hi]. set_solver. }
  assert (cast_votes (l ++ [x]) = add_vote x (cast_votes l)) as ->
    by (unfold cast_votes; by rewrite foldl_app).
  assert (∃ n, add_vote x (cast_votes l) =
    <[Url_ToString x := (x, n)]> (cast_votes l : gmap string (Url * Z)) ∧
    n = tally (l ++ [x]) x) as (n & -> & Hn).
  { rewrite tally_snoc, decide_True by done. unfold add_vote.
    pose proof (tally_bound l x). destruct (decide (x ∈ l)) as [Hx|Hx].
    - rewrite (IHin x Hx). eexists. split; [done|]. rewrite i32_small; lia.
    - rewrite IHout; [eexists; split; [done|]; rewrite tally_not_in; done|].
      intros Hk. apply list_elem_of_fmap in Hk as (y & Ey & Hy).
      apply Hx. by rewrite (Hi x y) by set_solver. }
  split.
  - intros u Hu. destruct (decide (Url_ToString u = Url_ToString x)) as [E|E].
    + assert (u = x) as -> by (apply Hi; set_solver). by rewrite lookup_insert_eq, Hn.
    + assert (x ≠ u) by congruence. rewrite lookup_insert_ne by done.
      rewrite IHin by set_solver. by rewrite tally_snoc, decide_False, Z.add_0_r.
  - intros k Hk. rewrite map_app in Hk. simpl in Hk.
    rewrite lookup_insert_ne by set_solver. apply IHout. set_solver.
Qed.

(** The tally is independent of the order in which votes are cast. *)
Lemma cast_votes_perm l k :
  key_inj Url_ToString l → Z.of_nat (length l) < 2 ^ 31 → l ≡ₚ k → cast_votes l = cast_votes k.
Proof.
  intros Hi Hl E.
  assert (key_inj Url_ToString k) as Hi'
    by (eapply key_inj_subseteq; [|exact Hi]; intros u; by rewrite E).
  destruct (cast_votes_spec l) as [L1 L2]; [done|done|].
  destruct (cast_votes_spec k) as [K1 K2]; [done|by rewrite <-E|].
  apply map_eq. intros i. destruct (decide (i ∈ map Url_ToString l)) as [Hin|Hout].
  - apply list_elem_of_fmap in Hin as (u & -> & Hu).
    rewrite L1, K1 by (done || by rewrite <-E). by rewrite (tally_perm l k).
  - rewrite L2, K2; [done| |done]. intros Hk. apply Hout.
    change (i ∈ Url_ToString <$> l). change (i ∈ Url_ToString <$> k) in Hk. by rewrite E.
Qed.

Lemma cast_votes_keys_ok l :
  key_inj Url_ToString l → Z.of_nat (length l) < 2 ^ 31 →
  url_keys_ok (cast_votes l : gmap string (Url * Z)).
Proof.
  intros Hi Hl k e He. destruct (cast_votes_spec l) as [L1 L2]; [done|done|].
  destruct (decide (k ∈ map Url_ToString l)) as [Hin|Hout].
  - apply list_elem_of_fmap in Hin as (u & -> & Hu). rewrite L1 in He by done. by simplify_eq/=.
  - by rewrite L2 in He.
Qed.

Lemma votes_at_cast l u :
  key_inj Url_ToString l → Z.of_nat (length l) < 2 ^ 31 → u ∈ l →
  votes_at (cast_votes l) u = tally l u.
Proof.
  intros Hi Hl Hu. destruct (cast_votes_spec l) as [L1 _]; [done|done|].
  unfold votes_at. by rewrite L1.
Qed.

(** ** The preferred nodes of a batch *)

#[global] Instance vote_le_trans votes : Transitive (vote_le votes).
Proof.
  intros x y z [H1|[E1 L1]] [H2|[E2 L2]]; unfold vote_le; [left; lia..|right].
  split; [lia|]. unfold Url_le in *. by etrans.
Qed.
#[global] Instance vote_le_total votes : Total (vote_le votes).
Proof.
  intros x y. unfold vote_le.
  destruct (Z.lt_trichotomy (votes_at votes x) (votes_at votes y)) as [?|[?|?]]; auto.
  destruct (total Url_le x y); auto.
Qed.

Definition preferred_by_votes (votes : Votes) : list Url :=
  merge_sort (vote_le votes)
    (map fst (filter (λ e, 0 < e.2) (url_entries (votes : gmap string (Url * Z))))).

Lemma preferred_by_votes_spec l :
  key_inj Url_ToString l → Z.of_nat (length l) < 2 ^ 31 →
  let preferred := preferred_by_votes (cast_votes l) in
  NoDup preferred ∧ (∀ u, u ∈ preferred ↔ u ∈ l) ∧
  StronglySorted (λ u v, tally l v < tally l u ∨ tally l u = tally l v ∧ Url_le u v) preferred.
Proof.
  intros Hi Hl preferred. pose proof (cast_votes_keys_ok l Hi Hl) as Hk.
  destruct (cast_votes_spec l Hi Hl) as [L1 L2].
  assert (∀ u n, (cast_votes l : gmap string (Url * Z)) !! Url_ToString u = Some (u, n) →
    u ∈ l ∧ n = tally l u) as Hlook.
  { intros u n E. destruct (decide (Url_ToString u ∈ map Url_ToString l)) as [Hin|Hout].
    - apply list_elem_of_fmap in Hin as (v & Ev & Hv). rewrite Ev, L1 in E by done.
      by simplify_eq.
    - by rewrite L2 in E. }
  assert (filter (λ e, 0 < e.2) (url_entries (cast_votes l : gmap string (Url * Z))) =
    url_entries (cast_votes l : gmap string (Url * Z))) as Ef.
  { apply filter_keep. intros [u n] Hin. rewrite elem_of_url_entries in Hin by done.
    apply Hlook in Hin as [Hu ->]. by apply tally_pos. }
  assert (preferred ≡ₚ map fst (url_entries (cast_votes l : gmap string (Url * Z)))) as Hp.
  { unfold preferred, preferred_by_votes. rewrite Ef. apply merge_sort_Permutation. }
  assert (∀ u, u ∈ preferred ↔ u ∈ l) as Hin.
  { intros u. rewrite Hp, elem_of_url_keys by done. split.
    - intros [n E]. by apply Hlook in E as [? _].
    - intros Hu. eexists. by apply L1. }
  split_and!; [rewrite Hp; auto with alternator|done|].
  assert (StronglySorted (vote_le (cast_votes l)) preferred) as Hs
    by (apply StronglySorted_merge_sort; apply _).
  eapply StronglySorted_weaken; [done|]. intros u v Hu Hv. rewrite Hin in Hu, Hv.
  unfold vote_le. by rewrite !votes_at_cast.
Qed.

(** The node each usable operation votes for. *)
Definition first_node (candidates : list Url) (h : Z) : Url :=
  match FirstNodeWithSeed candidates h with Ok u => u | Throw _ => Url_default end.
Definition ballots (candidates : list Url) (operations : list BatchWriteOperation)
    (metadata : PartitionKeyMetadata) : list Url :=
  map (first_node candidates) (BatchWriteHashes operations metadata).

(** Candidates on which the vote is defined. *)
Definition votable (candidates : list Url) : Prop :=
  candidates ≠ [] ∧ usable_nodes candidates ∧ key_inj Url_ToString candidates.

Lemma votable_small candidates :
  votable candidates → Z.of_nat (length (SortAndDedupeNodes candidates)) < 2 ^ 31.
Proof.
  intros (_ & Hu & Hi). apply usable_small in Hu.
  assert (length (SortAndDedupeNodes candidates) <= length candidates)%nat; [|lia].
  apply submseteq_length, NoDup_submseteq; auto with alternator.
  intros u. by rewrite elem_of_SortAndDedupe.
Qed.

Lemma votable_first candidates h :
  votable candidates →
  FirstNodeWithSeed candidates h = Ok (first_node candidates h) ∧
  first_node candidates h ∈ candidates ∧ Url_Empty (first_node candidates h) = false.
Proof.
  intros Hv. destruct (FirstNodeWithSeed_elem candidates h) as (u & E & Hu);
    [apply Hv|by apply votable_small|].
  unfold first_node. rewrite E. split_and!; [done|done|].
  destruct Hv as (_ & [Hn _] & _). unfold nonempty_nodes in Hn. rewrite Forall_forall in Hn. auto.
Qed.

Lemma count_votes_run candidates operations metadata votes :
  votable candidates →
  count_votes candidates operations metadata votes =
  Ok (foldl (flip add_vote) votes (ballots candidates operations metadata)).
Proof.
  intros Hv. revert votes. induction operations as [|op ops IH]; intros votes; [done|].
  unfold ballots, BatchWriteHashes. simpl.
  destruct (operation_hash metadata op) as [h|]; [|apply IH].
  destruct (votable_first candidates h Hv) as (-> & _ & En). simpl. rewrite En. apply IH.
Qed.

Lemma ballots_candidates candidates operations metadata :
  votable candidates → ballots candidates operations metadata ⊆ candidates.
Proof.
  intros Hv u Hu. unfold ballots in Hu. apply list_elem_of_fmap in Hu as (h & -> & _).
  by apply votable_first.
Qed.
Lemma ballots_length candidates operations metadata :
  (length (ballots candidates operations metadata) <= length operations)%nat.
Proof.
  unfold ballots, BatchWriteHashes. rewrite length_map.
  induction operations as [|op ops IH]; [done|]. simpl.
  unfold omap in *. destruct (operation_hash metadata op); simpl; lia.
Qed.

Lemma add_vote_nonempty u votes : (add_vote u votes : gmap string (Url * Z)) ≠ ∅.
Proof. unfold add_vote. destruct (_ !! _) as [[]|]; apply insert_non_empty. Qed.

Lemma ballots_perm candidates operations1 operations2 metadata :
  operations1 ≡ₚ operations2 →
  ballots candidates operations1 metadata ≡ₚ ballots candidates operations2 metadata.
Proof.
  intros Hp. unfold ballots, BatchWriteHashes. apply Permutation_map.
  induction Hp as [|x l k _ IH|x y l|l k m _ IH1 _ IH2]; simpl.
  - done.
  - destruct (operation_hash metadata x); [by apply perm_skip|done].
  - destruct (operation_hash metadata x), (operation_hash metadata y); try done. apply perm_swap.
  - by etrans.
Qed.

Lemma SelectForCandidates_run candidates operations metadata :
  votable candidates →
  SelectBatchWritePreferredNodesForCandidates candidates operations metadata =
  if bool_decide (ballots candidates operations metadata = [])
  then Throw (InvalidArgument "batch write request does not have usable preferred nodes")
  else Ok (preferred_by_votes (cast_votes (ballots candidates operations metadata))).
Proof.
  intros Hv. unfold SelectBatchWritePreferredNodesForCandidates.
  rewrite bool_decide_eq_false_2 by apply Hv. rewrite count_votes_run by done.
  cbn [mbind result_bind]. change (foldl _ ∅ ?l) with (cast_votes l).
  destruct (ballots candidates operations metadata) as [|u l _] using rev_ind; [done|].
  rewrite (bool_decide_eq_false_2 (l ++ [u] = [])) by (by destruct l).
  rewrite bool_decide_eq_false_2; [done|].
  unfold cast_votes. rewrite foldl_app. apply add_vote_nonempty.
Qed.

(** The vote does not depend on how the candidates are listed. *)
Lemma ballots_sorted candidates operations metadata :
  key_inj Url_ToString candidates →
  ballots (SortAndDedupeNodes candidates) operations metadata =
  ballots candidates operations metadata.
Proof.
  intros Hi. unfold ballots. apply map_ext. intros h. unfold first_node, FirstNodeWithSeed.
  rewrite SortAndDedupe_id; auto with alternator.
  eapply key_inj_subseteq; [|exact Hi]. intros u. by rewrite elem_of_SortAndDedupe.
Qed.

(** *** The vote by plans

    The node that the plan of an operation on its own would try first. *)
Definition first_choice (active : list Url) (metadata : PartitionKeyMetadata)
    (op : BatchWriteOperation) : option Url :=
  match HashPartitionKey (op_values op) (table_name op) metadata with
  | Throw _ => None
  | Ok h => match DrainPlan (WithSortedSeed active h) with Ok l => head l | Throw _ => None end
  end.
Definition backing (active : list Url) (metadata : PartitionKeyMetadata)
    (operations : list BatchWriteOperation) (u : Url) : Z :=
  Z.of_nat (length (filter (λ op, first_choice active metadata op = Some u) operations)).

Lemma AttributeValue_Hash_range v : is_i64 (AttributeValue_Hash v).
Proof. unfold AttributeValue_Hash. destruct (av_type v); apply Murmur3H1_range. Qed.
Lemma operation_hash_key metadata op :
  operation_hash metadata op =
  match HashPartitionKey (op_values op) (table_name op) metadata with
  | Ok h => Some h
  | Throw _ => None
  end.
Proof. unfold operation_hash, HashPartitionKey. case_bool_decide; [done|]. by destruct (_ !! _). Qed.
Lemma first_node_drain active h :
  is_i64 h → NoDup active → votable active →
  ∃ l, DrainPlan (WithSortedSeed active h) = Ok (first_node active h :: l).
Proof.
  intros Hh ND Hv. pose proof Hv as (Hne & Hu & Hi).
  destruct (seeded_drain active h ND Hi Hu) as (l & Es & -> & _).
  destruct (votable_first active h Hv) as (Ef & _ & Hemp).
  rewrite (FirstNodeWithSeed_Next active h Hh Hi) in Ef.
  destruct (QueryPlan_Next _) as [r p'] eqn:En. cbn in Ef. subst r.
  pose proof (DrainPlan_head _ _ _ En Hemp l Es) as Hl.
  destruct l as [|u l]; simplify_eq/=. by exists l.
Qed.
Lemma ballots_choices active operations metadata :
  NoDup active → votable active →
  ballots active operations metadata = omap (first_choice active metadata) operations.
Proof.
  intros ND Hv. unfold ballots, BatchWriteHashes. induction operations as [|op ops IH]; [done|].
  cbn. rewrite operation_hash_key. unfold first_choice at 1.
  destruct (HashPartitionKey _ _ _) as [h|e] eqn:Eh; [|exact IH].
  assert (is_i64 h) as Hh.
  { unfold HashPartitionKey in Eh. case_bool_decide; [done|].
    destruct (_ !! _); simplify_eq. apply AttributeValue_Hash_range. }
  destruct (first_node_drain active h Hh ND Hv) as [l ->]. cbn. by f_equal.
Qed.
Lemma tally_omap {A} (f : A → option Url) l u :
  tally (omap f l) u = Z.of_nat (length (filter (λ x, f x = Some u) l)).
Proof.
  unfold tally. f_equal. induction l as [|x l IH]; [done|]. rewrite filter_cons. cbn.
  destruct (f x) as [v|] eqn:E; [|by rewrite decide_False by done].
  rewrite filter_cons. destruct (decide (v = u)) as [->|Hv].
  - rewrite decide_True by done. cbn. by f_equal.
  - by rewrite decide_False by congruence.
Qed.
Lemma tally_backing active operations metadata u :
  NoDup active → votable active →
  tally (ballots active operations metadata) u = backing active metadata operations u.
Proof. intros ND Hv. rewrite ballots_choices by done. apply tally_omap. Qed.
Lemma tally_pos_iff l u : u ∈ l ↔ 0 < tally l u.
Proof.
  split; [apply tally_pos|]. intros Hp. destruct (decide (u ∈ l)) as [|Hn]; [done|].
  rewrite tally_not_in in Hp by done. lia.
Qed.

(** ** Batch plans *)

Lemma dedupe_onto_nonempty out nodes : nonempty_nodes out → nonempty_nodes (dedupe_onto out nodes).
Proof.
  unfold nonempty_nodes. rewrite !Forall_forall. intros Hn u Hu.
  rewrite elem_of_dedupe_onto in Hu. destruct Hu as [Hu|[_ Hu]]; auto.
Qed.

Lemma votable_sorted l : NoDup l → votable l → votable (SortAndDedupeNodes l).
Proof.
  intros ND (Hne & Hu & Hi). split_and!.
  - rewrite SortAndDedupe_nil. done.
  - eapply usable_perm; [|done]. by rewrite SortAndDedupe_perm.
  - eapply key_inj_subseteq; [|exact Hi]. intros u. by rewrite elem_of_SortAndDedupe.
Qed.

(** The preferred nodes are the ones voted for, each once, by votes. *)
Lemma preferred_ballots candidates operations metadata :
  votable candidates → Z.of_nat (length operations) < 2 ^ 31 →
  let votes := ballots candidates operations metadata in
  let preferred := preferred_by_votes (cast_votes votes) in
  NoDup preferred ∧ (∀ u, u ∈ preferred ↔ u ∈ votes) ∧
  StronglySorted (λ u v, tally votes v < tally votes u ∨
                         tally votes u = tally votes v ∧ Url_le u v) preferred.
Proof.
  intros Hv Hops. apply preferred_by_votes_spec.
  - eapply key_inj_subseteq; [|apply Hv]. by apply ballots_candidates.
  - pose proof (ballots_length candidates operations metadata). lia.
Qed.

(** The preferred nodes and the rest are together the candidates. *)
Lemma preferred_rest_perm active operations metadata :
  NoDup active → votable active → Z.of_nat (length operations) < 2 ^ 31 →
  let preferred := preferred_by_votes (cast_votes (ballots active operations metadata)) in
  preferred ++ filter (λ u, u ∉ preferred) (SortAndDedupeNodes active) ≡ₚ active.
Proof.
  intros ND Hv Hops preferred. assert (key_inj Url_ToString active) as Hi by apply Hv.
  destruct (preferred_ballots active operations metadata Hv Hops) as (NDp & Hin & _).
  fold preferred in NDp, Hin. etrans; [|exact (SortAndDedupe_perm active ND Hi)].
  apply NoDup_Permutation; [|by apply SortAndDedupe_NoDup|].
  - apply NoDup_app. split_and!; [done| |by apply NoDup_filter, SortAndDedupe_NoDup].
    intros u Hup Hf. by apply list_elem_of_filter in Hf as [? _].
  - intros u. rewrite elem_of_app, list_elem_of_filter, elem_of_SortAndDedupe, Hin.
    pose proof (ballots_candidates active operations metadata Hv u).
    destruct (decide (u ∈ ballots active operations metadata)); tauto.
Qed.

(** The order the three appends of [QueryPlanForBatchWrite] build. *)
Lemma batch_order l active preferred :
  NoDup l → nonempty_nodes l → NoDup active → key_inj Url_ToString active →
  nonempty_nodes active → NoDup preferred → preferred ⊆ active →
  DrainPlan (FromOrderedNodes
    (AppendMissingNodes
      (AppendMissingNodes (NodesMissingFrom l (SortAndDedupeNodes active)) preferred)
      (SortAndDedupeNodes active))) =
  Ok (filter (λ u, u ∉ active) l ++ preferred ++
      filter (λ u, u ∉ preferred) (SortAndDedupeNodes active)).
Proof.
  intros NDl Nel NDa Hi Nea NDp Hpa. pose proof (SortAndDedupe_perm active NDa Hi) as Hp.
  set (extra := filter (λ u, u ∉ active) l).
  assert (∀ u, u ∈ extra → u ∉ active) as Hex
    by (intros u Hx; by apply list_elem_of_filter in Hx as [? _]).
  assert (nonempty_nodes (SortAndDedupeNodes active)) as Nes
    by (unfold nonempty_nodes; by rewrite Hp).
  assert (nonempty_nodes preferred) as Nep.
  { unfold nonempty_nodes in *. rewrite Forall_forall in *. auto. }
  assert (NoDup (SortAndDedupeNodes active)) as NDs by (by rewrite Hp).
  rewrite NodesMissingFrom_filter by done.
  rewrite (filter_ext_elem _ (λ u, u ∉ active)) by (intros; by rewrite elem_of_SortAndDedupe).
  fold extra. rewrite (AppendMissing_disjoint extra preferred) by set_solver.
  unfold AppendMissingNodes. rewrite dedupe_onto_filter by done. rewrite <-app_assoc.
  rewrite (filter_ext_elem (λ n, n ∉ extra ++ preferred) (λ n, n ∉ preferred)).
  2:{ intros u Hua. rewrite elem_of_SortAndDedupe in Hua. rewrite not_elem_of_app. set_solver. }
  apply DrainPlan_ordered.
  - apply NoDup_app. split_and!; [by apply NoDup_filter| |].
    + intros u Hue Hup. apply (Hex u Hue). rewrite elem_of_app, list_elem_of_filter in Hup.
      rewrite elem_of_SortAndDedupe in Hup. set_solver.
    + apply NoDup_app. split_and!; [done| |by apply NoDup_filter].
      intros u Hup Hf. by apply list_elem_of_filter in Hf as [? _].
  - apply Forall_app. split; [by apply nonempty_filter|].
    apply Forall_app. split; [done|by apply nonempty_filter].
Qed.

Section batch_plans.
Context {S : Type} `{NodesSourceLaws S}.

Lemma nodes_for_hashes_run hashes out s :
  ns_inv s → usable_nodes (ns_GetActiveNodes s) → NoDup out → nonempty_nodes out →
  ∃ l s', nodes_for_hashes hashes out s = (Ok l, s') ∧ ns_inv s' ∧
    ns_GetActiveNodes s' = ns_GetActiveNodes s ∧ NoDup l ∧ nonempty_nodes l ∧ out ⊆ l ∧
    (hashes ≠ [] → ns_GetActiveNodes s ⊆ l).
Proof.
  revert out s. induction hashes as [|h hashes IH]; intros out s Hs Hu ND Hne.
  { by exists out, s. }
  destruct (ns_hash_law h s Hs Hu) as (l & s1 & El & Hs1 & Ea & NDl & Nel & _ & Hsub & _).
  destruct (IH (AppendMissingNodes out l) s1) as (r & s2 & Er & Hs2 & Ea2 & NDr & Ner & Hr & _);
    [done|by rewrite Ea|by apply dedupe_onto_NoDup|by apply dedupe_onto_nonempty|].
  exists r, s2. simpl. unfold mbind, M_bind. rewrite El.
  split_and!; [done|done|congruence|done|done| |].
  - intros u Hin. apply Hr, elem_of_dedupe_onto. by left.
  - intros _ u Hin. apply Hr, elem_of_dedupe_onto. right. split; [by apply Hsub|].
    destruct Hu as [Hu _]. unfold nonempty_nodes in Hu. rewrite Forall_forall in Hu. auto.
Qed.

Lemma QueryPlanNodesForHashes_run hashes s :
  ns_inv s → usable_nodes (ns_GetActiveNodes s) →
  ∃ l s', QueryPlanNodesForHashes hashes s = (Ok l, s') ∧ ns_inv s' ∧
    ns_GetActiveNodes s' = ns_GetActiveNodes s ∧ NoDup l ∧ nonempty_nodes l ∧
    ns_GetActiveNodes s ⊆ l.
Proof.
  intros Hs Hu. destruct (nodes_for_hashes_run hashes [] s) as
    (l & s1 & El & Hs1 & Ea & NDl & Nel & _ & Hsub); [done|done|constructor|constructor|].
  unfold QueryPlanNodesForHashes, mbind, M_bind. rewrite El.
  case_bool_decide as Hl.
  - destruct (ns_plan_law s1) as (k & s2 & Ek & Hs2 & Ea2 & NDk & Nek & _ & Hk & _);
      [done|by rewrite Ea|].
    exists k, s2. unfold plan_nodes. rewrite Ek. rewrite Ea in *.
    split_and!; [done|done|done|done|done|done].
  - exists l, s1. split_and!; try done. apply Hsub. intros ->.
    unfold nodes_for_hashes, mret, M_ret in El. congruence.
Qed.

Lemma QueryPlanForBatchWrite_run operations metadata s :
  ns_inv s → usable_nodes (ns_GetActiveNodes s) → ns_GetActiveNodes s ≠ [] →
  Z.of_nat (length operations) < 2 ^ 31 →
  let active := ns_GetActiveNodes s in
  let votes := ballots active operations metadata in
  let preferred := preferred_by_votes (cast_votes votes) in
  votes ≠ [] →
  ∃ p s' extra,
    QueryPlanForBatchWrite operations metadata s = (Ok p, s') ∧ ns_inv s' ∧
    DrainPlan p =
      Ok (extra ++ preferred ++ filter (λ u, u ∉ preferred) (SortAndDedupeNodes active)) ∧
    NoDup extra ∧ (∀ u, u ∈ extra → u ∉ active).
Proof.
  intros Hs Hu Hne Hops active votes preferred Hv.
  destruct (ns_active_law s Hs) as [ND Hi].
  destruct (QueryPlanNodesForHashes_run (BatchWriteHashes operations metadata) s Hs Hu)
    as (l & s' & El & Hs' & _ & NDl & Nel & _).
  destruct (preferred_ballots active operations metadata) as (NDp & Hin & _);
    [done|done|].
  exists (FromOrderedNodes (AppendMissingNodes (AppendMissingNodes
    (NodesMissingFrom l (SortAndDedupeNodes active)) preferred) (SortAndDedupeNodes active))),
    s', (filter (λ u, u ∉ active) l).
  unfold QueryPlanForBatchWrite, mbind, M_bind, lift_result, gets, mret, M_ret.
  fold active. rewrite El, bool_decide_eq_false_2 by done.
  rewrite SelectForCandidates_run by (by apply votable_sorted).
  rewrite ballots_sorted by done. fold votes. rewrite bool_decide_eq_false_2 by done.
  split_and!; [done|done| |by apply NoDup_filter|].
  - apply batch_order; [done|done|done|done|apply Hu|done|].
    intros u Hup. apply Hin in Hup. by eapply ballots_candidates.
  - intros u Hx. by apply list_elem_of_filter in Hx as [? _].
Qed.
(** Without a usable key the batch has no plan of its own. *)
Lemma QueryPlanForBatchWrite_no_votes operations metadata s :
  ns_inv s → usable_nodes (ns_GetActiveNodes s) → ns_GetActiveNodes s ≠ [] →
  BatchWriteHashes operations metadata = [] →
  ∃ what s', QueryPlanForBatchWrite operations metadata s = (Throw (InvalidArgument what), s') ∧
    ns_inv s' ∧ ns_GetActiveNodes s' = ns_GetActiveNodes s.
Proof.
  intros Hs Hu Hne Hh. destruct (ns_active_law s Hs) as [ND Hi].
  destruct (QueryPlanNodesForHashes_run (BatchWriteHashes operations metadata) s Hs Hu)
    as (l & s' & El & Hs' & Ea & _).
  unfold QueryPlanForBatchWrite, mbind, M_bind, lift_result, gets, mret, M_ret.
  rewrite El, bool_decide_eq_false_2 by done.
  rewrite SelectForCandidates_run by (by apply votable_sorted).
  rewrite bool_decide_eq_true_2 by (unfold ballots; by rewrite Hh).
  by eexists _, s'.
Qed.
(** The plan tries every active node, and no node twice. *)
Definition covers (active : list Url) (p : QueryPlan) : Prop :=
  ∃ l, DrainPlan p = Ok l ∧ NoDup l ∧ active ⊆ l.

Lemma offers_length active l :
  offers active l → (length l <= length active + 1)%nat.
Proof.
  intros (ND & _ & _ & _ & Hx).
  rewrite <-(Permutation_length (filter_app_complement (λ u, u ∈ active) l)), length_app.
  assert (length (filter (λ u, u ∈ active) l) <= length active)%nat; [|lia].
  apply submseteq_length, NoDup_submseteq; [by apply NoDup_filter|].
  intros u Hu. by apply list_elem_of_filter in Hu as [? _].
Qed.
Lemma FromNodesSource_covers clock s :
  ns_inv s → usable_nodes (ns_GetActiveNodes s) →
  ∃ p s', FromNodesSource clock s = (p, s') ∧ ns_inv s' ∧
    ns_GetActiveNodes s' = ns_GetActiveNodes s ∧ covers (ns_GetActiveNodes s) p.
Proof.
  intros Hs Hu. destruct (ns_plan_law s Hs Hu) as (l & s' & El & Hs' & Ea & Ho).
  exists (QueryPlan_make clock l), s'. unfold FromNodesSource. rewrite El.
  split_and!; [done|done|done|]. pose proof (offers_length _ _ Ho) as Hl.
  destruct Ho as (ND & Hn & _ & Hsub & _). destruct Hu as [_ Hu].
  destruct (DrainPlan_perm (QueryPlan_make clock l)) as (k & E & Hp); [done|simpl; lia|done|].
  simpl in Hp. exists k. split_and!; [done|by rewrite Hp|]. intros u Hin. rewrite Hp. by apply Hsub.
Qed.
Lemma QueryPlanForPartitionKey_covers values table metadata seed s :
  ns_inv s → usable_nodes (ns_GetActiveNodes s) → ns_GetActiveNodes s ≠ [] →
  HashPartitionKey values table metadata = Ok seed →
  ∃ p s', QueryPlanForPartitionKey values table metadata s = (Ok p, s') ∧ ns_inv s' ∧
    covers (ns_GetActiveNodes s) p.
Proof.
  intros Hs Hu Hne Hh. destruct (ns_active_law s Hs) as [ND _].
  destruct (QueryPlanForPartitionKey_run values table metadata seed s Hs Hu Hne Hh)
    as (p & s' & extra & seeded & E & Hs' & Ed & _ & Hp & Hl & Hx).
  exists p, s'. split_and!; [done|done|]. exists (extra ++ seeded). split_and!; [done| |].
  - apply NoDup_app. split_and!; [|intros u Hin; rewrite Hp; by apply Hx|by rewrite Hp].
    destruct extra as [|u [|v extra]]; [constructor|apply NoDup_singleton|simpl in Hl; lia].
  - intros u Hin. rewrite elem_of_app. right. by rewrite Hp.
Qed.
Lemma QueryPlanForBatchWrite_covers operations metadata s :
  ns_inv s → usable_nodes (ns_GetActiveNodes s) → ns_GetActiveNodes s ≠ [] →
  Z.of_nat (length operations) < 2 ^ 31 → BatchWriteHashes operations metadata ≠ [] →
  ∃ p s', QueryPlanForBatchWrite operations metadata s = (Ok p, s') ∧ ns_inv s' ∧
    covers (ns_GetActiveNodes s) p.
Proof.
  intros Hs Hu Hne Hops Hh. destruct (ns_active_law s Hs) as [ND Hi].
  assert (ballots (ns_GetActiveNodes s) operations metadata ≠ []) as Hb
    by (unfold ballots; by destruct (BatchWriteHashes operations metadata)).
  destruct (QueryPlanForBatchWrite_run operations metadata s Hs Hu Hne Hops Hb)
    as (p & s' & extra & E & Hs' & Ed & NDx & Hx).
  assert (votable (ns_GetActiveNodes s)) as Hv by done.
  pose proof (preferred_rest_perm _ operations metadata ND Hv Hops) as Hp. cbv zeta in Hp.
  exists p, s'. split_and!; [done|done|]. eexists. split; [exact Ed|]. split.
  - apply NoDup_app. split_and!; [done|intros u Hin; rewrite Hp; by apply Hx|by rewrite Hp].
  - intros u Hin. rewrite elem_of_app. right. by rewrite Hp.
Qed.
End batch_plans.

(** ** A fixed list of nodes

    A source that overrides [GetActiveNodes] only, with the base class's other
    methods: it offers its list and nothing else. *)

Record StaticNodes := mkStatic { static_nodes : list Url }.

#[global] Instance StaticNodes_source : NodesSource StaticNodes := {
  ns_GetActiveNodes := static_nodes;
  ns_GetQueryPlanNodes := NodesSource_GetQueryPlanNodes static_nodes;
  ns_GetQueryPlanNodesForHash :=
    NodesSource_GetQueryPlanNodesForHash (NodesSource_GetQueryPlanNodes static_nodes);
  ns_GetDownNodes := λ _, [];
}.

Lemma offers_itself l :
  NoDup l → key_inj Url_ToString l → usable_nodes l → offers l l.
Proof.
  intros ND Hi [Hn _]. split_and!; try done.
  rewrite filter_drop; [simpl; lia|]. tauto.
Qed.

#[global] Program Instance StaticNodes_laws : NodesSourceLaws StaticNodes := {
  ns_inv s := NoDup (static_nodes s) ∧ key_inj Url_ToString (static_nodes s);
}.
Next Obligation. done. Qed.
Next Obligation.
  intros h s [ND Hi] Hu. exists (static_nodes s), s.
  split_and!; [done|done|done|done|]. by apply offers_itself.
Qed.
Next Obligation.
  intros s [ND Hi] Hu. exists (static_nodes s), s.
  split_and!; [done|done|done|done|]. by apply offers_itself.
Qed.
