(* ===== verification/HttpCompression.v ===== *)
(** Content encodings (src/http_compression.cpp, src/http_compression.h, and the
    encoder and decoder interfaces of include/scylladb/alternator/config.h):
    normalising encoding names, advertising the encodings the configured
    decoders accept, finding a header, and undoing the encodings of a response.

    An implementation of [HttpContentEncodingDecoder] or [HttpRequestCompressor]
    is a record of its methods; a null [shared_ptr] is [None]. *)
From S2P Require Import Prelude Uri Effects Streams.

Record HttpContentEncodingDecoder := mkDecoder {
  AcceptedResponseEncodings : list string;
  Decode : string → string → result string;
}.

(** [Compress input_size] works on the pair of the input and output streams. *)
Record HttpRequestCompressor := mkCompressor {
  ContentEncoding : string;
  Compress : Z → M (iostream * iostream) bool;
}.

Record ContentEncodingDecoderEntry := mkEntry {
  encoding : string;
  decoder : HttpContentEncodingDecoder;
}.

(** ** Text helpers *)

Fixpoint trim_start (s : string) : string :=
  match s with
  | EmptyString => EmptyString
  | String c s' => if isspace c then trim_start s' else s
  end.
Fixpoint trim_end (s : string) : string :=
  match s with
  | EmptyString => EmptyString
  | String c s =>
      let t := trim_end s in
      if bool_decide (t = "") && isspace c then EmptyString else String c t
  end.
Definition TrimAscii (value : string) : string := trim_end (trim_start value).

Definition tolower (c : ascii) : ascii :=
  let n := N_of_ascii c in
  if (65 <=? n)%N && (n <=? 90)%N then ascii_of_N (n + 32) else c.
Fixpoint ToLowerAscii (value : string) : string :=
  match value with
  | EmptyString => EmptyString
  | String c s => String (tolower c) (ToLowerAscii s)
  end.

Definition NormalizeResponseEncoding (e : string) : string := ToLowerAscii (TrimAscii e).

(** The pieces between the occurrences of [c]; at least one. *)
Fixpoint split_on (c : ascii) (s : string) : list string :=
  match s with
  | EmptyString => [""]
  | String d s =>
      if bool_decide (d = c) then "" :: split_on c s
      else match split_on c s with
           | [] => [String d ""]
           | t :: l => String d t :: l
           end
  end.

Definition ParseContentEncodings (content_encoding : string) : list string :=
  filter (λ t, t ≠ "") (map NormalizeResponseEncoding (split_on "," content_encoding)).

(** ** Requests *)

Definition NormalizeRequestEncoding (request_compressor : option HttpRequestCompressor)
    : result string :=
  match request_compressor with
  | None => Ok ""
  | Some c =>
      let e := NormalizeResponseEncoding (ContentEncoding c) in
      if bool_decide (e = "") then
        Throw (InvalidArgument "request_compressor must not advertise an empty encoding")
      else if string_has "," e then
        Throw (InvalidArgument "request_compressor must advertise exactly one encoding")
      else Ok e
  end.

Definition BuildRequestContentEncodingValue (request_compressor : option HttpRequestCompressor)
    : result string := NormalizeRequestEncoding request_compressor.

(** ** Responses *)

(** The inner loop of [BuildDecoderEntries]. *)
Fixpoint add_encodings (d : HttpContentEncodingDecoder) (accepted : list string)
    (entries : list ContentEncodingDecoderEntry) : result (list ContentEncodingDecoderEntry) :=
  match accepted with
  | [] => Ok entries
  | e :: accepted =>
      let normalized := NormalizeResponseEncoding e in
      if bool_decide (normalized = "") then
        Throw (InvalidArgument "content_encoding_decoders must not advertise empty encodings")
      else if existsb (λ entry, bool_decide (encoding entry = normalized)) entries then
        Throw (InvalidArgument
          ("content_encoding_decoders must not advertise duplicate response encoding: "
           +:+ normalized))
      else add_encodings d accepted (entries ++ [mkEntry normalized d])
  end.

Fixpoint build_entries (decoders : list (option HttpContentEncodingDecoder))
    (entries : list ContentEncodingDecoderEntry) : result (list ContentEncodingDecoderEntry) :=
  match decoders with
  | [] => Ok entries
  | None :: _ =>
      Throw (InvalidArgument "content_encoding_decoders must not contain null values")
  | Some d :: decoders =>
      if bool_decide (AcceptedResponseEncodings d = []) then
        Throw (InvalidArgument "content_encoding_decoders must advertise at least one encoding")
      else entries ← add_encodings d (AcceptedResponseEncodings d) entries;
           build_entries decoders entries
  end.
Definition BuildDecoderEntries (decoders : list (option HttpContentEncodingDecoder))
    : result (list ContentEncodingDecoderEntry) := build_entries decoders [].

Definition FindDecoderEntry (entries : list ContentEncodingDecoderEntry) (e : string)
    : option ContentEncodingDecoderEntry :=
  List.find (λ entry, bool_decide (encoding entry = e)) entries.

(** The loop that appends [", "] between entries. *)
Definition join_encodings (entries : list ContentEncodingDecoderEntry) : string :=
  foldl (λ value entry,
    (if bool_decide (value = "") then value else value +:+ ", ") +:+ encoding entry) "" entries.
Definition BuildAcceptEncodingValue (decoders : list (option HttpContentEncodingDecoder))
    : result string :=
  entries ← BuildDecoderEntries decoders; Ok (join_encodings entries).

(** The loop over the encodings, last applied first. *)
Fixpoint decode_layers (entries : list ContentEncodingDecoderEntry) (body : string)
    (encodings : list string) : result string :=
  match encodings with
  | [] => Ok body
  | e :: encodings =>
      if bool_decide (e = "identity") then decode_layers entries body encodings
      else match FindDecoderEntry entries e with
           | None => Throw (RuntimeError ("unexpected HTTP content encoding: " +:+ e))
           | Some entry =>
               body ← Decode (decoder entry) body e;
               decode_layers entries body encodings
           end
  end.

Definition DecodeHttpResponseBody (body content_encoding : string)
    (decoders : list (option HttpContentEncodingDecoder)) : result string :=
  let encodings := ParseContentEncodings content_encoding in
  if bool_decide (encodings = []) then Ok body
  else entries ← BuildDecoderEntries decoders;
       decode_layers entries body (rev encodings).

(** ** Headers *)

(** [std::getline]: lines end at a newline; a final empty line is no line. *)
Definition newline : ascii := ascii_of_N 10.
Definition carriage_return : ascii := ascii_of_N 13.
Definition getlines (s : string) : list string :=
  let l := split_on newline s in
  if bool_decide (last l = Some "") then removelast l else l.

Fixpoint strip_cr (line : string) : string :=
  match line with
  | EmptyString => EmptyString
  | String c EmptyString => if bool_decide (c = carriage_return) then EmptyString else line
  | String c s => String c (strip_cr s)
  end.

Fixpoint is_prefix (p s : string) : bool :=
  match p, s with
  | EmptyString, _ => true
  | String c p, String d s => bool_decide (c = d) && is_prefix p s
  | _, _ => false
  end.

(** [find] and the two [substr] around the position found. *)
Fixpoint split_at (c : ascii) (s : string) : option (string * string) :=
  match s with
  | EmptyString => None
  | String d s =>
      if bool_decide (d = c) then Some ("", s)
      else match split_at c s with
           | Some (a, b) => Some (String d a, b)
           | None => None
           end
  end.

(** One turn of the loop over the lines. *)
Definition header_line (wanted : string) (value line : string) : string :=
  let line := strip_cr line in
  if is_prefix "HTTP/" line then ""
  else match split_at ":" line with
       | None => value
       | Some (name, rest) =>
           if bool_decide (ToLowerAscii (TrimAscii name) = wanted) then TrimAscii rest
           else value
       end.
Definition FindHttpHeaderValue (headers name : string) : string :=
  foldl (header_line (ToLowerAscii name)) "" (getlines headers).

(** ** Normalisation *)

Lemma isspace_tolower c : isspace (tolower c) = isspace c.
Proof. by destruct c as [[] [] [] [] [] [] [] []]. Qed.
Lemma tolower_idemp c : tolower (tolower c) = tolower c.
Proof. by destruct c as [[] [] [] [] [] [] [] []]. Qed.

Lemma ToLower_idemp s : ToLowerAscii (ToLowerAscii s) = ToLowerAscii s.
Proof. induction s as [|c s IH]; [done|]. simpl. by rewrite tolower_idemp, IH. Qed.
Lemma ToLower_empty s : ToLowerAscii s = "" ↔ s = "".
Proof. by destruct s. Qed.

Lemma trim_start_lower s : trim_start (ToLowerAscii s) = ToLowerAscii (trim_start s).
Proof.
  induction s as [|c s IH]; [done|]. simpl. rewrite isspace_tolower.
  by destruct (isspace c).
Qed.
Lemma trim_end_lower s : trim_end (ToLowerAscii s) = ToLowerAscii (trim_end s).
Proof.
  induction s as [|c s IH]; [done|]. simpl. rewrite isspace_tolower, IH. clear IH.
  rewrite (bool_decide_ext _ _ (ToLower_empty (trim_end s))).
  by destruct (bool_decide (trim_end s = "") && isspace c).
Qed.
Lemma Trim_lower s : TrimAscii (ToLowerAscii s) = ToLowerAscii (TrimAscii s).
Proof. unfold TrimAscii. by rewrite trim_start_lower, trim_end_lower. Qed.

(** No leading space. *)
Definition unspaced (s : string) : Prop :=
  match s with EmptyString => True | String c _ => isspace c = false end.

Lemma trim_start_unspaced s : unspaced (trim_start s).
Proof. induction s as [|c s IH]; [done|]. simpl. destruct (isspace c) eqn:E; done. Qed.
Lemma trim_start_id s : unspaced s → trim_start s = s.
Proof. destruct s as [|c s]; [done|]. simpl. by intros ->. Qed.
Lemma trim_end_unspaced s : unspaced s → unspaced (trim_end s).
Proof. destruct s as [|c s]; [done|]. simpl. intros E. by rewrite E, andb_false_r. Qed.
Lemma trim_end_idemp s : trim_end (trim_end s) = trim_end s.
Proof.
  induction s as [|c s IH]; [done|]. simpl.
  destruct (bool_decide (trim_end s = "") && isspace c) eqn:E; [done|].
  simpl. by rewrite IH, E.
Qed.
Lemma Trim_idemp s : TrimAscii (TrimAscii s) = TrimAscii s.
Proof.
  unfold TrimAscii. rewrite (trim_start_id (trim_end _)) by apply trim_end_unspaced, trim_start_unspaced.
  apply trim_end_idemp.
Qed.
Lemma Normalize_idemp e :
  NormalizeResponseEncoding (NormalizeResponseEncoding e) = NormalizeResponseEncoding e.
Proof. unfold NormalizeResponseEncoding. by rewrite Trim_lower, Trim_idemp, ToLower_idemp. Qed.
Lemma Trim_space c s : isspace c = true → TrimAscii (String c s) = TrimAscii s.
Proof. unfold TrimAscii. simpl. by intros ->. Qed.
Lemma Normalize_space e : NormalizeResponseEncoding (" " +:+ e) = NormalizeResponseEncoding e.
Proof. reflexivity. Qed.

(** ** Splitting and joining *)

Lemma split_on_plain c s : string_has c s = false → split_on c s = [s].
Proof.
  induction s as [|d s IH]; [done|]. simpl. intros [Hd Hs]%orb_false_iff.
  rewrite IH by done. rewrite bool_decide_eq_false in Hd.
  by rewrite bool_decide_eq_false_2.
Qed.
Lemma split_on_app c s t :
  string_has c s = false → split_on c (s +:+ String c t) = s :: split_on c t.
Proof.
  induction s as [|d s IH]; intros Hs.
  { norm_app. simpl. by rewrite bool_decide_eq_true_2. }
  rewrite append_cons.
  simpl in *. apply orb_false_iff in Hs as [Hd Hs]. rewrite bool_decide_eq_false in Hd.
  rewrite bool_decide_eq_false_2 by done. by rewrite IH.
Qed.

(** ** Decoder entries *)

Definition entries_of (d : HttpContentEncodingDecoder) : list ContentEncodingDecoderEntry :=
  map (λ e, mkEntry (NormalizeResponseEncoding e) d) (AcceptedResponseEncodings d).

(** Normalised, non-empty encodings, each offered by one decoder. *)
Definition wf_entries (entries : list ContentEncodingDecoderEntry) : Prop :=
  NoDup (map encoding entries) ∧
  Forall (λ entry, encoding entry ≠ "" ∧
    NormalizeResponseEncoding (encoding entry) = encoding entry) entries.

Lemma add_encodings_spec d accepted entries r :
  wf_entries entries → add_encodings d accepted entries = Ok r →
  wf_entries r ∧ r = entries ++ map (λ e, mkEntry (NormalizeResponseEncoding e) d) accepted.
Proof.
  revert entries. induction accepted as [|e accepted IH]; intros entries Hw E; simpl in *.
  { simplify_eq. by rewrite app_nil_r. }
  case_bool_decide as Hn; [done|]. destruct (existsb _ _) eqn:Hx; [done|].
  apply IH in E as [Hr ->].
  - split; [done|]. by rewrite <-app_assoc.
  - destruct Hw as [ND F]. split.
    + rewrite map_app. apply NoDup_snoc; [done|]. intros Hin.
      apply list_elem_of_fmap in Hin as (x & Ex & Hin). apply not_true_iff_false in Hx.
      apply Hx, existsb_exists. exists x. rewrite <-list_elem_of_In.
      split; [done|]. by apply bool_decide_eq_true_2.
    + apply Forall_app_2; [done|]. constructor; [|constructor].
      split; [done|]. apply Normalize_idemp.
Qed.

Lemma build_entries_spec decoders entries r :
  wf_entries entries → build_entries decoders entries = Ok r →
  wf_entries r ∧ ∃ ds, decoders = map Some ds ∧ r = entries ++ concat (map entries_of ds).
Proof.
  revert entries. induction decoders as [|[d|] decoders IH]; intros entries Hw E; simpl in *.
  - simplify_eq. split; [done|]. exists []. by rewrite app_nil_r.
  - case_bool_decide; [done|].
    destruct (add_encodings d _ entries) as [es|] eqn:Ea; [|done]. simpl in E.
    apply add_encodings_spec in Ea as [Hw' ->]; [|done].
    apply IH in E as (Hr & ds & -> & ->); [|done].
    split; [done|]. exists (d :: ds). split; [done|]. simpl. by rewrite <-app_assoc.
  - done.
Qed.

Lemma BuildDecoderEntries_spec decoders r :
  BuildDecoderEntries decoders = Ok r →
  wf_entries r ∧ ∃ ds, decoders = map Some ds ∧ r = concat (map entries_of ds).
Proof. apply build_entries_spec. split; constructor. Qed.

Lemma FindDecoderEntry_in entries entry :
  NoDup (map encoding entries) → entry ∈ entries →
  FindDecoderEntry entries (encoding entry) = Some entry.
Proof.
  unfold FindDecoderEntry. induction entries as [|x entries IH]; intros ND Hin; [set_solver|].
  simpl in *. apply NoDup_cons in ND as [Hx ND]. apply elem_of_cons in Hin as [->|Hin].
  - by rewrite bool_decide_eq_true_2.
  - rewrite bool_decide_eq_false_2; [by apply IH|]. intros E. apply Hx. rewrite E.
    by apply list_elem_of_fmap_2.
Qed.

(** What the loop of [BuildAcceptEncodingValue] builds, from the right. *)
Fixpoint joined (l : list string) : string :=
  match l with
  | [] => ""
  | [e] => e
  | e :: l => e +:+ ", " +:+ joined l
  end.

Lemma joined_step v e l : v ≠ "" → joined ((v +:+ ", " +:+ e) :: l) = joined (v :: e :: l).
Proof.
  intros Hv. destruct l as [|x l]; [done|]. simpl. by rewrite !append_assoc.
Qed.
Lemma append_nonempty s t : s ≠ "" → s +:+ t ≠ "".
Proof. by destruct s. Qed.

Lemma join_foldl v entries :
  v ≠ "" → Forall (λ entry, encoding entry ≠ "") entries →
  foldl (λ value entry,
    (if bool_decide (value = "") then value else value +:+ ", ") +:+ encoding entry) v entries =
  joined (v :: map encoding entries).
Proof.
  intros Hv F. revert v Hv. induction F as [|x entries Hx F IH]; intros v Hv; [done|].
  simpl. rewrite bool_decide_eq_false_2 by done. rewrite append_assoc.
  rewrite IH by (by apply append_nonempty). by apply joined_step.
Qed.
Lemma join_encodings_joined entries :
  Forall (λ entry, encoding entry ≠ "") entries →
  join_encodings entries = joined (map encoding entries).
Proof.
  intros F. destruct F as [|x entries Hx F]; [done|].
  unfold join_encodings. simpl foldl. by rewrite join_foldl.
Qed.

(** Parsing a joined list of normalised comma-free encodings gives it back. *)
Lemma parse_joined l :
  Forall (λ e, e ≠ "" ∧ NormalizeResponseEncoding e = e ∧ string_has "," e = false) l →
  ParseContentEncodings (joined l) = l.
Proof.
  unfold ParseContentEncodings.
  cut (∀ l pre, (pre = "" ∨ pre = " ") →
    Forall (λ e, e ≠ "" ∧ NormalizeResponseEncoding e = e ∧ string_has "," e = false) l → l ≠ [] →
    filter (λ t, t ≠ "") (map NormalizeResponseEncoding (split_on "," (pre +:+ joined l))) = l).
  { intros H F. destruct l as [|e l]; [done|]. exact (H (e :: l) "" (or_introl eq_refl) F ltac:(done)). }
  clear l. induction l as [|e l IH]; intros pre Hp F Hne; [done|].
  apply Forall_cons_1 in F as [(He & Hn & Hc) F].
  assert (NormalizeResponseEncoding (pre +:+ e) = e) as Hne' by (by destruct Hp as [->| ->]).
  assert (string_has "," (pre +:+ e) = false) as Hc' by (by destruct Hp as [->| ->]).
  destruct l as [|x l].
  - simpl joined. rewrite split_on_plain by done. simpl. rewrite Hne', filter_cons_True; done.
  - change (joined (e :: x :: l)) with (e +:+ String "," (" " +:+ joined (x :: l))).
    rewrite <-append_assoc, split_on_app by done. cbn [map].
    rewrite Hne', filter_cons_True by done. f_equal. apply IH; [by right|done|done].
Qed.

(** ** Decoding undoes the encodings in reverse order *)

(** A response encoded by successive layers, first layer applied first. *)
Definition encode_layers (layers : list (string * (string → string))) (body : string) : string :=
  foldl (λ b '(_, enc), enc b) body layers.

(** The entry of a layer's encoding decodes what the layer encodes. *)
Definition layer_ok (entries : list ContentEncodingDecoderEntry)
    (layer : string * (string → string)) : Prop :=
  layer.1 = "identity" ∧ (∀ b, layer.2 b = b) ∨
  layer.1 ≠ "identity" ∧ ∃ entry, FindDecoderEntry entries layer.1 = Some entry ∧
    ∀ b, Decode (decoder entry) (layer.2 b) layer.1 = Ok b.

Lemma decode_encode_layers entries layers body :
  Forall (layer_ok entries) layers →
  decode_layers entries (encode_layers layers body) (rev (map fst layers)) = Ok body.
Proof.
  induction layers as [|[e enc] layers IH] using rev_ind; intros F; [done|].
  apply Forall_app in F as [F Hl]. apply Forall_cons_1 in Hl as [Hl _].
  unfold encode_layers in *. rewrite foldl_app, map_app, rev_app_distr. simpl.
  destruct Hl as [[Ei Hid]|(Ei & entry & Hf & Hd)]; simpl in *.
  - subst e. rewrite bool_decide_eq_true_2 by done. rewrite Hid. by apply IH.
  - rewrite bool_decide_eq_false_2 by done. rewrite Hf, Hd. simpl. by apply IH.
Qed.

(** ** Finding a header *)

(** Lines as a server sends them. *)
Fixpoint render_lines (lines : list string) : string :=
  match lines with
  | [] => ""
  | l :: lines => l +:+ String carriage_return (String newline (render_lines lines))
  end.

Definition plain_line (l : string) : Prop := string_has newline l = false.

Lemma strip_cr_snoc l : strip_cr (l +:+ String carriage_return "") = l.
Proof.
  induction l as [|c l IH]; [done|].
  rewrite append_cons.
  destruct l as [|d l]; [done|]. simpl in *. by rewrite IH.
Qed.

Lemma getlines_render lines :
  Forall plain_line lines →
  getlines (render_lines lines) = map (λ l, l +:+ String carriage_return "") lines.
Proof.
  intros F. unfold getlines.
  assert (split_on newline (render_lines lines) =
    map (λ l, l +:+ String carriage_return "") lines ++ [""]) as ->.
  { induction F as [|l lines Hl F IH]; [done|]. cbn [render_lines map].
    change (String carriage_return (String newline (render_lines lines)))
      with (String carriage_return "" +:+ String newline (render_lines lines)).
    rewrite <-append_assoc, split_on_app, IH; [done|].
    rewrite string_has_app. by rewrite Hl. }
  rewrite last_snoc, bool_decide_eq_true_2 by done. apply removelast_last.
Qed.

(** One turn of the loop on a line without its line ending. *)
Definition header_step (wanted value line : string) : string :=
  if is_prefix "HTTP/" line then ""
  else match split_at ":" line with
       | None => value
       | Some (name, rest) =>
           if bool_decide (ToLowerAscii (TrimAscii name) = wanted) then TrimAscii rest
           else value
       end.

Lemma header_line_step wanted v l :
  header_line wanted v (l +:+ String carriage_return "") = header_step wanted v l.
Proof. unfold header_line. by rewrite strip_cr_snoc. Qed.

Lemma FindHttpHeaderValue_lines lines name :
  Forall plain_line lines →
  FindHttpHeaderValue (render_lines lines) name =
  foldl (header_step (ToLowerAscii name)) "" lines.
Proof.
  intros F. unfold FindHttpHeaderValue. rewrite getlines_render by done.
  clear F. set (v := "") at 1 3. clearbody v. revert v.
  induction lines as [|l lines IH]; intros v; [done|].
  cbn [map foldl]. rewrite header_line_step. apply IH.
Qed.

Lemma split_at_app c s t : string_has c s = false → split_at c (s +:+ String c t) = Some (s, t).
Proof.
  induction s as [|d s IH]; intros Hs.
  { norm_app. simpl. by rewrite bool_decide_eq_true_2. }
  rewrite append_cons.
  simpl in *. apply orb_false_iff in Hs as [Hd Hs]. rewrite bool_decide_eq_false in Hd.
  rewrite bool_decide_eq_false_2 by done. by rewrite IH.
Qed.
