(* ===== verification/Zlib.v ===== *)
(** The zlib compressor and decoder of src/http_compression.cpp
    ([GzipRequestCompressor], [ZlibContentEncodingDecoder] and the loops behind
    them), built with zlib.

    zlib itself is the class [Zlib] of its entry points, and [ZlibLaws] states
    what its manual promises of them. A [z_stream] is split as the code uses it:
    [next_in]/[avail_in] is the string of input bytes left, [next_out]/
    [avail_out] the bytes produced and the size of the buffer offered, and the
    rest is a state of the library's own. [deflateEnd] and [inflateEnd], which
    the guards call on every exit, only release that state. *)
From S2P Require Import Prelude Uri Effects Streams HttpCompression.

(** ** zlib *)

Definition Z_OK : Z := 0.
Definition Z_STREAM_END : Z := 1.
Definition Z_DEFAULT_COMPRESSION : Z := -1.
Definition Z_DEFLATED : Z := 8.
Definition Z_DEFAULT_STRATEGY : Z := 0.
Definition MAX_WBITS : Z := 15.
Definition UINT_MAX : Z := 2 ^ 32 - 1.

Inductive z_flush := Z_NO_FLUSH | Z_FINISH.

(** What one call leaves: its code, the input not consumed, the output. *)
Record z_step (S : Type) := mkStep {
  z_code : Z;
  z_rest : string;
  z_out : string;
  z_next : S;
}.
Arguments mkStep {_} _ _ _ _.
Arguments z_code {_} _.
Arguments z_rest {_} _.
Arguments z_out {_} _.
Arguments z_next {_} _.

Class Zlib := {
  z_state : Type;
  deflateInit2 : Z → Z → Z → Z → Z → Z * z_state;
  deflateBound : z_state → nat → nat;
  deflate : z_flush → nat → string → z_state → z_step z_state;
  inflateInit2 : Z → Z * z_state;
  inflate : z_flush → nat → string → z_state → z_step z_state;
}.

(** ** The loops of the client *)

Definition buffer_size : nat := Z.to_nat 8192.

Definition CheckedZlibSize (size : Z) : result Z :=
  if UINT_MAX <? size then Throw (RuntimeError "HTTP content is too large for zlib")
  else Ok size.

Section operations.
Context `{Zlib}.

(** The part of a turn that hands the produced bytes to the output stream. *)
Definition write_produced (produced : string) : M (iostream * iostream) unit :=
  if bool_decide (produced = "") then mret tt
  else _ ← modify (λ '(input, output), (input, write produced output));
       output ← gets snd;
       if fail output then throw (RuntimeError "failed to write compressed HTTP request body")
       else mret tt.

(** The inner [do] loop, with the input bytes of one read: [None] when the
    stream ended (the function returns), else the state to go on from. *)
Fixpoint deflate_loop (fuel : nat) (flush : z_flush) (avail_in : string) (s : z_state)
    : M (iostream * iostream) (option z_state) :=
  match fuel with
  | O => throw out_of_fuel
  | S fuel =>
      let r := deflate flush buffer_size avail_in s in
      _ ← write_produced (z_out r);
      if z_code r =? Z_STREAM_END then mret None
      else if negb (z_code r =? Z_OK) then throw (RuntimeError "failed to deflate HTTP request")
      else if negb (bool_decide (z_rest r = "")) ||
              (String.length (z_out r) =? buffer_size)%nat
           then deflate_loop fuel flush (z_rest r) (z_next r)
           else mret (Some (z_next r))
  end.

(** The outer loop over the blocks read. *)
Fixpoint deflate_reads (fuel inner : nat) (s : z_state) : M (iostream * iostream) unit :=
  match fuel with
  | O => throw out_of_fuel
  | S fuel =>
      got ← of_state (λ '(input, output),
        let '(got, input) := read buffer_size input in (got, (input, output)));
      input ← gets fst;
      if badbit input || (fail input && negb (eofbit input))
      then throw (RuntimeError "failed to read HTTP request body")
      else
        _ ← lift_result (CheckedZlibSize (Z.of_nat (String.length got)));
        let flush := if eofbit input then Z_FINISH else Z_NO_FLUSH in
        next ← deflate_loop inner flush got s;
        match next with
        | None => mret tt
        | Some s =>
            match flush with
            | Z_FINISH => throw (RuntimeError "failed to finish deflating HTTP request")
            | Z_NO_FLUSH => deflate_reads fuel inner s
            end
        end
  end.

(** A read that does not end the loop takes a full block, so the bytes left to
    read bound the reads; [deflateBound] bounds the turns of the inner loop. *)
Definition DeflateBody (window_bits : Z) : M (iostream * iostream) unit :=
  let '(init_code, s) :=
    deflateInit2 Z_DEFAULT_COMPRESSION Z_DEFLATED window_bits 8 Z_DEFAULT_STRATEGY in
  if negb (init_code =? Z_OK) then throw (RuntimeError "deflateInit2 failed")
  else
    size ← gets (λ '(input, _), String.length (unread input));
    deflate_reads (S size) (S (deflateBound s size)) s.

Fixpoint inflate_loop (fuel : nat) (avail_in output : string) (s : z_state) : result string :=
  match fuel with
  | O => Throw out_of_fuel
  | S fuel =>
      let r := inflate Z_NO_FLUSH buffer_size avail_in s in
      let output := output +:+ z_out r in
      if z_code r =? Z_STREAM_END then Ok output
      else if negb (z_code r =? Z_OK) then
        Throw (RuntimeError "failed to inflate compressed HTTP response")
      else if bool_decide (z_rest r = "") && bool_decide (z_out r = "") then
        Throw (RuntimeError "truncated compressed HTTP response")
      else inflate_loop fuel (z_rest r) output (z_next r)
  end.

(** One byte of input holds at most 1032 bytes of output. *)
Definition inflate_fuel (body : string) : nat := S (1033 * String.length body).

Definition InflateBody (body : string) (window_bits : Z) : result string :=
  let '(init_code, s) := inflateInit2 window_bits in
  if negb (init_code =? Z_OK) then Throw (RuntimeError "inflateInit2 failed")
  else
    _ ← CheckedZlibSize (Z.of_nat (String.length body));
    inflate_loop (inflate_fuel body) body "" s.

(** [catch (const std::runtime_error&)]: every exception of this model but
    [InvalidArgument] is one. *)
Definition InflateDeflateBody (body : string) : result string :=
  match InflateBody body MAX_WBITS with
  | Throw (InvalidArgument what) => Throw (InvalidArgument what)
  | Throw _ => InflateBody body (- MAX_WBITS)
  | Ok output => Ok output
  end.

(** ** The decoder and the compressor *)

Fixpoint NormalizeZlibResponseEncodings (encodings : list string) : result (list string) :=
  match encodings with
  | [] => Ok []
  | e :: encodings =>
      let e := NormalizeResponseEncoding e in
      if bool_decide (e ≠ "gzip") && bool_decide (e ≠ "deflate") then
        Throw (InvalidArgument "ZlibContentEncodingDecoder supports only gzip and deflate")
      else encodings ← NormalizeZlibResponseEncodings encodings; Ok (e :: encodings)
  end.

Definition Zlib_Decode (body content_encoding : string) : result string :=
  let normalized := NormalizeResponseEncoding content_encoding in
  if bool_decide (normalized = "gzip") then InflateBody body (MAX_WBITS + 16)
  else if bool_decide (normalized = "deflate") then InflateDeflateBody body
  else Throw (RuntimeError ("unsupported HTTP content encoding: " +:+ normalized)).

Definition ZlibContentEncodingDecoder (accepted_response_encodings : list string)
    : result HttpContentEncodingDecoder :=
  accepted ← NormalizeZlibResponseEncodings accepted_response_encodings;
  Ok (mkDecoder accepted Zlib_Decode).

Definition Gzip_Compress (min_size_bytes : Z) (input_size : Z) : M (iostream * iostream) bool :=
  if input_size <? min_size_bytes then mret false
  else _ ← DeflateBody (MAX_WBITS + 16); mret true.

Definition GzipRequestCompressor (min_size_bytes : Z) : HttpRequestCompressor :=
  mkCompressor "gzip" (Gzip_Compress min_size_bytes).
End operations.

(** The default arguments of the two constructors. *)
Definition default_accepted_encodings : list string := ["gzip"; "deflate"].
Definition default_min_size_bytes : Z := 1024.

(** ** What zlib promises

    [stream_of window_bits body data]: [data] is a complete compressed stream of
    [body] in the format that [window_bits] selects (zlib, gzip or raw).

    A stream being compressed is either fed ([full]: the last call filled the
    buffer it was offered, so that there may be output pending) or, once
    [Z_FINISH] was passed, must be finished with the input left. *)
Inductive deflate_phase :=
  | Feeding (full : bool)
  | Finishing (rest : string).

(** The calls the manual allows in a phase; the first is the only one that can
    make no progress, and it is excluded. *)
Definition call_allowed (phase : deflate_phase) (flush : z_flush) (input : string) : Prop :=
  match phase with
  | Feeding full => input ≠ "" ∨ flush = Z_FINISH ∨ full = true
  | Finishing rest => flush = Z_FINISH ∧ input = rest
  end.
Definition next_phase (flush : z_flush) (n : nat) {S} (r : z_step S) : deflate_phase :=
  match flush with
  | Z_NO_FLUSH => Feeding (String.length (z_out r) =? n)%nat
  | Z_FINISH => Finishing (z_rest r)
  end.

Class ZlibLaws `{Zlib} := {
  stream_of : Z → string → string → Prop;
  (** Window bits, initial and current state, input consumed and output
      produced so far. *)
  deflating : Z → z_state → z_state → string → string → deflate_phase → Prop;
  deflateInit2_ok window_bits s level method memory strategy :
    deflateInit2 level method window_bits memory strategy = (Z_OK, s) →
    deflating window_bits s s "" "" (Feeding false);
  (** deflate stops when the input is consumed or the output buffer is full;
      with [Z_FINISH] it ends the stream if the output space suffices.  A call
      without input is [call_allowed] after a call that filled the buffer
      exactly, as the manual asks for it then (deflate must be called again until
      it leaves output space), and it answers [Z_OK] even if nothing was pending:
      deflate resets its memory of the last flush when it returns with a full
      buffer, to avoid [Z_BUF_ERROR] in the next call.  The manual by itself
      would also permit [Z_BUF_ERROR] there, which it calls not fatal and which
      [DeflateBody] takes for an error. *)
  deflate_ok window_bits s0 s i o phase flush n input :
    deflating window_bits s0 s i o phase → (0 < n)%nat → call_allowed phase flush input →
    let r := deflate flush n input s in
    ∃ consumed, input = consumed +:+ z_rest r ∧ (String.length (z_out r) <= n)%nat ∧
      (z_code r = Z_OK ∧
       deflating window_bits s0 (z_next r) (i +:+ consumed) (o +:+ z_out r) (next_phase flush n r) ∧
       (z_rest r ≠ "" ∨ flush = Z_FINISH → String.length (z_out r) = n) ∨
       z_code r = Z_STREAM_END ∧ flush = Z_FINISH ∧ z_rest r = "" ∧
       stream_of window_bits (i +:+ consumed) (o +:+ z_out r));
  deflate_bounded window_bits s0 s i o phase :
    deflating window_bits s0 s i o phase → (String.length o <= deflateBound s0 (String.length i))%nat;
  deflateBound_mono s0 m n : (m <= n)%nat → (deflateBound s0 m <= deflateBound s0 n)%nat;
  (** A state of decompression; what it will still output for an input, which
      does not depend on the sizes of the buffers offered; and that the input
      holds the end of the stream. *)
  inflating : z_state → Prop;
  inflated : z_state → string → string;
  complete : z_state → string → Prop;
  inflateInit2_ok window_bits s :
    inflateInit2 window_bits = (Z_OK, s) →
    inflating s ∧
    (∀ input, (String.length (inflated s input) <= 1032 * String.length input)%nat) ∧
    (∀ body data more, stream_of window_bits body data →
       complete s (data +:+ more) ∧ inflated s (data +:+ more) = body);
  inflate_ok s n input :
    inflating s → (0 < n)%nat →
    let r := inflate Z_NO_FLUSH n input s in
    ∃ consumed, input = consumed +:+ z_rest r ∧
      (z_code r = Z_OK →
       inflating (z_next r) ∧ (consumed ≠ "" ∨ z_out r ≠ "") ∧
       inflated s input = z_out r +:+ inflated (z_next r) (z_rest r)) ∧
      (complete s input →
       z_code r = Z_OK ∧ complete (z_next r) (z_rest r) ∧ String.length (z_out r) = n ∨
       z_code r = Z_STREAM_END ∧ z_out r = inflated s input);
}.

(** ** Correctness of the loops *)

Lemma buffer_size_pos : (0 < buffer_size)%nat.
Proof. unfold buffer_size. lia. Qed.
Lemma CheckedZlibSize_ok size : size <= UINT_MAX → CheckedZlibSize size = Ok size.
Proof. unfold CheckedZlibSize. intros. by destruct (Z.ltb_spec UINT_MAX size); [lia|]. Qed.

Lemma write_produced_spec produced o input output :
  ∃ r output', write_produced produced (input, output) = (r, (input, output')) ∧
    match r with
    | Ok _ => sink_of o output → sink_of (o +:+ produced) output'
    | Throw e => e ≠ out_of_fuel ∧ ¬ sink_of o output
    end.
Proof.
  unfold write_produced. case_bool_decide as E.
  - subst. exists (Ok tt), output. by rewrite append_empty_r.
  - unfold mbind, M_bind, modify, gets. cbn [snd].
    destruct (fail (write produced output)) eqn:F;
      [eexists (Throw _), _|eexists (Ok tt), _]; (split; [done|]).
    + split; [done|]. intros Ho. by rewrite (sink_fail _ _ (write_sink produced _ _ Ho)) in F.
    + apply write_sink.
Qed.

Section loops.
Context `{ZlibLaws}.

(** The inner loop ends; on a sink it does not throw, consumes the block, and
    ends the stream exactly when asked to finish. *)
Lemma deflate_loop_spec fuel flush avail wb s0 s i o phase n input output :
  deflating wb s0 s i o phase → call_allowed phase flush avail →
  (String.length i + String.length avail <= n)%nat →
  (deflateBound s0 n - String.length o < fuel)%nat →
  ∃ r output',
    deflate_loop fuel flush avail s (input, output) = (r, (input, output')) ∧
    match r with
    | Throw e => e ≠ out_of_fuel ∧ ¬ sink_of o output
    | Ok next => ∃ o', (sink_of o output → sink_of o' output') ∧
        match next with
        | None => flush = Z_FINISH ∧ stream_of wb (i +:+ avail) o'
        | Some s' => flush = Z_NO_FLUSH ∧ deflating wb s0 s' (i +:+ avail) o' (Feeding false)
        end
    end.
Proof.
  revert avail s i o phase output. induction fuel as [|fuel IH];
    intros avail s i o phase output Hs Ha Hn Hf; [lia|].
  cbn [deflate_loop].
  destruct (deflate_ok _ _ _ _ _ _ flush buffer_size avail Hs buffer_size_pos Ha)
    as (consumed & Ei & Hl & Hr).
  set (r := deflate flush buffer_size avail s) in *.
  destruct (write_produced_spec (z_out r) o input output) as (w & output1 & E1 & Ho1).
  unfold mbind, M_bind at 1. rewrite E1. destruct w as [[]|e]; [|by eexists _, _].
  pose proof buffer_size_pos as Hb.
  destruct Hr as [(-> & Hs1 & Hfull)|(-> & -> & Er & Hstream)]; cbn [Z.eqb Z_OK Z_STREAM_END negb].
  - destruct (negb (bool_decide (z_rest r = "")) || _) eqn:Hgo.
    + assert (String.length (z_out r) = buffer_size) as Hlen.
      { apply orb_true_iff in Hgo as [Hgo|Hgo]; [|by apply Nat.eqb_eq].
        apply Hfull. left. by apply negb_true_iff, bool_decide_eq_false in Hgo. }
      assert (String.length consumed + String.length (z_rest r) = String.length avail)%nat
        by (by rewrite Ei, string_length_app).
      pose proof (deflate_bounded _ _ _ _ _ _ Hs1) as Hbound.
      rewrite !string_length_app in Hbound.
      pose proof (deflateBound_mono s0 (String.length i + String.length consumed) n ltac:(lia)).
      edestruct (IH (z_rest r)) as (res & output' & E & Hres); [exact Hs1| |rewrite string_length_app; lia..|].
      * destruct flush; cbn; [right; right; by apply Nat.eqb_eq|done].
      * exists res, output'. split; [exact E|]. destruct res as [next|e]; [|split; [apply Hres|by intros Ho; apply Hres, Ho1]].
        destruct Hres as (o' & Ho' & Hnext). exists o'. split; [auto|].
        by rewrite append_assoc, <-Ei in Hnext.
    + apply orb_false_iff in Hgo as [Hrest Hlen].
      apply negb_false_iff, bool_decide_eq_true in Hrest. rewrite Hrest, append_empty_r in Ei.
      subst consumed. exists (Ok (Some (z_next r))), output1. split; [done|].
      exists (o +:+ z_out r). split; [done|]. destruct flush.
      * split; [done|]. cbn in Hs1. by rewrite Hlen in Hs1.
      * exfalso. rewrite Hfull in Hlen by (by right). by rewrite Nat.eqb_refl in Hlen.
  - rewrite Er, append_empty_r in Ei. subst consumed.
    exists (Ok None), output1. split; [done|]. by exists (o +:+ z_out r).
Qed.

Lemma deflate_reads_spec fuel inner wb s0 s i o n input output :
  deflating wb s0 s i o (Feeding false) →
  (String.length i + String.length (unread input) <= n)%nat →
  (String.length (unread input) < fuel)%nat → (deflateBound s0 n < inner)%nat →
  let '(r, (_, output')) := deflate_reads fuel inner s (input, output) in
  r ≠ Throw out_of_fuel ∧
  (source_of (unread input) input → sink_of o output →
   r = Ok tt ∧ ∃ o', sink_of o' output' ∧ stream_of wb (i +:+ unread input) o').
Proof.
  revert s i o input output. induction fuel as [|fuel IH];
    intros s i o input output Hs Hn Hf Hin; [lia|].
  cbn [deflate_reads]. unfold mbind, M_bind, of_state, gets, lift_result.
  pose proof (read_cases buffer_size input) as [Hlen Hread].
  destruct (read buffer_size input) as [got input'] eqn:Er. cbn [fst snd] in *.
  pose proof buffer_size_pos as Hb. fold (read_failed input').
  assert (CheckedZlibSize (Z.of_nat (String.length got)) = Ok (Z.of_nat (String.length got))) as ->.
  { apply CheckedZlibSize_ok. pose proof (read_length buffer_size input) as Hl.
    rewrite Er in Hl. cbn [fst] in Hl. unfold buffer_size, UINT_MAX in *. lia. }
  destruct Hread as [(-> & Hno)|[(-> & -> & Hgot)|(-> & -> & Hg & Eu & Hsrc)]]; [done|..].
  - destruct (deflate_loop_spec inner Z_FINISH got wb s0 s i o (Feeding false) n input' output)
      as (r & output' & -> & Hr); [done|by right; left|lia..|].
    destruct r as [[s'|]|e]; [by destruct Hr as (? & _ & ? & _)| |destruct Hr; split; [congruence|done]].
    destruct Hr as (o' & Ho' & _ & Hstream). split; [done|]. intros Hi Ho. split; [done|].
    rewrite <-Hgot by done. eauto.
  - assert (String.length (unread input) = buffer_size + String.length (unread input'))%nat
      by (by rewrite Eu, string_length_app, Hg).
    destruct (deflate_loop_spec inner Z_NO_FLUSH got wb s0 s i o (Feeding false) n input' output)
      as (r & output1 & -> & Hr); [done|left; by intros ->; cbn in Hg; lia|lia..|].
    destruct r as [[s'|]|e];
      [|by destruct Hr as (? & _ & ? & _)|destruct Hr; split; [congruence|done]]. destruct Hr as (o1 & Ho1 & _ & Hs1).
    specialize (IH s' (i +:+ got) o1 input' output1 Hs1).
    rewrite string_length_app in IH. specialize (IH ltac:(lia) ltac:(lia) Hin).
    destruct (deflate_reads fuel inner s' (input', output1)) as [r [? output']].
    destruct IH as [Hr IH]. split; [done|]. intros Hi Ho.
    destruct (IH (Hsrc Hi) (Ho1 Ho)) as (-> & o' & Ho' & Hstream).
    split; [done|]. exists o'. rewrite append_assoc, <-Eu in Hstream. by split.
Qed.

(** Compression ends on every pair of streams, and compressing a source into an
    empty sink writes a complete stream of it. *)
Lemma DeflateBody_spec wb input output :
  let '(r, (_, output')) := DeflateBody wb (input, output) in
  r ≠ Throw out_of_fuel ∧
  ((deflateInit2 Z_DEFAULT_COMPRESSION Z_DEFLATED wb 8 Z_DEFAULT_STRATEGY).1 = Z_OK →
   source_of (unread input) input → sink_of "" output →
   r = Ok tt ∧ ∃ o, sink_of o output' ∧ stream_of wb (unread input) o).
Proof.
  unfold DeflateBody. destruct (deflateInit2 _ _ _ _ _) as [code s] eqn:E. cbn [fst].
  destruct (Z.eqb_spec code Z_OK) as [->|Hc]; cbn [negb]; [|done].
  apply deflateInit2_ok in E. unfold mbind, M_bind, gets.
  pose proof (deflate_reads_spec (S (String.length (unread input)))
    (S (deflateBound s (String.length (unread input)))) wb s s "" ""
    (String.length (unread input)) input output E) as Hspec.
  destruct (deflate_reads _ _ _ _) as [r [? output']].
  destruct Hspec as [Hr Hok]; [auto with lia..|]. split; [done|auto].
Qed.

Lemma inflate_loop_complete fuel input output s :
  inflating s → complete s input →
  (String.length (inflated s input) < fuel)%nat →
  inflate_loop fuel input output s = Ok (output +:+ inflated s input).
Proof.
  revert input output s. induction fuel as [|fuel IH]; intros input output s Hs Hc Hf; [lia|].
  cbn [inflate_loop]. pose proof buffer_size_pos as Hb.
  destruct (inflate_ok s buffer_size input Hs buffer_size_pos) as (consumed & Ei & Hok & Hcom).
  destruct (Hcom Hc) as [(E & Hc' & Hl)|(E & Eo)]; rewrite E; cbn [Z.eqb Z_OK Z_STREAM_END negb].
  - destruct (Hok E) as (Hs' & _ & Ein). rewrite Ein in Hf |- *.
    rewrite string_length_app in Hf.
    rewrite (bool_decide_eq_false_2 (z_out _ = "")).
    + rewrite andb_false_r, IH; [by rewrite append_assoc|done|done|lia].
    + intros E0. rewrite E0 in Hl. cbn in Hl. lia.
  - by rewrite Eo.
Qed.

Lemma inflate_loop_ends fuel input output s :
  inflating s →
  (String.length input + String.length (inflated s input) < fuel)%nat →
  inflate_loop fuel input output s ≠ Throw out_of_fuel.
Proof.
  revert input output s. induction fuel as [|fuel IH]; intros input output s Hs Hf; [lia|].
  cbn [inflate_loop].
  destruct (inflate_ok s buffer_size input Hs buffer_size_pos) as (consumed & Ei & Hok & _).
  set (r := inflate Z_NO_FLUSH buffer_size input s) in *.
  destruct (Z.eqb_spec (z_code r) Z_STREAM_END); [done|].
  destruct (Z.eqb_spec (z_code r) Z_OK) as [E|E]; [|done].
  destruct (Hok E) as (Hs' & Hprog & Ein). cbn [negb].
  destruct (_ && _); [done|]. apply IH; [done|].
  rewrite Ein, string_length_app in Hf.
  apply (f_equal String.length) in Ei. rewrite string_length_app in Ei.
  enough (0 < String.length consumed + String.length (z_out r))%nat by lia.
  destruct Hprog as [Hp|Hp]; [destruct consumed|destruct (z_out r)]; cbn; done || lia.
Qed.
End loops.
