(* ===== verification/StoredZlib.v ===== *)
(** A small implementation of the entry points of zlib that satisfies
    [ZlibLaws]: the laws can hold, and the loops of Zlib.v can be run. It
    "compresses" by escaping: a byte for the format, [.c] for every byte [c],
    and [!] at the end. *)
From S2P Require Import Prelude Uri Effects Streams HttpCompression Zlib.

Inductive stored_phase := Header (h : ascii) | Data | Escaped.
Inductive stored_state :=
  | Storing (pending : string) (finished full : bool)
  | Loading (phase : stored_phase).

Definition format_byte (window_bits : Z) : ascii :=
  if window_bits =? 31 then "G" else if window_bits =? 15 then "Z" else "R".
Fixpoint escape (s : string) : string :=
  match s with
  | EmptyString => EmptyString
  | String c s => String "." (String c (escape s))
  end.

Definition stored_deflate (flush : z_flush) (n : nat) (input : string) (s : stored_state)
    : z_step stored_state :=
  match s with
  | Loading _ => mkStep (-2) input "" s
  | Storing pending finished full =>
      let finish := match flush with Z_FINISH => true | Z_NO_FLUSH => false end in
      let pending :=
        pending +:+ escape input +:+ (if finish && negb finished then "!" else "") in
      let out := stake n pending in
      let rest := sdrop n pending in
      mkStep
        (if negb finish && negb full && bool_decide (input = "") && bool_decide (out = "") then -5
         else if finish && bool_decide (rest = "") then Z_STREAM_END else Z_OK)
        "" out (Storing rest (finished || finish) (String.length out =? n)%nat)
  end.

Fixpoint load (n : nat) (input : string) (phase : stored_phase) : z_step stored_phase :=
  match input with
  | EmptyString => mkStep Z_OK "" "" phase
  | String c rest =>
      match n, phase with
      | O, _ => mkStep Z_OK input "" phase
      | S _, Header h => if bool_decide (c = h) then load n rest Data else mkStep (-3) rest "" phase
      | S _, Data =>
          if bool_decide (c = "."%char) then load n rest Escaped
          else mkStep (if bool_decide (c = "!"%char) then Z_STREAM_END else -3) rest "" phase
      | S m, Escaped =>
          let r := load m rest Data in
          mkStep (z_code r) (z_rest r) (String c (z_out r)) (z_next r)
      end
  end.
Definition stored_inflate (flush : z_flush) (n : nat) (input : string) (s : stored_state)
    : z_step stored_state :=
  match s with
  | Storing _ _ _ => mkStep (-2) input "" s
  | Loading phase =>
      let r := load n input phase in
      mkStep (if bool_decide (input = "") then -5 else z_code r)
        (z_rest r) (z_out r) (Loading (z_next r))
  end.

#[global] Instance stored_zlib : Zlib := {
  z_state := stored_state;
  deflateInit2 _ _ window_bits _ _ :=
    (Z_OK, Storing (String (format_byte window_bits) "") false false);
  deflateBound _ n := (2 + 2 * n)%nat;
  deflate := stored_deflate;
  inflateInit2 window_bits := (Z_OK, Loading (Header (format_byte window_bits)));
  inflate := stored_inflate;
}.

(** ** Compressing *)

Lemma escape_app s t : escape (s +:+ t) = escape s +:+ escape t.
Proof. induction s as [|c s IH]; [done|]. rewrite append_cons. simpl. by rewrite IH, !append_cons. Qed.
Lemma escape_length s : String.length (escape s) = (2 * String.length s)%nat.
Proof. induction s as [|c s IH]; [done|]. simpl. lia. Qed.

Definition stored_stream (window_bits : Z) (body data : string) : Prop :=
  data = String (format_byte window_bits) (escape body +:+ "!").

Definition storing (window_bits : Z) (s0 s : stored_state) (i o : string)
    (phase : deflate_phase) : Prop :=
  match s, phase with
  | Storing pending finished full, Feeding f =>
      finished = false ∧ f = full ∧
      o +:+ pending = String (format_byte window_bits) (escape i)
  | Storing pending finished full, Finishing rest =>
      finished = true ∧ rest = "" ∧ stored_stream window_bits i (o +:+ pending)
  | Loading _, _ => False
  end.

Lemma stored_deflate_ok window_bits s0 s i o phase flush n input :
  storing window_bits s0 s i o phase → (0 < n)%nat → call_allowed phase flush input →
  let r := stored_deflate flush n input s in
  ∃ consumed, input = consumed +:+ z_rest r ∧ (String.length (z_out r) <= n)%nat ∧
    (z_code r = Z_OK ∧
     storing window_bits s0 (z_next r) (i +:+ consumed) (o +:+ z_out r) (next_phase flush n r) ∧
     (z_rest r ≠ "" ∨ flush = Z_FINISH → String.length (z_out r) = n) ∨
     z_code r = Z_STREAM_END ∧ flush = Z_FINISH ∧ z_rest r = "" ∧
     stored_stream window_bits (i +:+ consumed) (o +:+ z_out r)).
Proof.
  intros Hs Hn Ha. destruct s as [pending finished full|]; [|by destruct phase].
  exists input. simpl. split; [by rewrite append_empty_r|].
  split; [rewrite stake_length; lia|].
  destruct flush; simpl.
  - destruct phase as [f|rest]; [|by destruct Ha]. destruct Hs as (-> & -> & Hs).
    left. rewrite append_empty_r. split; [|split; [split_and!; [done|done|]|intros [?|?]; done]].
    + destruct Ha as [Ha|[Ha|Ha]]; [|done|by rewrite Ha].
      rewrite (bool_decide_eq_false_2 (input = "")) by done. by rewrite andb_false_r.
    + by rewrite append_assoc, stake_sdrop, <-append_assoc, Hs, escape_app.
  - assert (stored_stream window_bits (i +:+ input) (o +:+ pending +:+ escape input +:+
      (if negb finished then "!" else ""))) as Hall.
    { unfold stored_stream. destruct phase as [f|rest].
      - destruct Hs as (-> & -> & Hs). cbn [negb].
        by rewrite <-append_assoc, Hs, escape_app, append_cons, append_assoc.
      - destruct Hs as (-> & -> & Hs), Ha as [_ ->]. cbn [negb escape]. by rewrite !append_empty_r. }
    set (p := pending +:+ _) in *. rewrite orb_true_r. case_bool_decide as E.
    + right. split_and!; [done..|]. rewrite <-(stake_sdrop n p), E in Hall.
      by rewrite append_empty_r in Hall.
    + left. split_and!; [done..| |].
      * by rewrite append_assoc, stake_sdrop.
      * intros _. rewrite stake_length.
        destruct (Nat.le_gt_cases (String.length p) n); [by rewrite sdrop_all in E|lia].
Qed.

Lemma storing_bounded window_bits s0 s i o phase :
  storing window_bits s0 s i o phase → (String.length o <= 2 + 2 * String.length i)%nat.
Proof.
  intros Hs. destruct s as [pending finished full|]; [|by destruct phase].
  assert (String.length (o +:+ pending) <= 2 + 2 * String.length i)%nat as Hl.
  { destruct phase as [f|rest]; destruct Hs as (_ & _ & ->); simpl;
      rewrite ?string_length_app, escape_length; simpl; lia. }
  rewrite string_length_app in Hl. lia.
Qed.

(** ** Decompressing *)

(** The output for an input and an output buffer without bounds, and whether
    the end of the stream is in the input. *)
Fixpoint load_all (input : string) (phase : stored_phase) : string * bool :=
  match input with
  | EmptyString => ("", false)
  | String c rest =>
      match phase with
      | Header h => if bool_decide (c = h) then load_all rest Data else ("", false)
      | Data => if bool_decide (c = "."%char) then load_all rest Escaped
                else ("", bool_decide (c = "!"%char))
      | Escaped => let '(out, b) := load_all rest Data in (String c out, b)
      end
  end.

Lemma load_all_length input phase : (String.length (load_all input phase).1 <= String.length input)%nat.
Proof.
  revert phase. induction input as [|c rest IH]; intros phase; [done|]. simpl.
  pose proof (IH Data) as I1. pose proof (IH Escaped) as I2.
  destruct phase; repeat case_bool_decide; simpl in *; try lia.
  destruct (load_all rest Data). simpl in *. lia.
Qed.
Lemma load_all_escape body more :
  load_all (escape body +:+ String "!" more) Data = (body, true).
Proof. induction body as [|c body IH]; [done|]. simpl in *. by rewrite IH. Qed.

Lemma load_spec n input phase :
  let r := load n input phase in
  (∃ consumed, input = consumed +:+ z_rest r ∧ (input ≠ "" → n ≠ 0%nat → consumed ≠ "")) ∧
  (z_code r = Z_OK →
   load_all input phase =
     (z_out r +:+ (load_all (z_rest r) (z_next r)).1, (load_all (z_rest r) (z_next r)).2)) ∧
  ((load_all input phase).2 = true →
   z_code r = Z_OK ∧ String.length (z_out r) = n ∨
   z_code r = Z_STREAM_END ∧ z_out r = (load_all input phase).1).
Proof.
  revert n phase. induction input as [|c rest IH]; intros n phase.
  { cbn. split; [by exists ""|]. done. }
  destruct n as [|n].
  { cbn [load z_rest z_code z_out z_next]. split; [by exists ""|].
    split; [|by left]. intros _. by rewrite append_empty_l, <-surjective_pairing. }
  assert (∀ m k phase, ∃ consumed, String c rest = consumed +:+ z_rest (load m rest phase) ∧
    (String c rest ≠ "" → k ≠ 0%nat → consumed ≠ "")) as Hmore.
  { intros m k ph. destruct (IH m ph) as [(consumed & E & _) _].
    exists (String c consumed). split; [|done]. by rewrite append_cons, <-E. }
  cbn [load load_all]. destruct phase as [h| |].
  - case_bool_decide; cbn; [split; [apply Hmore|apply IH]|].
    split; [by exists (String c "")|done].
  - case_bool_decide; cbn; [split; [apply Hmore|apply IH]|].
    split; [by exists (String c "")|]. case_bool_decide; cbn; [|done]. split; [done|by right].
  - cbn. split; [apply Hmore|]. destruct (IH n Data) as (_ & H1 & H2).
    destruct (load_all rest Data) as [out b] eqn:E. cbn in *. split.
    + intros Ec. specialize (H1 Ec). by simplify_eq.
    + intros Eb. destruct (H2 Eb) as [[-> ->]|[-> ->]]; [by left|by right].
Qed.

Definition loading (s : stored_state) : Prop := ∃ phase, s = Loading phase.
Definition loaded (s : stored_state) (input : string) : string :=
  match s with Loading phase => (load_all input phase).1 | Storing _ _ _ => "" end.
Definition load_complete (s : stored_state) (input : string) : Prop :=
  match s with Loading phase => (load_all input phase).2 = true | Storing _ _ _ => False end.

Lemma stored_inflate_ok s n input :
  loading s → (0 < n)%nat →
  let r := stored_inflate Z_NO_FLUSH n input s in
  ∃ consumed, input = consumed +:+ z_rest r ∧
    (z_code r = Z_OK →
     loading (z_next r) ∧ (consumed ≠ "" ∨ z_out r ≠ "") ∧
     loaded s input = z_out r +:+ loaded (z_next r) (z_rest r)) ∧
    (load_complete s input →
     z_code r = Z_OK ∧ load_complete (z_next r) (z_rest r) ∧ String.length (z_out r) = n ∨
     z_code r = Z_STREAM_END ∧ z_out r = loaded s input).
Proof.
  intros [phase ->] Hn. cbn.
  destruct (load_spec n input phase) as ((consumed & E & Hp) & Hok & Hc).
  exists consumed. split; [done|]. case_bool_decide as Ei.
  { subst. done. }
  split.
  - intros Ec. split; [by eexists|]. split; [left; apply Hp; [done|lia]|]. by rewrite (Hok Ec).
  - intros Hcom. destruct (Hc Hcom) as [[Ec El]|[Ec Eo]]; [left|by right].
    split; [done|]. split; [|done]. by rewrite (Hok Ec) in Hcom.
Qed.

#[global, program] Instance stored_zlib_laws : ZlibLaws := {
  stream_of := stored_stream;
  deflating := storing;
  deflate_ok := stored_deflate_ok;
  deflate_bounded := storing_bounded;
  inflating := loading;
  inflated := loaded;
  complete := load_complete;
  inflate_ok := stored_inflate_ok;
}.
Next Obligation. intros wb s level method memory strategy E. by simplify_eq/=. Qed.
Next Obligation. intros s0 m n Hmn. cbn. lia. Qed.
Next Obligation.
  intros wb s E. injection E as <-. split; [by eexists|]. split.
  - intros input. pose proof (load_all_length input (Header (format_byte wb))). cbn in *. lia.
  - intros body data more ->. rewrite append_cons. cbn [load_complete loaded load_all].
    rewrite bool_decide_eq_true_2 by done. by rewrite append_assoc, append_cons, append_empty_l, load_all_escape.
Qed.
