(* ===== verification/Config.v ===== *)
(** Client configuration (src/config.cpp,
    include/scylladb/alternator/config.h): the [Config] record, its validation,
    and the header optimizations. *)
From S2P Require Import Prelude Uri RoutingScope NodeHealth QueryPlan KeyRouteAffinity.
From S2P Require Import HttpCompression.

Record HeaderOptimizationContext := mkHeaderContext {
  credentials_configured : bool;
  user_agent_configured : bool;
}.

(** The interface has one method. *)
Definition HeaderOptimization : Type := HeaderOptimizationContext → list string.

Definition DefaultHeaderOptimization : HeaderOptimization := λ context,
  ["Host"; "X-Amz-Target"; "Content-Length"; "Accept-Encoding"; "Content-Encoding"] ++
  (if credentials_configured context then ["Authorization"; "X-Amz-Date"] else []) ++
  (if user_agent_configured context then ["User-Agent"] else []).

Definition HeaderAllowlistOptimization (allowed_headers : list string) : HeaderOptimization :=
  λ _, allowed_headers.

Record Credentials := mkCredentials {
  access_key_id : string;
  secret_access_key : string;
}.

(** Durations in milliseconds, [tls_session_timeout] in seconds. *)
Record Config := mkConfig {
  port : N;
  scheme : string;
  routing_scope : RoutingScopePtr;
  aws_region : string;
  credentials : Credentials;
  nodes_list_update_period : Z;
  idle_nodes_list_update_period : Z;
  http_client_timeout : Z;
  connect_timeout : Z;
  verify_ssl : bool;
  ca_file : string;
  client_certificate_file : string;
  client_private_key_file : string;
  tls_session_cache_enabled : bool;
  tls_session_cache_size : Z;
  tls_session_timeout : Z;
  max_connections : Z;
  reuse_discovery_connections : bool;
  request_compressor : option HttpRequestCompressor;
  content_encoding_decoders : list (option HttpContentEncodingDecoder);
  user_agent : string;
  header_optimization : option HeaderOptimization;
  node_health : NodeHealthStoreConfig;
  key_route_affinity : KeyRouteAffinityConfig;
}.

(** The defaults of the member initialisers. *)
Definition default_config : Config := {|
  port := 8080; scheme := "http"; routing_scope := NewClusterScope;
  aws_region := "default-alb-region"; credentials := mkCredentials "" "";
  nodes_list_update_period := 1000; idle_nodes_list_update_period := 60000;
  http_client_timeout := 0; connect_timeout := 1000;
  verify_ssl := true; ca_file := ""; client_certificate_file := "";
  client_private_key_file := "";
  tls_session_cache_enabled := true; tls_session_cache_size := 1024;
  tls_session_timeout := 86400;
  max_connections := 100; reuse_discovery_connections := true;
  request_compressor := None; content_encoding_decoders := [];
  user_agent := "scylladb-alternator-client-cpp/devel"; header_optimization := None;
  node_health := default_health_config;
  key_route_affinity := mkAffinityConfig KRA_None ∅ 3 100;
|}.

Definition guard_arg (bad : bool) (what : string) : result unit :=
  if bad then Throw (InvalidArgument what) else Ok tt.

Definition ValidateConfig (config : Config) : result unit :=
  guard_arg (negb (bool_decide (scheme config = "http")) &&
             negb (bool_decide (scheme config = "https"))) "scheme must be http or https";;
  guard_arg (bool_decide (port config = 0%N)) "port must be > 0";;
  guard_arg (bool_decide (routing_scope config = None)) "routing_scope must not be null";;
  guard_arg (max_connections config =? 0) "max_connections must be > 0";;
  BuildRequestContentEncodingValue (request_compressor config);;
  BuildAcceptEncodingValue (content_encoding_decoders config);;
  guard_arg (partition_key_discovery_attempts (key_route_affinity config) =? 0)
    "partition_key_discovery_attempts must be > 0";;
  guard_arg (partition_key_discovery_initial_backoff (key_route_affinity config) <? 0)
    "partition_key_discovery_initial_backoff must be >= 0";;
  if tls_session_cache_enabled config then
    guard_arg (tls_session_cache_size config =? 0)
      "tls_session_cache_size must be > 0 when TLS session cache is enabled";;
    guard_arg (tls_session_timeout config <=? 0)
      "tls_session_timeout must be > 0 when TLS session cache is enabled"
  else Ok tt.

(** What a configuration that passes promises to the components built on it. *)
Record valid_config (config : Config) : Prop := {
  valid_scheme : scheme config = "http" ∨ scheme config = "https";
  valid_port : port config ≠ 0%N;
  valid_scope : is_Some (routing_scope config);
  valid_connections : max_connections config ≠ 0;
  valid_request : ∃ e, BuildRequestContentEncodingValue (request_compressor config) = Ok e;
  valid_accept : ∃ v, BuildAcceptEncodingValue (content_encoding_decoders config) = Ok v;
  valid_attempts : partition_key_discovery_attempts (key_route_affinity config) ≠ 0;
  valid_backoff : 0 <= partition_key_discovery_initial_backoff (key_route_affinity config);
  valid_tls : tls_session_cache_enabled config = true →
    tls_session_cache_size config ≠ 0 ∧ 0 < tls_session_timeout config;
}.

Lemma guard_arg_bind {A} bad what (k : result A) a :
  (guard_arg bad what;; k) = Ok a ↔ bad = false ∧ k = Ok a.
Proof. unfold guard_arg. destruct bad; simpl; naive_solver. Qed.
Lemma result_bind_ok {A B} (m : result A) (k : result B) b :
  (m;; k) = Ok b ↔ (∃ a, m = Ok a) ∧ k = Ok b.
Proof. destruct m; simpl; naive_solver. Qed.

Lemma ValidateConfig_iff config : ValidateConfig config = Ok tt ↔ valid_config config.
Proof.
  unfold ValidateConfig. rewrite !guard_arg_bind. do 2 rewrite result_bind_ok.
  rewrite !guard_arg_bind.
  rewrite andb_false_iff, !negb_false_iff, !bool_decide_eq_true, !bool_decide_eq_false.
  rewrite !Z.eqb_neq, Z.ltb_ge. split.
  - intros (Hs & Hp & Hr & Hm & Hq & Ha & Ht & Hb & Hl). split; try done; [by apply not_eq_None_Some|].
    intros Hc. rewrite Hc, guard_arg_bind in Hl. destruct Hl as [Hz Hl].
    rewrite Z.eqb_neq in Hz. unfold guard_arg in Hl.
    destruct (Z.leb_spec (tls_session_timeout config) 0); done.
  - intros [Hs Hp Hr Hm Hq Ha Ht Hb Hl]. split_and!; try done.
    { by apply not_eq_None_Some. }
    destruct (tls_session_cache_enabled config); [|done].
    destruct Hl as [Hz Hl]; [done|]. rewrite guard_arg_bind, Z.eqb_neq. split; [done|].
    unfold guard_arg. destruct (Z.leb_spec (tls_session_timeout config) 0); [lia|done].
Qed.
