(* ===== verification/SocketClient.v ===== *)
(** The HTTP client over POSIX sockets: the branch of src/http_client.cpp that is
    built without libcurl.

    The socket interface is the class [Sockets] of the calls the client makes, and
    [SocketLaws] states what POSIX promises of them. A call that may fail gives
    its result or [errno]. *)
From S2P Require Import Prelude Uri Effects Streams HttpCompression Config.

Definition EINTR : Z := 4.
Definition AF_UNSPEC : Z := 0.
Definition SOCK_STREAM : Z := 1.

Inductive io_result (A : Type) :=
  | Done (a : A)
  | Failed (errno : Z).
Arguments Done {_} _.
Arguments Failed {_} _.

Record addrinfo := mkAddrinfo {
  ai_family : Z;
  ai_socktype : Z;
  ai_protocol : Z;
  ai_addr : string;
}.

(** [getaddrinfo host service family socktype] gives an error code or the list of
    addresses; [recv fd n] the bytes received, none at the end of the stream. *)
Class Sockets (W : Type) := {
  getaddrinfo : string → string → Z → Z → W → (Z + list addrinfo) * W;
  gai_strerror : Z → string;
  freeaddrinfo : list addrinfo → W → W;
  socket : Z → Z → Z → W → Z * W;
  connect : Z → string → W → Z * W;
  send : Z → string → W → io_result nat * W;
  recv : Z → nat → W → io_result string * W;
  close : Z → W → W;
}.

(** ** The response parser *)

Definition CRLF : string := String carriage_return (String newline "").

(** [find] of a text, with what precedes and what follows its first occurrence. *)
Fixpoint split_text (pattern s : string) : option (string * string) :=
  if is_prefix pattern s then Some ("", sdrop (String.length pattern) s)
  else match s with
       | EmptyString => None
       | String c s =>
           match split_text pattern s with
           | Some (before, after) => Some (String c before, after)
           | None => None
           end
       end.

(** [stream >> word]: skips white space and takes what precedes the next; [None]
    leaves the stream failed. *)
Fixpoint take_word (s : string) : string * string :=
  match s with
  | EmptyString => ("", "")
  | String c rest =>
      if isspace c then ("", s)
      else let '(word, rest) := take_word rest in (String c word, rest)
  end.
Definition read_word (s : string) : option (string * string) :=
  let '(word, rest) := take_word (trim_start s) in
  if bool_decide (word = "") then None else Some (word, rest).

Definition digit (c : ascii) : option Z :=
  let n := Z.of_N (N_of_ascii c) - 48 in
  if (0 <=? n) && (n <=? 9) then Some n else None.
(** The value of the leading digits after [acc]. *)
Fixpoint digits_value (acc : Z) (s : string) : Z :=
  match s with
  | EmptyString => acc
  | String c s => match digit c with
                  | Some d => digits_value (10 * acc + d) s
                  | None => acc
                  end
  end.
(** [stream >> number] on a [long] that holds 0: a field without digits stores
    0, one out of range the nearest bound. *)
Definition read_long (s : string) : Z :=
  let s := trim_start s in
  let '(negative, s) :=
    match s with
    | String c rest =>
        if bool_decide (c = "-"%char) then (true, rest)
        else if bool_decide (c = "+"%char) then (false, rest) else (false, s)
    | EmptyString => (false, s)
    end in
  let v := digits_value 0 s in
  if negative then Z.max (- 2 ^ 63) (- v) else Z.min (2 ^ 63 - 1) v.

(** The two extractions from the status line; a failed first one leaves both
    variables as they were initialised. *)
Definition parse_status_line (line : string) : string * Z :=
  match read_word line with
  | None => ("", 0)
  | Some (version, rest) => (version, read_long rest)
  end.

Definition ParseHttpResponse (raw : string)
    (decoders : list (option HttpContentEncodingDecoder)) : result HttpResponse :=
  match split_text (CRLF +:+ CRLF) raw with
  | None => Throw (RuntimeError "invalid HTTP response")
  | Some (head, content) =>
      match split_text CRLF raw with
      | None => Throw (RuntimeError "invalid HTTP status line")
      | Some (status_line, _) =>
          if (String.length head <? String.length status_line)%nat
          then Throw (RuntimeError "invalid HTTP status line")
          else
            let '(http_version, status_code) := parse_status_line status_line in
            if negb (is_prefix "HTTP/" http_version) || (status_code =? 0)
            then Throw (RuntimeError "invalid HTTP status line")
            else
              body ← DecodeHttpResponseBody content
                       (FindHttpHeaderValue head "content-encoding") decoders;
              Ok (mkResponse status_code body)
      end
  end.

(** ** Sockets *)

Record FdGuard := mkFdGuard { guard_fd : Z }.

Section client.
Context {W : Type} `{Sockets W}.

Definition FdGuard_destroy (g : FdGuard) (w : W) : W :=
  if 0 <=? guard_fd g then close (guard_fd g) w else w.
(** Move construction: the new guard and the one moved from. *)
Definition FdGuard_move (other : FdGuard) : FdGuard * FdGuard :=
  (mkFdGuard (guard_fd other), mkFdGuard (-1)).
(** Move assignment between two different guards. *)
Definition FdGuard_assign (g other : FdGuard) (w : W) : (FdGuard * FdGuard) * W :=
  (FdGuard_move other, FdGuard_destroy g w).

Fixpoint recv_loop (fuel : nat) (fd : Z) (data : string) : M W string :=
  match fuel with
  | O => throw out_of_fuel
  | S fuel =>
      r ← of_state (recv fd 4096);
      match r with
      | Done chunk => if bool_decide (chunk = "") then mret data
                      else recv_loop fuel fd (data +:+ chunk)
      | Failed errno => if errno =? EINTR then recv_loop fuel fd data
                        else throw (RuntimeError "recv failed")
      end
  end.
Definition ReadAll (fuel : nat) (fd : Z) : M W string := recv_loop fuel fd "".

(** The loop, with the data from position [sent] on. *)
Fixpoint send_loop (fuel : nat) (fd : Z) (data : string) : M W unit :=
  if bool_decide (data = "") then mret tt
  else match fuel with
  | O => throw out_of_fuel
  | S fuel =>
      r ← of_state (send fd data);
      match r with
      | Done n => send_loop fuel fd (sdrop n data)
      | Failed errno => if errno =? EINTR then send_loop fuel fd data
                        else throw (RuntimeError "send failed")
      end
  end.
Definition SendAll (fuel : nat) (fd : Z) (data : string) : M W unit := send_loop fuel fd data.

(** The loop over the addresses; each guard leaves its scope at the end of its
    turn, moved from when the connection is returned. *)
Fixpoint connect_loop (addresses : list addrinfo) : M W FdGuard :=
  match addresses with
  | [] => throw (RuntimeError "connect failed")
  | it :: addresses =>
      fd ← of_state (socket (ai_family it) (ai_socktype it) (ai_protocol it));
      if fd <? 0 then connect_loop addresses
      else
        let guard := mkFdGuard fd in
        code ← of_state (connect fd (ai_addr it));
        if code =? 0 then
          let '(returned, guard) := FdGuard_move guard in
          _ ← modify (FdGuard_destroy guard);
          mret returned
        else
          _ ← modify (FdGuard_destroy guard);
          connect_loop addresses
  end.

Definition ConnectTcp (url : Url) : M W FdGuard :=
  raw ← of_state (getaddrinfo (c_str (url_host url)) (pretty (url_port url)) AF_UNSPEC SOCK_STREAM);
  match raw with
  | inl code => throw (RuntimeError (gai_strerror code))
  | inr results => finally (connect_loop results) (freeaddrinfo results)
  end.

(** The request [Get] writes. *)
Definition request_text (config : Config) (url : Url) : result string :=
  let path := if bool_decide (url_path url = "") then "/" else url_path url in
  let target := if bool_decide (url_query url = "") then path else path +:+ "?" +:+ url_query url in
  accept_encoding_value ← BuildAcceptEncodingValue (content_encoding_decoders config);
  Ok ("GET " +:+ target +:+ " HTTP/1.1" +:+ CRLF +:+
      "Host: " +:+ Authority url +:+ CRLF +:+
      "Connection: close" +:+ CRLF +:+
      (if bool_decide (accept_encoding_value = "") then ""
       else "Accept-Encoding: " +:+ accept_encoding_value +:+ CRLF) +:+
      (if bool_decide (user_agent config = "") then ""
       else "User-Agent: " +:+ user_agent config +:+ CRLF) +:+
      CRLF).

(** [fuel] bounds the calls of [send] and of [recv]. *)
Definition SocketHttpClient_Get (fuel : nat) (config : Config) (url : Url) : M W HttpResponse :=
  if negb (bool_decide (url_scheme url = "http")) then
    throw (RuntimeError
      "alternator_client_cpp was built without libcurl support; https is unavailable")
  else
    request ← lift_result (request_text config url);
    fd ← ConnectTcp url;
    finally
      (_ ← SendAll fuel (guard_fd fd) request;
       raw ← ReadAll fuel (guard_fd fd);
       lift_result (ParseHttpResponse raw (content_encoding_decoders config)))
      (FdGuard_destroy fd).
End client.

(** ** What POSIX promises

    [open_fds]: the open descriptors. [wire fd]: the bytes accepted for sending.
    [incoming fd]: the bytes the peer sends before it closes. [interrupts]: a
    bound on the signals still to interrupt a call. *)
Class SocketLaws (W : Type) `{Sockets W} := {
  open_fds : W → gset Z;
  wire : Z → W → string;
  incoming : Z → W → string;
  interrupts : W → nat;
  getaddrinfo_open host service family socktype w :
    open_fds (getaddrinfo host service family socktype w).2 = open_fds w;
  freeaddrinfo_open results w : open_fds (freeaddrinfo results w) = open_fds w;
  socket_open family socktype protocol w :
    let '(fd, w') := socket family socktype protocol w in
    if fd <? 0 then open_fds w' = open_fds w
    else (fd ∉ open_fds w) ∧ open_fds w' = {[fd]} ∪ open_fds w;
  connect_open fd addr w : open_fds (connect fd addr w).2 = open_fds w;
  close_open fd w : open_fds (close fd w) = open_fds w ∖ {[fd]};
  send_open fd data w : open_fds (send fd data w).2 = open_fds w;
  recv_open fd n w : open_fds (recv fd n w).2 = open_fds w;
  send_ok fd data w : data ≠ "" →
    let '(r, w') := send fd data w in
    match r with
    | Done n => (0 < n <= String.length data)%nat ∧ wire fd w' = wire fd w +:+ stake n data ∧
        (interrupts w' <= interrupts w)%nat
    | Failed errno => wire fd w' = wire fd w ∧
        (errno = EINTR → interrupts w' < interrupts w)%nat
    end;
  recv_ok fd n w : (0 < n)%nat →
    let '(r, w') := recv fd n w in
    match r with
    | Done chunk => incoming fd w = chunk +:+ incoming fd w' ∧
        (chunk = "" → incoming fd w' = "") ∧ (interrupts w' <= interrupts w)%nat
    | Failed errno => incoming fd w' = incoming fd w ∧
        (errno = EINTR → interrupts w' < interrupts w)%nat
    end;
}.

Section sockets.
Context {W : Type} `{SocketLaws W}.

(** With fuel for the bytes and the interrupts, sending ends: all of the data is
    on the wire, or the call failed after a prefix of it. *)
Lemma send_loop_spec fuel fd data w :
  (String.length data + interrupts w <= fuel)%nat →
  let '(r, w') := send_loop fuel fd data w in
  (r = Ok tt ∧ wire fd w' = wire fd w +:+ data) ∨
  (r = Throw (RuntimeError "send failed") ∧
   ∃ part rest, data = part +:+ rest ∧ rest ≠ "" ∧ wire fd w' = wire fd w +:+ part).
Proof.
  revert data w. induction fuel as [|fuel IH]; intros data w Hf;
    cbn [send_loop]; case_bool_decide as Ed;
    try (subst; left; by rewrite append_empty_r).
  { destruct data; cbn in Hf; [done|lia]. }
  unfold mbind, M_bind, of_state. pose proof (send_ok fd data w Ed) as Hsend.
  destruct (send fd data w) as [[n|errno] w1].
  - destruct Hsend as (Hn & Hw & Hi). specialize (IH (sdrop n data) w1).
    rewrite sdrop_length in IH. specialize (IH ltac:(lia)).
    destruct (send_loop fuel fd (sdrop n data) w1) as [r w'].
    destruct IH as [[-> E]|(-> & part & rest & Ep & Hr & E)]; [left|right]; (split; [done|]).
    + by rewrite E, Hw, append_assoc, stake_sdrop.
    + exists (stake n data +:+ part), rest.
      by rewrite append_assoc, <-Ep, stake_sdrop, E, Hw, append_assoc.
  - destruct Hsend as [Hw Hi]. destruct (Z.eqb_spec errno EINTR) as [Ee|Ee].
    + specialize (Hi Ee). specialize (IH data w1 ltac:(lia)).
      destruct (send_loop fuel fd data w1) as [r w']. by rewrite Hw in IH.
    + right. split; [done|]. exists "", data. by rewrite append_empty_l, append_empty_r.
Qed.

Lemma recv_loop_spec fuel fd data w :
  (String.length (incoming fd w) + interrupts w < fuel)%nat →
  let r := (recv_loop fuel fd data w).1 in
  r = Ok (data +:+ incoming fd w) ∨ r = Throw (RuntimeError "recv failed").
Proof.
  revert data w. induction fuel as [|fuel IH]; intros data w Hf; [lia|].
  cbn [recv_loop]. unfold mbind, M_bind, of_state.
  assert (0 < 4096)%nat as H4096 by (apply Nat.ltb_lt; reflexivity).
  pose proof (recv_ok fd 4096 w H4096) as Hr.
  destruct (recv fd 4096 w) as [[chunk|errno] w1].
  - destruct Hr as (Ei & Hend & Hi). rewrite Ei, string_length_app in Hf.
    case_bool_decide as Ec.
    + left. rewrite Ei, Ec, (Hend Ec). cbn. by rewrite append_empty_r.
    + specialize (IH (data +:+ chunk) w1). rewrite Ei, <-append_assoc. apply IH.
      destruct chunk; [done|]. cbn in Hf. lia.
  - destruct Hr as [Ei Hi]. destruct (Z.eqb_spec errno EINTR) as [Ee|Ee]; [|by right].
    specialize (Hi Ee). rewrite <-Ei. apply IH. rewrite Ei. lia.
Qed.

(** ** Descriptors *)

Lemma send_loop_open X fuel fd data :
  preserves (λ w, open_fds w = X) (send_loop fuel fd data).
Proof.
  revert data. induction fuel as [|fuel IH]; intros data; cbn [send_loop]; case_bool_decide;
    auto with alternator.
  apply preserves_bind; [apply preserves_of_state; intros w <-; apply send_open|].
  intros [n|errno]; [apply IH|]. destruct (errno =? EINTR); auto with alternator.
Qed.
Lemma recv_loop_open X fuel fd data :
  preserves (λ w, open_fds w = X) (recv_loop fuel fd data).
Proof.
  revert data. induction fuel as [|fuel IH]; intros data; cbn [recv_loop]; auto with alternator.
  apply preserves_bind; [apply preserves_of_state; intros w <-; apply recv_open|].
  intros [chunk|errno]; [case_bool_decide|destruct (errno =? EINTR)]; auto with alternator.
Qed.

(** A connection that is returned is the only new descriptor. *)
Definition connected (X : gset Z) (g : FdGuard) (w : W) : Prop :=
  0 <= guard_fd g ∧ (guard_fd g ∉ X) ∧ open_fds w = {[guard_fd g]} ∪ X.

Lemma connect_loop_open X addresses :
  triple (λ w, open_fds w = X) (connect_loop addresses) (connected X) (λ _ w, open_fds w = X).
Proof.
  induction addresses as [|it addresses IH]; intros w Hw; [done|].
  cbn [connect_loop]. unfold mbind, M_bind, of_state, modify.
  pose proof (socket_open (ai_family it) (ai_socktype it) (ai_protocol it) w) as Hs.
  destruct (socket _ _ _ w) as [fd w1]. destruct (Z.ltb_spec fd 0) as [Hfd|Hfd].
  { apply IH. by rewrite Hs. }
  destruct Hs as [Hnew Hs]. pose proof (connect_open fd (ai_addr it) w1) as Hc.
  destruct (connect fd (ai_addr it) w1) as [code w2]. cbn [snd] in Hc.
  destruct (code =? 0).
  - cbn. unfold connected. cbn. rewrite Hc, Hs, Hw in *. done.
  - apply IH. unfold FdGuard_destroy. cbn [guard_fd].
    destruct (Z.leb_spec 0 fd); [|lia]. rewrite close_open, Hc, Hs. set_solver.
Qed.

Lemma ConnectTcp_open X url :
  triple (λ w, open_fds w = X) (ConnectTcp url) (connected X) (λ _ w, open_fds w = X).
Proof.
  intros w Hw. unfold ConnectTcp, mbind, M_bind, of_state.
  pose proof (getaddrinfo_open (c_str (url_host url)) (pretty (url_port url)) AF_UNSPEC SOCK_STREAM w) as Hg.
  destruct (getaddrinfo _ _ _ _ w) as [[code|results] w1]; cbn [snd] in Hg; [cbn; congruence|].
  unfold finally. pose proof (connect_loop_open X results w1 ltac:(cbn; congruence)) as Hc.
  destruct (connect_loop results w1) as [[g|e] w2]; [|by rewrite freeaddrinfo_open].
  unfold connected. by rewrite freeaddrinfo_open.
Qed.

Lemma Get_open X fuel config url :
  preserves (λ w, open_fds w = X) (SocketHttpClient_Get fuel config url).
Proof.
  unfold SocketHttpClient_Get. destruct (negb _); auto with alternator.
  apply preserves_bind; auto with alternator. intros request w Hw.
  unfold mbind at 1, M_bind at 1. pose proof (ConnectTcp_open X url w Hw) as Hc.
  destruct (ConnectTcp url w) as [[g|e] w1]; [|done]. destruct Hc as (Hfd & Hnew & Ho).
  unfold finally. set (m := SendAll _ _ _ ≫= _).
  assert (preserves (λ w, open_fds w = {[guard_fd g]} ∪ X) m) as Hm.
  { apply preserves_bind; [apply send_loop_open|]. intros _.
    apply preserves_bind; [apply recv_loop_open|]. auto with alternator. }
  specialize (Hm w1 Ho). destruct (m w1) as [r w2]. cbn [snd] in *.
  unfold FdGuard_destroy. destruct (Z.leb_spec 0 (guard_fd g)); [|lia].
  rewrite close_open, Hm. set_solver.
Qed.
End sockets.
