(* ===== verification/HttpMessages.v ===== *)
(** Facts of the response parser of SocketClient.v: what it makes of a response as
    servers write them. *)
From S2P Require Import Prelude Uri Effects Streams HttpCompression Config SocketClient.

(** ** Finding a text *)

Lemma split_text_skip p pattern l t :
  string_has p l = false →
  split_text (String p pattern) (l +:+ t) =
  match split_text (String p pattern) t with
  | Some (before, after) => Some (l +:+ before, after)
  | None => None
  end.
Proof.
  induction l as [|c l IH]; intros Hl.
  { by destruct (split_text _ _) as [[]|]. }
  simpl in Hl. apply orb_false_iff in Hl as [Hc Hl].
  rewrite append_cons. cbn [split_text is_prefix]. rewrite Hc, (IH Hl). cbn.
  by destruct (split_text _ t) as [[]|].
Qed.

(** ** Numbers *)

Lemma digit_pretty (d : N) : (d < 10)%N → digit (pretty_N_char d) = Some (Z.of_N d).
Proof.
  intros H. destruct d as [|p]; [done|]. do 4 (destruct p as [p|p|]; try done; try lia).
Qed.

Lemma digits_value_go (x : N) s :
  digits_value 0 (pretty_N_go x s) = digits_value (Z.of_N x) s.
Proof.
  revert s. induction (N.lt_wf_0 x) as [x _ IH]; intros s.
  destruct (decide (x = 0)%N) as [->|Hx]; [by rewrite pretty_N_go_0|].
  rewrite pretty_N_go_step by lia.
  rewrite IH by (apply N.div_lt; lia). cbn [digits_value].
  rewrite digit_pretty by (apply N.mod_lt; lia). f_equal.
  pose proof (N.div_mod x 10 ltac:(lia)). lia.
Qed.
Lemma pretty_go_app (x : N) s t : pretty_N_go x s +:+ t = pretty_N_go x (s +:+ t).
Proof.
  revert s. induction (N.lt_wf_0 x) as [x _ IH]; intros s.
  destruct (decide (x = 0)%N) as [->|Hx]; [by rewrite !pretty_N_go_0|].
  rewrite !(pretty_N_go_step x) by lia. rewrite IH by (apply N.div_lt; lia). done.
Qed.

Definition starts_with_digit (s : string) : bool :=
  match s with String c _ => bool_decide (digit c ≠ None) | EmptyString => false end.

Lemma pretty_go_starts (x : N) s :
  (0 < x)%N ∨ starts_with_digit s = true → starts_with_digit (pretty_N_go x s) = true.
Proof.
  revert s. induction (N.lt_wf_0 x) as [x _ IH]; intros s Hs.
  destruct (decide (x = 0)%N) as [->|Hx].
  { rewrite pretty_N_go_0. destruct Hs; [lia|done]. }
  rewrite pretty_N_go_step by lia. apply IH; [apply N.div_lt; lia|]. right. simpl.
  by rewrite digit_pretty by (apply N.mod_lt; lia).
Qed.

Lemma starts_with_digit_read s :
  starts_with_digit s = true → read_long s = Z.min (2 ^ 63 - 1) (digits_value 0 s).
Proof.
  intros Hs. destruct s as [|c s]; [done|].
  assert (isspace c = false ∧ c ≠ "-"%char ∧ c ≠ "+"%char) as (Hc & Hm & Hp).
  { simpl in Hs. destruct c as [[] [] [] [] [] [] [] []]; done. }
  unfold read_long. cbn [trim_start]. rewrite Hc.
  by rewrite !bool_decide_eq_false_2 by done.
Qed.

(** The number printed by a server is the number read, when what follows it is
    not a digit. *)
Lemma read_long_pretty (n : N) rest :
  (0 < n)%N → starts_with_digit rest = false →
  read_long (pretty n +:+ rest) = Z.min (2 ^ 63 - 1) (Z.of_N n).
Proof.
  intros Hn Hr. unfold pretty, pretty_N. rewrite decide_False by lia.
  rewrite pretty_go_app, append_empty_l.
  rewrite starts_with_digit_read by (apply pretty_go_starts; by left).
  rewrite digits_value_go. f_equal. destruct rest as [|c rest]; [done|].
  simpl in *. by destruct (digit c).
Qed.

(** ** Messages *)

(** A non-empty line without its line ending. *)
Definition text_line (l : string) : Prop :=
  l ≠ "" ∧ string_has carriage_return l = false ∧ string_has newline l = false.

#[global] Instance text_line_dec l : Decision (text_line l).
Proof. unfold text_line. apply _. Defined.

Fixpoint join_lines (lines : list string) : string :=
  match lines with
  | [] => ""
  | [l] => l
  | l :: lines => l +:+ CRLF +:+ join_lines lines
  end.

(** A response: its lines, an empty line, its content. *)
Definition render_response (lines : list string) (content : string) : string :=
  join_lines lines +:+ CRLF +:+ CRLF +:+ content.

Definition render_status_line (version : string) (status : N) (reason : string) : string :=
  "HTTP/" +:+ version +:+ " " +:+ pretty status +:+ " " +:+ reason.

Lemma split_text_step pattern c s :
  is_prefix pattern (String c s) = false →
  split_text pattern (String c s) =
  match split_text pattern s with
  | Some (before, after) => Some (String c before, after)
  | None => None
  end.
Proof. intros E. cbn [split_text]. by rewrite E. Qed.

Lemma CRLF_not_prefix l t :
  text_line l → split_text (CRLF +:+ CRLF) (CRLF +:+ l +:+ t) =
  match split_text (CRLF +:+ CRLF) (l +:+ t) with
  | Some (before, after) => Some (CRLF +:+ before, after)
  | None => None
  end.
Proof.
  intros (Hl & Hc & _). destruct l as [|c l]; [done|]. simpl in Hc.
  apply orb_false_iff in Hc as [Hc _]. rewrite append_cons.
  change (CRLF +:+ String c (l +:+ t))
    with (String carriage_return (String newline (String c (l +:+ t)))).
  rewrite (split_text_step _ carriage_return).
  2: { change (CRLF +:+ CRLF) with
         (String carriage_return (String newline (String carriage_return (String newline "")))).
       cbn [is_prefix]. by rewrite Hc, !andb_false_r. }
  rewrite (split_text_step _ newline) by done.
  by destruct (split_text _ (String c _)) as [[]|].
Qed.

Lemma split_response lines content :
  Forall text_line lines → lines ≠ [] →
  split_text (CRLF +:+ CRLF) (render_response lines content) = Some (join_lines lines, content).
Proof.
  unfold render_response. induction 1 as [|l lines Hl F IH]; intros Hne; [done|].
  assert (string_has carriage_return l = false) as Hc by apply Hl.
  destruct lines as [|k lines].
  - cbn [join_lines]. change (CRLF +:+ CRLF) with (String carriage_return (String newline CRLF)) at 1.
    rewrite split_text_skip by done.
    assert (split_text (String carriage_return (String newline CRLF)) (CRLF +:+ CRLF +:+ content)
      = Some ("", content)) as -> by done.
    by rewrite append_empty_r.
  - assert (text_line k) as Hk by (by apply Forall_inv in F).
    cbn [join_lines] in *. rewrite !append_assoc.
    change (CRLF +:+ CRLF) with (String carriage_return (String newline CRLF)) at 1.
    rewrite split_text_skip by done.
    change (String carriage_return (String newline CRLF)) with (CRLF +:+ CRLF).
    destruct lines as [|k' lines].
    + rewrite CRLF_not_prefix by done. by rewrite IH.
    + rewrite append_assoc, CRLF_not_prefix by done. rewrite <-append_assoc, IH by done. done.
Qed.

Lemma split_status_line l t :
  text_line l → split_text CRLF (l +:+ CRLF +:+ t) = Some (l, t).
Proof.
  intros (_ & Hc & _). unfold CRLF at 1. rewrite split_text_skip by done.
  assert (split_text (String carriage_return (String newline "")) (CRLF +:+ t) = Some ("", t)) as ->
    by done.
  by rewrite append_empty_r.
Qed.

Lemma strip_cr_text l : string_has carriage_return l = false → strip_cr l = l.
Proof.
  induction l as [|c l IH]; [done|]. intros [Hc Hl]%orb_false_iff. simpl.
  destruct l as [|d l]; [|by rewrite IH].
  rewrite bool_decide_eq_false in Hc. by rewrite bool_decide_eq_false_2.
Qed.

Lemma getlines_cons l t :
  string_has newline l = false → t ≠ "" →
  getlines (l +:+ CRLF +:+ t) = (l +:+ String carriage_return "") :: getlines t.
Proof.
  intros Hl Ht. unfold getlines.
  assert (split_on newline (l +:+ CRLF +:+ t) =
    (l +:+ String carriage_return "") :: split_on newline t) as ->.
  { unfold CRLF. autorewrite with strings.
    replace (l +:+ String carriage_return (String newline t)) with
      ((l +:+ String carriage_return "") +:+ String newline t) by (by autorewrite with strings).
    apply split_on_app. by rewrite string_has_app, Hl. }
  assert (split_on newline t ≠ []) as Hs.
  { destruct t as [|c t]; [done|]. simpl. case_bool_decide; [done|]. by destruct (split_on _ t). }
  destruct (split_on newline t) as [|x k]; [done|].
  change (last ((l +:+ String carriage_return "") :: x :: k)) with (last (x :: k)).
  case_bool_decide; done.
Qed.
Lemma join_lines_nonempty l lines : text_line l → join_lines (l :: lines) ≠ "".
Proof. intros [Hl _]. destruct lines; simpl; [done|]. by apply append_nonempty. Qed.

Lemma find_header_joined wanted v lines :
  Forall text_line lines →
  foldl (header_line wanted) v (getlines (join_lines lines)) = foldl (header_step wanted) v lines.
Proof.
  intros F. revert v. induction F as [|l lines Hl F IH]; intros v; [done|].
  destruct lines as [|k lines].
  - cbn [join_lines]. unfold getlines. rewrite split_on_plain by apply Hl.
    cbn [last]. rewrite bool_decide_eq_false_2; [|intros [= E]; by destruct Hl].
    cbn. unfold header_line. by rewrite strip_cr_text by apply Hl.
  - change (join_lines (l :: k :: lines)) with (l +:+ CRLF +:+ join_lines (k :: lines)).
    rewrite getlines_cons; [|apply Hl|apply join_lines_nonempty; by apply Forall_inv in F].
    cbn [foldl]. rewrite header_line_step. apply IH.
Qed.

(** ** The status line *)

Fixpoint no_space (s : string) : bool :=
  match s with
  | EmptyString => true
  | String c s => negb (isspace c) && no_space s
  end.

Lemma take_word_app w t :
  no_space w = true → take_word (w +:+ String " " t) = (w, String " " t).
Proof.
  induction w as [|c w IH]; [done|]. rewrite append_cons. cbn [no_space take_word].
  intros [Hc Hw]%andb_true_iff. apply negb_true_iff in Hc. by rewrite Hc, IH.
Qed.

Lemma parse_rendered_status version status reason :
  no_space version = true → (0 < status)%N →
  parse_status_line (render_status_line version status reason) =
  ("HTTP/" +:+ version, Z.min (2 ^ 63 - 1) (Z.of_N status)).
Proof.
  intros Hv Hs. unfold parse_status_line, read_word, render_status_line.
  replace ("HTTP/" +:+ version +:+ " " +:+ pretty status +:+ " " +:+ reason)
    with (("HTTP/" +:+ version) +:+ String " " (pretty status +:+ String " " reason))
    by (by autorewrite with strings).
  rewrite trim_start_id by done. rewrite take_word_app by done.
  rewrite bool_decide_eq_false_2 by done. f_equal.
  transitivity (read_long (pretty status +:+ String " " reason)); [done|].
  by apply read_long_pretty.
Qed.

(** What the client returns for a response: its status and its content, decoded as
    its last Content-Encoding header says. *)
Lemma ParseHttpResponse_rendered version status reason headers content decoders :
  no_space version = true → (0 < status)%N →
  text_line (render_status_line version status reason) → Forall text_line headers →
  ParseHttpResponse (render_response (render_status_line version status reason :: headers) content)
    decoders =
  (body ← DecodeHttpResponseBody content (foldl (header_step "content-encoding") "" headers) decoders;
   Ok (mkResponse (Z.min (2 ^ 63 - 1) (Z.of_N status)) body)).
Proof.
  intros Hv Hs Hl Hh. unfold ParseHttpResponse.
  rewrite split_response by (by constructor || done).
  set (line := render_status_line version status reason) in *.
  assert (∃ t, render_response (line :: headers) content = line +:+ CRLF +:+ t ∧
    (String.length line <= String.length (join_lines (line :: headers)))%nat) as (t & Et & Hlen).
  { destruct headers as [|h headers]; unfold render_response; cbn [join_lines].
    - eexists. split; [done|lia].
    - eexists. rewrite !append_assoc. split; [done|]. rewrite string_length_app. lia. }
  rewrite Et, split_status_line by done.
  destruct (Nat.ltb_spec (String.length (join_lines (line :: headers))) (String.length line)); [lia|].
  unfold line at 1. rewrite parse_rendered_status by done.
  assert (is_prefix "HTTP/" ("HTTP/" +:+ version) = true) as -> by done.
  destruct (Z.eqb_spec (Z.min (2 ^ 63 - 1) (Z.of_N status)) 0); [lia|]. cbn [negb orb].
  unfold FindHttpHeaderValue. rewrite find_header_joined by (by constructor). done.
Qed.
