(* ===== verification/ScriptedSockets.v ===== *)
(** A scripted peer: an instance of [Sockets] with its laws, on which the client
    of SocketClient.v runs.

    [sends] and [recvs] say how many bytes the next calls move; 0 is a call that
    a signal interrupts, and an exhausted script moves all it can. The peer
    answers every connection with [reply]; [addresses] are the results of a
    lookup, with whether a connection to each succeeds. *)
From S2P Require Import Prelude Uri Effects Streams HttpCompression Config SocketClient.

Record peer := mkPeer {
  addresses : list (addrinfo * bool);
  sends : list nat;
  recvs : list nat;
  fds : gset Z;
  next_fd : Z;
  sent : Z → string;
  reply : Z → string;
}.

Definition with_sent (p : peer) sends sent : peer :=
  mkPeer (addresses p) sends (recvs p) (fds p) (next_fd p) sent (reply p).
Definition with_reply (p : peer) recvs reply : peer :=
  mkPeer (addresses p) (sends p) recvs (fds p) (next_fd p) (sent p) reply.
Definition with_fds (p : peer) fds next_fd : peer :=
  mkPeer (addresses p) (sends p) (recvs p) fds next_fd (sent p) (reply p).

(** The next size of a script: [None] is an interrupt. *)
Definition next_size (available : nat) (script : list nat) : option nat * list nat :=
  match script with
  | [] => (Some available, [])
  | O :: script => (None, script)
  | S n :: script => (Some (Nat.min (S n) available), script)
  end.

Definition peer_send (fd : Z) (data : string) (p : peer) : io_result nat * peer :=
  match next_size (String.length data) (sends p) with
  | (None, script) => (Failed EINTR, with_sent p script (sent p))
  | (Some n, script) =>
      (Done n, with_sent p script (λ fd', if bool_decide (fd' = fd)
                 then sent p fd' +:+ stake n data else sent p fd'))
  end.
Definition peer_recv (fd : Z) (n : nat) (p : peer) : io_result string * peer :=
  match next_size (Nat.min n (String.length (reply p fd))) (recvs p) with
  | (None, script) => (Failed EINTR, with_reply p script (reply p))
  | (Some n, script) =>
      (Done (stake n (reply p fd)),
       with_reply p script (λ fd', if bool_decide (fd' = fd)
         then sdrop n (reply p fd) else reply p fd'))
  end.

#[global] Instance peer_sockets : Sockets peer := {
  getaddrinfo _ _ _ _ p :=
    ((if bool_decide (addresses p = []) then inl (-2) else inr (map fst (addresses p))), p);
  gai_strerror _ := "Name or service not known";
  freeaddrinfo _ p := p;
  socket _ _ _ p :=
    if bool_decide (next_fd p ∈ fds p) || (next_fd p <? 0) then (-1, p)
    else (next_fd p, with_fds p ({[next_fd p]} ∪ fds p) (next_fd p + 1));
  connect fd addr p :=
    ((if existsb (λ '(ai, up), up && bool_decide (ai_addr ai = addr)) (addresses p) then 0 else -1), p);
  send := peer_send;
  recv := peer_recv;
  close fd p := with_fds p (fds p ∖ {[fd]}) (next_fd p);
}.

(** ** The laws *)

Definition interrupts_left (script : list nat) : nat := length (filter (λ n, n = 0%nat) script).

Lemma next_size_spec available script :
  let '(size, script') := next_size available script in
  match size with
  | None => (interrupts_left script' < interrupts_left script)%nat
  | Some n => (n <= available)%nat ∧ (0 < available → 0 < n)%nat ∧
      interrupts_left script' = interrupts_left script
  end.
Proof.
  unfold next_size, interrupts_left. destruct script as [|[|n] script].
  - lia.
  - rewrite filter_cons_True by done. simpl. lia.
  - rewrite filter_cons_False by done. split_and!; [lia|lia|done].
Qed.

#[local] Opaque interrupts_left.

#[global, program] Instance peer_laws : SocketLaws peer := {
  open_fds := fds;
  wire fd p := sent p fd;
  incoming fd p := reply p fd;
  interrupts p := (interrupts_left (sends p) + interrupts_left (recvs p))%nat;
}.
Next Obligation. done. Qed.
Next Obligation. done. Qed.
Next Obligation.
  intros family socktype protocol w. cbn.
  case_bool_decide as Hin; [done|]. destruct (Z.ltb_spec (next_fd w) 0); [done|]. cbn.
  by destruct (Z.ltb_spec (next_fd w) 0); [lia|].
Qed.
Next Obligation. done. Qed.
Next Obligation. done. Qed.
Next Obligation.
  intros fd data w. cbn. unfold peer_send. by destruct (next_size _ _) as [[]].
Qed.
Next Obligation.
  intros fd n w. cbn. unfold peer_recv. by destruct (next_size _ _) as [[]].
Qed.
Next Obligation.
  intros fd data w Hd. cbn. unfold peer_send.
  pose proof (next_size_spec (String.length data) (sends w)) as Hs.
  destruct (next_size _ _) as [[n|] script]; cbn.
  - destruct Hs as (H1 & H2 & H3). destruct data; [done|]. cbn [String.length] in *.
    rewrite bool_decide_eq_true_2 by done. split_and!; [lia|lia|done|lia].
  - split; [done|]. lia.
Qed.
Next Obligation.
  intros fd n w Hn. cbn. unfold peer_recv.
  pose proof (next_size_spec (Nat.min n (String.length (reply w fd))) (recvs w)) as Hs.
  destruct (next_size _ _) as [[k|] script]; cbn.
  - destruct Hs as (H1 & H2 & H3). rewrite bool_decide_eq_true_2 by done.
    rewrite stake_sdrop. split_and!; [done| |lia]. intros E.
    apply sdrop_all. apply (f_equal String.length) in E. rewrite stake_length in E.
    cbn in E. lia.
  - split; [done|]. lia.
Qed.
