(* ===== verification/CurlClient.v ===== *)
(** The HTTP client over libcurl: the branch of src/http_client.cpp that is built
    with it ([CurlHttpClient] of include/scylladb/alternator/http_client.h), with
    OpenSSL.

    libcurl is the class [Curl] of the calls the client makes, and [CurlLaws]
    states what its manual promises of handles and options. A transfer hands
    its data to the two callbacks in pieces: [curl_easy_perform] gives its code
    and the calls it made. *)
From S2P Require Import Prelude Uri Effects Streams HttpCompression Config.

Definition CURLE_OK : Z := 0.
Definition CURL_GLOBAL_DEFAULT : Z := 3.

(** The functions and objects the options point to. *)
Inductive callback := cb_WriteBody | cb_WriteHeader | cb_ConfigureSslContext.
Inductive userdata := ptr_body | ptr_response_headers | ptr_config.

Inductive curl_option :=
  | CURLOPT_URL (url : string)
  | CURLOPT_HTTPGET (on : Z)
  | CURLOPT_NOSIGNAL (on : Z)
  | CURLOPT_WRITEFUNCTION (f : callback)
  | CURLOPT_WRITEDATA (p : userdata)
  | CURLOPT_HEADERFUNCTION (f : callback)
  | CURLOPT_HEADERDATA (p : userdata)
  | CURLOPT_TCP_KEEPALIVE (on : Z)
  | CURLOPT_SSL_SESSIONID_CACHE (on : Z)
  | CURLOPT_MAXCONNECTS (n : Z)
  | CURLOPT_FORBID_REUSE (on : Z)
  | CURLOPT_FRESH_CONNECT (on : Z)
  | CURLOPT_TIMEOUT_MS (n : Z)
  | CURLOPT_CONNECTTIMEOUT_MS (n : Z)
  | CURLOPT_USERAGENT (s : string)
  | CURLOPT_SSL_VERIFYPEER (on : Z)
  | CURLOPT_SSL_VERIFYHOST (on : Z)
  | CURLOPT_CAINFO (s : string)
  | CURLOPT_SSLCERT (s : string)
  | CURLOPT_SSLKEY (s : string)
  | CURLOPT_SSL_CTX_FUNCTION (f : callback)
  | CURLOPT_SSL_CTX_DATA (p : userdata)
  | CURLOPT_HTTPHEADER (headers : list string).

(** A call of a callback: [ptr], [size] and [nmemb]. *)
Inductive transfer :=
  | HeaderPiece (ptr : string) (size nmemb : nat)
  | BodyPiece (ptr : string) (size nmemb : nat).

(** A [curl_slist] is the list of its strings; the null list is [[]]. *)
Class Curl (W : Type) := {
  curl_global_init : Z → W → Z * W;
  curl_easy_init : W → option Z * W;
  curl_easy_cleanup : Z → W → W;
  curl_easy_reset : Z → W → W;
  curl_easy_setopt : Z → curl_option → W → W;
  curl_easy_perform : Z → W → (Z * list transfer) * W;
  curl_easy_strerror : Z → string;
  curl_easy_response_code : Z → W → Z;
  curl_ssl_version : option string;
  curl_slist_append : list string → string → list string;
  curl_slist_free_all : list string → W → W;
}.

(** The object's mutable member and the process-wide [curl_init_once]. *)
Record CurlState := mkCurlState {
  reusable_handle : option Z;
  curl_init_once : bool;
}.

(** ** Callbacks *)

Definition WriteBody (ptr : string) (size nmemb : nat) (body : string) : nat * string :=
  ((size * nmemb)%nat, body +:+ stake (size * nmemb) ptr).
Definition WriteHeader (ptr : string) (size nmemb : nat) (headers : string) : nat * string :=
  ((size * nmemb)%nat, headers +:+ stake (size * nmemb) ptr).

(** The calls a transfer makes, on the body and the headers received. *)
Definition deliver (received : string * string) (t : transfer) : string * string :=
  let '(body, headers) := received in
  match t with
  | HeaderPiece ptr size nmemb => (body, (WriteHeader ptr size nmemb headers).2)
  | BodyPiece ptr size nmemb => ((WriteBody ptr size nmemb body).2, headers)
  end.

(** What [ConfigureSslContext] calls on the context. *)
Inductive ssl_call :=
  | SSL_CTX_set_session_cache_mode (client : bool)
  | SSL_CTX_sess_set_cache_size (n : Z)
  | SSL_CTX_set_timeout (seconds : Z).

Definition ConfigureSslContext (ssl_context : bool) (config : option Config) : Z * list ssl_call :=
  match config with
  | None => (CURLE_OK, [])
  | Some config =>
      if negb ssl_context then (CURLE_OK, [])
      else if negb (tls_session_cache_enabled config)
      then (CURLE_OK, [SSL_CTX_set_session_cache_mode false])
      else (CURLE_OK,
        [SSL_CTX_set_session_cache_mode true;
         SSL_CTX_sess_set_cache_size (tls_session_cache_size config);
         SSL_CTX_set_timeout (tls_session_timeout config)])
  end.

Section client.
Context {W : Type} `{Curl W}.

Definition on_curl {A} (f : W → A * W) : M (CurlState * W) A := on_world f.
Definition do_curl (f : W → W) : M (CurlState * W) unit := on_world (λ w, (tt, f w)).

(** [call_once]: a call that throws leaves the flag unset. *)
Definition EnsureCurlInitialized : M (CurlState * W) unit :=
  once ← gets (λ '(s, _), curl_init_once s);
  if (once : bool) then mret tt
  else
    code ← on_curl (curl_global_init CURL_GLOBAL_DEFAULT);
    if negb (code =? CURLE_OK) then throw (RuntimeError "curl_global_init failed")
    else modify (λ '(s, w), (mkCurlState (reusable_handle s) true, w)).

Definition setopt (curl : Z) (o : curl_option) : M (CurlState * W) unit :=
  do_curl (curl_easy_setopt curl o).
Definition setopt_if (b : bool) (curl : Z) (o : curl_option) : M (CurlState * W) unit :=
  if b then setopt curl o else mret tt.

Definition SetDuration (curl : Z) (o : Z → curl_option) (value : Z) : M (CurlState * W) unit :=
  if 0 <? value then setopt curl (o value) else mret tt.

(** [find] of a name in the version text. *)
Fixpoint mentions (name s : string) : bool :=
  is_prefix name s || match s with EmptyString => false | String _ s => mentions name s end.
Definition CurlUsesOpenSslBackend : bool :=
  match curl_ssl_version with
  | None => false
  | Some v => mentions "OpenSSL" v || mentions "LibreSSL" v || mentions "BoringSSL" v
  end.

Definition as_long (b : bool) : Z := if b then 1 else 0.

Definition ConfigureCurlForGet (curl : Z) (url : Url) (config : Config) : M (CurlState * W) unit :=
  do_curl (curl_easy_reset curl);;
  setopt curl (CURLOPT_URL (c_str (Url_ToString url)));;
  setopt curl (CURLOPT_HTTPGET 1);;
  setopt curl (CURLOPT_NOSIGNAL 1);;
  setopt curl (CURLOPT_WRITEFUNCTION cb_WriteBody);;
  setopt curl (CURLOPT_WRITEDATA ptr_body);;
  setopt curl (CURLOPT_HEADERFUNCTION cb_WriteHeader);;
  setopt curl (CURLOPT_HEADERDATA ptr_response_headers);;
  setopt curl (CURLOPT_TCP_KEEPALIVE 1);;
  setopt curl (CURLOPT_SSL_SESSIONID_CACHE (as_long (tls_session_cache_enabled config)));;
  setopt curl (CURLOPT_MAXCONNECTS (max_connections config));;
  setopt curl (CURLOPT_FORBID_REUSE (as_long (negb (reuse_discovery_connections config))));;
  setopt curl (CURLOPT_FRESH_CONNECT (as_long (negb (reuse_discovery_connections config))));;
  SetDuration curl CURLOPT_TIMEOUT_MS (http_client_timeout config);;
  SetDuration curl CURLOPT_CONNECTTIMEOUT_MS (connect_timeout config);;
  setopt_if (bool_decide (user_agent config ≠ "")) curl (CURLOPT_USERAGENT (c_str (user_agent config)));;
  setopt_if (negb (verify_ssl config)) curl (CURLOPT_SSL_VERIFYPEER 0);;
  setopt_if (negb (verify_ssl config)) curl (CURLOPT_SSL_VERIFYHOST 0);;
  setopt_if (bool_decide (ca_file config ≠ "")) curl (CURLOPT_CAINFO (c_str (ca_file config)));;
  setopt_if (bool_decide (client_certificate_file config ≠ "")) curl
    (CURLOPT_SSLCERT (c_str (client_certificate_file config)));;
  setopt_if (bool_decide (client_private_key_file config ≠ "")) curl
    (CURLOPT_SSLKEY (c_str (client_private_key_file config)));;
  setopt_if CurlUsesOpenSslBackend curl (CURLOPT_SSL_CTX_FUNCTION cb_ConfigureSslContext);;
  setopt_if CurlUsesOpenSslBackend curl (CURLOPT_SSL_CTX_DATA ptr_config).

Definition connection_header (config : Config) : string :=
  if reuse_discovery_connections config then "Connection: keep-alive" else "Connection: close".

Definition PerformCurlGet (curl : Z) (url : Url) (config : Config) : M (CurlState * W) HttpResponse :=
  ConfigureCurlForGet curl url config;;
  let headers := curl_slist_append [] (connection_header config) in
  accept_encoding_value ← lift_result (BuildAcceptEncodingValue (content_encoding_decoders config));
  let headers :=
    if bool_decide (accept_encoding_value = "") then headers
    else curl_slist_append headers (c_str ("Accept-Encoding: " +:+ accept_encoding_value)) in
  setopt curl (CURLOPT_HTTPHEADER headers);;
  performed ← on_curl (curl_easy_perform curl);
  let '(code, transfers) := performed in
  setopt curl (CURLOPT_HTTPHEADER []);;
  (if bool_decide (headers = []) then mret tt else do_curl (curl_slist_free_all headers));;
  if negb (code =? CURLE_OK) then throw (RuntimeError (curl_easy_strerror code))
  else
    status_code ← gets (λ '(_, w), curl_easy_response_code curl w);
    let '(body, response_headers) := foldl deliver ("", "") transfers in
    body ← lift_result (DecodeHttpResponseBody body
             (FindHttpHeaderValue response_headers "content-encoding")
             (content_encoding_decoders config));
    mret (mkResponse status_code body).

Definition CurlHttpClient_make : M (CurlState * W) unit := EnsureCurlInitialized.

Definition set_handle (h : option Z) : M (CurlState * W) unit :=
  modify (λ '(s, w), (mkCurlState h (curl_init_once s), w)).

Definition CurlHttpClient_destroy : M (CurlState * W) unit :=
  h ← gets (λ '(s, _), reusable_handle s);
  match h with
  | None => mret tt
  | Some h => do_curl (curl_easy_cleanup h);; set_handle None
  end.

Definition CurlHttpClient_Get (config : Config) (url : Url) : M (CurlState * W) HttpResponse :=
  EnsureCurlInitialized;;
  if reuse_discovery_connections config then
    h ← gets (λ '(s, _), reusable_handle s);
    match h with
    | Some h => PerformCurlGet h url config
    | None =>
        h ← on_curl curl_easy_init;
        match h with
        | None => throw (RuntimeError "curl_easy_init failed")
        | Some h => set_handle (Some h);; PerformCurlGet h url config
        end
    end
  else
    raw ← on_curl curl_easy_init;
    match raw with
    | None => throw (RuntimeError "curl_easy_init failed")
    | Some h => finally (PerformCurlGet h url config) (λ '(s, w), (s, curl_easy_cleanup h w))
    end.
End client.

(** ** What libcurl promises

    [handles]: the easy handles that exist. [options h]: the options set on [h]
    since it was created or reset, in order. *)
Class CurlLaws (W : Type) `{Curl W} := {
  handles : W → gset Z;
  options : Z → W → list curl_option;
  global_init_handles flags w : handles (curl_global_init flags w).2 = handles w;
  easy_init_handles w :
    let '(h, w') := curl_easy_init w in
    match h with
    | None => handles w' = handles w
    | Some h => (h ∉ handles w) ∧ handles w' = {[h]} ∪ handles w
    end;
  cleanup_handles h w : handles (curl_easy_cleanup h w) = handles w ∖ {[h]};
  reset_handles h w : handles (curl_easy_reset h w) = handles w;
  setopt_handles h o w : handles (curl_easy_setopt h o w) = handles w;
  perform_handles h w : handles (curl_easy_perform h w).2 = handles w;
  free_all_handles l w : handles (curl_slist_free_all l w) = handles w;
  reset_options h w : options h (curl_easy_reset h w) = [];
  setopt_options h o w : options h (curl_easy_setopt h o w) = options h w ++ [o];
}.

(** ** Transfers *)

Definition header_text (t : transfer) : string :=
  match t with HeaderPiece ptr size nmemb => stake (size * nmemb) ptr | BodyPiece _ _ _ => "" end.
Definition body_text (t : transfer) : string :=
  match t with BodyPiece ptr size nmemb => stake (size * nmemb) ptr | HeaderPiece _ _ _ => "" end.
Fixpoint concat_text (l : list string) : string :=
  match l with [] => "" | s :: l => s +:+ concat_text l end.

(** The callbacks put the pieces together, however the transfer was cut. *)
Lemma deliver_concat transfers body headers :
  foldl deliver (body, headers) transfers =
  (body +:+ concat_text (map body_text transfers), headers +:+ concat_text (map header_text transfers)).
Proof.
  revert body headers. induction transfers as [|t transfers IH]; intros body headers; cbn [foldl map concat_text].
  - by rewrite !append_empty_r.
  - destruct t as [ptr size nmemb|ptr size nmemb]; cbn [deliver WriteHeader WriteBody snd];
      rewrite IH; cbn [header_text body_text]; by rewrite !append_assoc, append_empty_l.
Qed.

(** ** Options *)

Section laws.
Context {W : Type} `{CurlLaws W}.

(** [m] sets exactly the options [os] on [h] and touches nothing else. *)
Definition sets (h : Z) (m : M (CurlState * W) unit) (os : list curl_option) : Prop :=
  ∀ s w, ∃ w', m (s, w) = (Ok tt, (s, w')) ∧
    options h w' = options h w ++ os ∧ handles w' = handles w.

Lemma sets_setopt h o : sets h (setopt h o) [o].
Proof. intros s w. eexists. split; [done|]. by rewrite setopt_options, setopt_handles. Qed.
Lemma sets_ret h : sets h (mret tt) [].
Proof. intros s w. exists w. by rewrite app_nil_r. Qed.
Lemma sets_setopt_if b h o : sets h (setopt_if b h o) (if b then [o] else []).
Proof. destruct b; [apply sets_setopt|apply sets_ret]. Qed.
Lemma sets_duration h o value :
  sets h (SetDuration h o value) (if 0 <? value then [o value] else []).
Proof. unfold SetDuration. destruct (0 <? value); [apply sets_setopt|apply sets_ret]. Qed.
Lemma sets_bind h (m : M (CurlState * W) unit) k os os' :
  sets h m os → sets h k os' → sets h (m;; k) (os ++ os').
Proof.
  intros Hm Hk s w. destruct (Hm s w) as (w1 & E1 & O1 & L1).
  destruct (Hk s w1) as (w2 & E2 & O2 & L2). exists w2.
  unfold mbind, M_bind. rewrite E1. by rewrite E2, O2, O1, L2, L1, app_assoc.
Qed.

Definition bool_option (b : bool) (o : curl_option) : list curl_option := if b then [o] else [].

(** The options of a request. *)
Definition get_options (url : Url) (config : Config) : list curl_option :=
  [CURLOPT_URL (c_str (Url_ToString url)); CURLOPT_HTTPGET 1; CURLOPT_NOSIGNAL 1;
   CURLOPT_WRITEFUNCTION cb_WriteBody; CURLOPT_WRITEDATA ptr_body;
   CURLOPT_HEADERFUNCTION cb_WriteHeader; CURLOPT_HEADERDATA ptr_response_headers;
   CURLOPT_TCP_KEEPALIVE 1;
   CURLOPT_SSL_SESSIONID_CACHE (as_long (tls_session_cache_enabled config));
   CURLOPT_MAXCONNECTS (max_connections config);
   CURLOPT_FORBID_REUSE (as_long (negb (reuse_discovery_connections config)));
   CURLOPT_FRESH_CONNECT (as_long (negb (reuse_discovery_connections config)))] ++
  bool_option (0 <? http_client_timeout config) (CURLOPT_TIMEOUT_MS (http_client_timeout config)) ++
  bool_option (0 <? connect_timeout config) (CURLOPT_CONNECTTIMEOUT_MS (connect_timeout config)) ++
  bool_option (bool_decide (user_agent config ≠ "")) (CURLOPT_USERAGENT (c_str (user_agent config))) ++
  bool_option (negb (verify_ssl config)) (CURLOPT_SSL_VERIFYPEER 0) ++
  bool_option (negb (verify_ssl config)) (CURLOPT_SSL_VERIFYHOST 0) ++
  bool_option (bool_decide (ca_file config ≠ "")) (CURLOPT_CAINFO (c_str (ca_file config))) ++
  bool_option (bool_decide (client_certificate_file config ≠ ""))
    (CURLOPT_SSLCERT (c_str (client_certificate_file config))) ++
  bool_option (bool_decide (client_private_key_file config ≠ ""))
    (CURLOPT_SSLKEY (c_str (client_private_key_file config))) ++
  bool_option CurlUsesOpenSslBackend (CURLOPT_SSL_CTX_FUNCTION cb_ConfigureSslContext) ++
  bool_option CurlUsesOpenSslBackend (CURLOPT_SSL_CTX_DATA ptr_config).

Lemma sets_bind_nil h (m : M (CurlState * W) unit) k o os' :
  sets h m [o] → sets h k os' → sets h (m;; k) (o :: os').
Proof. apply (sets_bind h m k [o]). Qed.

Lemma Configure_sets h url config s w :
  ∃ w', ConfigureCurlForGet h url config (s, w) = (Ok tt, (s, w')) ∧
    options h w' = get_options url config ∧ handles w' = handles w.
Proof.
  unfold ConfigureCurlForGet. unfold mbind at 1, M_bind at 1. cbn [do_curl on_world].
  match goal with |- ∃ w', ?m (s, ?w0) = _ ∧ _ =>
    assert (sets h m (get_options url config)) as Hm end.
  { unfold get_options. cbn [app].
    do 12 (apply sets_bind_nil; [apply sets_setopt|]).
    do 2 (apply sets_bind; [apply sets_duration|]).
    do 7 (apply sets_bind; [apply sets_setopt_if|]). apply sets_setopt_if. }
  destruct (Hm s (curl_easy_reset h w)) as (w' & E & O & L). exists w'.
  rewrite reset_options in O. rewrite reset_handles in L. done.
Qed.

Lemma elem_of_bool_option b o x : x ∈ bool_option b o ↔ b = true ∧ x = o.
Proof. destruct b; cbn; rewrite ?list_elem_of_singleton, ?elem_of_nil; naive_solver. Qed.

(** Peer verification is switched off by the configuration alone. *)
Lemma verify_option url config headers :
  CURLOPT_SSL_VERIFYPEER 0 ∈ get_options url config ++ [CURLOPT_HTTPHEADER headers] ↔
  verify_ssl config = false.
Proof.
  unfold get_options. rewrite !elem_of_app, !elem_of_bool_option, !elem_of_cons, !elem_of_nil.
  rewrite negb_true_iff. split.
  - intros Hv. by destruct_or?; destruct_and?; simplify_eq.
  - intros Hv. left. do 4 right. by left.
Qed.

(** The header lines of a request. *)
Definition request_headers (config : Config) (accept : string) : list string :=
  let headers := curl_slist_append [] (connection_header config) in
  if bool_decide (accept = "") then headers
  else curl_slist_append headers (c_str ("Accept-Encoding: " +:+ accept)).

(** A transfer and what is made of it, from the world the options were set in. *)
Lemma PerformCurlGet_eq h url config s w w0 accept :
  ConfigureCurlForGet h url config (s, w) = (Ok tt, (s, w0)) →
  BuildAcceptEncodingValue (content_encoding_decoders config) = Ok accept →
  let w1 := curl_easy_setopt h (CURLOPT_HTTPHEADER (request_headers config accept)) w0 in
  let '((code, transfers), _) := curl_easy_perform h w1 in
  (PerformCurlGet h url config (s, w)).1 =
  if code =? CURLE_OK then
    (body ← DecodeHttpResponseBody (concat_text (map body_text transfers))
              (FindHttpHeaderValue (concat_text (map header_text transfers)) "content-encoding")
              (content_encoding_decoders config);
     Ok (mkResponse (curl_easy_response_code h (PerformCurlGet h url config (s, w)).2.2) body))
  else Throw (RuntimeError (curl_easy_strerror code)).
Proof.
  intros E0 Ea. cbn zeta.
  destruct (curl_easy_perform h _) as [[code transfers] w2] eqn:Ep.
  unfold PerformCurlGet. rewrite !bind_run_ok with (1 := E0). rewrite Ea, !bind_lift_ok.
  fold (request_headers config accept).
  unfold mbind, M_bind, setopt, do_curl, on_curl, on_world, gets, lift_result. rewrite Ep.
  destruct (bool_decide (request_headers config accept = [])); cbn [mret M_ret];
    (destruct (Z.eqb_spec code CURLE_OK); [|done]); cbn [negb];
    rewrite deliver_concat, !append_empty_l; by destruct (DecodeHttpResponseBody _ _ _).
Qed.

(** ** Handles *)

(** The object's state is [s0] and the handles are [X]. *)
Definition at_rest (s0 : CurlState) (X : gset Z) (σ : CurlState * W) : Prop :=
  σ.1 = s0 ∧ handles σ.2 = X.

Lemma preserves_do_curl s0 X (f : W → W) :
  (∀ w, handles (f w) = handles w) → preserves (at_rest s0 X) (do_curl f).
Proof. intros Hf [s w] [E1 E2]. split; [done|]. cbn. by rewrite Hf. Qed.

Lemma PerformCurlGet_keeps s0 X h url config :
  preserves (at_rest s0 X) (PerformCurlGet h url config).
Proof.
  unfold PerformCurlGet. apply preserves_bind.
  { intros [s w] [E1 E2]. destruct (Configure_sets h url config s w) as (w' & -> & _ & E3).
    split; cbn in *; congruence. }
  intros _. apply preserves_bind; [apply preserves_lift|]. intros accept.
  apply preserves_bind; [apply preserves_do_curl; intros; apply setopt_handles|]. intros _.
  apply preserves_bind.
  { intros [s w] [E1 E2]. unfold on_curl, on_world. pose proof (perform_handles h w) as Hp.
    destruct (curl_easy_perform h w). split; cbn in *; congruence. }
  intros [code transfers].
  apply preserves_bind; [apply preserves_do_curl; intros; apply setopt_handles|]. intros _.
  apply preserves_bind.
  { case_bool_decide; [apply preserves_ret|]. apply preserves_do_curl, free_all_handles. }
  intros _. destruct (negb _); [apply preserves_throw|].
  apply preserves_bind; [apply preserves_gets|]. intros status.
  destruct (foldl _ _ _). auto with alternator.
Qed.

(** The client owns at most its reusable handle on top of [X]. *)
Definition owns (X : gset Z) (σ : CurlState * W) : Prop :=
  match reusable_handle σ.1 with
  | None => handles σ.2 = X
  | Some h => (h ∉ X) ∧ handles σ.2 = {[h]} ∪ X
  end.

Lemma EnsureCurlInitialized_owns X : preserves (owns X) EnsureCurlInitialized.
Proof.
  intros [s w] Ho. unfold EnsureCurlInitialized, mbind, M_bind, gets.
  destruct (curl_init_once s); [done|]. unfold on_curl, on_world.
  pose proof (global_init_handles CURL_GLOBAL_DEFAULT w) as Hg.
  destruct (curl_global_init _ w) as [code w1]. cbn [snd] in Hg.
  destruct (negb _); unfold owns in *; cbn in *; by rewrite Hg.
Qed.

Lemma Get_owns X config url : preserves (owns X) (CurlHttpClient_Get config url).
Proof.
  apply preserves_bind; [apply EnsureCurlInitialized_owns|]. intros _ [s w] Ho.
  pose proof (easy_init_handles w) as Hi. unfold owns in Ho. cbn [fst snd] in Ho.
  destruct (reuse_discovery_connections config).
  - unfold mbind, M_bind, gets, on_curl, on_world. destruct (reusable_handle s) as [h|] eqn:Eh.
    + pose proof (PerformCurlGet_keeps s (handles w) h url config (s, w) ltac:(done)) as [E1 E2].
      unfold owns. by rewrite E1, Eh, E2.
    + destruct (curl_easy_init w) as [[h|] w1]; [|unfold owns; cbn; rewrite Eh; congruence].
      destruct Hi as [Hnew Hi]. cbn.
      set (s1 := mkCurlState (Some h) (curl_init_once s)).
      pose proof (PerformCurlGet_keeps s1 (handles w1) h url config (s1, w1) ltac:(done)) as [E1 E2].
      unfold owns. rewrite E1, E2. cbn. rewrite Hi, <-Ho. done.
  - unfold mbind, M_bind, on_curl, on_world.
    destruct (curl_easy_init w) as [[h|] w1]; [|unfold owns; cbn; by rewrite Hi].
    destruct Hi as [Hnew Hi]. unfold finally.
    pose proof (PerformCurlGet_keeps s (handles w1) h url config (s, w1) ltac:(done)) as [E1 E2].
    destruct (PerformCurlGet h url config (s, w1)) as [r [s2 w2]]. cbn [fst snd] in *. subst s2.
    assert (handles (curl_easy_cleanup h w2) = handles w) as Hc
      by (rewrite cleanup_handles, E2, Hi; set_solver).
    unfold owns. cbn. by rewrite Hc.
Qed.

Lemma destroy_owns X σ :
  owns X σ → let '(r, (s, w)) := CurlHttpClient_destroy σ in
    r = Ok tt ∧ reusable_handle s = None ∧ handles w = X.
Proof.
  destruct σ as [s w]. unfold owns, CurlHttpClient_destroy, mbind, M_bind, gets. cbn [fst snd].
  destruct (reusable_handle s) as [h|] eqn:E; [|done]. intros [Hn Ho]. cbn.
  split_and!; [done..|]. rewrite cleanup_handles, Ho. set_solver.
Qed.

(** Requests one after the other, whatever comes of them. *)
Definition gets_all (config : Config) (urls : list Url) (σ : CurlState * W) : CurlState * W :=
  foldl (λ σ url, (CurlHttpClient_Get config url σ).2) σ urls.
Lemma gets_all_owns X config urls σ : owns X σ → owns X (gets_all config urls σ).
Proof.
  unfold gets_all. revert σ. induction urls as [|url urls IH]; intros σ Ho; [done|].
  apply IH. by apply Get_owns.
Qed.
End laws.

(** ** A scripted libcurl

    [gives] are the outcomes of the transfers to come, [fresh_handle] the next
    handle; the rest is what [CurlLaws] speaks of. *)
Record curl_script := mkCurlScript {
  gives : list (Z * list transfer);
  fresh_handle : Z;
  alive : gset Z;
  settings : Z → list curl_option;
}.

Definition set_settings (h : Z) (f : list curl_option → list curl_option) (w : curl_script)
    : curl_script :=
  mkCurlScript (gives w) (fresh_handle w) (alive w)
    (λ h', if bool_decide (h' = h) then f (settings w h') else settings w h').

#[global] Instance scripted_curl : Curl curl_script := {
  curl_global_init _ w := (CURLE_OK, w);
  curl_easy_init w :=
    if bool_decide (fresh_handle w ∈ alive w) then (None, w)
    else (Some (fresh_handle w),
      mkCurlScript (gives w) (fresh_handle w + 1) ({[fresh_handle w]} ∪ alive w) (settings w));
  curl_easy_cleanup h w :=
    mkCurlScript (gives w) (fresh_handle w) (alive w ∖ {[h]}) (settings w);
  curl_easy_reset h := set_settings h (λ _, []);
  curl_easy_setopt h o := set_settings h (λ os, os ++ [o]);
  curl_easy_perform _ w :=
    match gives w with
    | [] => ((7, []), w)
    | g :: l => (g, mkCurlScript l (fresh_handle w) (alive w) (settings w))
    end;
  curl_easy_strerror code := "curl error " +:+ pretty code;
  curl_easy_response_code _ _ := 200;
  curl_ssl_version := Some "OpenSSL/3.0.13";
  curl_slist_append l s := l ++ [s];
  curl_slist_free_all _ w := w;
}.

#[global, program] Instance scripted_curl_laws : CurlLaws curl_script := {
  handles := alive;
  options h w := settings w h;
}.
Next Obligation. done. Qed.
Next Obligation. intros w. cbn. by case_bool_decide. Qed.
Next Obligation. done. Qed.
Next Obligation. done. Qed.
Next Obligation. done. Qed.
Next Obligation. intros h w. cbn. by destruct (gives w). Qed.
Next Obligation. done. Qed.
Next Obligation. intros h w. cbn. by rewrite bool_decide_eq_true_2. Qed.
Next Obligation. intros h o w. cbn. by rewrite bool_decide_eq_true_2. Qed.
