(* ===== verification/LocalNodesJson.v ===== *)
(** The parser of [/localnodes] replies ([ParseJsonStringArray] of
    src/live_nodes.cpp): a JSON array of strings.

    The position in the body is the suffix still to be read.  The parser is
    proved equivalent to the grammar [js_array]. *)
From S2P Require Import Prelude Uri HttpCompression.

Definition quote : ascii := ascii_of_N 34.
Definition backslash : ascii := ascii_of_N 92.

Definition skip_ws (rest : string) : string := trim_start rest.

Definition expect (ch : ascii) (rest : string) : result string :=
  match skip_ws rest with
  | String c rest =>
      if bool_decide (c = ch) then Ok rest
      else Throw (RuntimeError "invalid /localnodes JSON response")
  | EmptyString => Throw (RuntimeError "invalid /localnodes JSON response")
  end.

(** The [switch] on the character after a backslash. *)
Definition unescape (escaped : ascii) : option ascii :=
  if bool_decide (escaped = quote) then Some escaped
  else if bool_decide (escaped = backslash) then Some escaped
  else if bool_decide (escaped = "/"%char) then Some escaped
  else if bool_decide (escaped = "b"%char) then Some (ascii_of_N 8)
  else if bool_decide (escaped = "f"%char) then Some (ascii_of_N 12)
  else if bool_decide (escaped = "n"%char) then Some (ascii_of_N 10)
  else if bool_decide (escaped = "r"%char) then Some (ascii_of_N 13)
  else if bool_decide (escaped = "t"%char) then Some (ascii_of_N 9)
  else None.

(** The inner loop: the value read and the suffix left, which is empty both
    when the closing quote ends the body and when there is none. *)
Fixpoint scan_string (rest : string) : result (string * string) :=
  match rest with
  | EmptyString => Ok ("", "")
  | String ch rest =>
      if bool_decide (ch = quote) then Ok ("", rest)
      else if bool_decide (ch = backslash) then
        match rest with
        | EmptyString => Throw (RuntimeError "invalid escape in /localnodes JSON response")
        | String escaped rest =>
            match unescape escaped with
            | Some c => '(v, r) ← scan_string rest; Ok (String c v, r)
            | None => Throw (RuntimeError "unsupported escape in /localnodes JSON response")
            end
        end
      else '(v, r) ← scan_string rest; Ok (String ch v, r)
  end.

(** The outer loop, entered before an element; [None] when [fuel] turns were
    not enough. *)
Fixpoint parse_elements (fuel : nat) (rest : string) : option (result (list string * string)) :=
  match fuel with
  | O => None
  | S fuel =>
      match (rest ← expect quote rest; scan_string rest) with
      | Throw e => Some (Throw e)
      | Ok (value, rest) =>
          match skip_ws rest with
          | EmptyString =>
              Some (Throw (RuntimeError "unterminated /localnodes JSON response"))
          | String c rest' =>
              if bool_decide (c = "]"%char) then Some (Ok ([value], rest'))
              else match expect "," (String c rest') with
                   | Throw e => Some (Throw e)
                   | Ok rest =>
                       match parse_elements fuel rest with
                       | Some (Ok (l, rest)) => Some (Ok (value :: l, rest))
                       | r => r
                       end
                   end
          end
      end
  end.

Definition expect_end {A} (out : A) (rest : string) : result A :=
  match skip_ws rest with
  | EmptyString => Ok out
  | _ => Throw (RuntimeError "invalid trailing data in /localnodes JSON response")
  end.

(** [pos < body.size() && body[pos] == ch], and the suffix after it. *)
Definition next_is (ch : ascii) (rest : string) : option string :=
  match rest with
  | String c rest => if bool_decide (c = ch) then Some rest else None
  | EmptyString => None
  end.

Definition ParseJsonStringArray (body : string) : result (list string) :=
  rest ← expect "[" body;
  let rest := skip_ws rest in
  match next_is "]" rest with
  | Some rest => expect_end [] rest
  | None =>
      match parse_elements (S (String.length rest)) rest with
      | Some r => '(out, rest) ← r; expect_end out rest
      | None => Throw out_of_fuel
      end
  end.

(** ** The grammar *)

Fixpoint ws (s : string) : Prop :=
  match s with EmptyString => True | String c s => isspace c = true ∧ ws s end.

(** The two-character escapes of RFC 8259, section 7, as code points: the
    character after the backslash and the one it stands for. *)
Definition json_escapes : list (N * N) :=
  [(34, 34); (92, 92); (47, 47); (98, 8); (102, 12); (110, 10); (114, 13); (116, 9)]%N.

(** The text between quotes and the value it denotes. *)
Inductive js_chars : string → string → Prop :=
  | js_nil : js_chars "" ""
  | js_plain c t v :
      c ≠ quote → c ≠ backslash → js_chars t v → js_chars (String c t) (String c v)
  | js_escape e c t v :
      (N_of_ascii e, N_of_ascii c) ∈ json_escapes → js_chars t v →
      js_chars (String backslash (String e t)) (String c v).

Inductive js_elements : string → list string → Prop :=
  | js_last w1 t v w2 :
      ws w1 → js_chars t v → ws w2 →
      js_elements (w1 +:+ String quote (t +:+ String quote w2)) [v]
  | js_more w1 t v w2 r l :
      ws w1 → js_chars t v → ws w2 → js_elements r l →
      js_elements (w1 +:+ String quote (t +:+ String quote (w2 +:+ String "," r))) (v :: l).

Inductive js_array : string → list string → Prop :=
  | js_empty w1 w2 w3 :
      ws w1 → ws w2 → ws w3 →
      js_array (w1 +:+ String "[" (w2 +:+ String "]" w3)) []
  | js_nonempty w1 e l w2 :
      ws w1 → js_elements e l → ws w2 →
      js_array (w1 +:+ String "[" (e +:+ String "]" w2)) l.

(** ** White space *)

Lemma skip_ws_split s : ∃ w, ws w ∧ s = w +:+ skip_ws s ∧ unspaced (skip_ws s).
Proof.
  induction s as [|c s (w & Hw & E & Hu)]; [by exists ""|].
  unfold skip_ws in *. simpl. destruct (isspace c) eqn:Ec.
  - exists (String c w). split; [by split|]. split; [|done].
    change (String c s = String c (w +:+ trim_start s)). by rewrite <-E.
  - exists "". split_and!; [done|done|exact Ec].
Qed.
Lemma skip_ws_app w s : ws w → skip_ws (w +:+ s) = skip_ws s.
Proof.
  induction w as [|c w IH]; [done|]. intros [Hc Hw].
  rewrite append_cons. unfold skip_ws in *. simpl.
  rewrite Hc. by apply IH.
Qed.
Lemma skip_ws_unspaced s : unspaced s → skip_ws s = s.
Proof. apply trim_start_id. Qed.
Lemma skip_ws_ws w : ws w → skip_ws w = "".
Proof. intros Hw. rewrite <-(append_empty_r w). by rewrite skip_ws_app. Qed.
Lemma skip_ws_nil s : skip_ws s = "" → ws s.
Proof.
  intros E. destruct (skip_ws_split s) as (w & Hw & -> & _). rewrite E.
  by rewrite append_empty_r.
Qed.

Lemma expect_ok ch rest r :
  expect ch rest = Ok r → ∃ w, ws w ∧ rest = w +:+ String ch r.
Proof.
  unfold expect. destruct (skip_ws_split rest) as (w & Hw & E & _).
  destruct (skip_ws rest) as [|c s]; [done|]. case_bool_decide as D; [|done].
  intros. simplify_eq. exists w. by split.
Qed.
Lemma expect_app ch w r :
  ws w → isspace ch = false → expect ch (w +:+ String ch r) = Ok r.
Proof.
  intros Hw Hc. unfold expect. rewrite skip_ws_app, skip_ws_unspaced by done.
  by rewrite bool_decide_eq_true_2.
Qed.

(** ** Strings *)

Lemma unescape_json e c :
  unescape e = Some c ↔ (N_of_ascii e, N_of_ascii c) ∈ json_escapes.
Proof.
  split.
  - unfold unescape. intros E. repeat case_bool_decide; simplify_eq; by apply (bool_decide_unpack _).
  - intros Hin. rewrite <-(Ascii.ascii_N_embedding e), <-(Ascii.ascii_N_embedding c).
    apply list_elem_of_In in Hin.
    repeat (destruct Hin as [Hin|Hin]; [injection Hin as <- <-; by vm_compute|]). done.
Qed.

Lemma scan_string_complete t v r :
  js_chars t v → scan_string (t +:+ String quote r) = Ok (v, r).
Proof.
  induction 1 as [|c t v Hq Hb _ IH|e c t v He _ IH].
  - done.
  - rewrite append_cons. simpl.
    rewrite !bool_decide_eq_false_2 by done. by rewrite IH.
  - apply unescape_json in He. rewrite !append_cons. simpl. rewrite He, IH. done.
Qed.

Lemma scan_string_sound rest v r :
  scan_string rest = Ok (v, r) →
  r = "" ∨ ∃ t, rest = t +:+ String quote r ∧ js_chars t v.
Proof.
  remember (String.length rest) as n eqn:Hn. revert rest v r Hn.
  induction (lt_wf n) as [n _ IH]; intros rest v r ->.
  destruct rest as [|c rest]; simpl; [intros; simplify_eq; by left|].
  case_bool_decide as Dq.
  { intros. simplify_eq. right. exists "". split; [done|]. constructor. }
  case_bool_decide as Db.
  - destruct rest as [|e rest]; [done|]. destruct (unescape e) as [c'|] eqn:Ee; [|done].
    destruct (scan_string rest) as [[v' r']|] eqn:Es; simpl; intros; simplify_eq.
    destruct (IH (String.length rest) ltac:(simpl; lia) rest v' _ eq_refl Es)
      as [->|(t & -> & Ht)]; [by left|].
    right. exists (String backslash (String e t)). split; [done|].
    constructor; [by apply unescape_json|done].
  - destruct (scan_string rest) as [[v' r']|] eqn:Es; simpl; intros; simplify_eq.
    destruct (IH (String.length rest) ltac:(simpl; lia) rest v' _ eq_refl Es)
      as [->|(t & -> & Ht)]; [by left|].
    right. exists (String c t). split; [done|]. by constructor.
Qed.

Lemma scan_string_length rest v r :
  scan_string rest = Ok (v, r) → (String.length r <= String.length rest)%nat.
Proof.
  remember (String.length rest) as n eqn:Hn. revert rest v r Hn.
  induction (lt_wf n) as [n _ IH]; intros rest v r ->.
  destruct rest as [|c rest]; simpl; [intros; by simplify_eq/=|].
  case_bool_decide as Dq; [intros; simplify_eq; lia|].
  case_bool_decide as Db.
  - destruct rest as [|e rest]; [done|]. destruct (unescape e) as [c'|]; [|done].
    destruct (scan_string rest) as [[v' r']|] eqn:Es; simpl; intros; simplify_eq.
    pose proof (IH (String.length rest) ltac:(simpl; lia) rest v' _ eq_refl Es). simpl. lia.
  - destruct (scan_string rest) as [[v' r']|] eqn:Es; simpl; intros; simplify_eq.
    pose proof (IH (String.length rest) ltac:(simpl; lia) rest v' _ eq_refl Es). lia.
Qed.

(** ** Elements *)

Lemma skip_ws_length s : (String.length (skip_ws s) <= String.length s)%nat.
Proof.
  destruct (skip_ws_split s) as (w & _ & E & _).
  rewrite E at 2. rewrite string_length_app. lia.
Qed.
Lemma expect_length ch rest r :
  expect ch rest = Ok r → (String.length r < String.length rest)%nat.
Proof. intros (w & _ & ->)%expect_ok. rewrite string_length_app. simpl. lia. Qed.

(** Every turn of the outer loop reads at least one character. *)
Lemma parse_elements_total fuel rest :
  (String.length rest < fuel)%nat → is_Some (parse_elements fuel rest).
Proof.
  revert rest. induction fuel as [|fuel IH]; intros rest Hf; [lia|]. simpl.
  destruct (expect quote rest) as [r|] eqn:E; simpl; [|done].
  destruct (scan_string r) as [[v r']|] eqn:Es; simpl; [|done].
  apply expect_length in E. apply scan_string_length in Es.
  pose proof (skip_ws_length r') as Hs. destruct (skip_ws r') as [|c s]; [done|].
  case_bool_decide; [done|]. destruct (expect "," (String c s)) as [q|] eqn:Eq; [|done].
  apply expect_length in Eq. destruct (IH q) as [[[l k]|] ->]; [lia|done|done].
Qed.

Lemma parse_elements_sound fuel rest l k :
  parse_elements fuel rest = Some (Ok (l, k)) →
  ∃ e, js_elements e l ∧ rest = e +:+ String "]" k.
Proof.
  revert rest l k. induction fuel as [|fuel IH]; intros rest l k; [done|]. simpl.
  destruct (expect quote rest) as [r|] eqn:E; simpl; [|done].
  destruct (scan_string r) as [[v r']|] eqn:Es; simpl; [|done].
  apply expect_ok in E as (w & Hw & ->).
  destruct (skip_ws_split r') as (w2 & Hw2 & Er & Hu).
  destruct (skip_ws r') as [|c s]; [done|].
  apply scan_string_sound in Es as [->|(t & -> & Ht)]; [by destruct w2|].
  case_bool_decide as Dc.
  - intros. simplify_eq. exists (w +:+ String quote (t +:+ String quote w2)).
    split; [by constructor|]. by norm_app.
  - destruct (expect "," (String c s)) as [q|] eqn:Eq; [|done].
    destruct (parse_elements fuel q) as [[[l' k']|]|] eqn:Ep; [|done|done].
    intros. simplify_eq. apply IH in Ep as (e & He & ->).
    apply expect_ok in Eq as (w3 & Hw3 & Eq).
    assert (w3 = "") as ->.
    { destruct w3 as [|d w3]; [done|]. destruct Hw3 as [Hd _].
      rewrite append_cons in Eq. simplify_eq. simpl in Hu. congruence. }
    rewrite append_empty_l in Eq. rewrite Eq.
    exists (w +:+ String quote (t +:+ String quote (w2 +:+ String "," e))).
    split; [by constructor|]. by norm_app.
Qed.

Lemma parse_elements_complete e l k fuel :
  js_elements e l → (String.length (e +:+ String "]" k) < fuel)%nat →
  parse_elements fuel (e +:+ String "]" k) = Some (Ok (l, k)).
Proof.
  intros He. revert fuel. induction He as [w1 t v w2 Hw1 Ht Hw2|w1 t v w2 r l Hw1 Ht Hw2 _ IH];
    intros [|fuel] Hf; [lia| |lia|]; norm_app; cbn [parse_elements];
    rewrite expect_app by done; cbn [mbind result_bind];
    rewrite scan_string_complete with (v := v) by done;
    rewrite skip_ws_app, skip_ws_unspaced by done; [done|].
  rewrite bool_decide_eq_false_2 by done.
  rewrite (expect_app "," "" (r +:+ String "]" k) I eq_refl : expect "," (String "," _) = _).
  rewrite IH; [done|].
  repeat (rewrite string_length_app in *; simpl in Hf). simpl. lia.
Qed.

(** ** The parser and the grammar *)

Lemma js_elements_front e l k : js_elements e l → next_is "]" (skip_ws (e +:+ k)) = None.
Proof.
  intros [w1 t v w2 Hw1 _ _|w1 t v w2 r l' Hw1 _ _ _]; rewrite append_assoc;
    rewrite skip_ws_app by done; done.
Qed.

Lemma js_elements_skip e l k :
  js_elements e l → ∃ e', skip_ws (e +:+ k) = e' +:+ k ∧ js_elements e' l.
Proof.
  intros [w1 t v w2 Hw1 Ht Hw2|w1 t v w2 r l' Hw1 Ht Hw2 Hr]; rewrite append_assoc;
    rewrite skip_ws_app, skip_ws_unspaced by done; eexists; (split; [reflexivity|]).
  - by apply (js_last "").
  - by apply (js_more "").
Qed.

Lemma expect_end_ok {A} (out : A) rest l : expect_end out rest = Ok l ↔ l = out ∧ ws rest.
Proof.
  unfold expect_end. split.
  - destruct (skip_ws rest) eqn:E; [|done]. intros. simplify_eq.
    split; [done|]. by apply skip_ws_nil.
  - intros [-> Hw]. by rewrite skip_ws_ws.
Qed.

Lemma parse_iff_grammar body l : ParseJsonStringArray body = Ok l ↔ js_array body l.
Proof.
  unfold ParseJsonStringArray. split.
  - destruct (expect "[" body) as [r|] eqn:E; cbn [mbind result_bind]; [|done].
    apply expect_ok in E as (w1 & Hw1 & ->).
    destruct (skip_ws_split r) as (w & Hw & Er & Hu).
    unfold next_is. destruct (skip_ws r) as [|c s]; [done|].
    case_bool_decide as Dc.
    + intros [-> Hw3]%expect_end_ok. subst c. rewrite Er. by constructor.
    + destruct (parse_elements _ _) as [[[out k]|]|] eqn:Ep; [|done|].
      * simpl. intros [-> Hk]%expect_end_ok. apply parse_elements_sound in Ep as (e & He & Ee).
        rewrite Er, Ee. rewrite <-append_assoc. apply js_nonempty; [done| |done].
        clear -He Hw. destruct He as [w1 t v w2|w1 t v w2 r l]; rewrite <-append_assoc;
          constructor; auto; clear -Hw H; induction w as [|d w IH]; simpl in *; tauto.
      * intros _. edestruct parse_elements_total as [x Hx]; [|by rewrite Hx in Ep]. simpl. lia.
  - intros [w1 w2 w3 H1 H2 H3|w1 e l' w2 H1 He H2].
    + rewrite expect_app by done. simpl. rewrite skip_ws_app by done. simpl.
      apply expect_end_ok. done.
    + rewrite expect_app by done. cbn [mbind result_bind]. rewrite (js_elements_front _ l') by done.
      destruct (js_elements_skip e l' (String "]" w2) He) as (e' & -> & He').
      rewrite (parse_elements_complete e' l' w2) by (done || lia). simpl.
      apply expect_end_ok. done.
Qed.
