(* ===== verification/LiveNodes.v ===== *)
(** The live-node set (src/live_nodes.cpp,
    include/scylladb/alternator/live_nodes.h): discovery of nodes through
    [/localnodes], the health of each, round-robin and plan node selection,
    the trickle of traffic to quarantined nodes, and the refresh schedule.

    The object's members are the record [AlternatorLiveNodes].  [const] methods
    that move the [mutable] counters are state functions; methods that read a
    clock or perform requests also pass the world.  Times are steady-clock
    nanoseconds, [time_min] and [time_max] the extreme time points.  The model
    is sequential: each method runs to its end before the next one starts. *)
From S2P Require Import Prelude Uri GoRandom Effects RoutingScope NodeHealth QueryPlan.
From S2P Require Import KeyRouteAffinity HttpCompression Config LocalNodesJson.

Definition time_min : Z := - 2 ^ 63.
Definition time_max : Z := 2 ^ 63 - 1.
Definition milliseconds (ms : Z) : Z := ms * 1000000.

Record AlternatorLiveNodes := mkLive {
  config_ : Config;
  initial_nodes_ : list Url;
  live_nodes_ : list Url;
  quarantine_by_hash_ : gmap Z Url;
  health_store_ : NodeHealthStore;
  next_node_index_ : Z;
  quarantine_plan_index_ : Z;
  quarantine_node_index_ : Z;
  next_update_ : Z;
  last_activity_ : Z;
  background_started_ : bool;
  stopping_ : bool;
}.

Definition set_live_nodes (l : list Url) (s : AlternatorLiveNodes) : AlternatorLiveNodes :=
  mkLive (config_ s) (initial_nodes_ s) l (quarantine_by_hash_ s) (health_store_ s)
    (next_node_index_ s) (quarantine_plan_index_ s) (quarantine_node_index_ s)
    (next_update_ s) (last_activity_ s) (background_started_ s) (stopping_ s).
Definition set_quarantine_by_hash (m : gmap Z Url) (s : AlternatorLiveNodes) : AlternatorLiveNodes :=
  mkLive (config_ s) (initial_nodes_ s) (live_nodes_ s) m (health_store_ s)
    (next_node_index_ s) (quarantine_plan_index_ s) (quarantine_node_index_ s)
    (next_update_ s) (last_activity_ s) (background_started_ s) (stopping_ s).
Definition set_health (h : NodeHealthStore) (s : AlternatorLiveNodes) : AlternatorLiveNodes :=
  mkLive (config_ s) (initial_nodes_ s) (live_nodes_ s) (quarantine_by_hash_ s) h
    (next_node_index_ s) (quarantine_plan_index_ s) (quarantine_node_index_ s)
    (next_update_ s) (last_activity_ s) (background_started_ s) (stopping_ s).
Definition set_indices (next plan node : Z) (s : AlternatorLiveNodes) : AlternatorLiveNodes :=
  mkLive (config_ s) (initial_nodes_ s) (live_nodes_ s) (quarantine_by_hash_ s) (health_store_ s)
    next plan node
    (next_update_ s) (last_activity_ s) (background_started_ s) (stopping_ s).
Definition set_schedule (next last : Z) (s : AlternatorLiveNodes) : AlternatorLiveNodes :=
  mkLive (config_ s) (initial_nodes_ s) (live_nodes_ s) (quarantine_by_hash_ s) (health_store_ s)
    (next_node_index_ s) (quarantine_plan_index_ s) (quarantine_node_index_ s)
    next last (background_started_ s) (stopping_ s).
Definition set_background (started stopping : bool) (s : AlternatorLiveNodes) : AlternatorLiveNodes :=
  mkLive (config_ s) (initial_nodes_ s) (live_nodes_ s) (quarantine_by_hash_ s) (health_store_ s)
    (next_node_index_ s) (quarantine_plan_index_ s) (quarantine_node_index_ s)
    (next_update_ s) (last_activity_ s) started stopping.

(** The three [fetch_add(1)] on [std::atomic<std::uint64_t>]. *)
Definition fetch_next_node_index (s : AlternatorLiveNodes) : Z * AlternatorLiveNodes :=
  (next_node_index_ s,
   set_indices (u64 (next_node_index_ s + 1)) (quarantine_plan_index_ s)
     (quarantine_node_index_ s) s).
Definition fetch_quarantine_plan_index (s : AlternatorLiveNodes) : Z * AlternatorLiveNodes :=
  (quarantine_plan_index_ s,
   set_indices (next_node_index_ s) (u64 (quarantine_plan_index_ s + 1))
     (quarantine_node_index_ s) s).
Definition fetch_quarantine_node_index (s : AlternatorLiveNodes) : Z * AlternatorLiveNodes :=
  (quarantine_node_index_ s,
   set_indices (next_node_index_ s) (quarantine_plan_index_ s)
     (u64 (quarantine_node_index_ s + 1)) s).

(** [nodes[index % nodes.size()]] *)
Definition pick_round_robin (nodes : list Url) (index : Z) : Url :=
  default Url_default (nodes !! Z.to_nat (index mod Z.of_nat (length nodes))).

(** ** Helpers *)

Definition ToUrls (nodes : list string) (config : Config) : list Url :=
  SortAndDedupeNodes (map (λ node, Url_make (scheme config) node (port config)) nodes).

Definition AppendUniqueNodes (out nodes : list Url) : list Url := dedupe_onto out nodes.

Definition QuarantinedNodeIsFirstForHash (node : Url) (active_nodes : list Url) (hash : Z)
    : result bool :=
  first ← FirstNodeWithSeed (active_nodes ++ [node]) hash;
  Ok (Url_eqb first node).

(** [what()] of the exceptions of this file and of the standard library. *)
Definition exn_what (e : exn) : string :=
  match e with
  | InvalidArgument what | RuntimeError what | HttpStatusError what _
  | InvalidHttpResponseError what => what
  end.

(** ** Node pools *)

Definition GetNodes (s : AlternatorLiveNodes) : list Url :=
  if bool_decide (live_nodes_ s = []) then initial_nodes_ s else live_nodes_ s.
Definition GetActiveNodes (s : AlternatorLiveNodes) : list Url :=
  Store_GetActiveNodes (health_store_ s).
Definition GetQuarantinedNodes (s : AlternatorLiveNodes) : list Url :=
  Store_GetQuarantinedNodes (health_store_ s).
Definition GetDownNodes (s : AlternatorLiveNodes) : list Url :=
  Store_GetDownNodes (health_store_ s).

Definition ShouldTryQuarantinedNode (active_nodes_empty : bool) (s : AlternatorLiveNodes)
    : bool * AlternatorLiveNodes :=
  if bool_decide (GetQuarantinedNodes s = []) then (false, s)
  else if active_nodes_empty then (true, s)
  else
    let interval := quarantine_traffic_interval (node_health (config_ s)) in
    let interval := if interval =? 0 then 1 else interval in
    let '(index, s) := fetch_quarantine_plan_index s in
    let attempt := u64 (index + 1) in
    (attempt mod interval =? 0, s).

Definition NextQuarantinedNode (s : AlternatorLiveNodes) : Url * AlternatorLiveNodes :=
  let nodes := GetQuarantinedNodes s in
  if bool_decide (nodes = []) then (Url_default, s)
  else let '(index, s) := fetch_quarantine_node_index s in
       (pick_round_robin nodes index, s).

Definition GetQueryPlanNodes (s : AlternatorLiveNodes) : list Url * AlternatorLiveNodes :=
  let candidates := GetActiveNodes s in
  let '(try, s) := ShouldTryQuarantinedNode (bool_decide (candidates = [])) s in
  let '(candidates, s) :=
    if (try : bool) then
      let '(quarantined, s) := NextQuarantinedNode s in
      (if Url_Empty quarantined then candidates else candidates ++ [quarantined], s)
    else (candidates, s) in
  (SortAndDedupeNodes candidates, s).

Definition StickyQuarantinedNodeForHash (hash : Z) (active_nodes : list Url)
    : M AlternatorLiveNodes Url :=
  quarantined_nodes ← gets GetQuarantinedNodes;
  assigned ← gets (λ s, quarantine_by_hash_ s !! hash);
  let forget := modify (λ s, set_quarantine_by_hash (delete hash (quarantine_by_hash_ s)) s) in
  let choose :=
    try ← of_state (ShouldTryQuarantinedNode (bool_decide (active_nodes = [])));
    if negb try then mret Url_default
    else
      quarantined_nodes ← gets GetQuarantinedNodes;
      if bool_decide (quarantined_nodes = []) then mret Url_default
      else
        index ← of_state fetch_quarantine_node_index;
        let node := pick_round_robin quarantined_nodes index in
        first ← lift_result (QuarantinedNodeIsFirstForHash node active_nodes hash);
        if negb first then mret Url_default
        else
          _ ← modify (λ s, set_quarantine_by_hash (<[hash := node]> (quarantine_by_hash_ s)) s);
          mret node in
  match assigned with
  | Some node =>
      if bool_decide (node ∈ quarantined_nodes) then
        first ← lift_result (QuarantinedNodeIsFirstForHash node active_nodes hash);
        if negb first then _ ← forget; mret Url_default
        else mret node
      else _ ← forget; choose
  | None => choose
  end.

Definition GetQueryPlanNodesForHash (hash : Z) : M AlternatorLiveNodes (list Url) :=
  active_nodes ← gets (λ s, SortAndDedupeNodes (GetActiveNodes s));
  quarantined ← StickyQuarantinedNodeForHash hash active_nodes;
  mret (AppendUniqueNodes (if Url_Empty quarantined then [] else [quarantined]) active_nodes).

#[global] Instance LiveNodes_source : NodesSource AlternatorLiveNodes := {
  ns_GetActiveNodes := GetActiveNodes;
  ns_GetQueryPlanNodes := GetQueryPlanNodes;
  ns_GetQueryPlanNodesForHash := GetQueryPlanNodesForHash;
  ns_GetDownNodes := GetDownNodes;
}.

(** ** Quarantine assignments and the refresh schedule *)

Definition RemoveQuarantineHashAssignmentsForNode (node : Url) (s : AlternatorLiveNodes)
    : AlternatorLiveNodes :=
  set_quarantine_by_hash (filter (λ e, Url_eqb e.2 node = false) (quarantine_by_hash_ s)) s.

(** Returns whether the background thread is notified. *)
Definition MarkActivity_at (now : Z) (s : AlternatorLiveNodes) : bool * AlternatorLiveNodes :=
  if 0 <? nodes_list_update_period (config_ s) then
    let active_due := now + milliseconds (nodes_list_update_period (config_ s)) in
    if active_due <? next_update_ s then (true, set_schedule active_due now s)
    else (next_update_ s <=? now, set_schedule (next_update_ s) now s)
  else (false, set_schedule (next_update_ s) now s).

(** In milliseconds. *)
Definition RefreshIntervalForNow (now : Z) (s : AlternatorLiveNodes) : Z :=
  let has_activity := negb (last_activity_ s =? time_min) in
  let active_enabled := 0 <? nodes_list_update_period (config_ s) in
  let idle_enabled := 0 <? idle_nodes_list_update_period (config_ s) in
  let recently_active := has_activity &&
    (negb idle_enabled ||
     (now - last_activity_ s <? milliseconds (idle_nodes_list_update_period (config_ s)))) in
  if recently_active && active_enabled then nodes_list_update_period (config_ s)
  else if idle_enabled then idle_nodes_list_update_period (config_ s)
  else 0.

Definition ScheduleNextRefresh (now : Z) (s : AlternatorLiveNodes) : AlternatorLiveNodes :=
  let interval := RefreshIntervalForNow now s in
  if interval <=? 0 then set_schedule time_max (last_activity_ s) s
  else set_schedule (now + milliseconds interval) (last_activity_ s) s.

(** ** Operations on the world *)

Section operations.
Context {W : Type} `{World W}.
Definition MarkActivity : M (AlternatorLiveNodes * W) unit :=
  now ← on_world steady_now;
  _ ← state_op (MarkActivity_at now);
  mret tt.

Definition ReportNodeResult (node : Url) (observation : NodeHealthObservation) : M (AlternatorLiveNodes * W) unit :=
  _ ← MarkActivity;
  _ ← zoom health_store_ set_health (Store_Report node observation);
  status ← gets (λ σ, GetNodeStatus node (health_store_ σ.1));
  match status with
  | Some st =>
      if bool_decide (state st = Quarantined) then mret tt
      else modify (λ σ, (RemoveQuarantineHashAssignmentsForNode node σ.1, σ.2))
  | None => modify (λ σ, (RemoveQuarantineHashAssignmentsForNode node σ.1, σ.2))
  end.

(** The lambda [ProbeDownNodes] passes to the store; it catches everything. *)
Definition localnodes_probe (node : Url) (_ : NodeHealthStatus) (w : W)
    : result NodeHealthObservation * W :=
  match http_get (WithPathAndQuery node "/localnodes" "") w with
  | (HttpReply resp, w) =>
      (Ok (if 500 <=? status_code resp then ServerError else Success), w)
  | (HttpFailure _, w) => (Ok ConnectionFailure, w)
  end.
Definition ProbeDownNodes : M (AlternatorLiveNodes * W) (list Url) :=
  zoom health_store_ set_health (Store_ProbeDownNodes (Some localnodes_probe)).

Definition NextNode : M (AlternatorLiveNodes * W) Url :=
  _ ← MarkActivity;
  candidates ← gets (λ σ, GetActiveNodes σ.1);
  candidates ← (if bool_decide (candidates = [])
                then _ ← ProbeDownNodes; gets (λ σ, GetActiveNodes σ.1)
                else mret candidates);
  try ← state_op (ShouldTryQuarantinedNode (bool_decide (candidates = [])));
  quarantined ← (if (try : bool) then state_op NextQuarantinedNode else mret Url_default);
  if negb (Url_Empty quarantined) then mret quarantined
  else if bool_decide (candidates = []) then mret Url_default
  else index ← state_op fetch_next_node_index;
       mret (pick_round_robin candidates index).

Definition NextKnownNode : M (AlternatorLiveNodes * W) Url :=
  nodes ← gets (λ σ, GetNodes σ.1);
  if bool_decide (nodes = []) then mret Url_default
  else index ← state_op fetch_next_node_index;
       mret (pick_round_robin nodes index).

(** *** Discovery *)

Definition GetNodesFromEndpoint (endpoint : Url) : M (AlternatorLiveNodes * W) (list Url) :=
  resp ← HttpClient_Get endpoint;
  if negb (status_code resp =? 200) then
    throw (HttpStatusError ("non-200 response from " +:+ Url_ToString endpoint)
             (status_code resp))
  else
    config ← gets (λ σ, config_ σ.1);
    try_catch (nodes ← lift_result (ParseJsonStringArray (body resp)); mret (ToUrls nodes config))
      (λ error, throw (InvalidHttpResponseError (exn_what error))).

Definition GetDiscoveryNodesForScope (scope : RoutingScope) : M (AlternatorLiveNodes * W) (list Url) :=
  if IsCluster scope then gets (λ σ, initial_nodes_ σ.1) else state_op GetQueryPlanNodes.

(** What each [catch] clause of [GetNodesForScope] reports. *)
Definition discovery_observation (error : exn) : NodeHealthObservation :=
  match error with
  | HttpStatusError _ code => if 500 <=? code then ServerError else Success
  | InvalidHttpResponseError _ => Success
  | _ => ConnectionFailure
  end.

(** The statements after the loop. *)
Definition discovery_result (discovered : list Url) (last_error : option exn) : M (AlternatorLiveNodes * W) (list Url) :=
  if bool_decide (discovered = []) then
    match last_error with Some error => throw error | None => mret [] end
  else mret (SortAndDedupeNodes discovered).

(** The loop over the plan; [fuel] bounds the calls of [Next]. *)
Fixpoint discovery_loop (fuel : nat) (scope : RoutingScope) (plan : QueryPlan)
    (discovered : list Url) (last_error : option exn) : M (AlternatorLiveNodes * W) (list Url) :=
  match fuel with
  | O => throw out_of_fuel
  | S fuel =>
      let '(next, plan) := QueryPlan_Next plan in
      node ← lift_result next;
      if Url_Empty node then discovery_result discovered last_error
      else
        answer ← try_catch
          (nodes ← GetNodesFromEndpoint
                     (WithPathAndQuery node "/localnodes" (LocalNodesQuery scope));
           mret (inr nodes))
          (λ error, _ ← ReportNodeResult node (discovery_observation error);
                    mret (inl error));
        match answer with
        | inl error => discovery_loop fuel scope plan discovered (Some error)
        | inr nodes =>
            if bool_decide (nodes = []) then
              discovery_loop fuel scope plan discovered last_error
            else if negb (IsCluster scope) then mret nodes
            else discovery_loop fuel scope plan (discovered ++ nodes) last_error
        end
  end.

Definition GetNodesForScope (scope : RoutingScope) : M (AlternatorLiveNodes * W) (list Url) :=
  nodes ← GetDiscoveryNodesForScope scope;
  clock ← on_world high_resolution_now;
  discovery_loop (S (length nodes)) scope (QueryPlan_make clock nodes) [] None.

Fixpoint fetch_loop (scopes : list RoutingScope) : M (AlternatorLiveNodes * W) (list Url) :=
  match scopes with
  | [] => mret []
  | scope :: scopes =>
      nodes ← GetNodesForScope scope;
      if bool_decide (nodes = []) then fetch_loop scopes else mret nodes
  end.
Definition FetchLiveNodes : M (AlternatorLiveNodes * W) (list Url) :=
  config ← gets (λ σ, config_ σ.1);
  fetch_loop (scope_chain (routing_scope config)).

Definition AddNodes (nodes : list Url) : M (NodeHealthStore * W) unit :=
  λ '(s, w), (Ok tt, add_nodes nodes s w).

Definition UpdateLiveNodes : M (AlternatorLiveNodes * W) unit :=
  new_nodes ← FetchLiveNodes;
  if bool_decide (new_nodes = []) then _ ← ProbeDownNodes; mret tt
  else
    _ ← zoom health_store_ set_health (AddNodes new_nodes);
    removed_nodes ← gets (λ σ, filter (λ n, n ∉ new_nodes) (live_nodes_ σ.1));
    _ ← modify (λ σ, (set_health (foldl (flip RemoveNode) (health_store_ σ.1) removed_nodes) σ.1,
                      σ.2));
    _ ← modify (λ σ, (set_live_nodes (SortAndDedupeNodes new_nodes) σ.1, σ.2));
    _ ← modify (λ σ, (foldl (flip RemoveQuarantineHashAssignmentsForNode) σ.1 removed_nodes,
                      σ.2));
    _ ← ProbeDownNodes;
    mret tt.

(** *** Checks *)

Fixpoint check_scopes (scopes : list RoutingScope) (misses : list string) : M (AlternatorLiveNodes * W) unit :=
  match scopes with
  | [] =>
      if bool_decide (misses = []) then mret tt
      else throw (RuntimeError
             (foldl (λ message miss, message +:+ " " +:+ miss)
                "routing scope has no nodes:" misses))
  | scope :: scopes =>
      if IsCluster scope then mret tt
      else nodes ← GetNodesForScope scope;
           if bool_decide (nodes = []) then check_scopes scopes (misses ++ [Scope_ToString scope])
           else mret tt
  end.
Definition CheckIfRackAndDatacenterSetCorrectly : M (AlternatorLiveNodes * W) unit :=
  config ← gets (λ σ, config_ σ.1);
  check_scopes (scope_chain (routing_scope config)) [].

Definition CheckIfRackDatacenterFeatureIsSupported : M (AlternatorLiveNodes * W) bool :=
  node ← NextKnownNode;
  if Url_Empty node then throw (RuntimeError "no known nodes are available")
  else
    hosts_with_fake_rack ← GetNodesFromEndpoint (WithPathAndQuery node "/localnodes" "rack=fakeRack");
    hosts_without_rack ← GetNodesFromEndpoint (WithPathAndQuery node "/localnodes" "");
    if bool_decide (hosts_without_rack = []) then
      throw (RuntimeError "host returned empty /localnodes list")
    else mret (negb (bool_decide (length hosts_with_fake_rack = length hosts_without_rack))).

(** *** Construction *)

Definition AlternatorLiveNodes_make (initial_nodes : list string) (config : Config) (w : W)
    : result AlternatorLiveNodes * W :=
  match ValidateConfig config with
  | Throw e => (Throw e, w)
  | Ok _ =>
      if bool_decide (initial_nodes = []) then
        (Throw (InvalidArgument "initial_nodes cannot be empty"), w)
      else
        let nodes := SortAndDedupeNodes
          (map (λ node, Url_make (scheme config) node (port config)) initial_nodes) in
        let '(health, w) := NodeHealthStore_make (node_health config) nodes w in
        let '(now, w) := steady_now w in
        (Ok (mkLive config nodes nodes ∅ health 0 0 0
               (if 0 <? idle_nodes_list_update_period config
                then now + milliseconds (idle_nodes_list_update_period config)
                else time_max)
               time_min false false), w)
  end.

(** *** The background thread *)

Definition Start (s : AlternatorLiveNodes) : AlternatorLiveNodes :=
  if background_started_ s then s else set_background true false s.
(** [Stop] in two parts: raising the flag, and what follows the join. *)
Definition Stop_request (s : AlternatorLiveNodes) : AlternatorLiveNodes :=
  if background_started_ s then set_background true true s else s.
Definition Stop_joined (s : AlternatorLiveNodes) : AlternatorLiveNodes :=
  set_background false false s.

(** When the thread wakes at the latest; [None] when it waits to be stopped. *)
Definition background_wake_at (next_down_probe : Z) (s : AlternatorLiveNodes) : option Z :=
  let probe_enabled := 0 <? down_node_probe_period (node_health (config_ s)) in
  let refresh_enabled := negb (next_update_ s =? time_max) in
  if negb refresh_enabled && negb probe_enabled then None
  else
    let wake_at := if refresh_enabled then next_update_ s else next_down_probe in
    Some (if probe_enabled && (negb refresh_enabled || (next_down_probe <? wake_at))
          then next_down_probe else wake_at).

(** The part of a turn after the wait timed out; returns [next_down_probe]. *)
Definition background_turn (next_down_probe : Z) : M (AlternatorLiveNodes * W) Z :=
  now ← on_world steady_now;
  s ← gets fst;
  let probe_period := down_node_probe_period (node_health (config_ s)) in
  let probe_enabled := 0 <? probe_period in
  let should_update := negb (next_update_ s =? time_max) && (next_update_ s <=? now) in
  _ ← (if should_update then modify (λ σ, (ScheduleNextRefresh now σ.1, σ.2)) else mret tt);
  let should_probe_down := probe_enabled && (next_down_probe <=? now) in
  let next_down_probe :=
    if should_probe_down then now + milliseconds probe_period else next_down_probe in
  _ ← try_catch
        (_ ← (if should_update then UpdateLiveNodes else mret tt);
         if should_probe_down then _ ← ProbeDownNodes; mret tt else mret tt)
        (λ _, mret tt);
  mret next_down_probe.
End operations.

(** ** Predicates that routine operation keeps

    [stable I]: [I] does not notice the counters, the schedule or the quarantine
    assignments moving, nor a result being reported for a node.  Everything but [UpdateLiveNodes] is built of such steps. *)

Record stable (I : AlternatorLiveNodes → Prop) : Prop := {
  st_quarantine m s : I s → I (set_quarantine_by_hash m s);
  st_schedule n l s : I s → I (set_schedule n l s);
  st_indices n p q s : is_u64 n → is_u64 p → is_u64 q → I s → I (set_indices n p q s);
  st_index_range s : I s → is_u64 (next_node_index_ s) ∧ is_u64 (quarantine_plan_index_ s) ∧
                           is_u64 (quarantine_node_index_ s);
  st_report now node o s :
    I s → I (set_health (Store_ReportNodeResult now node o (health_store_ s)) s);
}.

Section stable_steps.
Context (I : AlternatorLiveNodes → Prop) (HI : stable I).

Lemma st_fetch_next s : I s → I (fetch_next_node_index s).2.
Proof.
  intros Hs. destruct (st_index_range I HI s Hs) as (?&?&?).
  apply (st_indices I HI); auto with alternator.
Qed.
Lemma st_fetch_plan s : I s → I (fetch_quarantine_plan_index s).2.
Proof.
  intros Hs. destruct (st_index_range I HI s Hs) as (?&?&?).
  apply (st_indices I HI); auto with alternator.
Qed.
Lemma st_fetch_node s : I s → I (fetch_quarantine_node_index s).2.
Proof.
  intros Hs. destruct (st_index_range I HI s Hs) as (?&?&?).
  apply (st_indices I HI); auto with alternator.
Qed.
Lemma st_ShouldTry b s : I s → I (ShouldTryQuarantinedNode b s).2.
Proof.
  intros Hs. unfold ShouldTryQuarantinedNode. case_bool_decide; [done|]. destruct b; [done|].
  apply (st_fetch_plan s Hs).
Qed.
Lemma st_NextQuarantined s : I s → I (NextQuarantinedNode s).2.
Proof.
  intros Hs. unfold NextQuarantinedNode. case_bool_decide; [done|]. apply (st_fetch_node s Hs).
Qed.
Lemma st_GetQueryPlanNodes s : I s → I (GetQueryPlanNodes s).2.
Proof.
  intros Hs. unfold GetQueryPlanNodes.
  pose proof (st_ShouldTry (bool_decide (GetActiveNodes s = [])) s Hs) as H1.
  destruct (ShouldTryQuarantinedNode _ s) as [try s1]. simpl in H1. destruct try; [|done].
  pose proof (st_NextQuarantined s1 H1) as H2. by destruct (NextQuarantinedNode s1).
Qed.
Lemma st_MarkActivity_at now s : I s → I (MarkActivity_at now s).2.
Proof. intros. unfold MarkActivity_at. repeat case_match; by apply (st_schedule I HI). Qed.
Lemma st_ScheduleNextRefresh now s : I s → I (ScheduleNextRefresh now s).
Proof. intros. unfold ScheduleNextRefresh. case_match; by apply (st_schedule I HI). Qed.
Lemma st_RemoveAssignments node s : I s → I (RemoveQuarantineHashAssignmentsForNode node s).
Proof. by apply (st_quarantine I HI). Qed.
Lemma st_remove_assignments nodes s :
  I s → I (foldl (flip RemoveQuarantineHashAssignmentsForNode) s nodes).
Proof.
  revert s. induction nodes as [|n nodes IH]; intros s Hs; [done|]. simpl.
  apply IH. by apply st_RemoveAssignments.
Qed.
End stable_steps.

(** Closes [I (op s)] for a step [op] that a [stable I] hypothesis covers. *)
Ltac by_stable :=
  match goal with
  | HI : stable ?I |- _ =>
      simpl fst;
      first [ done
            | apply (st_fetch_next I HI) | apply (st_fetch_plan I HI) | apply (st_fetch_node I HI)
            | apply (st_ShouldTry I HI) | apply (st_NextQuarantined I HI)
            | apply (st_GetQueryPlanNodes I HI) | apply (st_MarkActivity_at I HI)
            | apply (st_ScheduleNextRefresh I HI) | apply (st_RemoveAssignments I HI)
            | apply (st_quarantine I HI) ]; done
  end.

(** [keep] walks a program and proves that each of its steps keeps [I]. *)
Ltac keep_step :=
  lazymatch goal with
  | |- preserves _ (mret _) => apply preserves_ret
  | |- preserves _ (throw _) => apply preserves_throw
  | |- preserves _ (gets _) => apply preserves_gets
  | |- preserves _ (lift_result _) => apply preserves_lift
  | |- preserves _ (on_world _) => apply preserves_on_world
  | |- preserves _ (HttpClient_Get _) => apply preserves_http_get
  | |- preserves _ (of_state _) => apply preserves_of_state
  | |- preserves _ (state_op _) => apply preserves_state_op
  | |- preserves _ (modify _) => apply preserves_modify
  | |- preserves _ (try_catch _ _) => apply preserves_try
  | |- preserves _ (_ ≫= _) => apply preserves_bind
  | |- preserves _ _ => case_match
  | |- ∀ _, _ => intro
  | |- _ → _ => intro
  | |- _ => by_stable
  end.
Ltac keep := repeat keep_step.

Section stable_operations.
Context (I : AlternatorLiveNodes → Prop) (HI : stable I).

Lemma preserves_Sticky hash active : preserves I (StickyQuarantinedNodeForHash hash active).
Proof. unfold StickyQuarantinedNodeForHash. keep. Qed.
Lemma preserves_GetQueryPlanNodesForHash hash : preserves I (GetQueryPlanNodesForHash hash).
Proof.
  unfold GetQueryPlanNodesForHash. apply preserves_bind; [keep|]. intros active.
  apply preserves_bind; [apply preserves_Sticky|keep].
Qed.

Context {W : Type} `{World W}.
Abbreviation keeps m := (preserves (λ σ : AlternatorLiveNodes * W, I σ.1) m).

Lemma set_health_id s : set_health (health_store_ s) s = s.
Proof. by destruct s. Qed.

(** A store operation keeps [I] when it keeps "[I] of the object around". *)
Lemma keeps_zoom {A} (m : M (NodeHealthStore * W) A) :
  (∀ s, preserves (λ σ : NodeHealthStore * W, I (set_health σ.1 s)) m) →
  keeps (zoom health_store_ set_health m).
Proof.
  intros Hm. apply (preserves_zoom I (λ s h, I (set_health h s))); [|done|done].
  intros s. by rewrite set_health_id.
Qed.
Lemma stable_Report now node o s h :
  I (set_health h s) → I (set_health (Store_ReportNodeResult now node o h) s).
Proof. apply (st_report I HI now node o (set_health h s)). Qed.

Lemma keeps_MarkActivity : keeps MarkActivity.
Proof. unfold MarkActivity. keep. Qed.
Lemma keeps_ReportNodeResult node o : keeps (ReportNodeResult node o).
Proof.
  unfold ReportNodeResult. apply preserves_bind; [apply keeps_MarkActivity|]. intros _.
  apply preserves_bind; [|keep].
  apply keeps_zoom. intros s.
  apply (preserves_Report (λ h, I (set_health h s))). intros now h. apply stable_Report.
Qed.
Lemma keeps_ProbeDownNodes : keeps ProbeDownNodes.
Proof.
  apply keeps_zoom. intros s. apply (preserves_ProbeDownNodes (λ h, I (set_health h s))).
  intros now node o h. apply stable_Report.
Qed.
Lemma keeps_NextNode : keeps NextNode.
Proof.
  unfold NextNode. apply preserves_bind; [apply keeps_MarkActivity|]. intros _.
  apply preserves_bind; [keep|]. intros c. apply preserves_bind; [|keep].
  case_bool_decide; [|keep]. apply preserves_bind; [apply keeps_ProbeDownNodes|keep].
Qed.
Lemma keeps_NextKnownNode : keeps NextKnownNode.
Proof. unfold NextKnownNode. keep. Qed.
Lemma keeps_GetNodesFromEndpoint endpoint : keeps (GetNodesFromEndpoint endpoint).
Proof. unfold GetNodesFromEndpoint. keep. Qed.
Lemma keeps_discovery_loop fuel scope plan d e : keeps (discovery_loop fuel scope plan d e).
Proof.
  revert plan d e. induction fuel as [|fuel IH]; intros plan d e; [apply preserves_throw|]. simpl.
  destruct (QueryPlan_Next plan) as [next plan']. apply preserves_bind; [keep|]. intros node.
  destruct (Url_Empty node); [unfold discovery_result; keep|].
  apply preserves_bind; [apply preserves_try|].
  - apply preserves_bind; [apply keeps_GetNodesFromEndpoint|keep].
  - intros x. apply preserves_bind; [apply keeps_ReportNodeResult|keep].
  - intros [x|nodes]; [apply IH|]. keep; apply IH.
Qed.
Lemma keeps_GetNodesForScope scope : keeps (GetNodesForScope scope).
Proof.
  unfold GetNodesForScope, GetDiscoveryNodesForScope. apply preserves_bind; [keep|].
  intros nodes. apply preserves_bind; [keep|]. intros c. apply keeps_discovery_loop.
Qed.
Lemma keeps_FetchLiveNodes : keeps FetchLiveNodes.
Proof.
  apply preserves_bind; [keep|]. intros c.
  induction (scope_chain (routing_scope c)) as [|scope scopes IH]; [apply preserves_ret|].
  simpl. apply preserves_bind; [apply keeps_GetNodesForScope|]. intros l.
  case_bool_decide; [done|keep].
Qed.

Lemma keeps_CheckScopes : keeps CheckIfRackAndDatacenterSetCorrectly.
Proof.
  apply preserves_bind; [keep|]. intros c. generalize (@nil string) as misses.
  induction (scope_chain (routing_scope c)) as [|scope scopes IH]; intros misses; simpl; [keep|].
  destruct (IsCluster scope); [keep|].
  apply preserves_bind; [apply keeps_GetNodesForScope|]. intros l.
  case_bool_decide; [apply IH|keep].
Qed.
Lemma keeps_CheckFeature : keeps CheckIfRackDatacenterFeatureIsSupported.
Proof.
  apply preserves_bind; [apply keeps_NextKnownNode|]. intros node.
  destruct (Url_Empty node); [keep|].
  apply preserves_bind; [apply keeps_GetNodesFromEndpoint|]. intros l1.
  apply preserves_bind; [apply keeps_GetNodesFromEndpoint|]. intros l2. keep.
Qed.

End stable_operations.

(** ** The invariant *)

(** The health store is well formed under the normalised configuration, the
    configuration passed validation, the counters are [uint64_t] values. *)
Record live_inv (s : AlternatorLiveNodes) : Prop := {
  li_store : wf_store (health_store_ s);
  li_config : health_config (health_store_ s) = normalize_health_config (node_health (config_ s));
  li_valid : valid_config (config_ s);
  li_indices : is_u64 (next_node_index_ s) ∧ is_u64 (quarantine_plan_index_ s) ∧
               is_u64 (quarantine_node_index_ s);
  li_initial : initial_nodes_ s ≠ [] ∧ live_nodes_ s ≠ [];
  li_initial_sorted : sorted_nodes (initial_nodes_ s);
  li_live_sorted : sorted_nodes (live_nodes_ s);
}.

Lemma inv_health h s :
  wf_store h → health_config h = health_config (health_store_ s) →
  live_inv s → live_inv (set_health h s).
Proof. intros Hw Hc [? Hc' ? ? ? ? ?]. split; try done. simpl. by rewrite Hc. Qed.

Lemma live_inv_stable : stable live_inv.
Proof.
  split; try by intros * [].
  - by intros * ??? [].
  - intros now node o s Hs. apply inv_health; [|apply config_Report|done].
    apply wf_Report, Hs.
Qed.

Section update_invariant.
Context {W : Type} `{World W}.
Abbreviation keeps m := (preserves (λ σ : AlternatorLiveNodes * W, live_inv σ.1) m).
Let HI : stable live_inv := live_inv_stable.

Lemma inv_live_nodes l s :
  l ≠ [] → sorted_nodes l → live_inv s → live_inv (set_live_nodes l s).
Proof. intros ? ? [? ? ? ? [? _] ? ?]. by split. Qed.
Lemma keeps_UpdateLiveNodes : keeps UpdateLiveNodes.
Proof.
  unfold UpdateLiveNodes. apply preserves_bind; [apply (keeps_FetchLiveNodes _ HI)|].
  intros new_nodes. case_bool_decide as Hn.
  { apply preserves_bind; [apply (keeps_ProbeDownNodes _ HI)|keep]. }
  apply preserves_bind; [apply (keeps_zoom live_inv)|intros _].
  { intros s [h w] Hs. simpl in *. pose proof (li_store _ Hs) as Hw.
    apply (inv_health _ (set_health h s)); [by apply wf_add_nodes| |done].
    by rewrite config_add_nodes. }
  apply preserves_bind; [keep|]. intros removed.
  apply preserves_bind; [apply preserves_modify|intros _].
  { intros [s w] Hs. simpl. pose proof (li_store s Hs) as Hst.
    apply (wf_remove_nodes removed) in Hst as [? ?]. by apply inv_health. }
  apply preserves_bind; [apply preserves_modify|intros _].
  { intros [s w] Hs. apply inv_live_nodes; [|apply SortAndDedupe_sorted|done].
    rewrite SortAndDedupe_nil. done. }
  apply preserves_bind; [apply preserves_modify|intros _].
  { intros [s w] Hs. by apply (st_remove_assignments _ HI). }
  apply preserves_bind; [apply (keeps_ProbeDownNodes _ HI)|keep].
Qed.

Lemma inv_make initial config (w : W) s w' :
  health_config_u32 (node_health config) →
  AlternatorLiveNodes_make initial config w = (Ok s, w') → live_inv s.
Proof.
  intros Hu. unfold AlternatorLiveNodes_make.
  destruct (ValidateConfig config) as [[]|] eqn:Ev; [|done].
  apply ValidateConfig_iff in Ev. case_bool_decide as Hi; [done|].
  set (nodes := SortAndDedupeNodes _). pose proof (wf_make (node_health config) nodes w Hu) as Hw.
  assert (health_config (NodeHealthStore_make (node_health config) nodes w).1 =
    normalize_health_config (node_health config)) as Hc by apply config_add_nodes.
  destruct (NodeHealthStore_make _ _ _) as [h w1]. destruct (steady_now w1) as [now w2].
  intros E. simplify_eq. simpl in *.
  assert (nodes ≠ []) as Hn.
  { unfold nodes. rewrite SortAndDedupe_nil. by destruct initial. }
  assert (sorted_nodes nodes) by apply SortAndDedupe_sorted.
  split; simpl; auto. ranges.
Qed.
End update_invariant.

(** The background thread keeps what [UpdateLiveNodes] keeps. *)
Section background_invariant.
Context {W : Type} `{World W}.
Context (I : AlternatorLiveNodes → Prop) (HI : stable I).
Abbreviation keeps m := (preserves (λ σ : AlternatorLiveNodes * W, I σ.1) m).
Context (HU : keeps UpdateLiveNodes).

Lemma keeps_background_turn next_down_probe : keeps (background_turn next_down_probe).
Proof.
  apply preserves_bind; [keep|]. intros now. apply preserves_bind; [keep|]. intros s.
  apply preserves_bind; [keep|]. intros _.
  apply preserves_bind; [|keep]. apply preserves_try; [|keep].
  apply preserves_bind; [case_match; [apply HU|keep]|]. intros _.
  case_match; [|keep]. apply preserves_bind; [apply (keeps_ProbeDownNodes I HI)|keep].
Qed.
End background_invariant.
