(* ===== verification/LiveNodesSelection.v ===== *)
(** Node selection of [AlternatorLiveNodes] (src/live_nodes.cpp): the live
    nodes are a lawful source of nodes for query plans, round-robin visits
    every active node, quarantined nodes get their share of the traffic, and a
    key's quarantined node is sticky. *)
From S2P Require Import Prelude Uri GoRandom Effects NodeHealth QueryPlan KeyRouteAffinity.
From S2P Require Import Config LiveNodes.

(** ** What selection leaves alone *)

Lemma health_ShouldTry b s :
  health_store_ (ShouldTryQuarantinedNode b s).2 = health_store_ s.
Proof. unfold ShouldTryQuarantinedNode. case_bool_decide; [done|]. by destruct b. Qed.
Lemma health_NextQuarantined s : health_store_ (NextQuarantinedNode s).2 = health_store_ s.
Proof. unfold NextQuarantinedNode. by case_bool_decide. Qed.

Lemma pick_round_robin_elem nodes index : nodes ≠ [] → pick_round_robin nodes index ∈ nodes.
Proof.
  intros Hn. unfold pick_round_robin.
  assert (0 < Z.of_nat (length nodes)) as Hl by (destruct nodes; simpl in *; [done|lia]).
  pose proof (Z.mod_pos_bound index (Z.of_nat (length nodes)) Hl).
  destruct (lookup_lt_is_Some_2 nodes (Z.to_nat (index mod Z.of_nat (length nodes)))) as [u Hu];
    [lia|]. rewrite Hu. by eapply list_elem_of_lookup_2.
Qed.

(** The node [NextQuarantinedNode] picks, when there is one. *)
Lemma NextQuarantined_elem s :
  GetQuarantinedNodes s ≠ [] → (NextQuarantinedNode s).1 ∈ GetQuarantinedNodes s.
Proof.
  intros Hn. unfold NextQuarantinedNode. rewrite bool_decide_eq_false_2 by done.
  by apply pick_round_robin_elem.
Qed.

Lemma unique_from_length {A} `{EqDecision A} (last : A) l :
  (length (unique_from last l) <= length l)%nat.
Proof.
  revert last. induction l as [|x l IH]; intros last; simpl; [lia|].
  case_decide; simpl; [|specialize (IH x); lia]. specialize (IH last). lia.
Qed.
Lemma SortAndDedupe_length l : (length (SortAndDedupeNodes l) <= length l)%nat.
Proof.
  unfold SortAndDedupeNodes. rewrite <-(key_sort_perm Url_ToString l) at 2.
  fold (sort_urls l). destruct (sort_urls l) as [|x k]; [done|].
  simpl. pose proof (unique_from_length x k). lia.
Qed.

(** ** Node lists that extend the active nodes by one node *)

Lemma offers_extend active q l :
  NoDup l → nonempty_nodes l → key_inj Url_ToString l → active ⊆ l →
  (∀ u, u ∈ l → u ∈ active ∨ u = q) → offers active l.
Proof.
  intros ND Hn Hi Hs Ho. split_and!; try done.
  assert (filter (λ u, u ∉ active) l ⊆ [q]) as Hsub.
  { intros u [Hu Hl]%list_elem_of_filter. destruct (Ho u Hl) as [?| ->]; set_solver. }
  change 1%nat with (length [q]).
  apply submseteq_length, NoDup_submseteq; [by apply NoDup_filter|done].
Qed.

Section selection.
Context (s : AlternatorLiveNodes).
Context (Hs : live_inv s) (Hu : usable_nodes (GetActiveNodes s)).

Lemma active_in_known : GetActiveNodes s ⊆ known_nodes (health_store_ s).
Proof. apply active_known. Qed.
Lemma known_extension_inj q :
  q ∈ known_nodes (health_store_ s) → key_inj Url_ToString (GetActiveNodes s ++ [q]).
Proof.
  intros Hq. eapply key_inj_subseteq; [|apply known_nodes_key_inj, Hs].
  intros u. rewrite elem_of_app, list_elem_of_singleton. intros [Hx| ->]; [|done].
  by apply active_in_known.
Qed.
Lemma active_inj : key_inj Url_ToString (GetActiveNodes s).
Proof.
  eapply key_inj_subseteq; [apply active_in_known|]. apply known_nodes_key_inj, Hs.
Qed.
Lemma quarantined_in_known q :
  q ∈ GetQuarantinedNodes s → q ∈ known_nodes (health_store_ s).
Proof. apply quarantined_known. Qed.

Lemma nonempty_sorted l : nonempty_nodes l → nonempty_nodes (SortAndDedupeNodes l).
Proof.
  unfold nonempty_nodes. rewrite !Forall_forall. intros Hl u.
  rewrite elem_of_SortAndDedupe. apply Hl.
Qed.

Lemma offers_active : offers (GetActiveNodes s) (SortAndDedupeNodes (GetActiveNodes s)).
Proof.
  apply (offers_extend _ Url_default).
  - apply SortAndDedupe_NoDup, active_inj.
  - apply nonempty_sorted, Hu.
  - eapply key_inj_subseteq; [|apply active_inj]. intros u. by rewrite elem_of_SortAndDedupe.
  - intros u. by rewrite elem_of_SortAndDedupe.
  - intros u. rewrite elem_of_SortAndDedupe. by left.
Qed.
Lemma offers_quarantined q :
  q ∈ GetQuarantinedNodes s → Url_Empty q = false →
  offers (GetActiveNodes s) (SortAndDedupeNodes (GetActiveNodes s ++ [q])).
Proof.
  intros Hq He. pose proof (known_extension_inj q (quarantined_in_known q Hq)) as Hi.
  apply (offers_extend _ q).
  - by apply SortAndDedupe_NoDup.
  - apply nonempty_sorted, Forall_app. split; [apply Hu|by constructor].
  - eapply key_inj_subseteq; [|exact Hi]. intros u. by rewrite elem_of_SortAndDedupe.
  - intros u. rewrite elem_of_SortAndDedupe. set_solver.
  - intros u. rewrite elem_of_SortAndDedupe. set_solver.
Qed.

(** What [GetQueryPlanNodes] returns and leaves behind. *)
Lemma GetQueryPlanNodes_run :
  health_store_ (GetQueryPlanNodes s).2 = health_store_ s ∧
  ((GetQueryPlanNodes s).1 = SortAndDedupeNodes (GetActiveNodes s) ∨
   ∃ q, q ∈ GetQuarantinedNodes s ∧ Url_Empty q = false ∧
     (GetQueryPlanNodes s).1 = SortAndDedupeNodes (GetActiveNodes s ++ [q])).
Proof.
  unfold GetQueryPlanNodes.
  pose proof (health_ShouldTry (bool_decide (GetActiveNodes s = [])) s) as H1.
  destruct (ShouldTryQuarantinedNode _ s) as [try s1] eqn:E1. simpl in H1.
  destruct try; [|by split; [|left]].
  pose proof (health_NextQuarantined s1) as H2.
  assert (GetQuarantinedNodes s1 = GetQuarantinedNodes s) as Eq
    by (unfold GetQuarantinedNodes; by rewrite H1).
  assert (GetQuarantinedNodes s ≠ []) as Hne.
  { unfold ShouldTryQuarantinedNode in E1. by case_bool_decide. }
  pose proof (NextQuarantined_elem s1) as H3. rewrite Eq in H3. specialize (H3 Hne).
  destruct (NextQuarantinedNode s1) as [q s2]. simpl in *.
  split; [by rewrite H2|]. destruct (Url_Empty q) eqn:Ee; [by left|]. right. by exists q.
Qed.

End selection.

(** ** The quarantined node of a hash *)

(** The interval [ShouldTryQuarantinedNode] uses. *)
Definition traffic_interval (s : AlternatorLiveNodes) : Z :=
  let interval := quarantine_traffic_interval (node_health (config_ s)) in
  if interval =? 0 then 1 else interval.

Lemma IsFirstForHash_run node active hash :
  Z.of_nat (length active) + 1 < 2 ^ 31 →
  ∃ u, FirstNodeWithSeed (active ++ [node]) hash = Ok u ∧
    QuarantinedNodeIsFirstForHash node active hash = Ok (Url_eqb u node).
Proof.
  intros Hl. destruct (FirstNodeWithSeed_elem (active ++ [node]) hash) as (u & E & _).
  - by destruct active.
  - pose proof (SortAndDedupe_length (active ++ [node])) as HL.
    rewrite length_app in HL. simpl in HL. lia.
  - exists u. split; [done|]. unfold QuarantinedNodeIsFirstForHash. by rewrite E.
Qed.

(** A quarantined node that the seeded order puts first. *)
Definition sticky_node (s : AlternatorLiveNodes) (active : list Url) (hash : Z) (u : Url) : Prop :=
  u ∈ GetQuarantinedNodes s ∧ FirstNodeWithSeed (active ++ [u]) hash = Ok u ∧
  quarantine_by_hash_ s !! hash = Some u.

Lemma Sticky_assigned hash active s u :
  Z.of_nat (length active) + 1 < 2 ^ 31 →
  sticky_node s active hash u → StickyQuarantinedNodeForHash hash active s = (Ok u, s).
Proof.
  intros Hl (Hq & Hf & Ha). unfold StickyQuarantinedNodeForHash, mbind, M_bind, gets.
  rewrite Ha, bool_decide_eq_true_2 by done.
  destruct (IsFirstForHash_run u active hash Hl) as (v & Ev & ->).
  unfold lift_result. rewrite Hf in Ev. simplify_eq.
  by rewrite (proj2 (Url_eqb_eq v v) eq_refl).
Qed.

(** Choosing a node for a hash that has none. *)
Definition choose_quarantined (hash : Z) (active_nodes : list Url) : M AlternatorLiveNodes Url :=
  try ← of_state (ShouldTryQuarantinedNode (bool_decide (active_nodes = [])));
  if negb try then mret Url_default
  else
    quarantined_nodes ← gets GetQuarantinedNodes;
    if bool_decide (quarantined_nodes = []) then mret Url_default
    else
      index ← of_state fetch_quarantine_node_index;
      first ← lift_result (QuarantinedNodeIsFirstForHash
        (pick_round_robin quarantined_nodes index) active_nodes hash);
      if negb first then mret Url_default
      else
        _ ← modify (λ s, set_quarantine_by_hash
              (<[hash := pick_round_robin quarantined_nodes index]> (quarantine_by_hash_ s)) s);
        mret (pick_round_robin quarantined_nodes index).

(** The outcome of a selection that started in [s]. *)
Definition sticky_outcome (s : AlternatorLiveNodes) (active : list Url) (hash : Z)
    (r : result Url * AlternatorLiveNodes) : Prop :=
  ∃ u s', r = (Ok u, s') ∧ health_store_ s' = health_store_ s ∧
    (u = Url_default ∨ sticky_node s' active hash u).

Lemma choose_run hash active s :
  Z.of_nat (length active) + 1 < 2 ^ 31 →
  sticky_outcome s active hash (choose_quarantined hash active s).
Proof.
  intros Hl. unfold choose_quarantined, mbind, M_bind, of_state, gets, lift_result, modify.
  pose proof (health_ShouldTry (bool_decide (active = [])) s) as H1.
  destruct (ShouldTryQuarantinedNode _ s) as [[] s1]; cbv [negb];
    [|by exists Url_default, s1; auto]. simpl in H1.
  case_bool_decide as Hq; [by exists Url_default, s1; auto|].
  unfold fetch_quarantine_node_index. simpl.
  set (node := pick_round_robin _ _).
  destruct (IsFirstForHash_run node active hash Hl) as (v & Ev & ->).
  destruct (Url_eqb v node) eqn:Eb; simpl; [|by eexists _, _; auto].
  apply Url_eqb_eq in Eb as ->. eexists _, _. split_and!; [done|done|]. right.
  split_and!; [|done|by apply lookup_insert_eq].
  by apply pick_round_robin_elem.
Qed.

(** When a node is chosen for a hash that has none. *)
Definition sampled (s : AlternatorLiveNodes) (active : list Url) : Prop :=
  active = [] ∨ u64 (quarantine_plan_index_ s + 1) mod traffic_interval s = 0.
Lemma choose_cases hash active s :
  Z.of_nat (length active) + 1 < 2 ^ 31 → GetQuarantinedNodes s ≠ [] →
  let u := pick_round_robin (GetQuarantinedNodes s) (quarantine_node_index_ s) in
  let chosen := sampled s active ∧ FirstNodeWithSeed (active ++ [u]) hash = Ok u in
  (chosen → (choose_quarantined hash active s).1 = Ok u) ∧
  (¬ chosen → (choose_quarantined hash active s).1 = Ok Url_default).
Proof.
  intros Hl Hq u.
  destruct (IsFirstForHash_run u active hash Hl) as (v & Ev & Ef). rewrite Ev.
  assert ((sampled s active → (choose_quarantined hash active s).1 =
      Ok (if Url_eqb v u then u else Url_default)) ∧
    (¬ sampled s active → (choose_quarantined hash active s).1 = Ok Url_default)) as [Hy Hn].
  { unfold choose_quarantined, mbind, M_bind, of_state, gets, lift_result, modify.
    unfold ShouldTryQuarantinedNode, sampled. rewrite bool_decide_eq_false_2 by done.
    unfold fetch_quarantine_plan_index, fetch_quarantine_node_index. fold (traffic_interval s).
    case_bool_decide as Ha; cbv [negb].
    { split; [|tauto]. intros _. rewrite bool_decide_eq_false_2 by done. fold u. rewrite Ef.
      by destruct (Url_eqb v u). }
    destruct (Z.eqb_spec (u64 (quarantine_plan_index_ s + 1) mod traffic_interval s) 0) as [E|E];
      cbv [negb].
    - split; [|tauto]. intros _. rewrite bool_decide_eq_false_2 by done.
      change (quarantine_node_index_ (set_indices _ _ _ s)) with (quarantine_node_index_ s).
      change (GetQuarantinedNodes (set_indices _ _ _ s)) with (GetQuarantinedNodes s). fold u.
      rewrite Ef. by destruct (Url_eqb v u).
    - split; [tauto|]. done. }
  split.
  - intros [Hs Eu]. injection Eu as ->. rewrite Hy by done. by rewrite (proj2 (Url_eqb_eq u u) eq_refl).
  - intros Hc. destruct (decide (active = [])) as [Ha|Ha];
      [|destruct (decide (u64 (quarantine_plan_index_ s + 1) mod traffic_interval s = 0)) as [Hm|Hm]];
      [| |apply Hn; unfold sampled; tauto];
      (rewrite Hy by (unfold sampled; tauto); destruct (Url_eqb v u) eqn:Eb; [|done];
       apply Url_eqb_eq in Eb as ->; destruct Hc; split; [unfold sampled; tauto|done]).
Qed.

Lemma Sticky_run hash active s :
  Z.of_nat (length active) + 1 < 2 ^ 31 →
  sticky_outcome s active hash (StickyQuarantinedNodeForHash hash active s).
Proof.
  intros Hl. unfold StickyQuarantinedNodeForHash. fold (choose_quarantined hash active).
  unfold gets, mbind at 1 2, M_bind at 1 2.
  destruct (quarantine_by_hash_ s !! hash) as [node|] eqn:Ea; [|by apply choose_run].
  unfold mbind, M_bind, lift_result, modify. case_bool_decide as Hq.
  - destruct (IsFirstForHash_run node active hash Hl) as (v & Ev & ->).
    destruct (Url_eqb v node) eqn:Eb; simpl.
    + apply Url_eqb_eq in Eb as ->. exists node, s. split_and!; [done|done|by right].
    + by eexists _, _; auto.
  - destruct (choose_run hash active
      (set_quarantine_by_hash (delete hash (quarantine_by_hash_ s)) s) Hl)
      as (u & s' & E & Eh & Ho). by exists u, s'.
Qed.

(** ** The live nodes as a source of nodes *)

Lemma GetQueryPlanNodesForHash_run hash s :
  live_inv s → usable_nodes (GetActiveNodes s) →
  ∃ l s', GetQueryPlanNodesForHash hash s = (Ok l, s') ∧ live_inv s' ∧
    health_store_ s' = health_store_ s ∧ offers (GetActiveNodes s) l.
Proof.
  intros Hs Hu. pose proof (preserves_GetQueryPlanNodesForHash _ live_inv_stable hash s Hs) as Hi.
  destruct (offers_active s Hs Hu) as (ND & Hne & Hk & Hsub & Hlen).
  set (active := SortAndDedupeNodes (GetActiveNodes s)) in *.
  destruct (Sticky_run hash active s) as (u & s' & E & Eh & Ho).
  { pose proof (SortAndDedupe_length (GetActiveNodes s)). destruct Hu. unfold active. lia. }
  unfold GetQueryPlanNodesForHash, mbind, M_bind, gets, mret, M_ret in *.
  fold active in Hi |- *. rewrite E in *. eexists _, s'. split_and!; [done|done|done|].
  destruct (Url_Empty u) eqn:Ee.
  - unfold AppendUniqueNodes. rewrite dedupe_onto_filter by done. simpl.
    rewrite filter_keep by set_solver. by apply offers_active.
  - destruct Ho as [->|(Hq & _ & _)]; [done|].
    assert (u ∈ GetQuarantinedNodes s) as Hq'
      by (unfold GetQuarantinedNodes in *; by rewrite <-Eh).
    assert (u ∉ active) as Hna.
    { unfold active. rewrite elem_of_SortAndDedupe. intros Ha.
      by apply (active_not_quarantined (health_store_ s) u (li_store s Hs) Ha). }
    unfold AppendUniqueNodes. rewrite dedupe_onto_filter by done. simpl.
    rewrite filter_keep by set_solver. apply (offers_extend _ u).
    + by constructor.
    + by constructor.
    + eapply key_inj_subseteq; [|apply known_nodes_key_inj, Hs].
      intros v Hv. apply elem_of_cons in Hv as [->|Hv]; [by apply quarantined_in_known|].
      unfold active in Hv. rewrite elem_of_SortAndDedupe in Hv. by apply active_in_known.
    + set_solver.
    + intros v Hv. apply elem_of_cons in Hv as [->|Hv]; [by right|].
      left. unfold active in Hv. by rewrite elem_of_SortAndDedupe in Hv.
Qed.

#[global] Program Instance LiveNodes_laws : NodesSourceLaws AlternatorLiveNodes := {
  ns_inv := live_inv;
}.
Next Obligation.
  intros s Hs. split; [apply active_NoDup, Hs|by apply active_inj].
Qed.
Next Obligation.
  intros h s Hs Hu. destruct (GetQueryPlanNodesForHash_run h s Hs Hu) as (l & s' & E & Hi & Eh & Ho).
  exists l, s'. split_and!; [done|done| |done]. simpl. unfold GetActiveNodes. by rewrite Eh.
Qed.
Next Obligation.
  intros s Hs Hu. destruct (GetQueryPlanNodes_run s) as [Eh Ho].
  pose proof (st_GetQueryPlanNodes _ live_inv_stable s Hs) as Hi. simpl.
  destruct (GetQueryPlanNodes s) as [l s'] eqn:E. simpl in *. exists l, s'.
  split_and!; [done|done|unfold GetActiveNodes; by rewrite Eh|].
  destruct Ho as [->|(q & Hq & He & ->)]; [by apply offers_active|by apply offers_quarantined].
Qed.

(** ** Round robin *)

(** [n] calls in a row. *)
Fixpoint repeat_m {σ A} (n : nat) (m : M σ A) : M σ (list A) :=
  match n with
  | O => mret []
  | S n => a ← m; l ← repeat_m n m; mret (a :: l)
  end.

Lemma repeat_fixed {σ A} n (m : M σ A) a s : m s = (Ok a, s) → repeat_m n m s = (Ok (replicate n a), s).
Proof.
  intros E. induction n as [|n IH]; [done|]. cbn [repeat_m]. unfold mbind, M_bind in *.
  rewrite E. cbn. by rewrite IH.
Qed.
Lemma Sticky_unassigned hash active s :
  quarantine_by_hash_ s !! hash = None →
  StickyQuarantinedNodeForHash hash active s = choose_quarantined hash active s.
Proof.
  intros Ea. unfold StickyQuarantinedNodeForHash. fold (choose_quarantined hash active).
  unfold gets, mbind at 1 2, M_bind at 1 2. by rewrite Ea.
Qed.

Section round_robin.
Context {W : Type} `{World W}.

(** A state in which only active nodes are offered. *)
Definition all_active (s : AlternatorLiveNodes) (active : list Url) : Prop :=
  GetActiveNodes s = active ∧ GetQuarantinedNodes s = [] ∧ active ≠ [].

Lemma MarkActivity_run (s : AlternatorLiveNodes) (w : W) :
  ∃ s' w', MarkActivity (s, w) = (Ok tt, (s', w')) ∧ health_store_ s' = health_store_ s ∧
    next_node_index_ s' = next_node_index_ s.
Proof.
  unfold MarkActivity, mbind, M_bind, on_world, state_op, mret, M_ret.
  destruct (steady_now w) as [now w'].
  assert (health_store_ (MarkActivity_at now s).2 = health_store_ s ∧
    next_node_index_ (MarkActivity_at now s).2 = next_node_index_ s) as [Eh Ei]
    by (unfold MarkActivity_at; by repeat case_match).
  destruct (MarkActivity_at now s) as [b s']. by exists s', w'.
Qed.

Lemma NextNode_run s active (w : W) :
  all_active s active →
  ∃ s' w', NextNode (s, w) = (Ok (pick_round_robin active (next_node_index_ s)), (s', w')) ∧
    all_active s' active ∧ next_node_index_ s' = u64 (next_node_index_ s + 1).
Proof.
  intros (Ha & Hq & Hne). destruct (MarkActivity_run s w) as (s1 & w1 & E1 & Eh & Ei).
  assert (GetActiveNodes s1 = active) as Ha1 by (unfold GetActiveNodes; by rewrite Eh).
  assert (GetQuarantinedNodes s1 = []) as Hq1 by (unfold GetQuarantinedNodes; by rewrite Eh).
  unfold NextNode, mbind, M_bind. rewrite E1. unfold gets, state_op, mret, M_ret. cbn [fst].
  rewrite Ha1, bool_decide_eq_false_2 by done.
  unfold ShouldTryQuarantinedNode. rewrite Hq1. rewrite bool_decide_eq_true_2 by done.
  rewrite (bool_decide_eq_false_2 (active = [])) by done. simpl.
  eexists _, _. split; [by rewrite Ei|]. by split; [split_and!|].
Qed.

Lemma repeat_NextNode_run n s active (w : W) :
  all_active s active → is_u64 (next_node_index_ s) →
  next_node_index_ s + Z.of_nat n <= 2 ^ 64 →
  ∃ σ, repeat_m n NextNode (s, w) =
    (Ok (map (λ i, pick_round_robin active (next_node_index_ s + Z.of_nat i)) (seq 0 n)), σ).
Proof.
  revert s w. induction n as [|n IH]; intros s w Ha Hi Hn; [by eexists|].
  cbn [repeat_m]. unfold mbind, M_bind, mret, M_ret.
  destruct (NextNode_run s active w Ha) as (s1 & w1 & -> & Ha1 & E1).
  destruct (decide (n = 0)%nat) as [->|Hn0].
  { simpl. eexists. rewrite Z.add_0_r. done. }
  rewrite u64_small in E1 by ranges.
  destruct (IH s1 w1) as [σ ->]; [done|ranges|lia|].
  eexists. do 2 f_equal. rewrite <-cons_seq. cbn [map]. rewrite Z.add_0_r. f_equal.
  rewrite <-seq_shift, map_map. apply map_ext. intros i. rewrite E1. f_equal. lia.
Qed.
End round_robin.

(** Picks at consecutive indices walk the list from a starting point. *)
Lemma picks_rotate (l : list Url) (i : Z) :
  0 <= i → l ≠ [] →
  map (λ k, pick_round_robin l (i + Z.of_nat k)) (seq 0 (length l)) =
  rotate (Z.to_nat (i mod Z.of_nat (length l))) l.
Proof.
  intros Hi Hne. assert (0 < Z.of_nat (length l)) as Hl by (destruct l; simpl in *; [done|lia]).
  apply list_eq. intros k. destruct (decide (k < length l)%nat) as [Hk|Hk].
  - change (map ?f ?x) with (f <$> x). rewrite list_lookup_fmap, lookup_seq_lt by done. simpl.
    rewrite lookup_rotate_r by done. unfold pick_round_robin, rotate_nat_add.
    pose proof (Z.mod_pos_bound i (Z.of_nat (length l)) Hl) as Hm.
    rewrite (Z2Nat.id (i mod _)) by lia.
    rewrite Zplus_mod_idemp_l.
    destruct (lookup_lt_is_Some_2 l (Z.to_nat ((i + Z.of_nat k) mod Z.of_nat (length l)))) as [u Hu].
    { pose proof (Z.mod_pos_bound (i + Z.of_nat k) (Z.of_nat (length l)) Hl). lia. }
    rewrite Hu. by simpl.
  - rewrite !lookup_ge_None_2; [done| |].
    + rewrite length_rotate. lia.
    + rewrite length_map, length_seq. lia.
Qed.
Lemma rotate_perm {A} n (l : list A) : rotate n l ≡ₚ l.
Proof. unfold rotate. by rewrite Permutation_app_comm, take_drop. Qed.

(** ** The share of quarantined nodes *)

(** Both pools are populated, and no quarantined node has an empty host. *)
Definition mixed_pools (s : AlternatorLiveNodes) : Prop :=
  GetActiveNodes s ≠ [] ∧ GetQuarantinedNodes s ≠ [] ∧ nonempty_nodes (GetQuarantinedNodes s).

(** The plan of one call of [GetQueryPlanNodes], when the counter stands at
    [index]: with the quarantined node whose turn it is if the call is sampled. *)
Definition sampled_plan (s : AlternatorLiveNodes) (index : Z) (plan : list Url) : Prop :=
  if decide ((index + 1) mod traffic_interval s = 0)
  then ∃ q, q ∈ GetQuarantinedNodes s ∧ plan = SortAndDedupeNodes (GetActiveNodes s ++ [q])
  else plan = SortAndDedupeNodes (GetActiveNodes s).

Lemma GetQueryPlanNodes_sample s :
  live_inv s → mixed_pools s → quarantine_plan_index_ s + 1 < 2 ^ 64 →
  ∃ plan s', GetQueryPlanNodes s = (plan, s') ∧
    health_store_ s' = health_store_ s ∧ config_ s' = config_ s ∧
    quarantine_plan_index_ s' = quarantine_plan_index_ s + 1 ∧
    sampled_plan s (quarantine_plan_index_ s) plan.
Proof.
  intros Hs (Ha & Hq & Hn) Hw. destruct (li_indices s Hs) as (_ & Hi & _).
  unfold GetQueryPlanNodes, ShouldTryQuarantinedNode, sampled_plan.
  rewrite bool_decide_eq_false_2 by done. rewrite (bool_decide_eq_false_2 (_ = [])) by done.
  unfold fetch_quarantine_plan_index. rewrite u64_small by ranges.
  fold (traffic_interval s). set (s1 := set_indices _ _ _ s).
  destruct (Z.eqb_spec ((quarantine_plan_index_ s + 1) mod traffic_interval s) 0) as [E|E].
  - pose proof (NextQuarantined_elem s1 Hq) as Hel. pose proof (health_NextQuarantined s1) as Hh.
    assert (config_ (NextQuarantinedNode s1).2 = config_ s ∧
      quarantine_plan_index_ (NextQuarantinedNode s1).2 = quarantine_plan_index_ s + 1) as [Hc Hp]
      by (unfold NextQuarantinedNode; by case_bool_decide).
    destruct (NextQuarantinedNode s1) as [q s2]. simpl in *.
    assert (Url_Empty q = false) as ->
      by (unfold nonempty_nodes in Hn; rewrite Forall_forall in Hn; by apply Hn).
    eexists _, s2. split_and!; [done..|]. rewrite decide_True by done. by exists q.
  - eexists _, s1. split_and!; [done..|]. by rewrite decide_False.
Qed.

Lemma repeat_plans_run n s :
  live_inv s → mixed_pools s → quarantine_plan_index_ s + Z.of_nat n < 2 ^ 64 →
  ∃ plans s', repeat_m n (of_state GetQueryPlanNodes) s = (Ok plans, s') ∧
    Forall2 (λ i, sampled_plan s (quarantine_plan_index_ s + i)) (seqZ 0 (Z.of_nat n)) plans.
Proof.
  revert s. induction n as [|n IH]; intros s Hs Hm Hw.
  { exists [], s. split; [done|]. constructor. }
  cbn [repeat_m]. unfold mbind, M_bind, of_state, mret, M_ret.
  destruct (GetQueryPlanNodes_sample s Hs Hm) as (p & s1 & E & Eh & Ec & Ei & Hp); [lia|].
  pose proof (st_GetQueryPlanNodes _ live_inv_stable s Hs) as Hs1. rewrite E in *. simpl in Hs1.
  assert (∀ i plan, sampled_plan s1 i plan = sampled_plan s i plan) as Es.
  { intros i plan. unfold sampled_plan, traffic_interval, GetActiveNodes, GetQuarantinedNodes.
    by rewrite Eh, Ec. }
  assert (mixed_pools s1) as Hm1
    by (unfold mixed_pools, GetActiveNodes, GetQuarantinedNodes in *; by rewrite Eh).
  destruct (IH s1 Hs1 Hm1) as (plans & s2 & E2 & F); [lia|].
  unfold of_state in E2. rewrite E2. eexists _, s2. split; [done|].
  rewrite Nat2Z.inj_succ, seqZ_cons, Z.pred_succ by lia. constructor.
  { by rewrite Z.add_0_r. }
  replace (Z.succ 0) with (1 + 0) by lia. rewrite <-fmap_add_seqZ.
  apply Forall2_fmap_l. eapply Forall2_impl; [exact F|]. intros i q. simpl.
  by rewrite Es, Ei, Z.add_assoc.
Qed.

(** Exactly one multiple of [n] among [n] consecutive integers. *)
Lemma multiple_at c n i :
  0 < n → 0 <= i < n → ((c + i) mod n = 0 ↔ i = (- c) mod n).
Proof.
  intros Hn Hi. pose proof (Z.mod_pos_bound (- c) n Hn). split.
  - intros Hm. rewrite <-(Z.mod_small i n) by lia. apply Z.mod_divide in Hm as [k Hk]; [|lia].
    replace i with (- c + k * n) by lia. apply Z_mod_plus_full.
  - intros ->. rewrite Zplus_mod_idemp_r, Z.add_opp_diag_r. apply Z.mod_0_l. lia.
Qed.
(** In a whole interval of plans, one is sampled. *)
Lemma one_sampled s plans :
  0 < traffic_interval s →
  Forall2 (λ i, sampled_plan s (quarantine_plan_index_ s + i)) (seqZ 0 (traffic_interval s)) plans →
  ∃ i q, (i < Z.to_nat (traffic_interval s))%nat ∧ q ∈ GetQuarantinedNodes s ∧
    plans = <[i := SortAndDedupeNodes (GetActiveNodes s ++ [q])]>
      (replicate (Z.to_nat (traffic_interval s)) (SortAndDedupeNodes (GetActiveNodes s))).
Proof.
  intros Hn F. set (n := traffic_interval s) in *. set (c := quarantine_plan_index_ s + 1).
  pose proof (Z.mod_pos_bound (- c) n Hn) as Hb. pose proof (Forall2_length _ _ _ F) as HL.
  rewrite length_seqZ in HL.
  assert (∀ i plan, plans !! i = Some plan →
    sampled_plan s (quarantine_plan_index_ s + Z.of_nat i) plan) as Hp.
  { intros i plan E. destruct (Forall2_lookup_r _ _ _ _ _ F E) as (x & Ex & Hx).
    by apply lookup_seqZ in Ex as [-> _]. }
  set (k := Z.to_nat ((- c) mod n)). assert (Z.of_nat k = (- c) mod n) as Ec by (unfold k; lia).
  clearbody k.
  destruct (lookup_lt_is_Some_2 plans k) as [plan Ek]; [lia|]. pose proof (Hp k plan Ek) as Hk.
  unfold sampled_plan in Hk. rewrite decide_True in Hk.
  2:{ fold n. replace (_ + 1) with (c + Z.of_nat k) by lia. apply multiple_at; [done|lia|done]. }
  destruct Hk as (q & Hq & ->). exists k, q. split_and!; [lia|done|]. apply list_eq. intros i.
  destruct (decide (i = k)) as [->|Hi].
  { rewrite Ek, list_lookup_insert_eq; [done|]. rewrite length_replicate. lia. }
  rewrite list_lookup_insert_ne by done. destruct (plans !! i) as [plan|] eqn:Ei.
  - pose proof (lookup_lt_Some _ _ _ Ei) as Hlt. rewrite lookup_replicate_2 by lia. f_equal.
    specialize (Hp i plan Ei). unfold sampled_plan in Hp. rewrite decide_False in Hp; [done|].
    fold n. replace (_ + 1) with (c + Z.of_nat i) by lia. rewrite multiple_at, <-Ec by lia. lia.
  - apply lookup_ge_None in Ei. symmetry. apply lookup_replicate_None. lia.
Qed.

(** ** The refresh schedule *)

Lemma MarkActivity_next now s :
  next_update_ (MarkActivity_at now s).2 =
  if 0 <? nodes_list_update_period (config_ s)
  then Z.min (next_update_ s) (now + milliseconds (nodes_list_update_period (config_ s)))
  else next_update_ s.
Proof.
  unfold MarkActivity_at. destruct (0 <? _); [|done].
  destruct (Z.ltb_spec (now + milliseconds (nodes_list_update_period (config_ s))) (next_update_ s));
    simpl; lia.
Qed.
Lemma MarkActivity_last now s : last_activity_ (MarkActivity_at now s).2 = now.
Proof. unfold MarkActivity_at. repeat case_match; done. Qed.
