(* ===== verification/LiveNodesRefresh.v ===== *)
(** Refreshing the live nodes (src/live_nodes.cpp): discovery leaves the node
    set alone until [UpdateLiveNodes] replaces it, after which the health store
    and the live list hold the same nodes; the discovery loop contacts each
    node of its plan at most once. *)
From S2P Require Import Prelude Uri GoRandom Effects RoutingScope NodeHealth QueryPlan.
From S2P Require Import KeyRouteAffinity HttpCompression Config LocalNodesJson LiveNodes LiveNodesSelection.

(** ** The node set is stable under routine operation *)

(** The object still has the live nodes and stored nodes of [s0]. *)
Definition same_nodes (s0 s : AlternatorLiveNodes) : Prop :=
  live_inv s ∧ live_nodes_ s = live_nodes_ s0 ∧ initial_nodes_ s = initial_nodes_ s0 ∧
  config_ s = config_ s0 ∧
  ∀ u, stored (health_store_ s) u ↔ stored (health_store_ s0) u.

Lemma same_nodes_stable s0 : stable (same_nodes s0).
Proof.
  pose proof live_inv_stable as HI. split.
  - intros m s (Hs & H). split; [by apply (st_quarantine _ HI)|done].
  - intros n l s (Hs & H). split; [by apply (st_schedule _ HI)|done].
  - intros n p q s ??? (Hs & H). split; [by apply (st_indices _ HI)|done].
  - intros s (Hs & _). by apply (st_index_range _ HI).
  - intros now node o s (Hs & Hl & Hi & Hc & Hst). split; [by apply (st_report _ HI)|].
    split_and!; [done|done|done|]. intros u. simpl. by rewrite stored_Report.
Qed.

Lemma same_nodes_refl s : live_inv s → same_nodes s s.
Proof. intros Hs. split; [done|]. by split_and!. Qed.

(** ** Replacing the node set *)

(** The health store knows exactly the live nodes. *)
Definition tracks (s : AlternatorLiveNodes) : Prop :=
  ∀ u, stored (health_store_ s) u ↔ u ∈ live_nodes_ s.

Section update.
Context {W : Type} `{World W}.

Lemma localnodes_probe_returns n st (w : W) :
  ∃ o w', localnodes_probe n st w = (Ok o, w').
Proof. unfold localnodes_probe. destruct (http_get _ w) as [[]]; by eexists _, _. Qed.

Lemma ProbeDownNodes_run s (w : W) :
  live_inv s →
  ∃ l s' w', ProbeDownNodes (s, w) = (Ok l, (s', w')) ∧ same_nodes s s'.
Proof.
  intros Hs. pose proof (keeps_ProbeDownNodes _ (same_nodes_stable s) (s, w)
    (same_nodes_refl s Hs)) as Hk.
  unfold ProbeDownNodes, zoom in *.
  destruct (ProbeDownNodes_returns localnodes_probe (health_store_ s) w
    localnodes_probe_returns) as (l & h & w' & E).
  rewrite E in *. by eexists _, _, _.
Qed.

(** The members [UpdateLiveNodes] installs, before its final probe. *)
Definition install (new_nodes : list Url) (s : AlternatorLiveNodes) (w : W)
    : AlternatorLiveNodes * W :=
  let '(h, w) := add_nodes new_nodes (health_store_ s) w in
  let removed := filter (λ n, n ∉ new_nodes) (live_nodes_ s) in
  let h := foldl (flip RemoveNode) h removed in
  (foldl (flip RemoveQuarantineHashAssignmentsForNode)
     (set_live_nodes (SortAndDedupeNodes new_nodes) (set_health h s)) removed, w).

Lemma remove_assignments_fields removed s :
  let s' := foldl (flip RemoveQuarantineHashAssignmentsForNode) s removed in
  live_nodes_ s' = live_nodes_ s ∧ health_store_ s' = health_store_ s.
Proof. revert s. induction removed as [|n l IH]; intros s; [done|]. apply (IH (RemoveQuarantineHashAssignmentsForNode n s)). Qed.

Lemma UpdateLiveNodes_install s (w : W) new_nodes s1 w1 :
  FetchLiveNodes (s, w) = (Ok new_nodes, (s1, w1)) → new_nodes ≠ [] →
  UpdateLiveNodes (s, w) = (_ ← ProbeDownNodes; mret tt) (install new_nodes s1 w1).
Proof.
  intros E Hne. unfold UpdateLiveNodes, mbind at 1, M_bind at 1. rewrite E.
  rewrite bool_decide_eq_false_2 by done.
  unfold install, zoom, AddNodes, gets, modify. unfold mbind at 1 2 3 4 5, M_bind at 1 2 3 4 5.
  by destruct (add_nodes new_nodes (health_store_ s1) w1) as [h w2].
Qed.

Lemma install_live new_nodes s (w : W) :
  live_nodes_ (install new_nodes s w).1 = SortAndDedupeNodes new_nodes.
Proof.
  unfold install. destruct (add_nodes _ _ _) as [h w']. simpl.
  by rewrite (proj1 (remove_assignments_fields _ _)).
Qed.

Lemma install_stored new_nodes s (w : W) u :
  live_inv s → tracks s → key_inj Url_ToString (live_nodes_ s ++ new_nodes) →
  stored (health_store_ (install new_nodes s w).1) u ↔ u ∈ new_nodes.
Proof.
  intros Hs Ht Hi. pose proof (stored_add_nodes (live_nodes_ s ++ new_nodes) new_nodes
    (health_store_ s) w u (li_store s Hs) Hi) as Hadd.
  unfold install. destruct (add_nodes _ _ _) as [h w']. simpl in *.
  rewrite (proj2 (remove_assignments_fields _ _)). simpl. rewrite stored_remove_nodes.
  rewrite Hadd, (Ht u); [|intros x; rewrite (Ht x); set_solver|set_solver].
  assert ((Url_ToString u ∈ map Url_ToString (filter (λ n, n ∉ new_nodes) (live_nodes_ s))) ↔
    ∃ v, Url_ToString u = Url_ToString v ∧ (v ∉ new_nodes) ∧ v ∈ live_nodes_ s) as ->.
  { change (map ?f ?l) with (f <$> l). rewrite list_elem_of_fmap.
    setoid_rewrite list_elem_of_filter. done. }
  split.
  - intros [[Hu|Hu] Hn]; [|done]. destruct (decide (u ∈ new_nodes)); [done|].
    exfalso. apply Hn. by exists u.
  - intros Hu. split; [by right|]. intros (v & E & Hv & Hl). apply Hv.
    by rewrite <-(Hi u v) by set_solver.
Qed.

(** Without any assumption on hosts: what is stored afterwards was stored or is
    new, and prints like no node that was removed. *)
Lemma stored_add_nodes_sub nodes h (w : W) u :
  stored (add_nodes nodes h w).1 u → stored h u ∨ u ∈ nodes.
Proof.
  revert h w. induction nodes as [|n nodes IH]; intros h w Hu; [by left|]. simpl in Hu.
  destruct (match _ with Some _ => _ | None => _ end) as [now w'].
  destruct (IH _ _ Hu) as [Hst|Hin]; [|right; by right].
  apply stored_AddNode in Hst as [?|[-> _]]; [by left|]. right. by left.
Qed.
Lemma install_stored_sub new_nodes s (w : W) u :
  tracks s → stored (health_store_ (install new_nodes s w).1) u →
  u ∈ live_nodes_ s ++ new_nodes ∧
  ∀ v, v ∈ live_nodes_ s → v ∉ new_nodes → Url_ToString u ≠ Url_ToString v.
Proof.
  intros Ht Hu. pose proof (stored_add_nodes_sub new_nodes (health_store_ s) w u) as Hadd.
  unfold install in Hu. destruct (add_nodes _ _ _) as [h w']. simpl in *.
  rewrite (proj2 (remove_assignments_fields _ _)) in Hu. simpl in Hu.
  apply stored_remove_nodes in Hu as [Hu Hn]. split.
  - destruct (Hadd Hu) as [Hs|?]; [|set_solver]. apply Ht in Hs. set_solver.
  - intros v Hl Hv E. apply Hn. change (map ?f ?l) with (f <$> l). apply list_elem_of_fmap.
    exists v. split; [done|]. by apply list_elem_of_filter.
Qed.

(** Nodes that stay keep their status. *)
Lemma status_add_nodes nodes h (w : W) u st :
  GetNodeStatus u h = Some st → GetNodeStatus u (add_nodes nodes h w).1 = Some st.
Proof.
  revert h w. induction nodes as [|n nodes IH]; intros h w E; [done|]. simpl.
  destruct (match _ with Some _ => _ | None => _ end) as [now w']. apply IH.
  rewrite GetNodeStatus_AddNode, E. by rewrite (bool_decide_eq_false_2 (Some st = None)), andb_false_r.
Qed.
Lemma status_remove_nodes nodes h u :
  Url_ToString u ∉ map Url_ToString nodes →
  GetNodeStatus u (foldl (flip RemoveNode) h nodes) = GetNodeStatus u h.
Proof.
  revert h. induction nodes as [|n nodes IH]; intros h Hn; [done|]. simpl in *.
  apply not_elem_of_cons in Hn as [Hn Hr]. rewrite IH by done.
  change (flip RemoveNode h n) with (RemoveNode n h). rewrite GetNodeStatus_RemoveNode.
  by rewrite bool_decide_eq_false_2.
Qed.
Lemma install_status new_nodes s (w : W) u st :
  key_inj Url_ToString (live_nodes_ s ++ new_nodes) → u ∈ new_nodes →
  GetNodeStatus u (health_store_ s) = Some st →
  GetNodeStatus u (health_store_ (install new_nodes s w).1) = Some st.
Proof.
  intros Hi Hu E. pose proof (status_add_nodes new_nodes (health_store_ s) w u st E) as Hadd.
  unfold install. destruct (add_nodes _ _ _) as [h w']. simpl in *.
  rewrite (proj2 (remove_assignments_fields _ _)). simpl.
  rewrite status_remove_nodes; [done|]. change (map ?f ?l) with (f <$> l).
  rewrite list_elem_of_fmap. intros (v & Ev & Hv). apply list_elem_of_filter in Hv as [Hv Hl].
  apply Hv. by rewrite <-(Hi u v) by set_solver.
Qed.

Lemma install_inv new_nodes s (w : W) :
  live_inv s → new_nodes ≠ [] → live_inv (install new_nodes s w).1.
Proof.
  intros Hs Hne. unfold install.
  pose proof (wf_add_nodes new_nodes (health_store_ s) w (li_store s Hs)) as Hw.
  pose proof (config_add_nodes new_nodes (health_store_ s) w) as Hc.
  destruct (add_nodes _ _ _) as [h w']. simpl in *.
  apply (st_remove_assignments _ live_inv_stable).
  apply inv_live_nodes; [by rewrite SortAndDedupe_nil|apply SortAndDedupe_sorted|].
  destruct (wf_remove_nodes (filter (λ n, n ∉ new_nodes) (live_nodes_ s)) h Hw) as [Hw' Hc'].
  apply inv_health; [done|by rewrite Hc'|done].
Qed.

Lemma FetchLiveNodes_same s (w : W) r s1 w1 :
  live_inv s → FetchLiveNodes (s, w) = (r, (s1, w1)) → same_nodes s s1.
Proof.
  intros Hs E. pose proof (keeps_FetchLiveNodes _ (same_nodes_stable s) (s, w)
    (same_nodes_refl s Hs)) as Hk. by rewrite E in Hk.
Qed.

Lemma tracks_same s s1 : tracks s → same_nodes s s1 → tracks s1.
Proof. intros Ht (_ & Hl & _ & _ & Hst) u. rewrite Hst, Hl. apply Ht. Qed.

Lemma UpdateLiveNodes_run s (w : W) new_nodes s1 w1 :
  live_inv s → tracks s → FetchLiveNodes (s, w) = (Ok new_nodes, (s1, w1)) → new_nodes ≠ [] →
  key_inj Url_ToString (live_nodes_ s ++ new_nodes) →
  ∃ s2 w2, UpdateLiveNodes (s, w) = (Ok tt, (s2, w2)) ∧ live_inv s2 ∧ tracks s2 ∧
    live_nodes_ s2 = SortAndDedupeNodes new_nodes.
Proof.
  intros Hs Ht E Hne Hi. pose proof (FetchLiveNodes_same s w _ s1 w1 Hs E) as Hsame.
  pose proof Hsame as (Hs1 & Hl & _). pose proof (tracks_same s s1 Ht Hsame) as Ht1.
  rewrite (UpdateLiveNodes_install _ _ _ _ _ E Hne).
  rewrite <-Hl in Hi. pose proof (install_inv new_nodes s1 w1 Hs1 Hne) as Hs2.
  pose proof (λ u, install_stored new_nodes s1 w1 u Hs1 Ht1 Hi) as Hst.
  pose proof (install_live new_nodes s1 w1) as Hlv.
  destruct (install new_nodes s1 w1) as [s2 w2]. simpl in *.
  destruct (ProbeDownNodes_run s2 w2 Hs2) as (l & s3 & w3 & E3 & Hs3 & Hl3 & _ & _ & Hst3).
  unfold mbind, M_bind. rewrite E3. exists s3, w3. split_and!; [done|done| |congruence].
  intros u. by rewrite Hst3, Hst, Hl3, Hlv, elem_of_SortAndDedupe.
Qed.

(** The same without any assumption on hosts. *)
Lemma UpdateLiveNodes_sub s (w : W) new_nodes s1 w1 :
  live_inv s → tracks s → FetchLiveNodes (s, w) = (Ok new_nodes, (s1, w1)) → new_nodes ≠ [] →
  ∃ s2 w2, UpdateLiveNodes (s, w) = (Ok tt, (s2, w2)) ∧ live_inv s2 ∧
    live_nodes_ s2 = SortAndDedupeNodes new_nodes ∧
    ∀ u, stored (health_store_ s2) u → u ∈ live_nodes_ s ++ new_nodes ∧
      ∀ v, v ∈ live_nodes_ s → v ∉ new_nodes → Url_ToString u ≠ Url_ToString v.
Proof.
  intros Hs Ht E Hne. pose proof (FetchLiveNodes_same s w _ s1 w1 Hs E) as Hsame.
  pose proof Hsame as (Hs1 & Hl & _). pose proof (tracks_same s s1 Ht Hsame) as Ht1.
  rewrite (UpdateLiveNodes_install _ _ _ _ _ E Hne).
  pose proof (install_inv new_nodes s1 w1 Hs1 Hne) as Hs2.
  pose proof (λ u, install_stored_sub new_nodes s1 w1 u Ht1) as Hst.
  pose proof (install_live new_nodes s1 w1) as Hlv.
  destruct (install new_nodes s1 w1) as [s2 w2]. simpl in *.
  destruct (ProbeDownNodes_run s2 w2 Hs2) as (l & s3 & w3 & E3 & Hs3 & Hl3 & _ & _ & Hst3).
  unfold mbind, M_bind. rewrite E3. exists s3, w3. split_and!; [done|done|congruence|].
  intros u Hu. rewrite <-Hl. apply Hst. by apply Hst3.
Qed.

(** A store without nodes has nothing to offer. *)
Definition forgotten (s : AlternatorLiveNodes) (u : Url) : Prop :=
  u ∉ GetActiveNodes s ∧ u ∉ GetQuarantinedNodes s ∧ u ∉ GetDownNodes s.
Lemma not_stored_forgotten s u : live_inv s → ¬ stored (health_store_ s) u → forgotten s u.
Proof.
  intros Hs Hn. assert (u ∉ known_nodes (health_store_ s)) as Hk
    by (rewrite elem_of_known_nodes; [done|apply Hs]).
  pose proof (active_known (health_store_ s)) as Ha. pose proof (quarantined_known (health_store_ s)) as Hq.
  pose proof (down_known (health_store_ s)) as Hd.
  split_and!; intros Hin; apply Hk; [by apply Ha|by apply Hq|by apply Hd].
Qed.
Lemma forgotten_all s : (∀ u, forgotten s u) →
  GetActiveNodes s = [] ∧ GetQuarantinedNodes s = [] ∧ GetDownNodes s = [].
Proof. intros Hf. split_and!; apply elem_of_nil_inv; intros u; apply Hf. Qed.
Lemma NextNode_none s (w : W) :
  live_inv s → (∀ u, ¬ stored (health_store_ s) u) → (NextNode (s, w)).1 = Ok Url_default.
Proof.
  intros Hs Hn. pose proof (keeps_MarkActivity _ live_inv_stable (s, w) Hs) as Hs1.
  destruct (MarkActivity_run s w) as (s1 & w1 & E1 & Eh & _). rewrite E1 in Hs1. simpl in Hs1.
  unfold NextNode, mbind, M_bind. rewrite E1. unfold gets. cbn [fst].
  assert (∀ u, ¬ stored (health_store_ s1) u) as Hn1 by (by rewrite Eh).
  destruct (forgotten_all s1) as (-> & _); [intros u; by apply not_stored_forgotten|].
  rewrite bool_decide_eq_true_2 by done.
  destruct (ProbeDownNodes_run s1 w1 Hs1) as (l & s2 & w2 & E2 & Hs2 & _ & _ & _ & Hst). rewrite E2.
  destruct (forgotten_all s2) as (Ea & Eq & _).
  { intros u. apply not_stored_forgotten; [done|]. by rewrite Hst. }
  cbn [fst]. rewrite Ea. unfold state_op, ShouldTryQuarantinedNode, mret, M_ret. by rewrite Eq.
Qed.
End update.

(** ** The discovery loop *)

Section discovery.
Context {W : Type} `{World W}.

(** The bound on the calls of [Next] is never what ends the loop. *)
Lemma discovery_loop_fuel fuel1 fuel2 scope plan d e (σ : AlternatorLiveNodes * W) :
  (length (nodes_ plan) < fuel1)%nat → (length (nodes_ plan) < fuel2)%nat →
  discovery_loop fuel1 scope plan d e σ = discovery_loop fuel2 scope plan d e σ.
Proof.
  revert fuel2 plan d e σ.
  induction fuel1 as [|fuel1 IH]; intros [|fuel2] plan d e σ H1 H2; [lia..|].
  cbn [discovery_loop]. destruct (QueryPlan_Next plan) as [[u|x] plan'] eqn:En; [|done].
  rewrite !bind_lift_ok. destruct (Url_Empty u) eqn:Eu; [done|].
  apply Next_length in En; [|done]. apply bind_ext. intros [error|nodes] σ'; [apply IH; lia|].
  case_bool_decide; [apply IH; lia|]. destruct (negb _); [done|]. apply IH; lia.
Qed.

(** Where discovered nodes come from: a host some [/localnodes] reply named,
    with the configured scheme and port. *)
Context (reported : string → Prop).
Context (Hreported : ∀ url (w w' : W) resp hosts,
  http_get url w = (HttpReply resp, w') → status_code resp = 200 →
  ParseJsonStringArray (body resp) = Ok hosts → Forall reported hosts).

Definition discovered_node (c : Config) (u : Url) : Prop :=
  ∃ host, reported host ∧ u = Url_make (scheme c) host (port c).

Abbreviation finds c m :=
  (triple (λ σ : AlternatorLiveNodes * W, live_inv σ.1 ∧ config_ σ.1 = c) m
    (λ l σ, (live_inv σ.1 ∧ config_ σ.1 = c) ∧ Forall (discovered_node c) l)
    (λ _ σ, live_inv σ.1 ∧ config_ σ.1 = c)).

Definition configured (c : Config) (s : AlternatorLiveNodes) : Prop :=
  live_inv s ∧ config_ s = c.
Lemma configured_stable c : stable (configured c).
Proof.
  pose proof live_inv_stable as HI. split; intros.
  all: repeat match goal with H : configured _ _ |- _ => destruct H as [? ?] end.
  - split; [by apply (st_quarantine _ HI)|done].
  - split; [by apply (st_schedule _ HI)|done].
  - split; [by apply (st_indices _ HI)|done].
  - by apply (st_index_range _ HI).
  - split; [by apply (st_report _ HI)|done].
Qed.

Lemma ToUrls_discovered c hosts : Forall reported hosts → Forall (discovered_node c) (ToUrls hosts c).
Proof.
  rewrite !Forall_forall. intros Hh u. unfold ToUrls.
  rewrite elem_of_SortAndDedupe, list_elem_of_fmap. intros (h & -> & Hin).
  exists h. split; [by apply Hh|done].
Qed.

Lemma finds_endpoint c endpoint : finds c (GetNodesFromEndpoint endpoint).
Proof.
  intros [s w] [Hs Hc]. unfold GetNodesFromEndpoint, HttpClient_Get, mbind, M_bind, on_world.
  destruct (http_get endpoint w) as [[resp|what] w'] eqn:E; simpl; [|done].
  unfold mret, M_ret. simpl. destruct (Z.eqb_spec (status_code resp) 200) as [E2|E2]; simpl; [|done].
  unfold try_catch, lift_result, gets. simpl.
  destruct (ParseJsonStringArray (body resp)) as [hosts|error] eqn:Ep; simpl; [|done].
  split; [done|]. simpl in Hc. rewrite Hc. apply ToUrls_discovered. by eapply Hreported.
Qed.

Lemma finds_discovery_loop fuel c scope plan d e :
  Forall (discovered_node c) d → finds c (discovery_loop fuel scope plan d e).
Proof.
  revert plan d e. induction fuel as [|fuel IH]; intros plan d e Hd σ Hσ; [done|].
  cbn [discovery_loop]. destruct (QueryPlan_Next plan) as [[u|x] plan']; [|done].
  rewrite bind_lift_ok. destruct (Url_Empty u).
  { unfold discovery_result. case_bool_decide; [destruct e; done|].
    split; [done|]. rewrite Forall_forall in *. intros v.
    rewrite elem_of_SortAndDedupe. apply Hd. }
  unfold mbind at 1, M_bind at 1, try_catch.
  set (endpoint := WithPathAndQuery _ _ _).
  pose proof (finds_endpoint c endpoint σ Hσ) as Hf. unfold mbind at 1, M_bind at 1.
  destruct (GetNodesFromEndpoint endpoint σ) as [[nodes|error] σ'].
  - destruct Hf as [Hσ' Hn]. unfold mret at 1, M_ret at 1.
    case_bool_decide; [by apply IH|]. destruct (negb _); [done|]. apply IH; [|done].
    by apply Forall_app_2.
  - pose proof (keeps_ReportNodeResult _ (configured_stable c) u
      (discovery_observation error) σ' Hf) as Hk. unfold mbind at 1, M_bind at 1.
    destruct (ReportNodeResult u _ σ') as [[[]|x] σ'']; [|exact Hk].
    unfold mret at 1, M_ret at 1. by apply IH.
Qed.

Lemma finds_scope c scope : finds c (GetNodesForScope scope).
Proof.
  intros [s w] Hσ. unfold GetNodesForScope, GetDiscoveryNodesForScope.
  destruct (IsCluster scope); unfold mbind at 1, M_bind at 1.
  - unfold gets. unfold mbind, M_bind, on_world. destruct (high_resolution_now w) as [t w'].
    by apply finds_discovery_loop.
  - unfold state_op. pose proof (st_GetQueryPlanNodes _ (configured_stable c) s Hσ) as Hk.
    destruct (GetQueryPlanNodes s) as [l s']. unfold mbind, M_bind, on_world.
    destruct (high_resolution_now w) as [t w']. by apply finds_discovery_loop.
Qed.

Lemma finds_fetch_loop c scopes : finds c (fetch_loop scopes).
Proof.
  induction scopes as [|scope scopes IH]; intros σ Hσ; [split; [done|constructor]|].
  cbn [fetch_loop]. unfold mbind, M_bind. pose proof (finds_scope c scope σ Hσ) as Hf.
  destruct (GetNodesForScope scope σ) as [[nodes|error] σ']; [|done].
  destruct Hf as [Hσ' Hn]. case_bool_decide; [by apply IH|done].
Qed.
Lemma finds_FetchLiveNodes c : finds c FetchLiveNodes.
Proof. intros σ Hσ. by apply finds_fetch_loop. Qed.
End discovery.
