(* ===== verification/DynamoDBHelper.v ===== *)
(** The AWS SDK adapter's choice of nodes (src/aws_dynamodb_helper.cpp,
    include/scylladb/alternator/aws/dynamodb_helper.h): how [DynamoDBHelper]
    turns an SDK write request into a query plan and a client, and how it
    learns partition-key names in the background.

    SDK requests are records of what their getters return.  Maps that are only
    iterated are lists of their entries in map order; maps that are looked up
    in are [gmap]s.  What the helper calls in the SDK and in the operating
    system ([DescribeTable], creating a thread, sleeping) is the class
    [Sdk]. *)
From S2P Require Import Prelude Uri GoRandom Murmur3 AttributeValue Effects RoutingScope NodeHealth.
From S2P Require Import QueryPlan KeyRouteAffinity HttpCompression Config LocalNodesJson LiveNodes.
From S2P Require Import LiveNodesSelection.

(** ** SDK data *)

Inductive AwsReturnValue := Aws_NOT_SET | Aws_NONE | Aws_ALL_OLD | Aws_UPDATED_OLD | Aws_ALL_NEW
  | Aws_UPDATED_NEW.
Inductive AwsAttributeAction := AwsAction_NOT_SET | AwsAction_ADD | AwsAction_PUT | AwsAction_DELETE.
Inductive AwsAttributeValue :=
  | Aws_STRING (s : string)
  | Aws_NUMBER (n : string)
  | Aws_BYTEBUFFER (bytes : list Z)
  | Aws_STRING_SET | Aws_NUMBER_SET | Aws_BYTEBUFFER_SET | Aws_ATTRIBUTE_MAP | Aws_ATTRIBUTE_LIST
  | Aws_BOOL | Aws_NULLVALUE.
Definition AwsItem : Type := gmap string AwsAttributeValue.

Record AwsAttributeValueUpdate := mkAwsUpdate {
  GetAction : AwsAttributeAction;
  ValueHasBeenSet : bool;
}.

(** The getters shared by the three single-item writes. *)
Record AwsWriteRequest := mkAwsWrite {
  GetTableName : string;
  GetItem : AwsItem;
  GetConditionExpression : string;
  GetExpected : list string;
  GetReturnValues : AwsReturnValue;
}.
Definition PutItemRequest : Type := AwsWriteRequest.
(** [GetItem] is [GetKey] here and below. *)
Definition DeleteItemRequest : Type := AwsWriteRequest.
Record UpdateItemRequest := mkUpdateItem {
  update_request : AwsWriteRequest;
  GetUpdateExpression : string;
  GetAttributeUpdates : list (string * AwsAttributeValueUpdate);
}.

(** [None] for a request that has not been set. *)
Record WriteRequest := mkWriteRequest {
  GetPutRequest : option AwsItem;
  GetDeleteRequest : option AwsItem;
}.
Definition BatchWriteItemRequest : Type := list (string * list WriteRequest).

Inductive KeyType := KeyType_HASH | KeyType_RANGE.
#[global] Instance KeyType_eq_dec : EqDecision KeyType.
Proof. solve_decision. Defined.

(** ** Conversions *)

Definition ToReturnValues (value : AwsReturnValue) : ReturnValues :=
  match value with
  | Aws_NONE => RV_None
  | Aws_ALL_OLD => RV_AllOld
  | Aws_UPDATED_OLD => RV_UpdatedOld
  | Aws_ALL_NEW => RV_AllNew
  | Aws_UPDATED_NEW => RV_UpdatedNew
  | Aws_NOT_SET => RV_NotSet
  end.

Definition ToAttributeAction (action : AwsAttributeAction) : AttributeAction :=
  match action with
  | AwsAction_ADD => Action_Add
  | AwsAction_DELETE => Action_Delete
  | AwsAction_PUT | AwsAction_NOT_SET => Action_Put
  end.

Definition ToAttributeValue (value : AwsAttributeValue) : result AttributeValue :=
  match value with
  | Aws_STRING s => Ok (AttributeValue_String (c_str s))
  | Aws_NUMBER n => Ok (AttributeValue_Number (c_str n))
  | Aws_BYTEBUFFER bytes => Ok (AttributeValue_Binary bytes)
  | _ => Throw (InvalidArgument "unsupported DynamoDB partition-key attribute type")
  end.

Definition PartitionKeyOnlyAttributeMap (values : AwsItem) (key_name : string)
    : result AttributeMap :=
  match (values : gmap string AwsAttributeValue) !! c_str key_name with
  | None => Ok ∅
  | Some value => v ← ToAttributeValue value; Ok {[ key_name := v ]}
  end.

Definition PutItemOptions (request : PutItemRequest) : WriteOperationOptions := {|
  has_update_expression := false;
  has_condition_expression := negb (bool_decide (GetConditionExpression request = ""));
  has_expected := negb (bool_decide (GetExpected request = []));
  return_values := ToReturnValues (GetReturnValues request);
  attribute_updates := [];
|}.
Definition DeleteItemOptions (request : DeleteItemRequest) : WriteOperationOptions := {|
  has_update_expression := false;
  has_condition_expression := negb (bool_decide (GetConditionExpression request = ""));
  has_expected := negb (bool_decide (GetExpected request = []));
  return_values := ToReturnValues (GetReturnValues request);
  attribute_updates := [];
|}.
Definition AttributeUpdates (updates : list (string * AwsAttributeValueUpdate))
    : list AttributeUpdate :=
  map (λ '(_, update), mkUpdate (ToAttributeAction (GetAction update)) (ValueHasBeenSet update))
    updates.
Definition UpdateItemOptions (request : UpdateItemRequest) : WriteOperationOptions := {|
  has_update_expression := negb (bool_decide (GetUpdateExpression request = ""));
  has_condition_expression :=
    negb (bool_decide (GetConditionExpression (update_request request) = ""));
  has_expected := negb (bool_decide (GetExpected (update_request request) = []));
  return_values := ToReturnValues (GetReturnValues (update_request request));
  attribute_updates := AttributeUpdates (GetAttributeUpdates request);
|}.
Definition default_options : WriteOperationOptions :=
  mkWriteOptions false false false RV_NotSet [].

(** ** The helper *)

(** A client of the SDK: its endpoint provider asks the live nodes for each
    attempt, or is fixed to a node. *)
Inductive DynamoDBClient := RoundRobinClient | FixedClient (node : Url).

(** [in_progress] and [workers] are the helper's [PartitionKeyDiscoveryState];
    [workers] holds the table of each thread handle. *)
Record DynamoDBHelper := mkHelper {
  helper_nodes : AlternatorLiveNodes;
  helper_config : Config;
  partition_keys_ : PartitionKeyMetadata;
  in_progress : gset string;
  workers : list string;
  fixed_clients_ : gmap string (Url * DynamoDBClient);
}.
Definition set_helper_nodes (n : AlternatorLiveNodes) (h : DynamoDBHelper) : DynamoDBHelper :=
  mkHelper n (helper_config h) (partition_keys_ h) (in_progress h) (workers h) (fixed_clients_ h).
Definition set_partition_keys (m : PartitionKeyMetadata) (h : DynamoDBHelper) : DynamoDBHelper :=
  mkHelper (helper_nodes h) (helper_config h) m (in_progress h) (workers h) (fixed_clients_ h).
Definition set_discovery (p : gset string) (l : list string) (h : DynamoDBHelper) : DynamoDBHelper :=
  mkHelper (helper_nodes h) (helper_config h) (partition_keys_ h) p l (fixed_clients_ h).
Definition set_fixed_clients (m : gmap string (Url * DynamoDBClient)) (h : DynamoDBHelper)
    : DynamoDBHelper :=
  mkHelper (helper_nodes h) (helper_config h) (partition_keys_ h) (in_progress h) (workers h) m.

(** What the helper asks of the SDK and the system.  [DescribeTable] goes
    through a client of the helper and so moves the live nodes; [None] is an
    outcome that is not a success. *)
Class Sdk (W : Type) := {
  DescribeTable : string → M (AlternatorLiveNodes * W) (option (list (KeyType * string)));
  create_thread : W → bool * W;
  sleep_for : Z → W → W;
}.

(** An operation of the live nodes that leaves the world alone. *)
Definition on_nodes {W A} (m : M AlternatorLiveNodes A) : M (DynamoDBHelper * W) A :=
  λ '(h, w), let '(r, n) := m (helper_nodes h) in (r, (set_helper_nodes n h, w)).
(** An update of the helper. *)
Definition update_helper {W} (f : DynamoDBHelper → DynamoDBHelper) : M (DynamoDBHelper * W) unit :=
  modify (λ σ, (f σ.1, σ.2)).
Definition catch_invalid_argument {σ A} (m : M σ A) (handler : M σ A) : M σ A :=
  try_catch m (λ error, match error with InvalidArgument _ => handler | _ => throw error end).

Definition Helper_GetPartitionKeyName (table : string) (h : DynamoDBHelper) : string :=
  GetPartitionKeyName table (partition_keys_ h).
Definition Helper_SetPartitionKeyName (table key_name : string) (h : DynamoDBHelper)
    : DynamoDBHelper := set_partition_keys (SetPartitionKeyName table key_name (partition_keys_ h)) h.
Definition ShouldUseKeyRouteAffinityForWrite (kind : WriteOperationKind)
    (options : WriteOperationOptions) (h : DynamoDBHelper) : bool :=
  ShouldUseKeyRouteAffinity (mode (key_route_affinity (helper_config h))) kind options.

Definition DynamoDBHelper_make {W : Type} `{World W} (initial_nodes : list string)
    (config : Config) (w : W) : result DynamoDBHelper * W :=
  match AlternatorLiveNodes_make initial_nodes config w with
  | (Ok nodes, w) =>
      (Ok (mkHelper (Start nodes) config (partition_key_by_table (key_route_affinity config))
             ∅ [] ∅), w)
  | (Throw error, w) => (Throw error, w)
  end.

Section helper.
Context {W : Type} `{World W} `{Sdk W}.

(** *** Learning partition keys *)

Definition first_hash_key (schema : list (KeyType * string)) : string :=
  match list_find (λ k : KeyType * string, k.1 = KeyType_HASH) schema with
  | Some (_, (_, name)) => c_str name
  | None => ""
  end.
Definition DiscoverPartitionKeyName (table : string) : M (DynamoDBHelper * W) string :=
  outcome ← zoom helper_nodes set_helper_nodes (DescribeTable (c_str table));
  mret (match outcome with None => "" | Some schema => first_hash_key schema end).

(** The loop of [UpdatePartitionKeyName]; [attempts] are left. *)
Fixpoint discover_loop (attempts : nat) (backoff : Z) (table : string)
    : M (DynamoDBHelper * W) bool :=
  match attempts with
  | O => mret false
  | S attempts =>
      key_name ← DiscoverPartitionKeyName table;
      if negb (bool_decide (key_name = "")) then
        _ ← update_helper (Helper_SetPartitionKeyName table key_name);
        mret true
      else if bool_decide (attempts = O) then mret false
      else if 0 <? backoff then
        _ ← on_world (λ w, (tt, sleep_for backoff w));
        discover_loop attempts (backoff * 2) table
      else discover_loop attempts backoff table
  end.
Definition UpdatePartitionKeyName (table : string) : M (DynamoDBHelper * W) bool :=
  if bool_decide (table = "") then mret false
  else
    c ← gets (λ σ, key_route_affinity (helper_config σ.1));
    discover_loop (Z.to_nat (partition_key_discovery_attempts c))
      (partition_key_discovery_initial_backoff c) table.

(** [in_progress.erase(table_name)] *)
Definition discovery_done (table : string) (h : DynamoDBHelper) : DynamoDBHelper :=
  set_discovery (in_progress h ∖ {[ table ]}) (workers h) h.
(** The body of the thread [TriggerPartitionKeyDiscovery] starts. *)
Definition discovery_worker (table : string) : M (DynamoDBHelper * W) unit :=
  _ ← try_catch (_ ← UpdatePartitionKeyName table; mret tt) (λ _, mret tt);
  update_helper (discovery_done table).

(** Returns whether a thread was started. *)
Definition TriggerPartitionKeyDiscovery (table : string) : M (DynamoDBHelper * W) bool :=
  h ← gets fst;
  if bool_decide (table = "") || negb (bool_decide (Helper_GetPartitionKeyName table h = ""))
  then mret false
  else if bool_decide (table ∈ in_progress h) then mret false
  else
    _ ← update_helper (λ h, set_discovery ({[ table ]} ∪ in_progress h) (workers h) h);
    created ← on_world create_thread;
    if (created : bool) then
      _ ← update_helper (λ h, set_discovery (in_progress h) (workers h ++ [table]) h);
      mret true
    else
      _ ← update_helper (discovery_done table);
      mret false.

(** The handles the destructor joins, and the helper without them. *)
Definition WaitForPartitionKeyDiscovery (h : DynamoDBHelper) : list string * DynamoDBHelper :=
  (workers h, set_discovery (in_progress h) [] h).

(** The tables in the order of [std::set<std::string>]; returns those a thread
    was started for. *)
Fixpoint trigger_all (tables : list string) : M (DynamoDBHelper * W) (list string) :=
  match tables with
  | [] => mret []
  | table :: tables =>
      started ← TriggerPartitionKeyDiscovery table;
      rest ← trigger_all tables;
      mret (if (started : bool) then table :: rest else rest)
  end.
Definition TriggerPartitionKeyDiscoveryForMissingMetadata (operations : list BatchWriteOperation)
    : M (DynamoDBHelper * W) (list string) :=
  h ← gets fst;
  let missing_tables := map table_name
    (filter (λ op, Helper_GetPartitionKeyName (table_name op) h = "") operations) in
  trigger_all (std_unique (key_sort (λ t, t) missing_tables)).

(** *** Plans *)

Definition DefaultQueryPlan : M (DynamoDBHelper * W) QueryPlan :=
  clock ← on_world high_resolution_now;
  on_nodes (of_state (FromNodesSource clock)).

Definition NewPartitionKeyQueryPlan (values : AttributeMap) (table : string)
    : M (DynamoDBHelper * W) QueryPlan :=
  h ← gets fst;
  if bool_decide (Helper_GetPartitionKeyName table h = "") then
    _ ← TriggerPartitionKeyDiscovery table;
    DefaultQueryPlan
  else catch_invalid_argument
         (on_nodes (QueryPlanForPartitionKey values table (partition_keys_ h)))
         DefaultQueryPlan.

Definition NewBatchWriteQueryPlan (operations : list BatchWriteOperation)
    : M (DynamoDBHelper * W) QueryPlan :=
  _ ← TriggerPartitionKeyDiscoveryForMissingMetadata operations;
  h ← gets fst;
  catch_invalid_argument
    (on_nodes (QueryPlanForBatchWrite operations (partition_keys_ h)))
    DefaultQueryPlan.

Definition PartitionKeyQueryPlanFor (values : AwsItem) (table_name : string)
    : M (DynamoDBHelper * W) QueryPlan :=
  let table := c_str table_name in
  key_name ← gets (λ σ, Helper_GetPartitionKeyName table σ.1);
  if bool_decide (key_name = "") then NewPartitionKeyQueryPlan ∅ table
  else catch_invalid_argument
         (key_values ← lift_result (PartitionKeyOnlyAttributeMap values key_name);
          NewPartitionKeyQueryPlan key_values table)
         (NewPartitionKeyQueryPlan ∅ table).

Definition PutItemQueryPlanFor (request : PutItemRequest) : M (DynamoDBHelper * W) QueryPlan :=
  affinity ← gets (λ σ, ShouldUseKeyRouteAffinityForWrite PutItem (PutItemOptions request) σ.1);
  if negb affinity then DefaultQueryPlan
  else PartitionKeyQueryPlanFor (GetItem request) (GetTableName request).
Definition UpdateItemQueryPlanFor (request : UpdateItemRequest) : M (DynamoDBHelper * W) QueryPlan :=
  affinity ← gets (λ σ,
    ShouldUseKeyRouteAffinityForWrite UpdateItem (UpdateItemOptions request) σ.1);
  if negb affinity then DefaultQueryPlan
  else PartitionKeyQueryPlanFor (GetItem (update_request request))
         (GetTableName (update_request request)).
Definition DeleteItemQueryPlanFor (request : DeleteItemRequest) : M (DynamoDBHelper * W) QueryPlan :=
  affinity ← gets (λ σ,
    ShouldUseKeyRouteAffinityForWrite DeleteItem (DeleteItemOptions request) σ.1);
  if negb affinity then DefaultQueryPlan
  else PartitionKeyQueryPlanFor (GetItem request) (GetTableName request).

(** [AddBatchWriteOperation]: the exception of an unsupported key is dropped. *)
Definition AddBatchWriteOperation (table key_name : string) (values : AwsItem)
    (operations : list BatchWriteOperation) : list BatchWriteOperation :=
  match PartitionKeyOnlyAttributeMap values key_name with
  | Ok key_values =>
      if bool_decide ((key_values : gmap string AttributeValue) = ∅) then operations
      else operations ++ [BatchWriteOperation_Put table key_values]
  | Throw _ => operations
  end.
Definition add_write (table key_name : string) (operations : list BatchWriteOperation)
    (write : WriteRequest) : list BatchWriteOperation :=
  match GetPutRequest write, GetDeleteRequest write with
  | Some item, None => AddBatchWriteOperation table key_name item operations
  | None, Some key => AddBatchWriteOperation table key_name key operations
  | _, _ => operations
  end.
Definition add_table (h : DynamoDBHelper) (operations : list BatchWriteOperation)
    (entry : string * list WriteRequest) : list BatchWriteOperation :=
  let '(table, writes) := entry in
  let table := c_str table in
  let key_name := Helper_GetPartitionKeyName table h in
  if bool_decide (key_name = "") then
    if bool_decide (length writes = O) then operations
    else operations ++ [BatchWriteOperation_Put table ∅]
  else foldl (add_write table key_name) operations writes.
Definition BatchWriteOperationsFor (h : DynamoDBHelper) (request : BatchWriteItemRequest)
    : list BatchWriteOperation := foldl (add_table h) [] request.

Definition BatchWriteItemQueryPlanFor (request : BatchWriteItemRequest)
    : M (DynamoDBHelper * W) QueryPlan :=
  h ← gets fst;
  if negb (ShouldUseKeyRouteAffinityForWrite PutItem default_options h) then DefaultQueryPlan
  else
    let operations := BatchWriteOperationsFor h request in
    if bool_decide (length operations = O) then DefaultQueryPlan
    else NewBatchWriteQueryPlan operations.

(** *** Clients *)

Definition NewDynamoDBForNode (node : Url) : M (DynamoDBHelper * W) DynamoDBClient :=
  existing ← gets (λ σ, fixed_clients_ σ.1 !! Url_ToString node);
  match existing with
  | Some (_, client) => mret client
  | None =>
      let client := FixedClient node in
      _ ← update_helper (λ h,
        set_fixed_clients (<[Url_ToString node := (node, client)]> (fixed_clients_ h)) h);
      mret client
  end.
Definition NewDynamoDBForQueryPlan (plan : QueryPlan) : M (DynamoDBHelper * W) DynamoDBClient :=
  node ← lift_result (QueryPlan_Next plan).1;
  if Url_Empty node then mret RoundRobinClient else NewDynamoDBForNode node.

(** The URL the client's endpoint provider resolves to; [None] for the error
    [ENDPOINT_RESOLUTION_FAILURE]. *)
Definition FixedEndpointProvider_ResolveEndpoint (node : Url)
    : M (DynamoDBHelper * W) (option string) :=
  mret (if Url_Empty node then None else Some (c_str (Url_ToString node))).
Definition AlternatorEndpointProvider_ResolveEndpoint : M (DynamoDBHelper * W) (option string) :=
  node ← zoom helper_nodes set_helper_nodes NextNode;
  mret (if Url_Empty node then None else Some (c_str (Url_ToString node))).
Definition ResolveEndpoint (client : DynamoDBClient) : M (DynamoDBHelper * W) (option string) :=
  match client with
  | FixedClient node => FixedEndpointProvider_ResolveEndpoint node
  | RoundRobinClient => AlternatorEndpointProvider_ResolveEndpoint
  end.
End helper.

(** ** Every write has a plan *)

Section plans.
Context {W : Type} `{World W} `{Sdk W}.

(** The helper's live nodes, in a state plans can be made from. *)
Definition ready (active : list Url) (h : DynamoDBHelper) : Prop :=
  live_inv (helper_nodes h) ∧ usable_nodes active ∧ active ≠ [] ∧
  GetActiveNodes (helper_nodes h) = active.

(** [m] returns a plan that covers the active nodes. *)
Definition plans (active : list Url) (m : M (DynamoDBHelper * W) QueryPlan) : Prop :=
  ∀ h w, ready active h → ∃ p σ, m (h, w) = (Ok p, σ) ∧ covers active p.

Lemma plans_default active : plans active DefaultQueryPlan.
Proof.
  intros h w (Hs & Hu & Hne & Ea). unfold DefaultQueryPlan, mbind, M_bind, on_world.
  destruct (high_resolution_now w) as [clock w'].
  destruct (FromNodesSource_covers clock (helper_nodes h)) as (p & s' & E & _ & _ & Hc);
    [exact Hs|by rewrite <-Ea in Hu|].
  exists p, (set_helper_nodes s' h, w'). unfold on_nodes, of_state. rewrite E.
  split; [done|]. by rewrite <-Ea.
Qed.

(** [m] returns and keeps the live nodes. *)
Definition keeps_nodes {A} (m : M (DynamoDBHelper * W) A) : Prop :=
  ∀ h w, ∃ a h' w', m (h, w) = (Ok a, (h', w')) ∧ helper_nodes h' = helper_nodes h ∧
    partition_keys_ h' = partition_keys_ h.

Lemma keeps_nodes_trigger table : keeps_nodes (TriggerPartitionKeyDiscovery table).
Proof.
  intros h w. unfold TriggerPartitionKeyDiscovery, mbind, M_bind, gets. cbn [fst].
  destruct (_ || _); [by eexists _, _, _|]. case_bool_decide; [by eexists _, _, _|].
  unfold update_helper, modify, on_world. cbn [fst snd].
  destruct (create_thread w) as [[] w']; by eexists _, _, _.
Qed.
Lemma keeps_nodes_bind {A B} (m : M (DynamoDBHelper * W) A) (f : A → M (DynamoDBHelper * W) B) :
  keeps_nodes m → (∀ a, keeps_nodes (f a)) → keeps_nodes (m ≫= f).
Proof.
  intros Hm Hf h w. destruct (Hm h w) as (a & h1 & w1 & E1 & En & Ek).
  destruct (Hf a h1 w1) as (b & h2 & w2 & E2 & En2 & Ek2). exists b, h2, w2.
  unfold mbind, M_bind. rewrite E1. split_and!; [done|congruence|congruence].
Qed.
Lemma keeps_nodes_trigger_all tables : keeps_nodes (trigger_all tables).
Proof.
  induction tables as [|t tables IH]; [by intros h w; eexists _, _, _|]. simpl.
  apply keeps_nodes_bind; [apply keeps_nodes_trigger|]. intros started.
  apply keeps_nodes_bind; [done|]. by intros rest h w; eexists _, _, _.
Qed.
Lemma plans_bind {A} active (m : M (DynamoDBHelper * W) A) f :
  keeps_nodes m → (∀ a, plans active (f a)) → plans active (m ≫= f).
Proof.
  intros Hm Hf h w (Hs & Hu & Hne & Ea). destruct (Hm h w) as (a & h1 & w1 & E1 & En & _).
  destruct (Hf a h1 w1) as (p & σ & E2 & Hc); [by rewrite <-En in *|].
  exists p, σ. unfold mbind, M_bind. by rewrite E1.
Qed.
Lemma plans_gets {A} active (f : DynamoDBHelper * W → A) g :
  (∀ h w, ready active h → ∃ p σ, g (f (h, w)) (h, w) = (Ok p, σ) ∧ covers active p) →
  plans active (gets f ≫= g).
Proof. done. Qed.

(** The two ways a catching plan runs: the protected part returns a plan, or
    throws [std::invalid_argument] and leaves the live nodes ready. *)
Lemma plans_catch active m handler :
  plans active handler →
  (∀ h w, ready active h →
    (∃ p σ, m (h, w) = (Ok p, σ) ∧ covers active p) ∨
    (∃ what h' w', m (h, w) = (Throw (InvalidArgument what), (h', w')) ∧ ready active h')) →
  plans active (catch_invalid_argument m handler).
Proof.
  intros Hh Hm h w Hr. unfold catch_invalid_argument, try_catch.
  destruct (Hm h w Hr) as [(p & σ & E & Hc)|(what & h' & w' & E & Hr')]; rewrite E; [by eauto|].
  by apply Hh.
Qed.

Lemma HashPartitionKey_cases values table metadata :
  (∃ seed, HashPartitionKey values table metadata = Ok seed) ∨
  (∃ what, HashPartitionKey values table metadata = Throw (InvalidArgument what)).
Proof.
  unfold HashPartitionKey. case_bool_decide; [by right; eexists|].
  destruct (_ !! _); [by left; eexists|by right; eexists].
Qed.

Lemma plans_partition_key active values table : plans active (NewPartitionKeyQueryPlan values table).
Proof.
  apply plans_gets. intros h w Hr. simpl. case_bool_decide.
  { apply (plans_bind active); [apply keeps_nodes_trigger|intros _; apply plans_default|done]. }
  apply (plans_catch active); [apply plans_default| |done]. intros h' w' (Hs & Hu & Hne & Ea).
  unfold on_nodes. rewrite <-Ea in Hu, Hne.
  destruct (HashPartitionKey_cases values table (partition_keys_ h)) as [[seed E]|[what E]].
  - left. destruct (QueryPlanForPartitionKey_covers values table (partition_keys_ h) seed
      (helper_nodes h')) as (p & s' & -> & _ & Hc); [exact Hs|exact Hu|exact Hne|exact E|].
    eexists _, _. split; [done|]. by rewrite <-Ea.
  - right. unfold QueryPlanForPartitionKey, mbind, M_bind, lift_result. rewrite E.
    eexists _, _, _. split; [done|]. by rewrite <-Ea.
Qed.

Lemma PartitionKeyOnly_cases values key_name :
  (∃ m, PartitionKeyOnlyAttributeMap values key_name = Ok m) ∨
  (∃ what, PartitionKeyOnlyAttributeMap values key_name = Throw (InvalidArgument what)).
Proof.
  unfold PartitionKeyOnlyAttributeMap. destruct (_ !! _) as [v|]; [|by left; eexists].
  destruct v; simpl; (by left; eexists) || (by right; eexists).
Qed.
Lemma plans_item active values table : plans active (PartitionKeyQueryPlanFor values table).
Proof.
  apply plans_gets. intros h w Hr. case_bool_decide; [by apply (plans_partition_key active)|].
  apply (plans_catch active); [apply plans_partition_key| |done]. intros h' w' Hr'.
  unfold mbind, M_bind, lift_result.
  destruct (PartitionKeyOnly_cases values (Helper_GetPartitionKeyName (c_str table) (h, w).1))
    as [[m ->]|[what ->]].
  - left. by apply (plans_partition_key active).
  - right. by eexists _, _, _.
Qed.

Lemma plans_batch active operations :
  Z.of_nat (length operations) < 2 ^ 31 → plans active (NewBatchWriteQueryPlan operations).
Proof.
  intros Hops. apply plans_bind.
  { apply (keeps_nodes_bind (gets fst)); [by intros h w; eexists _, _, _|].
    intros h. apply keeps_nodes_trigger_all. }
  intros _. apply plans_gets. intros h w Hr.
  apply (plans_catch active); [apply plans_default| |done]. intros h' w' (Hs & Hu & Hne & Ea).
  unfold on_nodes. cbn [fst]. rewrite <-Ea in Hu, Hne.
  destruct (decide (BatchWriteHashes operations (partition_keys_ h) = [])) as [Hh|Hh].
  - right. destruct (QueryPlanForBatchWrite_no_votes operations (partition_keys_ h) (helper_nodes h'))
      as (what & s' & -> & Hs' & Ea'); [done|done|done|done|].
    eexists _, _, _. split; [done|]. rewrite <-Ea. by split_and!.
  - left. destruct (QueryPlanForBatchWrite_covers operations (partition_keys_ h) (helper_nodes h'))
      as (p & s' & -> & _ & Hc); [done|done|done|done|done|].
    eexists _, _. split; [done|]. by rewrite <-Ea.
Qed.
End plans.

(** ** Single-item writes *)

Inductive ItemWrite :=
  | PutWrite (request : PutItemRequest)
  | UpdateWrite (request : UpdateItemRequest)
  | DeleteWrite (request : DeleteItemRequest).
Definition write_request (x : ItemWrite) : AwsWriteRequest :=
  match x with
  | PutWrite r | DeleteWrite r => r
  | UpdateWrite r => update_request r
  end.
Definition write_affinity (h : DynamoDBHelper) (x : ItemWrite) : bool :=
  match x with
  | PutWrite r => ShouldUseKeyRouteAffinityForWrite PutItem (PutItemOptions r) h
  | UpdateWrite r => ShouldUseKeyRouteAffinityForWrite UpdateItem (UpdateItemOptions r) h
  | DeleteWrite r => ShouldUseKeyRouteAffinityForWrite DeleteItem (DeleteItemOptions r) h
  end.
Definition write_plan {W : Type} `{World W} `{Sdk W} (x : ItemWrite)
    : M (DynamoDBHelper * W) QueryPlan :=
  match x with
  | PutWrite r => PutItemQueryPlanFor r
  | UpdateWrite r => UpdateItemQueryPlanFor r
  | DeleteWrite r => DeleteItemQueryPlanFor r
  end.

(** The write [x] is for the partition key [key] = [v] of [table], which the
    helper knows to route by. *)
Record keyed (h : DynamoDBHelper) (x : ItemWrite) (table key : string) (v : AttributeValue) : Prop := {
  keyed_affinity : write_affinity h x = true;
  keyed_table : c_str (GetTableName (write_request x)) = table;
  keyed_name : Helper_GetPartitionKeyName table h = key;
  keyed_nonempty : key ≠ "";
  keyed_value : ∃ value, (GetItem (write_request x) : gmap _ _) !! c_str key = Some value ∧
                  ToAttributeValue value = Ok v;
}.

Section routes.
Context {W : Type} `{World W} `{Sdk W}.

Lemma write_plan_affinity x h (w : W) :
  write_plan x (h, w) =
  if negb (write_affinity h x) then DefaultQueryPlan (h, w)
  else PartitionKeyQueryPlanFor (GetItem (write_request x)) (GetTableName (write_request x)) (h, w).
Proof.
  destruct x; unfold write_plan, PutItemQueryPlanFor, UpdateItemQueryPlanFor,
    DeleteItemQueryPlanFor, mbind, M_bind, gets; cbn [fst write_affinity write_request];
    by destruct (ShouldUseKeyRouteAffinityForWrite _ _ h).
Qed.

Lemma keyed_plan x h (w : W) table key v p s' :
  keyed h x table key v →
  QueryPlanForPartitionKey {[ key := v ]} table (partition_keys_ h) (helper_nodes h) = (Ok p, s') →
  write_plan x (h, w) = (Ok p, (set_helper_nodes s' h, w)).
Proof.
  intros [Ha <- En Hne (value & Ev & Et)] E. rewrite write_plan_affinity, Ha. cbn [negb].
  unfold PartitionKeyQueryPlanFor, NewPartitionKeyQueryPlan, PartitionKeyOnlyAttributeMap,
    catch_invalid_argument, try_catch, lift_result, on_nodes, mbind, M_bind, gets. cbn [fst].
  rewrite En, bool_decide_eq_false_2, Ev by done. unfold mbind, result_bind. rewrite Et.
  cbn [fst]. by rewrite En, bool_decide_eq_false_2, E by done.
Qed.
Lemma keyed_hash h x table key v :
  keyed h x table key v →
  HashPartitionKey {[ key := v ]} table (partition_keys_ h) = Ok (AttributeValue_Hash v).
Proof.
  intros [_ _ En Hne _]. unfold Helper_GetPartitionKeyName in En. unfold HashPartitionKey.
  rewrite En, bool_decide_eq_false_2 by done. pose proof (lookup_singleton_eq (M := gmap string) key v) as El. unfold AttributeMap. by rewrite El.
Qed.

(** The plan of a keyed write: the seeded order of the active nodes, after at
    most one other node. *)
Lemma keyed_plan_run x h (w : W) table key v :
  let active := GetActiveNodes (helper_nodes h) in
  live_inv (helper_nodes h) → usable_nodes active → active ≠ [] → keyed h x table key v →
  ∃ p σ extra order, write_plan x (h, w) = (Ok p, σ) ∧ DrainPlan p = Ok (extra ++ order) ∧
    DrainPlan (WithSortedSeed active (AttributeValue_Hash v)) = Ok order ∧ order ≡ₚ active ∧
    (length extra <= 1)%nat ∧ (∀ u, u ∈ extra → u ∉ active).
Proof.
  intros active Hs Hu Hne Hk.
  destruct (QueryPlanForPartitionKey_run {[ key := v ]} table (partition_keys_ h)
    (AttributeValue_Hash v) (helper_nodes h)) as (p & s' & extra & order & E & _ & D & O & P & L & X);
    [exact Hs|exact Hu|exact Hne|by eapply keyed_hash|].
  exists p, (set_helper_nodes s' h, w), extra, order. split_and!; try done. by eapply keyed_plan.
Qed.

Lemma write_plan_covers active x : plans active (write_plan x : M (DynamoDBHelper * W) QueryPlan).
Proof.
  intros h w Hr. rewrite write_plan_affinity.
  destruct (negb _); [by apply plans_default|by apply plans_item].
Qed.
Lemma batch_plan_covers active request h (w : W) :
  ready active h → Z.of_nat (length (BatchWriteOperationsFor h request)) < 2 ^ 31 →
  ∃ p σ, BatchWriteItemQueryPlanFor request (h, w) = (Ok p, σ) ∧ covers active p.
Proof.
  intros Hr Hl. unfold BatchWriteItemQueryPlanFor, mbind, M_bind, gets. cbn [fst].
  destruct (negb _); [by apply plans_default|].
  case_bool_decide; [by apply plans_default|by apply plans_batch].
Qed.
End routes.

(** ** Learning a partition key *)

Section learning.
Context {W : Type} `{World W} `{Sdk W}.

(** [calls] counts requests, [reported t n]: some reply for [t] named [n] as
    the hash key. *)
Context (calls : W → Z) (reported : string → string → Prop).
Context (Hcalls : ∀ t σ, calls (DescribeTable t σ).2.2 = calls σ.2 + 1).
Context (Hsleep : ∀ ms w, calls (sleep_for ms w) = calls w).
Context (Hreported : ∀ t σ schema σ' name,
  DescribeTable t σ = (Ok (Some schema), σ') → (KeyType_HASH, name) ∈ schema → reported t name).

(** What an outcome of the loop tells about the helper it leaves. *)
Definition learned (table : string) (h : DynamoDBHelper) (r : result bool) (h' : DynamoDBHelper)
    : Prop :=
  in_progress h' = in_progress h ∧ workers h' = workers h ∧
  match r with
  | Ok true => ∃ name, reported (c_str table) name ∧ c_str name ≠ "" ∧
                 partition_keys_ h' = SetPartitionKeyName table (c_str name) (partition_keys_ h)
  | _ => partition_keys_ h' = partition_keys_ h
  end.

Lemma first_hash_key_in schema :
  first_hash_key schema ≠ "" →
  ∃ name, (KeyType_HASH, name) ∈ schema ∧ first_hash_key schema = c_str name.
Proof.
  unfold first_hash_key. destruct (list_find _ schema) as [[i [k name]]|] eqn:E; [|done].
  apply list_find_Some in E as (El & Ek & _). simpl in Ek. subst k.
  exists name. split; [by eapply list_elem_of_lookup_2|done].
Qed.

Lemma Discover_run table h w :
  ∃ r n' w', DiscoverPartitionKeyName table (h, w) = (r, (set_helper_nodes n' h, w')) ∧
    calls w' = calls w + 1 ∧
    ∀ key, r = Ok key → key ≠ "" → ∃ name, reported (c_str table) name ∧ key = c_str name.
Proof.
  unfold DiscoverPartitionKeyName, mbind, M_bind, zoom, mret, M_ret.
  pose proof (Hcalls (c_str table) (helper_nodes h, w)) as Hc.
  pose proof (Hreported (c_str table) (helper_nodes h, w)) as Hr.
  destruct (DescribeTable (c_str table) (helper_nodes h, w)) as [[[schema|]|e] [n' w']];
    eexists _, n', w'; (split; [done|split; [done|]]); intros key ? Hne; simplify_eq.
  destruct (first_hash_key_in schema Hne) as (name & Hin & ->). exists name. by eauto.
Qed.

Lemma discover_loop_run n backoff table h w :
  ∃ r h' w', discover_loop n backoff table (h, w) = (r, (h', w')) ∧
    calls w <= calls w' <= calls w + Z.of_nat n ∧ learned table h r h'.
Proof.
  revert backoff h w. induction n as [|n IH]; intros backoff h w.
  { eexists _, h, w. split_and!; [done|lia|lia|by repeat split]. }
  destruct (Discover_run table h w) as (r & n' & w1 & E & Hc & Hk).
  cbn [discover_loop]. unfold mbind at 1, M_bind at 1. rewrite E.
  destruct r as [key|e].
  2:{ eexists _, _, w1. split_and!; [done|lia|lia|by repeat split]. }
  case_bool_decide as Hkey; cbn [negb].
  - case_bool_decide.
    { eexists _, _, w1. split_and!; [done|lia|lia|by repeat split]. }
    destruct (0 <? backoff).
    + unfold mbind, M_bind, on_world.
      destruct (IH (backoff * 2) (set_helper_nodes n' h) (sleep_for backoff w1))
        as (r & h' & w2 & -> & Hb & Hl). rewrite Hsleep in Hb.
      exists r, h', w2. split_and!; [done|lia|lia|]. exact Hl.
    + destruct (IH backoff (set_helper_nodes n' h) w1) as (r & h' & w2 & -> & Hb & Hl).
      exists r, h', w2. split_and!; [done|lia|lia|]. exact Hl.
  - destruct (Hk key eq_refl Hkey) as (name & Hn & ->).
    eexists _, _, w1. split_and!; [done|lia|lia|]. split_and!; [done|done|]. by exists name.
Qed.

Lemma Update_run table h w :
  ∃ r h' w', UpdatePartitionKeyName table (h, w) = (r, (h', w')) ∧
    calls w <= calls w' <=
      calls w + Z.max 0 (partition_key_discovery_attempts (key_route_affinity (helper_config h))) ∧
    learned table h r h'.
Proof.
  unfold UpdatePartitionKeyName. case_bool_decide.
  { eexists _, h, w. split_and!; [done|lia|lia|by repeat split]. }
  unfold mbind, M_bind, gets. cbn [fst].
  set (c := key_route_affinity (helper_config h)).
  destruct (discover_loop_run (Z.to_nat (partition_key_discovery_attempts c))
    (partition_key_discovery_initial_backoff c) table h w) as (r & h' & w' & -> & Hb & Hl).
  exists r, h', w'. split_and!; [done|lia|lia|done].
Qed.
End learning.
