(* ===== verification/DiscoveryWorkers.v ===== *)
(** The threads that learn partition keys (src/aws_dynamodb_helper.cpp,
    [TriggerPartitionKeyDiscovery]): writes start them, [in_progress] keeps
    them to one per table.

    The threads that have not ended are a list of tables beside the helper.
    Writes, changes of the live nodes, the body of a thread and its end are
    steps in any order. *)
From S2P Require Import Prelude Uri Effects NodeHealth QueryPlan KeyRouteAffinity Config LiveNodes.
From S2P Require Import LiveNodesSelection DynamoDBHelper.

Section workers.
Context {W : Type} `{World W} `{Sdk W}.

(** ** What an operation starts *)

(** [m] adds handles for [started], tables that were not in progress and now
    are; nothing else of the discovery state changes. *)
Definition starts (σ σ' : DynamoDBHelper * W) (started : list string) : Prop :=
  workers σ'.1 = workers σ.1 ++ started ∧ NoDup started ∧
  (∀ t, t ∈ started → t ∉ in_progress σ.1) ∧
  in_progress σ'.1 = in_progress σ.1 ∪ list_to_set started.
Definition spawns {A} (m : M (DynamoDBHelper * W) A) : Prop :=
  ∀ σ, ∃ started, starts σ (m σ).2 started.

Lemma starts_nothing σ σ' :
  workers σ'.1 = workers σ.1 → in_progress σ'.1 = in_progress σ.1 → starts σ σ' [].
Proof.
  intros Ew Ei. split_and!; [by rewrite app_nil_r|constructor|set_solver|]. rewrite Ei. set_solver.
Qed.
Lemma starts_trans σ1 σ2 σ3 l k : starts σ1 σ2 l → starts σ2 σ3 k → starts σ1 σ3 (l ++ k).
Proof.
  intros (Ew & ND & Hn & Ei) (Ew2 & ND2 & Hn2 & Ei2). rewrite Ei in *. split_and!.
  - by rewrite Ew2, Ew, app_assoc.
  - apply NoDup_app. split_and!; [done| |done]. intros t Ht Hk. apply (Hn2 t Hk).
    rewrite elem_of_union, elem_of_list_to_set. by right.
  - intros t. rewrite elem_of_app. intros [Ht|Ht]; [by apply Hn|]. specialize (Hn2 t Ht). set_solver.
  - rewrite Ei2, list_to_set_app_L. set_solver.
Qed.
Lemma spawns_bind {A B} (m : M (DynamoDBHelper * W) A) (f : A → M (DynamoDBHelper * W) B) :
  spawns m → (∀ a, spawns (f a)) → spawns (m ≫= f).
Proof.
  intros Hm Hf σ. unfold mbind, M_bind. destruct (Hm σ) as [l Hl].
  destruct (m σ) as [[a|e] σ1]; [|by exists l].
  destruct (Hf a σ1) as [k Hk]. exists (l ++ k). by eapply starts_trans.
Qed.
Lemma spawns_catch {A} (m : M (DynamoDBHelper * W) A) handler :
  spawns m → spawns handler → spawns (catch_invalid_argument m handler).
Proof.
  intros Hm Hf σ. unfold catch_invalid_argument, try_catch. destruct (Hm σ) as [l Hl].
  destruct (m σ) as [[a|[]] σ1]; try by exists l.
  destruct (Hf σ1) as [k Hk]. exists (l ++ k). by eapply starts_trans.
Qed.
Lemma spawns_ret {A} (a : A) : spawns (mret a).
Proof. intros σ. exists []. by apply starts_nothing. Qed.
Lemma spawns_lift {A} (r : result A) : spawns (lift_result r).
Proof. intros σ. exists []. by apply starts_nothing. Qed.
Lemma spawns_gets {A} (f : DynamoDBHelper * W → A) : spawns (gets f).
Proof. intros σ. exists []. by apply starts_nothing. Qed.
Lemma spawns_on_world {A} (f : W → A * W) : spawns (on_world f).
Proof.
  intros [h w]. exists []. unfold on_world. destruct (f w). by apply starts_nothing.
Qed.
Lemma spawns_on_nodes {A} (m : M AlternatorLiveNodes A) : spawns (on_nodes m).
Proof.
  intros [h w]. exists []. unfold on_nodes. destruct (m (helper_nodes h)). by apply starts_nothing.
Qed.

Lemma Trigger_starts table σ :
  ∃ started, TriggerPartitionKeyDiscovery table σ =
      (Ok started, (TriggerPartitionKeyDiscovery table σ).2) ∧
    starts σ (TriggerPartitionKeyDiscovery table σ).2 (if started then [table] else []).
Proof.
  destruct σ as [h w]. unfold TriggerPartitionKeyDiscovery, mbind, M_bind, gets. cbn [fst].
  destruct (_ || _); [exists false; split; [done|by apply starts_nothing]|].
  case_bool_decide as Hp; [exists false; split; [done|by apply starts_nothing]|].
  unfold update_helper, modify, on_world. cbn [fst snd].
  destruct (create_thread w) as [[] w']; eexists; (split; [done|]).
  - split_and!; [done|apply NoDup_singleton| |simpl; set_solver]. intros t. set_solver.
  - apply starts_nothing; [done|]. simpl. set_solver.
Qed.
Lemma spawns_trigger table : spawns (TriggerPartitionKeyDiscovery table).
Proof. intros σ. destruct (Trigger_starts table σ) as (started & _ & Hs). by eexists. Qed.
Lemma spawns_trigger_all tables : spawns (trigger_all tables).
Proof.
  induction tables as [|t tables IH]; [apply spawns_ret|].
  apply spawns_bind; [apply spawns_trigger|]. intros started.
  apply spawns_bind; [done|]. intros rest. apply spawns_ret.
Qed.

Create HintDb spawning.
Hint Resolve spawns_ret spawns_lift spawns_gets spawns_on_world
  spawns_on_nodes spawns_trigger spawns_trigger_all : spawning.
Ltac spawn :=
  repeat lazymatch goal with
  | |- ∀ _ : ?A, spawns _ => intros ?
  | |- spawns (_ ≫= _) => apply spawns_bind
  | |- spawns (catch_invalid_argument _ _) => apply spawns_catch
  | |- spawns (if _ then _ else _) => case_match
  | |- _ => solve [auto with spawning]
  end.

Lemma spawns_default : spawns DefaultQueryPlan.
Proof. unfold DefaultQueryPlan. spawn. Qed.
Hint Resolve spawns_default : spawning.
Lemma spawns_NewPartitionKey values table : spawns (NewPartitionKeyQueryPlan values table).
Proof. unfold NewPartitionKeyQueryPlan. spawn. Qed.
Hint Resolve spawns_NewPartitionKey : spawning.
Lemma spawns_item values table : spawns (PartitionKeyQueryPlanFor values table).
Proof. unfold PartitionKeyQueryPlanFor. spawn. Qed.
Hint Resolve spawns_item : spawning.
Lemma spawns_write x : spawns (write_plan x).
Proof.
  destruct x; unfold write_plan, PutItemQueryPlanFor, UpdateItemQueryPlanFor,
    DeleteItemQueryPlanFor; spawn.
Qed.
Lemma spawns_batch request : spawns (BatchWriteItemQueryPlanFor request).
Proof.
  unfold BatchWriteItemQueryPlanFor, NewBatchWriteQueryPlan,
    TriggerPartitionKeyDiscoveryForMissingMetadata. spawn.
Qed.

(** ** Helper and threads together *)

Definition worker_system : Type := (DynamoDBHelper * W) * list string.
(** The handles an operation added. *)
Definition new_handles (σ σ' : DynamoDBHelper * W) : list string :=
  drop (length (workers σ.1)) (workers σ'.1).

Inductive worker_step : worker_system → worker_system → Prop :=
  | ws_write x σ running :
      worker_step (σ, running)
        ((write_plan x σ).2, running ++ new_handles σ (write_plan x σ).2)
  | ws_batch request σ running :
      worker_step (σ, running)
        ((BatchWriteItemQueryPlanFor request σ).2,
         running ++ new_handles σ (BatchWriteItemQueryPlanFor request σ).2)
  | ws_set_key table key h w running :
      worker_step ((h, w), running) ((Helper_SetPartitionKeyName table key h, w), running)
  | ws_client plan σ running :
      worker_step (σ, running) ((NewDynamoDBForQueryPlan plan σ).2, running)
  | ws_nodes n w' h w running :
      worker_step ((h, w), running) ((set_helper_nodes n h, w'), running)
  | ws_learn table σ running :
      table ∈ running →
      worker_step (σ, running) ((UpdatePartitionKeyName table σ).2, running)
  | ws_end table h w running1 running2 :
      worker_step ((h, w), running1 ++ table :: running2)
        ((discovery_done table h, w), running1 ++ running2).

(** No table twice among the running threads, [in_progress] holds exactly
    their tables, and each has a handle. *)
Record workers_inv (x : worker_system) : Prop := {
  wi_once : NoDup x.2;
  wi_in_progress : in_progress x.1.1 = list_to_set x.2;
  wi_handles : x.2 ⊆+ workers x.1.1;
}.

Lemma workers_inv_starts σ σ' started running :
  starts σ σ' started → workers_inv (σ, running) →
  workers_inv (σ', running ++ new_handles σ σ').
Proof.
  intros (Ew & ND & Hn & Ei) [Ho Hp Hh]. simpl in *.
  assert (new_handles σ σ' = started) as ->.
  { unfold new_handles. rewrite Ew. apply drop_app_length. }
  split; simpl.
  - apply NoDup_app. split_and!; [done| |done]. intros t Ht Hs. apply (Hn t Hs).
    rewrite Hp. by apply elem_of_list_to_set.
  - by rewrite Ei, Hp, list_to_set_app_L.
  - rewrite Ew. by apply submseteq_app.
Qed.
Lemma workers_inv_quiet σ σ' running :
  in_progress σ'.1 = in_progress σ.1 → workers σ'.1 = workers σ.1 →
  workers_inv (σ, running) → workers_inv (σ', running).
Proof. intros Ei Ew [Ho Hp Hh]. split; simpl in *; by rewrite ?Ei, ?Ew. Qed.

Lemma discover_loop_quiet n backoff table σ :
  in_progress (discover_loop n backoff table σ).2.1 = in_progress σ.1 ∧
  workers (discover_loop n backoff table σ).2.1 = workers σ.1.
Proof.
  revert backoff σ. induction n as [|n IH]; intros backoff [h w]; [done|].
  cbn [discover_loop]. unfold DiscoverPartitionKeyName, mbind, M_bind, zoom, mret, M_ret.
  destruct (DescribeTable (c_str table) (helper_nodes h, w)) as [[o|e] [n' w']]; [|done].
  destruct (negb _); [done|]. case_bool_decide; [done|].
  destruct (0 <? backoff); [|apply (IH backoff (set_helper_nodes n' h, w'))].
  apply (IH (backoff * 2) (set_helper_nodes n' h, sleep_for backoff w')).
Qed.
Lemma Update_quiet table σ :
  in_progress (UpdatePartitionKeyName table σ).2.1 = in_progress σ.1 ∧
  workers (UpdatePartitionKeyName table σ).2.1 = workers σ.1.
Proof.
  unfold UpdatePartitionKeyName. case_bool_decide; [done|]. apply discover_loop_quiet.
Qed.

Lemma workers_inv_step x y : worker_step x y → workers_inv x → workers_inv y.
Proof.
  intros [z σ running|request σ running|table key h w running|plan σ running|n w' h w running
    |table σ running _|table h w r1 r2].
  - destruct (spawns_write z σ) as [started Hs]. by eapply workers_inv_starts.
  - destruct (spawns_batch request σ) as [started Hs]. by eapply workers_inv_starts.
  - by apply workers_inv_quiet.
  - apply workers_inv_quiet; destruct σ as [h w];
      unfold NewDynamoDBForQueryPlan, NewDynamoDBForNode, mbind, M_bind, lift_result, gets;
      destruct (QueryPlan_Next plan).1 as [u|]; try done; destruct (Url_Empty u); try done;
      cbn [fst]; destruct (fixed_clients_ h !! _) as [[]|]; done.
  - by apply workers_inv_quiet.
  - destruct (Update_quiet table σ). by apply workers_inv_quiet.
  - intros [Ho Hp Hh]. simpl in *. rewrite NoDup_app, NoDup_cons in Ho.
    destruct Ho as (ND1 & Hd & Hn & ND2). split; simpl.
    + apply NoDup_app. split_and!; [done| |done]. intros t Ht Ht2. apply (Hd t Ht). by right.
    + rewrite Hp, !list_to_set_app_L, list_to_set_cons.
      assert (table ∉ r1) by (intros Ht; apply (Hd table Ht); by left).
      apply leibniz_equiv. intros t.
      rewrite elem_of_difference, !elem_of_union, !elem_of_list_to_set, !elem_of_singleton.
      split; [tauto|]. intros Ht. split; [tauto|]. intros ->. tauto.
    + etrans; [|exact Hh]. apply submseteq_app; [done|]. by apply submseteq_cons.
Qed.

Lemma workers_inv_make initial config (w : W) h w' x :
  DynamoDBHelper_make initial config w = (Ok h, w') →
  rtc worker_step ((h, w'), []) x → workers_inv x.
Proof.
  intros E. assert (workers_inv ((h, w'), [])) as H0'.
  { unfold DynamoDBHelper_make in E. destruct (AlternatorLiveNodes_make _ _ _) as [[n|] ?]; [|done].
    simplify_eq. split; simpl; [constructor|done|done]. }
  revert H0'. generalize ((h, w'), @nil string). clear E.
  intros y Hy Hr. induction Hr as [|? ? ? Hs _ IH]; [done|].
  apply IH. by eapply workers_inv_step.
Qed.

(** ** Discoveries that fail *)

(** A write that misses the table's key name, and the thread it starts. *)
Definition discovery_round (table : string) : M (DynamoDBHelper * W) unit :=
  _ ← TriggerPartitionKeyDiscovery table;
  discovery_worker table.

Lemma discover_loop_fails n backoff table σ :
  (∀ t σ, (DescribeTable t σ).1 = Ok None) →
  (discover_loop n backoff table σ).1 = Ok false ∧
  partition_keys_ (discover_loop n backoff table σ).2.1 = partition_keys_ σ.1.
Proof.
  intros Hf. revert backoff σ. induction n as [|n IH]; intros backoff [h w]; [done|].
  cbn [discover_loop]. unfold DiscoverPartitionKeyName, mbind, M_bind, zoom, mret, M_ret.
  specialize (Hf (c_str table) (helper_nodes h, w)).
  destruct (DescribeTable (c_str table) (helper_nodes h, w)) as [r [n' w']]. simpl in Hf. subst r.
  cbn [negb]. case_bool_decide; [|done]. cbn [negb]. case_bool_decide; [done|].
  destruct (0 <? backoff); [|apply (IH backoff (set_helper_nodes n' h, w'))].
  apply (IH (backoff * 2) (set_helper_nodes n' h, sleep_for backoff w')).
Qed.

Lemma discovery_round_run table h w :
  (∀ t σ, (DescribeTable t σ).1 = Ok None) → (∀ w, (create_thread w).1 = true) →
  table ≠ "" → Helper_GetPartitionKeyName table h = "" → table ∉ in_progress h →
  ∃ h' w', discovery_round table (h, w) = (Ok tt, (h', w')) ∧
    workers h' = workers h ++ [table] ∧ in_progress h' = in_progress h ∧
    Helper_GetPartitionKeyName table h' = "".
Proof.
  intros Hf Hc Hne Hk Hp. unfold discovery_round, TriggerPartitionKeyDiscovery.
  unfold mbind, M_bind, gets. cbn [fst].
  rewrite (bool_decide_eq_false_2 (table = "")), (bool_decide_eq_true_2 (_ = "")) by done.
  cbn [orb negb]. rewrite bool_decide_eq_false_2 by done.
  unfold update_helper, modify, on_world. cbn [fst snd].
  specialize (Hc w). destruct (create_thread w) as [created w1]. simpl in Hc. subst created.
  unfold discovery_worker, try_catch, UpdatePartitionKeyName.
  rewrite bool_decide_eq_false_2 by done. unfold mbind, M_bind, gets, update_helper, modify, mret, M_ret.
  cbn [fst snd]. set (h1 := set_discovery _ _ _).
  set (loop := discover_loop _ _ table).
  destruct (discover_loop_fails (Z.to_nat (partition_key_discovery_attempts
      (key_route_affinity (helper_config h1))))
    (partition_key_discovery_initial_backoff (key_route_affinity (helper_config h1))) table (h1, w1) Hf)
    as [Er Ek].
  destruct (discover_loop_quiet (Z.to_nat (partition_key_discovery_attempts
      (key_route_affinity (helper_config h1))))
    (partition_key_discovery_initial_backoff (key_route_affinity (helper_config h1))) table (h1, w1))
    as [Ei Ew].
  fold loop in Er, Ek, Ei, Ew. destruct (loop (h1, w1)) as [r [h2 w2]]. simpl in Er, Ek, Ei, Ew.
  subst r. eexists _, w2. split; [done|]. simpl. rewrite Ew, Ei. split_and!; [done|set_solver|].
  unfold Helper_GetPartitionKeyName in *. simpl. by rewrite Ek.
Qed.

Lemma discovery_rounds_run n table h w :
  (∀ t σ, (DescribeTable t σ).1 = Ok None) → (∀ w, (create_thread w).1 = true) →
  table ≠ "" → Helper_GetPartitionKeyName table h = "" → table ∉ in_progress h →
  ∃ l h' w', repeat_m n (discovery_round table) (h, w) = (Ok l, (h', w')) ∧
    workers h' = workers h ++ replicate n table ∧ in_progress h' = in_progress h.
Proof.
  intros Hf Hc Hne. revert h w. induction n as [|n IH]; intros h w Hk Hp.
  { eexists _, h, w. split_and!; [done|by rewrite app_nil_r|done]. }
  destruct (discovery_round_run table h w Hf Hc Hne Hk Hp) as (h1 & w1 & E1 & Ew1 & Ei1 & Ek1).
  destruct (IH h1 w1 Ek1) as (l & h2 & w2 & E2 & Ew2 & Ei2); [by rewrite Ei1|].
  cbn [repeat_m]. unfold mbind, M_bind. rewrite E1, E2. eexists _, h2, w2. split; [done|].
  rewrite Ew2, Ew1, Ei2, Ei1. by rewrite <-app_assoc.
Qed.
End workers.
