(* ===== verification/AwsHttpClient.v ===== *)
(** The HTTP client the helper installs in the AWS SDK (first half of
    src/aws_dynamodb_helper.cpp): choosing the node of an attempt, rewriting the
    request, compressing its body, trimming its headers, decoding the
    response and reporting the result; and the request hooks of
    include/scylladb/alternator/aws/dynamodb_helper.h.

    The SDK's URIs, requests and responses are the class [AwsHttp] of the methods
    the code calls; [AwsHttpLaws] states what the SDK's headers say of them. A
    [shared_ptr] is an [option]. A request is changed in place: functions that
    take one return it as they leave it. *)
From S2P Require Import Prelude Uri Effects Streams RoutingScope NodeHealth QueryPlan.
From S2P Require Import KeyRouteAffinity HttpCompression Config LiveNodes DynamoDBHelper.

(** ** The SDK *)

Inductive aws_scheme := HTTP | HTTPS.
#[global] Instance aws_scheme_eq_dec : EqDecision aws_scheme.
Proof. solve_decision. Defined.

Definition REQUEST_NOT_MADE : Z := -1.
Definition NETWORK_READ_TIMEOUT : Z := 598.
Definition NETWORK_CONNECT_TIMEOUT : Z := 599.
Definition HOST_HEADER : string := "host".
Definition ACCEPT_ENCODING_HEADER : string := "accept-encoding".
Definition CONTENT_ENCODING_HEADER : string := "content-encoding".
Definition CONTENT_LENGTH_HEADER : string := "content-length".
Definition TRANSFER_ENCODING_HEADER : string := "transfer-encoding".
Definition SDK_REQUEST_HEADER : string := "amz-sdk-request".

(** [update_uri] is what assignments through the reference [GetUri] returns do to
    the request, [update_body] and [update_response_body] what using the
    streams does. *)
Class AwsHttp := {
  aws_uri : Type;
  GetHost : aws_uri → string;
  GetPort : aws_uri → N;
  GetScheme : aws_uri → aws_scheme;
  SetScheme : aws_scheme → aws_uri → aws_uri;
  SetAuthority : string → aws_uri → aws_uri;
  SetPort : N → aws_uri → aws_uri;
  aws_request : Type;
  GetUri : aws_request → aws_uri;
  update_uri : aws_uri → aws_request → aws_request;
  HasHeader : string → aws_request → bool;
  GetHeaderValue : string → aws_request → string;
  SetHeaderValue : string → string → aws_request → aws_request;
  DeleteHeader : string → aws_request → aws_request;
  GetHeaders : aws_request → list (string * string);
  GetContentBody : aws_request → option iostream;
  update_body : iostream → aws_request → aws_request;
  AddContentBody : iostream → aws_request → aws_request;
  IsEventStreamRequest : aws_request → bool;
  aws_response : Type;
  HasClientError : aws_response → bool;
  GetResponseCode : aws_response → Z;
  HasResponseHeader : string → aws_response → bool;
  GetResponseHeader : string → aws_response → string;
  GetResponseHeaders : aws_response → list (string * string);
  GetResponseBody : aws_response → iostream;
  MakeStandardHttpResponse : aws_request → aws_response;
  SetResponseCode : Z → aws_response → aws_response;
  AddHeader : string → string → aws_response → aws_response;
  update_response_body : iostream → aws_response → aws_response;
}.

Section sdk_shorthands.
Context `{AwsHttp}.
(** The methods of [HttpRequest] named after a header. *)
Definition SetAcceptEncoding (v : string) : aws_request → aws_request :=
  SetHeaderValue ACCEPT_ENCODING_HEADER v.
Definition SetContentEncoding (v : string) : aws_request → aws_request :=
  SetHeaderValue CONTENT_ENCODING_HEADER v.
Definition SetContentLength (v : string) : aws_request → aws_request :=
  SetHeaderValue CONTENT_LENGTH_HEADER v.
Definition HasTransferEncoding : aws_request → bool := HasHeader TRANSFER_ENCODING_HEADER.
Definition HasContentEncoding : aws_request → bool := HasHeader CONTENT_ENCODING_HEADER.
End sdk_shorthands.

(** ** Endpoints *)

Definition kEndpointOverrideHost : string := "dynamodb.fake.alternator.cluster.node".

Record HeaderOptimizationPolicy := mkPolicy {
  enabled : bool;
  allowed_headers : gset string;
}.

Definition AwsScheme (scheme : string) : aws_scheme :=
  if bool_decide (scheme = "https") then HTTPS else HTTP.

Definition BracketIPv6Host (host : string) : string :=
  if string_has ":" host && (bool_decide (host = "") || negb (string_front_is "[" host))
  then "[" +:+ host +:+ "]" else host.

(** [pop_back], and [back() == c]. *)
Fixpoint pop_back (s : string) : string :=
  match s with
  | EmptyString => EmptyString
  | String c s => match s with EmptyString => EmptyString | _ => String c (pop_back s) end
  end.
Fixpoint string_back_is (c : ascii) (s : string) : bool :=
  match s with
  | EmptyString => false
  | String d s => match s with EmptyString => bool_decide (c = d) | _ => string_back_is c s end
  end.
Definition UnbracketHost (host : string) : string :=
  if (2 <=? String.length host)%nat && string_front_is "[" host && string_back_is "]" host
  then pop_back (sdrop 1 host) else host.

Definition SameEndpointHost (lhs rhs : string) : bool :=
  bool_decide (UnbracketHost lhs = UnbracketHost rhs).

Definition EndpointOverride (port : N) (scheme : string) : string :=
  scheme +:+ "://" +:+ kEndpointOverrideHost +:+ ":" +:+ pretty port.

Section endpoints.
Context `{AwsHttp}.

Definition IsAlternatorEndpoint (uri : aws_uri) (nodes : AlternatorLiveNodes)
    (endpoint_override_port : N) : bool :=
  let host := c_str (GetHost uri) in
  let port := GetPort uri in
  if SameEndpointHost host kEndpointOverrideHost && bool_decide (port = endpoint_override_port)
  then true
  else existsb (λ node, SameEndpointHost host (url_host node) && bool_decide (port = url_port node))
         (GetNodes nodes).

Definition UrlFromAwsUri (uri : aws_uri) : Url :=
  Url_make (if bool_decide (GetScheme uri = HTTPS) then "https" else "http")
    (c_str (GetHost uri)) (GetPort uri).

Definition RewriteRequestEndpoint (request : aws_request) (node : Url) : aws_request :=
  let uri := GetUri request in
  let uri := SetScheme (AwsScheme (url_scheme node)) uri in
  let uri := SetAuthority (c_str (BracketIPv6Host (url_host node))) uri in
  let uri := SetPort (url_port node) uri in
  SetHeaderValue HOST_HEADER (c_str (Authority node)) (update_uri uri request).

Definition ObservationFromHttpResult (response : option aws_response) : NodeHealthObservation :=
  match response with
  | None => ConnectionFailure
  | Some response =>
      if HasClientError response then ConnectionFailure
      else
        let code := GetResponseCode response in
        if (code =? REQUEST_NOT_MADE) || (code =? NETWORK_CONNECT_TIMEOUT) ||
           (code =? NETWORK_READ_TIMEOUT) then ConnectionFailure
        else if 500 <=? code then ServerError
        else Success
  end.

(** ** Bodies *)

Definition ReadResponseBody (body : iostream) : string * iostream :=
  read_buffer (seekg_beg (clear body)).

Definition WriteResponseBody (value : string) (body : iostream) : iostream :=
  let body := if bool_decide (value = "") then body else write value body in
  seekg_beg (clear body).

Definition RewindForReading (body : iostream) (description : string) : result iostream :=
  let body := seekg_beg (clear body) in
  if fail body then Throw (RuntimeError (description +:+ " is not seekable")) else Ok body.

Definition PrepareOriginalRequestBodyForReading (body : iostream) : result (nat * iostream) :=
  let body := seekg_end (clear body) in
  if fail body then Throw (RuntimeError "HTTP request body is not seekable")
  else
    let '(size, body) := tellg body in
    match size with
    | None => Throw (RuntimeError "HTTP request body size is unavailable")
    | Some size => body ← RewindForReading body "HTTP request body"; Ok (size, body)
    end.

Definition PrepareCompressedRequestBodyForReading (body : iostream) : result (nat * iostream) :=
  match tellp body with
  | None => Throw (RuntimeError "compressed HTTP request body size is unavailable")
  | Some size => body ← RewindForReading body "compressed HTTP request body"; Ok (size, body)
  end.

(** ** Requests *)

Definition CompressAwsRequestBody (request : aws_request)
    (request_compressor : option HttpRequestCompressor) (request_content_encoding : string)
    : result aws_request :=
  match request_compressor, GetContentBody request with
  | Some compressor, Some original_body =>
      if bool_decide (request_content_encoding = "") || IsEventStreamRequest request ||
         HasTransferEncoding request || HasContentEncoding request then Ok request
      else
        '(original_body_size, original_body) ← PrepareOriginalRequestBodyForReading original_body;
        let '(compressed, (original_body, compressed_body)) :=
          Compress compressor (Z.of_nat original_body_size) (original_body, stringstream "") in
        compressed ← compressed;
        let request := update_body original_body request in
        if negb compressed then
          original_body ← RewindForReading original_body "HTTP request body";
          Ok (update_body original_body request)
        else
          '(compressed_body_size, compressed_body) ←
            PrepareCompressedRequestBodyForReading compressed_body;
          let request := SetContentEncoding (c_str request_content_encoding) request in
          let request := SetContentLength (pretty (N.of_nat compressed_body_size)) request in
          let request := AddContentBody compressed_body request in
          Ok (DeleteHeader "x-amz-content-sha256" request)
  | _, _ => Ok request
  end.

(** The loop that drops the headers of the coded body, and the three writes after
    it. *)
Definition keep_response_header (response : aws_response) (header : string * string)
    : aws_response :=
  let header_name := ToLowerAscii (c_str header.1) in
  if bool_decide (header_name = CONTENT_ENCODING_HEADER) ||
     bool_decide (header_name = CONTENT_LENGTH_HEADER)
  then response else AddHeader header.1 header.2 response.

Definition DecodeCompressedAwsResponse (request : aws_request) (response : option aws_response)
    (content_encoding_decoders : list (option HttpContentEncodingDecoder))
    : result (option aws_response) :=
  match response with
  | None => Ok None
  | Some response =>
      if HasClientError response || negb (HasResponseHeader CONTENT_ENCODING_HEADER response)
      then Ok (Some response)
      else
        let content_encoding := c_str (GetResponseHeader CONTENT_ENCODING_HEADER response) in
        decoded_body ← DecodeHttpResponseBody (ReadResponseBody (GetResponseBody response)).1
                         content_encoding content_encoding_decoders;
        let decoded := SetResponseCode (GetResponseCode response) (MakeStandardHttpResponse request) in
        let decoded := foldl keep_response_header decoded (GetResponseHeaders response) in
        let decoded := AddHeader CONTENT_LENGTH_HEADER
          (pretty (N.of_nat (String.length decoded_body))) decoded in
        Ok (Some (update_response_body
          (WriteResponseBody decoded_body (GetResponseBody decoded)) decoded))
  end.

Fixpoint skip_blanks (s : string) : string :=
  match s with
  | String c s' => if bool_decide (c = " "%char) then skip_blanks s' else s
  | EmptyString => s
  end.
(** What follows the first occurrence of [marker]. *)
Fixpoint after_marker (marker s : string) : option string :=
  if is_prefix marker s then Some (sdrop (String.length marker) s)
  else match s with EmptyString => None | String _ s => after_marker marker s end.

Definition IsFirstSdkAttempt (request : aws_request) : bool :=
  if negb (HasHeader SDK_REQUEST_HEADER request) then false
  else match after_marker "attempt=" (GetHeaderValue SDK_REQUEST_HEADER request) with
       | None => false
       | Some value => string_front_is "1" (skip_blanks value)
       end.

Definition NormalizeHeaderAllowlist (headers : list string) : gset string :=
  list_to_set (map ToLowerAscii headers).

Definition HeaderOptimizationContextFromConfig (config : Config) : HeaderOptimizationContext :=
  mkHeaderContext
    (negb (bool_decide (access_key_id (credentials config) = "")) ||
     negb (bool_decide (secret_access_key (credentials config) = "")))
    (negb (bool_decide (user_agent config = ""))).

Definition BuildHeaderOptimizationPolicy (config : Config) : HeaderOptimizationPolicy :=
  match header_optimization config with
  | None => mkPolicy false ∅
  | Some optimization =>
      let headers := optimization (HeaderOptimizationContextFromConfig config) in
      let headers := match request_compressor config with
                     | None => headers
                     | Some _ => headers ++ [CONTENT_ENCODING_HEADER; CONTENT_LENGTH_HEADER]
                     end in
      mkPolicy true (NormalizeHeaderAllowlist headers)
  end.

Definition header_allowed (policy : HeaderOptimizationPolicy) (name : string) : bool :=
  bool_decide (ToLowerAscii (c_str name) ∈ allowed_headers policy).
Definition OptimizeRequestHeaders (request : aws_request) (policy : HeaderOptimizationPolicy)
    : aws_request :=
  if negb (enabled policy) then request
  else foldl (λ request header,
         if header_allowed policy header.1 then request
         else DeleteHeader (c_str header.1) request)
       request (GetHeaders request).
End endpoints.

(** ** The client *)

Record AlternatorHttpClient := mkHttpClient {
  endpoint_override_port : N;
  client_compressor : option HttpRequestCompressor;
  request_content_encoding : string;
  client_decoders : list (option HttpContentEncodingDecoder);
  accept_encoding_value : string;
  client_policy : HeaderOptimizationPolicy;
}.

(** The constructor; the two flags say whether the live nodes and the delegate
    are there. *)
Definition AlternatorHttpClient_make (nodes delegate : bool) (port : N)
    (compressor : option HttpRequestCompressor)
    (decoders : list (option HttpContentEncodingDecoder)) (policy : HeaderOptimizationPolicy)
    : result AlternatorHttpClient :=
  content_encoding ← BuildRequestContentEncodingValue compressor;
  accept_encoding ← BuildAcceptEncodingValue decoders;
  if negb nodes then Throw (InvalidArgument "nodes must not be null")
  else if negb delegate then Throw (InvalidArgument "delegate must not be null")
  else Ok (mkHttpClient port compressor content_encoding decoders accept_encoding policy).

(** The factory keeps the arguments of the clients it creates. *)
Record AlternatorHttpClientFactory := mkFactory {
  factory_port : N;
  factory_compressor : option HttpRequestCompressor;
  factory_decoders : list (option HttpContentEncodingDecoder);
  factory_policy : HeaderOptimizationPolicy;
}.
Definition AlternatorHttpClientFactory_make (nodes : bool) (port : N)
    (compressor : option HttpRequestCompressor)
    (decoders : list (option HttpContentEncodingDecoder)) (policy : HeaderOptimizationPolicy)
    : result AlternatorHttpClientFactory :=
  if negb nodes then Throw (InvalidArgument "nodes must not be null")
  else Ok (mkFactory port compressor decoders policy).
Definition CreateHttpClient (f : AlternatorHttpClientFactory) : result AlternatorHttpClient :=
  AlternatorHttpClient_make true true (factory_port f) (factory_compressor f)
    (factory_decoders f) (factory_policy f).

Definition NewAlternatorHttpClientFactory (nodes : bool) (port : N)
    (compressor : option HttpRequestCompressor)
    (decoders : list (option HttpContentEncodingDecoder)) (policy : HeaderOptimizationPolicy)
    : result AlternatorHttpClientFactory :=
  AlternatorHttpClientFactory_make nodes port compressor decoders policy.

(** [NewHttpClientFactory], and the function [ApplyToSDKOptions] leaves in the
    options of the SDK. *)
Definition NewHttpClientFactory (config : Config) : result AlternatorHttpClientFactory :=
  NewAlternatorHttpClientFactory true (port config) (request_compressor config)
    (content_encoding_decoders config) (BuildHeaderOptimizationPolicy config).
Definition ApplyToSDKOptions (config : Config) : unit → result AlternatorHttpClientFactory :=
  let policy := BuildHeaderOptimizationPolicy config in
  λ _, NewAlternatorHttpClientFactory true (port config) (request_compressor config)
         (content_encoding_decoders config) policy.

(** [Aws::DynamoDB::DynamoDBClientConfiguration], the fields that are set. *)
Record ClientConfiguration := mkClientConfiguration {
  cc_region : string;
  cc_scheme : aws_scheme;
  cc_verifySSL : bool;
  cc_maxConnections : Z;
  cc_connectTimeoutMs : Z;
  cc_httpRequestTimeoutMs : Z;
  cc_requestTimeoutMs : Z;
  cc_endpointOverride : string;
  cc_caFile : option string;
  cc_userAgent : option string;
}.
Definition NewClientConfiguration (config : Config) : ClientConfiguration := {|
  cc_region := c_str (aws_region config);
  cc_scheme := AwsScheme (scheme config);
  cc_verifySSL := verify_ssl config;
  cc_maxConnections := max_connections config;
  cc_connectTimeoutMs := connect_timeout config;
  cc_httpRequestTimeoutMs := http_client_timeout config;
  cc_requestTimeoutMs := http_client_timeout config;
  cc_endpointOverride := c_str (EndpointOverride (port config) (scheme config));
  cc_caFile := if bool_decide (ca_file config = "") then None else Some (c_str (ca_file config));
  cc_userAgent :=
    if bool_decide (user_agent config = "") then None else Some (c_str (user_agent config));
|}.

Section attempts.
Context `{AwsHttp} {W : Type} `{World W}.

Definition SelectAttemptNode (request : option aws_request) (override_port : N)
    : M (AlternatorLiveNodes * W) (Url * option aws_request) :=
  match request with
  | None => mret (Url_default, None)
  | Some request =>
      alternator ← gets (λ σ, IsAlternatorEndpoint (GetUri request) σ.1 override_port);
      if negb alternator then mret (Url_default, Some request)
      else
        let current_node := UrlFromAwsUri (GetUri request) in
        if IsFirstSdkAttempt request &&
           negb (SameEndpointHost (url_host current_node) kEndpointOverrideHost)
        then mret (current_node, Some request)
        else
          node ← NextNode;
          mret (node, Some (if Url_Empty node then request
                            else RewriteRequestEndpoint request node))
  end.

(** [MakeRequest] up to the call of the delegate: the node, and the request as the
    delegate gets it. *)
Definition prepare_attempt (client : AlternatorHttpClient) (request : option aws_request)
    : M (AlternatorLiveNodes * W) (Url * option aws_request) :=
  selected ← SelectAttemptNode request (endpoint_override_port client);
  let '(node, request) := selected in
  match request with
  | None => mret (node, None)
  | Some request =>
      if Url_Empty node then mret (node, Some request)
      else
        let request :=
          if bool_decide (accept_encoding_value client = "") then request
          else SetAcceptEncoding (c_str (accept_encoding_value client)) request in
        request ← lift_result (CompressAwsRequestBody request (client_compressor client)
                    (request_content_encoding client));
        mret (node, Some (OptimizeRequestHeaders request (client_policy client)))
  end.

(** What follows the call of the delegate. *)
Definition finish_attempt (client : AlternatorHttpClient) (node : Url)
    (request : option aws_request) (response : option aws_response)
    : M (AlternatorLiveNodes * W) (option aws_response) :=
  if Url_Empty node then mret response
  else
    response ← lift_result (match request with
      | None => Ok response
      | Some request => DecodeCompressedAwsResponse request response (client_decoders client)
      end);
    _ ← ReportNodeResult node (ObservationFromHttpResult response);
    mret response.

(** [delegate] is the SDK's platform client with the rate limiters of the call. *)
Definition MakeRequest (delegate : option aws_request → W → option aws_response * W)
    (client : AlternatorHttpClient) (request : option aws_request)
    : M (AlternatorLiveNodes * W) (option aws_response) :=
  prepared ← prepare_attempt client request;
  let '(node, request) := prepared in
  response ← on_world (delegate request);
  finish_attempt client node request response.

(** ** The hooks of a request

    [AttachNodeErrorReporter] with live nodes to report to. The state is
    [*last_node] with the live nodes; an earlier handler is called after the
    new one. *)
Definition RequestSignedHandler (previous : option (aws_request → W → W)) (request : aws_request)
    : M ((Url * AlternatorLiveNodes) * W) unit :=
  let uri := GetUri request in
  let scheme := if bool_decide (GetScheme uri = HTTPS) then "https" else "http" in
  let port := if bool_decide (GetPort uri = 0%N)
              then (if bool_decide (GetScheme uri = HTTPS) then 443%N else 80%N)
              else GetPort uri in
  _ ← modify (λ '((_, s), w), ((Url_make scheme (c_str (GetHost uri)) port, s), w));
  match previous with
  | None => mret tt
  | Some handler => modify (λ '(s, w), (s, handler request w))
  end.

Definition RequestRetryHandler (previous : option (W → W))
    : M ((Url * AlternatorLiveNodes) * W) unit :=
  node ← gets (λ '((last_node, _), _), last_node);
  _ ← (if Url_Empty node then mret tt
       else zoom snd (λ n s, (s.1, n)) (ReportNodeResult node ServerError));
  match previous with
  | None => mret tt
  | Some handler => modify (λ '(s, w), (s, handler w))
  end.
End attempts.

(** ** What the SDK promises *)

Class AwsHttpLaws `{AwsHttp} := {
  port_SetPort p u : GetPort (SetPort p u) = p;
  host_SetPort p u : GetHost (SetPort p u) = GetHost u;
  scheme_SetScheme s u : GetScheme (SetScheme s u) = s;
  scheme_SetAuthority a u : GetScheme (SetAuthority a u) = GetScheme u;
  scheme_SetPort p u : GetScheme (SetPort p u) = GetScheme u;
  (** The SDK may keep or drop the brackets of an IPv6 literal. *)
  host_SetAuthority a u : UnbracketHost (GetHost (SetAuthority a u)) = UnbracketHost a;
  uri_update u r : GetUri (update_uri u r) = u;
  uri_SetHeaderValue n v r : GetUri (SetHeaderValue n v r) = GetUri r;
  uri_DeleteHeader n r : GetUri (DeleteHeader n r) = GetUri r;
  uri_update_body b r : GetUri (update_body b r) = GetUri r;
  uri_AddContentBody b r : GetUri (AddContentBody b r) = GetUri r;
  (** Header names are compared without case. *)
  headers_DeleteHeader n r :
    GetHeaders (DeleteHeader n r) =
    filter (λ h, ToLowerAscii h.1 ≠ ToLowerAscii n) (GetHeaders r);
  headers_SetHeaderValue n v r h : h ∈ GetHeaders (SetHeaderValue n v r) →
    h.1 = ToLowerAscii n ∨ h ∈ GetHeaders r;
  headers_update_uri u r : GetHeaders (update_uri u r) = GetHeaders r;
  headers_update_body b r : GetHeaders (update_body b r) = GetHeaders r;
  headers_AddContentBody b r : GetHeaders (AddContentBody b r) = GetHeaders r;
  value_SetHeaderValue n n' v r : TrimAscii v = v →
    GetHeaderValue n' (SetHeaderValue n v r) =
    if bool_decide (ToLowerAscii n = ToLowerAscii n') then v else GetHeaderValue n' r;
  value_DeleteHeader n n' r : ToLowerAscii n ≠ ToLowerAscii n' →
    GetHeaderValue n' (DeleteHeader n r) = GetHeaderValue n' r;
  value_AddContentBody n b r : GetHeaderValue n (AddContentBody b r) = GetHeaderValue n r;
  value_update_body n b r : GetHeaderValue n (update_body b r) = GetHeaderValue n r;
  body_AddContentBody b r : GetContentBody (AddContentBody b r) = Some b;
  body_DeleteHeader n r : GetContentBody (DeleteHeader n r) = GetContentBody r;
}.

(** ** Endpoints *)

Lemma c_str_app_plain s t : c_str s = s → c_str (s +:+ t) = s +:+ c_str t.
Proof.
  induction s as [|c s IH]; [done|]. rewrite !append_cons. cbn [c_str].
  case_match; [done|]. intros [= E]. by rewrite IH.
Qed.
Lemma c_str_idemp s : c_str (c_str s) = c_str s.
Proof. induction s as [|c s IH]; [done|]. cbn [c_str]. case_match eqn:E; [done|]. cbn [c_str]. by rewrite E, IH. Qed.

Lemma pop_back_snoc s c : pop_back (s +:+ String c "") = s.
Proof.
  induction s as [|d s IH]; [done|]. rewrite append_cons. cbn [pop_back].
  destruct (s +:+ String c "") eqn:E; [by destruct s|]. by rewrite IH.
Qed.
Lemma string_back_snoc s c : string_back_is c (s +:+ String c "") = true.
Proof.
  induction s as [|d s IH]; [by apply bool_decide_eq_true_2|]. rewrite append_cons.
  cbn [string_back_is]. destruct (s +:+ String c "") eqn:E; [by destruct s|]. done.
Qed.

Lemma Unbracket_bracketed h : UnbracketHost ("[" +:+ h +:+ "]") = h.
Proof.
  unfold UnbracketHost. rewrite append_cons, append_empty_l. cbn [string_front_is sdrop].
  assert (2 <= String.length (String "[" (h +:+ "]")))%nat as Hl
    by (cbn [String.length]; rewrite string_length_app; cbn; lia).
  apply Nat.leb_le in Hl. rewrite Hl.
  assert (string_back_is "]" (String "[" (h +:+ "]")) = true) as ->
    by apply (string_back_snoc (String "[" h)).
  rewrite bool_decide_eq_true_2 by done. apply pop_back_snoc.
Qed.
Lemma Unbracket_front h : string_front_is "[" h = false → UnbracketHost h = h.
Proof. intros E. unfold UnbracketHost. by rewrite E, andb_false_r. Qed.
Lemma Unbracket_Bracket h : UnbracketHost (BracketIPv6Host h) = UnbracketHost h.
Proof.
  unfold BracketIPv6Host. destruct (string_has ":" h && _) eqn:E; [|done].
  rewrite Unbracket_bracketed. symmetry. apply Unbracket_front.
  apply andb_true_iff in E as [_ E]. apply orb_true_iff in E as [E|E].
  - apply bool_decide_eq_true in E. by subst.
  - by apply negb_true_iff in E.
Qed.
Lemma c_str_Bracket h : c_str h = h → c_str (BracketIPv6Host h) = BracketIPv6Host h.
Proof.
  intros E. unfold BracketIPv6Host. destruct (_ && _); [|done].
  rewrite c_str_app_plain by done. by rewrite c_str_app_plain.
Qed.

Section laws.
Context `{AwsHttpLaws} {W : Type} `{World W}.

(** The request goes to this node. *)
Definition sent_to (request : aws_request) (node : Url) : Prop :=
  GetScheme (GetUri request) = AwsScheme (url_scheme node) ∧
  UnbracketHost (GetHost (GetUri request)) = UnbracketHost (url_host node) ∧
  GetPort (GetUri request) = url_port node.

Lemma AwsScheme_of (sch : aws_scheme) :
  sch = AwsScheme (if bool_decide (sch = HTTPS) then "https" else "http").
Proof. by destruct sch. Qed.
Lemma sent_to_uri r r' node : GetUri r' = GetUri r → sent_to r node → sent_to r' node.
Proof. unfold sent_to. by intros ->. Qed.

Lemma RewriteRequestEndpoint_sent request node :
  c_str (url_host node) = url_host node → sent_to (RewriteRequestEndpoint request node) node.
Proof.
  intros E. unfold sent_to, RewriteRequestEndpoint.
  rewrite uri_SetHeaderValue, uri_update, port_SetPort, host_SetPort, host_SetAuthority.
  rewrite scheme_SetPort, scheme_SetAuthority, scheme_SetScheme.
  by rewrite c_str_Bracket, Unbracket_Bracket.
Qed.

Lemma CompressAwsRequestBody_uri request compressor encoding r' :
  CompressAwsRequestBody request compressor encoding = Ok r' → GetUri r' = GetUri request.
Proof.
  unfold CompressAwsRequestBody. destruct compressor as [c|]; [|by intros [= <-]].
  destruct (GetContentBody request) as [b|]; [|by intros [= <-]].
  destruct (_ || _); [by intros [= <-]|].
  destruct (PrepareOriginalRequestBodyForReading b) as [[n b1]|]; [|done]. cbn.
  destruct (Compress c (Z.of_nat n) (b1, stringstream "")) as [[[|]|e] [b2 b3]]; cbn; [| |done].
  - destruct (PrepareCompressedRequestBodyForReading b3) as [[m b4]|]; [|done]. cbn. intros [= <-].
    unfold SetContentEncoding, SetContentLength.
    by rewrite uri_DeleteHeader, uri_AddContentBody, !uri_SetHeaderValue, uri_update_body.
  - destruct (RewindForReading b2 _); [|done]. cbn. intros [= <-]. by rewrite !uri_update_body.
Qed.

Lemma delete_headers_uri policy (headers : list (string * string)) request :
  GetUri (foldl (λ request header, if header_allowed policy header.1 then request
    else DeleteHeader (c_str header.1) request) request headers) = GetUri request.
Proof.
  revert request. induction headers as [|h headers IH]; intros request; [done|].
  cbn [foldl]. rewrite IH. destruct (header_allowed _ _); [done|apply uri_DeleteHeader].
Qed.
Lemma OptimizeRequestHeaders_uri request policy :
  GetUri (OptimizeRequestHeaders request policy) = GetUri request.
Proof. unfold OptimizeRequestHeaders. destruct (enabled policy); [apply delete_headers_uri|done]. Qed.

(** The node of an attempt is where its request goes. *)
Lemma prepare_attempt_sent client request s w node r' σ :
  c_str (GetHost (GetUri request)) = GetHost (GetUri request) →
  prepare_attempt client (Some request) (s, w) = (Ok (node, r'), σ) →
  Url_Empty node = false → c_str (url_host node) = url_host node →
  ∃ r, r' = Some r ∧ sent_to r node.
Proof.
  intros Hh E Hne Hn. unfold prepare_attempt, mbind, M_bind in E.
  destruct (SelectAttemptNode (Some request) _ (s, w)) as [[[node1 r1]|] σ1] eqn:Es; [|done].
  assert (∀ r, r1 = Some r → node1 = node → sent_to r node) as Hsel.
  { intros r -> ->. unfold SelectAttemptNode, mbind, M_bind, gets in Es.
    destruct (negb (IsAlternatorEndpoint _ _ _)); [injection Es as <- _ _; done|].
    destruct (_ && _); [injection Es as <- <- _; split_and!; [apply AwsScheme_of|cbn; by rewrite Hh|done]|].
    destruct (NextNode (s, w)) as [[n|] σ2]; [|done].
    injection Es as <- <- _. rewrite Hne. by apply RewriteRequestEndpoint_sent. }
  destruct r1 as [r1|]; [|exfalso].
  2: { simplify_eq. unfold SelectAttemptNode, mbind, M_bind, gets in Es.
       destruct (negb _); [by simplify_eq|]. destruct (_ && _); [done|].
       by destruct (NextNode (s, w)) as [[n|] σ2]. }
  destruct (Url_Empty node1) eqn:Ee; [injection E as -> _ _; congruence|]. unfold lift_result in E.
  destruct (CompressAwsRequestBody _ _ _) as [r2|] eqn:Ec; [|done]. injection E as -> <- _.
  eexists. split; [done|]. eapply sent_to_uri; [|apply Hsel; done].
  rewrite OptimizeRequestHeaders_uri, (CompressAwsRequestBody_uri _ _ _ _ Ec).
  case_bool_decide; [done|apply uri_SetHeaderValue].
Qed.

(** ** Headers *)

Definition clean_names (request : aws_request) : Prop :=
  Forall (λ h, c_str h.1 = h.1) (GetHeaders request).

Lemma delete_headers_allowed policy todo request :
  (∀ h, h ∈ GetHeaders request → header_allowed policy h.1 = true ∨ h ∈ todo ∧ c_str h.1 = h.1) →
  ∀ h, h ∈ GetHeaders (foldl (λ request header,
      if header_allowed policy header.1 then request
      else DeleteHeader (c_str header.1) request) request todo) →
    header_allowed policy h.1 = true ∧ h ∈ GetHeaders request.
Proof.
  revert request. induction todo as [|x todo IH]; intros request Hr h Hh; cbn [foldl] in Hh.
  { destruct (Hr h Hh) as [?|[Hin _]]; [done|]. by apply elem_of_nil in Hin. }
  destruct (header_allowed policy x.1) eqn:Ex.
  - apply IH in Hh; [done|]. intros h' Hh'. destruct (Hr h' Hh') as [?|[Hin ?]]; [by left|].
    apply elem_of_cons in Hin as [->|?]; [by left|by right].
  - apply IH in Hh as [Ha Hh].
    + split; [done|]. rewrite headers_DeleteHeader in Hh. by apply list_elem_of_filter in Hh as [_ ?].
    + intros h' Hh'. rewrite headers_DeleteHeader in Hh'.
      apply list_elem_of_filter in Hh' as [Hn Hh']. destruct (Hr h' Hh') as [?|[Hin Hc]]; [by left|].
      apply elem_of_cons in Hin as [->|?]; [|by right]. by rewrite Hc in Hn.
Qed.

(** With a policy, what is left was there before and is on the list. *)
Lemma OptimizeRequestHeaders_allowed request policy :
  enabled policy = true → clean_names request →
  ∀ h, h ∈ GetHeaders (OptimizeRequestHeaders request policy) →
    header_allowed policy h.1 = true ∧ h ∈ GetHeaders request.
Proof.
  intros Ee Hc. unfold OptimizeRequestHeaders. rewrite Ee. cbn [negb].
  apply delete_headers_allowed. intros h Hh. right. split; [done|].
  by apply (proj1 (Forall_forall _ _) Hc).
Qed.

Lemma clean_SetHeaderValue n v r :
  c_str (ToLowerAscii n) = ToLowerAscii n → clean_names r → clean_names (SetHeaderValue n v r).
Proof.
  intros Hn Hc. apply Forall_forall. intros h [E|Hh]%headers_SetHeaderValue; [by rewrite E|].
  by apply (proj1 (Forall_forall _ _) Hc).
Qed.
Lemma clean_DeleteHeader n r : clean_names r → clean_names (DeleteHeader n r).
Proof.
  unfold clean_names. rewrite headers_DeleteHeader, !Forall_forall.
  intros Hc h [_ Hh]%list_elem_of_filter. by apply Hc.
Qed.
Lemma clean_Compress request compressor encoding r' :
  CompressAwsRequestBody request compressor encoding = Ok r' → clean_names request → clean_names r'.
Proof.
  unfold CompressAwsRequestBody. destruct compressor as [c|]; [|by intros [= <-]].
  destruct (GetContentBody request) as [b|]; [|by intros [= <-]].
  destruct (_ || _); [by intros [= <-]|].
  destruct (PrepareOriginalRequestBodyForReading b) as [[n b1]|]; [|done]. cbn.
  destruct (Compress c (Z.of_nat n) (b1, stringstream "")) as [[[|]|e] [b2 b3]]; cbn; [| |done].
  - destruct (PrepareCompressedRequestBodyForReading b3) as [[m b4]|]; [|done]. cbn. intros [= <-] Hc.
    apply clean_DeleteHeader. unfold clean_names. rewrite headers_AddContentBody.
    do 2 (apply clean_SetHeaderValue; [done|]). unfold clean_names. by rewrite headers_update_body.
  - destruct (RewindForReading b2 _); [|done]. cbn. intros [= <-].
    unfold clean_names. by rewrite !headers_update_body.
Qed.

(** The selected request carries the headers it came with, and possibly a new
    host header. *)
Lemma SelectAttemptNode_clean request port s w node r' σ :
  clean_names request →
  SelectAttemptNode (Some request) port (s, w) = (Ok (node, Some r'), σ) → clean_names r'.
Proof.
  intros Hc Es. unfold SelectAttemptNode, mbind, M_bind, gets in Es.
  destruct (negb (IsAlternatorEndpoint _ _ _)); [by injection Es as _ <- _|].
  destruct (_ && _); [by injection Es as _ <- _|].
  destruct (NextNode (s, w)) as [[n|] σ2]; [|done]. injection Es as _ <- _.
  destruct (Url_Empty n); [done|]. apply clean_SetHeaderValue; [done|].
  unfold clean_names. by rewrite headers_update_uri.
Qed.

Lemma prepare_attempt_allowed client request s w node r' σ :
  enabled (client_policy client) = true → clean_names request →
  prepare_attempt client (Some request) (s, w) = (Ok (node, Some r'), σ) →
  Url_Empty node = false →
  ∀ h, h ∈ GetHeaders r' → header_allowed (client_policy client) h.1 = true.
Proof.
  intros Ee Hc E Hne. unfold prepare_attempt, mbind, M_bind in E.
  destruct (SelectAttemptNode (Some request) _ (s, w)) as [[[node1 [r1|]]|] σ1] eqn:Es; [|done..].
  apply SelectAttemptNode_clean in Es as Hc1; [|done].
  destruct (Url_Empty node1) eqn:E1; [injection E as -> _ _; congruence|]. unfold lift_result in E.
  destruct (CompressAwsRequestBody _ _ _) as [r2|] eqn:Ec; [|done]. injection E as _ <- _.
  intros h Hh. apply OptimizeRequestHeaders_allowed in Hh as [? _]; [done|done|].
  eapply clean_Compress; [exact Ec|]. case_bool_decide; [done|]. by apply clean_SetHeaderValue.
Qed.

(** ** Reporting *)

Lemma ReportNodeResult_ok (node : Url) o (σ : AlternatorLiveNodes * W) :
  (ReportNodeResult node o σ).1 = Ok tt.
Proof.
  destruct σ as [s w]. unfold ReportNodeResult, MarkActivity, zoom, Store_Report, mbind, M_bind,
    on_world, state_op, gets, modify, mret, M_ret.
  repeat (case_match; simplify_eq/=; try done).
Qed.

(** What an attempt leaves of the live nodes. *)
Lemma MakeRequest_eq delegate client request s w node r' s1 w1 :
  prepare_attempt client (Some request) (s, w) = (Ok (node, Some r'), (s1, w1)) →
  Url_Empty node = false →
  MakeRequest delegate client (Some request) (s, w) =
  (let '(response, w2) := delegate (Some r') w1 in
   match DecodeCompressedAwsResponse r' response (client_decoders client) with
   | Throw e => (Throw e, (s1, w2))
   | Ok decoded =>
       (Ok decoded, (ReportNodeResult node (ObservationFromHttpResult decoded) (s1, w2)).2)
   end).
Proof.
  intros E Hne. unfold MakeRequest, mbind, M_bind. rewrite E. unfold on_world.
  destruct (delegate (Some r') w1) as [response w2]. unfold finish_attempt. rewrite Hne.
  unfold mbind, M_bind, lift_result.
  destruct (DecodeCompressedAwsResponse _ _ _) as [decoded|e]; [|done].
  pose proof (ReportNodeResult_ok node (ObservationFromHttpResult decoded) (s1, w2)) as Hr.
  by destruct (ReportNodeResult _ _ _) as [r σ]; cbn in Hr; subst r.
Qed.

(** An attempt keeps every predicate that the operations of the live nodes keep. *)
Lemma prepare_attempt_keeps (I : AlternatorLiveNodes → Prop) (HI : stable I) client request :
  preserves (λ σ : AlternatorLiveNodes * W, I σ.1) (prepare_attempt client request).
Proof.
  unfold prepare_attempt. apply preserves_bind.
  - unfold SelectAttemptNode. destruct request as [r|]; [|auto with alternator].
    apply preserves_bind; [auto with alternator|]. intros []; cbn [negb]; [|auto with alternator].
    destruct (_ && _); [auto with alternator|].
    apply preserves_bind; [apply (keeps_NextNode I HI)|auto with alternator].
  - intros [node [r|]]; [|auto with alternator]. destruct (Url_Empty node); auto with alternator.
Qed.
Lemma MakeRequest_keeps (I : AlternatorLiveNodes → Prop) (HI : stable I) delegate client request :
  preserves (λ σ : AlternatorLiveNodes * W, I σ.1) (MakeRequest delegate client request).
Proof.
  unfold MakeRequest. apply preserves_bind.
  - by apply prepare_attempt_keeps.
  - intros [node r]. apply preserves_bind; [auto with alternator|]. intros response.
    unfold finish_attempt. destruct (Url_Empty node); [auto with alternator|].
    apply preserves_bind; [auto with alternator|]. intros decoded.
    apply preserves_bind; [apply (keeps_ReportNodeResult I HI)|auto with alternator].
Qed.
End laws.
