(* ===== verification/HelperOperations.v ===== *)
(** The operations of [DynamoDBHelper] (src/aws_dynamodb_helper.cpp) that use its
    plans: the SDK clients it builds, the writes it sends through them, and
    the calls it passes on to the live nodes.

    What a client of the SDK does with a request is a parameter: the state of the
    live nodes changes under it, since its endpoint provider, HTTP client and
    request hooks are those of the helper. *)
From S2P Require Import Prelude Uri GoRandom Effects RoutingScope NodeHealth QueryPlan.
From S2P Require Import KeyRouteAffinity HttpCompression Config LocalNodesJson LiveNodes.
From S2P Require Import DynamoDBHelper AwsHttpClient.

(** ** Clients *)

(** The arguments of the SDK's client: explicit credentials if any, the
    configuration, and the endpoint provider. *)
Record SdkClient := mkSdkClient {
  sdk_credentials : option (string * string);
  sdk_configuration : ClientConfiguration;
  sdk_provider : DynamoDBClient;
}.
Definition NewDynamoDBWithEndpointProvider (config : Config) (provider : DynamoDBClient) : SdkClient :=
  let client_config := NewClientConfiguration config in
  if negb (bool_decide (access_key_id (credentials config) = "")) ||
     negb (bool_decide (secret_access_key (credentials config) = ""))
  then mkSdkClient (Some (c_str (access_key_id (credentials config)),
                          c_str (secret_access_key (credentials config))))
         client_config provider
  else mkSdkClient None client_config provider.
Definition NewDynamoDB (h : DynamoDBHelper) : SdkClient :=
  NewDynamoDBWithEndpointProvider (helper_config h) RoundRobinClient.

(** The constructor of the endpoint provider; the flag says whether the live nodes
    are there. *)
Definition AlternatorEndpointProvider_make (nodes : bool) : result DynamoDBClient :=
  if negb nodes then Throw (InvalidArgument "nodes must not be null") else Ok RoundRobinClient.

Section operations.
Context {W : Type} `{World W} `{Sdk W}.

(** ** Calls passed on to the live nodes *)

Definition pass_on {A} (m : M (AlternatorLiveNodes * W) A) : M (DynamoDBHelper * W) A :=
  zoom helper_nodes set_helper_nodes m.
Definition Helper_Start : M (DynamoDBHelper * W) unit :=
  update_helper (λ h, set_helper_nodes (Start (helper_nodes h)) h).
(** [Stop] up to the join of the refresh thread and after it, as in LiveNodes.v;
    the destructor first joins the discovery threads, whose tables it gives. *)
Definition Helper_Stop_request : M (DynamoDBHelper * W) unit :=
  update_helper (λ h, set_helper_nodes (Stop_request (helper_nodes h)) h).
Definition Helper_Stop_joined : M (DynamoDBHelper * W) unit :=
  update_helper (λ h, set_helper_nodes (Stop_joined (helper_nodes h)) h).
Definition DynamoDBHelper_destroy : M (DynamoDBHelper * W) (list string) :=
  joined ← state_op WaitForPartitionKeyDiscovery;
  _ ← Helper_Stop_request;
  mret joined.
Definition Helper_UpdateLiveNodes : M (DynamoDBHelper * W) unit := pass_on UpdateLiveNodes.
Definition Helper_ReportNodeResult (node : Url) (observation : NodeHealthObservation)
    : M (DynamoDBHelper * W) unit := pass_on (ReportNodeResult node observation).
Definition Helper_CheckIfRackAndDatacenterSetCorrectly : M (DynamoDBHelper * W) unit :=
  pass_on CheckIfRackAndDatacenterSetCorrectly.
Definition Helper_CheckIfRackDatacenterFeatureIsSupported : M (DynamoDBHelper * W) bool :=
  pass_on CheckIfRackDatacenterFeatureIsSupported.

(** ** Writes

    [AttachNodeErrorReporter] adds the request hooks of AwsHttpClient.v to a copy
    of the request; they act while the client sends it. *)
Context {Outcome : Type}.
Context (send_item : DynamoDBClient → ItemWrite → M (AlternatorLiveNodes * W) Outcome).
Context (send_batch : DynamoDBClient → BatchWriteItemRequest → M (AlternatorLiveNodes * W) Outcome).

Definition Helper_PutItem (request : PutItemRequest) : M (DynamoDBHelper * W) Outcome :=
  plan ← PutItemQueryPlanFor request;
  client ← NewDynamoDBForQueryPlan plan;
  pass_on (send_item client (PutWrite request)).
Definition Helper_UpdateItem (request : UpdateItemRequest) : M (DynamoDBHelper * W) Outcome :=
  plan ← UpdateItemQueryPlanFor request;
  client ← NewDynamoDBForQueryPlan plan;
  pass_on (send_item client (UpdateWrite request)).
Definition Helper_DeleteItem (request : DeleteItemRequest) : M (DynamoDBHelper * W) Outcome :=
  plan ← DeleteItemQueryPlanFor request;
  client ← NewDynamoDBForQueryPlan plan;
  pass_on (send_item client (DeleteWrite request)).
Definition Helper_BatchWriteItem (request : BatchWriteItemRequest) : M (DynamoDBHelper * W) Outcome :=
  plan ← BatchWriteItemQueryPlanFor request;
  client ← NewDynamoDBForQueryPlan plan;
  pass_on (send_batch client request).

Definition item_write (x : ItemWrite) : M (DynamoDBHelper * W) Outcome :=
  match x with
  | PutWrite r => Helper_PutItem r
  | UpdateWrite r => Helper_UpdateItem r
  | DeleteWrite r => Helper_DeleteItem r
  end.
Lemma item_write_eq x :
  item_write x = (plan ← write_plan x; client ← NewDynamoDBForQueryPlan plan;
                  pass_on (send_item client x)).
Proof. by destruct x. Qed.

(** ** The cache of clients *)

(** Every cached client is fixed to a node that prints as its key. *)
Definition clients_ok (h : DynamoDBHelper) : Prop :=
  map_Forall (λ k e, ∃ n, e.2 = FixedClient n ∧ Url_ToString n = k) (fixed_clients_ h).

Definition same_clients X (σ : DynamoDBHelper * W) : Prop := fixed_clients_ σ.1 = X.

Lemma same_on_nodes {A} X (m : M AlternatorLiveNodes A) :
  preserves (same_clients X) (on_nodes (W := W) m).
Proof. intros [h w] E. unfold on_nodes. by destruct (m (helper_nodes h)). Qed.
Lemma same_on_world {A} X (f : W → A * W) : preserves (same_clients X) (on_world f).
Proof. intros [h w] E. unfold on_world. by destruct (f w). Qed.
Lemma same_trigger X table : preserves (same_clients X) (TriggerPartitionKeyDiscovery table).
Proof.
  intros [h w] E. unfold TriggerPartitionKeyDiscovery, mbind, M_bind, gets. cbn [fst].
  destruct (_ || _); [done|]. case_bool_decide; [done|].
  unfold update_helper, modify, on_world. cbn [fst snd].
  by destruct (create_thread w) as [[] w'].
Qed.
Lemma same_default X : preserves (same_clients X) DefaultQueryPlan.
Proof. apply preserves_bind; [apply same_on_world|]. intros. apply same_on_nodes. Qed.
Lemma same_catch {A} X (m k : M (DynamoDBHelper * W) A) :
  preserves (same_clients X) m → preserves (same_clients X) k →
  preserves (same_clients X) (catch_invalid_argument m k).
Proof. intros Hm Hk. apply preserves_try; [done|]. intros []; auto with alternator. Qed.
Hint Resolve same_on_nodes same_on_world same_trigger same_default same_catch : alternator.

Lemma same_key_plan X values table : preserves (same_clients X) (NewPartitionKeyQueryPlan values table).
Proof.
  apply preserves_bind; [auto with alternator|]. intros h.
  case_bool_decide; auto with alternator.
Qed.
Hint Resolve same_key_plan : alternator.
Lemma same_key_plan_for X values table :
  preserves (same_clients X) (PartitionKeyQueryPlanFor values table).
Proof.
  apply preserves_bind; [auto with alternator|]. intros key.
  case_bool_decide; auto with alternator.
Qed.
Lemma same_write_plan X x : preserves (same_clients X) (write_plan x).
Proof.
  destruct x; (apply preserves_bind; [auto with alternator|]; intros []; cbn [negb];
    [apply same_key_plan_for|apply same_default]).
Qed.

(** The client for a plan is fixed to its first node. *)
Lemma NewDynamoDBForQueryPlan_head plan u h (w : W) :
  clients_ok h → (QueryPlan_Next plan).1 = Ok u → Url_Empty u = false →
  ∃ n h', NewDynamoDBForQueryPlan plan (h, w) = (Ok (FixedClient n), (h', w)) ∧
    Url_ToString n = Url_ToString u ∧ clients_ok h' ∧ helper_nodes h' = helper_nodes h.
Proof.
  intros Hc En Hu. unfold NewDynamoDBForQueryPlan, NewDynamoDBForNode, mbind, M_bind, lift_result, gets.
  rewrite En, Hu. cbn [fst]. destruct (fixed_clients_ h !! Url_ToString u) as [[n c]|] eqn:El.
  - destruct (Hc _ _ El) as (m & Em & Ep). cbn in Em. subst c. by exists m, h.
  - eexists u, _. split; [done|]. split; [done|]. split; [|done].
    apply map_Forall_insert_2; [by exists u|done].
Qed.
Lemma Empty_prints u n : Url_Empty u = false → Url_ToString n = Url_ToString u → Url_Empty n = false.
Proof.
  unfold Url_Empty, Url_ToString. rewrite !bool_decide_eq_false. intros Hu E Hn.
  rewrite bool_decide_eq_true_2, (bool_decide_eq_false_2 (url_host u = "")) in E by done.
  apply (f_equal String.length) in E. rewrite !string_length_app in E. cbn in E. lia.
Qed.
End operations.
