(* ===== verification/Failover.v ===== *)
(** The attempts of one SDK call: [MakeRequest] of src/aws_dynamodb_helper.cpp
    again and again, each attempt through the node selection and the health
    store of src/live_nodes.cpp and src/node_health.cpp.  A node that cannot be
    reached leaves the pools with its first failure, so that the attempts run
    through the unreachable nodes at most once each. *)
From S2P Require Import Prelude Uri Effects Streams RoutingScope NodeHealth QueryPlan.
From S2P Require Import KeyRouteAffinity HttpCompression Config LiveNodes LiveNodesSelection.
From S2P Require Import LiveNodesRefresh DynamoDBHelper AwsHttpClient.

(** ** The nodes on offer *)

(** The nodes [NextNode] chooses from while there are active ones. *)
Definition offered (h : NodeHealthStore) : list Url :=
  Store_GetActiveNodes h ++ Store_GetQuarantinedNodes h.

Lemma offered_NoDup h : wf_store h → NoDup (offered h).
Proof.
  intros Hs. apply pools_NoDup in Hs. rewrite app_assoc in Hs. by apply NoDup_app in Hs as [? _].
Qed.
Lemma offered_stored h u : wf_store h → u ∈ offered h → stored h u.
Proof.
  intros Hs Hu. apply elem_of_known_nodes; [done|].
  apply elem_of_app in Hu as [?|?]; [by apply active_known|by apply quarantined_known].
Qed.

(** A connection failure takes the node off offer and leaves the others. *)
Lemma failure_status now node h u st :
  wf_store h → disabled (health_config h) = false → stored h node → st ≠ Down →
  (∃ e, statuses_ (Store_ReportNodeResult now node ConnectionFailure h) !! Url_ToString u = Some (u, e) ∧
        state e = st) ↔
  (∃ e, statuses_ h !! Url_ToString u = Some (u, e) ∧ state e = st) ∧ u ≠ node.
Proof.
  intros Hs Hd [e0 He0] Hst. unfold Store_ReportNodeResult. rewrite Hd, He0. cbn [statuses_ set_statuses].
  destruct (decide (Url_ToString u = Url_ToString node)) as [E|E].
  - rewrite E, lookup_insert_eq, He0. split.
    + intros (e & [= <- <-] & He). by destruct Hst.
    + intros [(e & [= -> ->] & _) Hne]. done.
  - rewrite lookup_insert_ne by done. split; [|by intros [? _]].
    intros He. split; [done|]. by intros ->.
Qed.
Lemma failure_active now node h u :
  wf_store h → disabled (health_config h) = false → stored h node →
  u ∈ Store_GetActiveNodes (Store_ReportNodeResult now node ConnectionFailure h) ↔
  u ∈ Store_GetActiveNodes h ∧ u ≠ node.
Proof.
  intros Hs Hd Hn. unfold Store_GetActiveNodes. rewrite config_Report, Hd.
  rewrite !elem_of_GetNodesByState by auto using wf_Report. by apply failure_status.
Qed.
Lemma failure_offered now node h u :
  wf_store h → disabled (health_config h) = false → stored h node →
  u ∈ offered (Store_ReportNodeResult now node ConnectionFailure h) ↔ u ∈ offered h ∧ u ≠ node.
Proof.
  intros Hs Hd Hn. unfold offered. rewrite !elem_of_app, failure_active by done.
  unfold Store_GetQuarantinedNodes. rewrite config_Report, Hd.
  rewrite !elem_of_GetNodesByState by auto using wf_Report. rewrite failure_status by done. tauto.
Qed.

Section attempts.
Context {W : Type} `{World W}.

(** With active nodes, [NextNode] picks a node on offer. *)
Lemma NextNode_offered s (w : W) :
  GetActiveNodes s ≠ [] → (∀ u, u ∈ offered (health_store_ s) → Url_Empty u = false) →
  ∃ u s' w', NextNode (s, w) = (Ok u, (s', w')) ∧ u ∈ offered (health_store_ s) ∧
    health_store_ s' = health_store_ s.
Proof.
  intros Ha Hne. destruct (MarkActivity_run s w) as (s1 & w1 & E1 & Eh & _).
  assert (GetActiveNodes s1 = GetActiveNodes s) as Ha1 by (unfold GetActiveNodes; by rewrite Eh).
  unfold NextNode, mbind, M_bind. rewrite E1. unfold gets, state_op, mret, M_ret. cbn [fst].
  rewrite Ha1, bool_decide_eq_false_2 by done. rewrite (bool_decide_eq_false_2 (GetActiveNodes s = [])) by done.
  pose proof (health_ShouldTry false s1) as Eh2.
  destruct (ShouldTryQuarantinedNode false s1) as [try s2] eqn:Et. cbn [snd] in Eh2.
  assert (∀ i, pick_round_robin (GetActiveNodes s) i ∈ offered (health_store_ s)) as Hpick.
  { intros i. apply elem_of_app. left. by apply pick_round_robin_elem. }
  destruct try.
  - assert (GetQuarantinedNodes s2 ≠ []) as Hq.
    { unfold GetQuarantinedNodes. rewrite Eh2. intros E. unfold ShouldTryQuarantinedNode in Et.
      unfold GetQuarantinedNodes in Et. rewrite E in Et. by rewrite bool_decide_eq_true_2 in Et. }
    pose proof (NextQuarantined_elem s2 Hq) as Hin. pose proof (health_NextQuarantined s2) as Eh3.
    destruct (NextQuarantinedNode s2) as [q s3]. cbn [fst snd] in *.
    assert (q ∈ offered (health_store_ s)) as Hqo.
    { apply elem_of_app. right. unfold GetQuarantinedNodes in Hin. by rewrite Eh2, Eh in Hin. }
    rewrite (Hne q Hqo). cbn. exists q, s3, w1. split_and!; [done|done|congruence].
  - cbn. eexists _, _, w1. split_and!; [done|apply Hpick|]. cbn. congruence.
Qed.

(** What a report does to the store, whether the node is known or not. *)
Lemma Store_Report_health node o h (w : W) :
  ∃ now w', Store_Report node o (h, w) = (Ok tt, (Store_ReportNodeResult now node o h, w')).
Proof.
  unfold Store_Report, mbind, M_bind, gets, on_world, modify, mret, M_ret. cbn [fst].
  destruct (_ || _) eqn:E; [|destruct (steady_now w) as [now w']; by exists now, w'].
  exists 0, w. unfold Store_ReportNodeResult. apply orb_true_iff in E as [->|E]; [done|].
  apply bool_decide_eq_true_1 in E. by rewrite E, Tauto.if_same.
Qed.
Lemma ReportNodeResult_store node o s (w : W) :
  ∃ now, health_store_ (ReportNodeResult node o (s, w)).2.1 =
    Store_ReportNodeResult now node o (health_store_ s).
Proof.
  destruct (MarkActivity_run s w) as (s1 & w1 & E1 & Eh & _).
  unfold ReportNodeResult. unfold mbind at 1, M_bind at 1. rewrite E1.
  unfold mbind at 1, M_bind at 1, zoom. rewrite <-Eh.
  destruct (Store_Report_health node o (health_store_ s1) w1) as (now & w2 & ->).
  exists now. unfold mbind, M_bind, gets, modify.
  destruct (GetNodeStatus _ _) as [st'|]; [case_bool_decide|]; done.
Qed.

Context `{AwsHttpLaws}.

(** ** The attempts of a call *)

(** The SDK's retries: one request per attempt, until an attempt reached a node. *)
Fixpoint sdk_attempts (delegate : option aws_request → W → option aws_response * W)
    (client : AlternatorHttpClient) (requests : list aws_request)
    : M (AlternatorLiveNodes * W) (option aws_response) :=
  match requests with
  | [] => mret None
  | request :: requests =>
      response ← MakeRequest delegate client (Some request);
      if bool_decide (ObservationFromHttpResult response = ConnectionFailure)
      then sdk_attempts delegate client requests
      else mret response
  end.

Context (delegate : option aws_request → W → option aws_response * W).
Context (client : AlternatorHttpClient) (Hcomp : client_compressor client = None).
(** Which nodes can be reached; their responses can be decoded. *)
Context (up : Url → bool).
Context (Hup : ∀ r w node, sent_to r node →
  ∃ decoded, DecodeCompressedAwsResponse r (delegate (Some r) w).1 (client_decoders client) = Ok decoded ∧
    (ObservationFromHttpResult decoded = ConnectionFailure ↔ up node = false)).

(** An attempt that is not the first asks a node on offer. *)
Lemma retry_asks request s (w : W) :
  IsAlternatorEndpoint (GetUri request) s (endpoint_override_port client) = true →
  IsFirstSdkAttempt request = false → GetActiveNodes s ≠ [] →
  (∀ u, u ∈ offered (health_store_ s) → Url_Empty u = false ∧ c_str (url_host u) = url_host u) →
  ∃ u decoded s1 w1, u ∈ offered (health_store_ s) ∧ health_store_ s1 = health_store_ s ∧
    (ObservationFromHttpResult decoded = ConnectionFailure ↔ up u = false) ∧
    MakeRequest delegate client (Some request) (s, w) =
    (Ok decoded, (ReportNodeResult u (ObservationFromHttpResult decoded) (s1, w1)).2).
Proof.
  intros Ei Ef Ha Hne. destruct (NextNode_offered s w Ha) as (u & s1 & w1 & En & Hu & Eh);
    [intros u Hu; by apply Hne|]. destruct (Hne u Hu) as [He Hc].
  assert (∃ r, prepare_attempt client (Some request) (s, w) = (Ok (u, Some r), (s1, w1)) ∧
    sent_to r u) as (r & Ep & Hr).
  { unfold prepare_attempt, SelectAttemptNode, mbind, M_bind, gets. cbn [fst]. rewrite Ei, Ef.
    cbn [negb andb]. rewrite En. cbn [mret M_ret]. rewrite He, Hcomp. cbn [CompressAwsRequestBody lift_result].
    eexists. split; [done|]. eapply sent_to_uri; [|by apply RewriteRequestEndpoint_sent].
    rewrite OptimizeRequestHeaders_uri. case_bool_decide; [done|apply uri_SetHeaderValue]. }
  destruct (Hup r w1 u Hr) as (decoded & Ed & Ho). exists u, decoded, s1, (delegate (Some r) w1).2.
  split_and!; [done|done|done|]. rewrite (MakeRequest_eq _ _ _ _ _ _ _ _ _ Ep He).
  destruct (delegate (Some r) w1) as [response w2]. cbn [fst snd] in *. by rewrite Ed.
Qed.

Definition unreachable (h : NodeHealthStore) : list Url := filter (λ u, up u = false) (offered h).

Lemma failure_unreachable now node h :
  wf_store h → disabled (health_config h) = false → node ∈ unreachable h →
  (length (unreachable (Store_ReportNodeResult now node ConnectionFailure h)) < length (unreachable h))%nat.
Proof.
  intros Hs Hd Hn. pose proof Hn as [_ Ho]%list_elem_of_filter.
  pose proof (offered_stored h node Hs Ho) as Hst.
  apply (submseteq_length (node :: _)). apply NoDup_submseteq.
  - apply NoDup_cons. split; [|by apply NoDup_filter, offered_NoDup, wf_Report].
    intros [_ Hin]%list_elem_of_filter. apply failure_offered in Hin as [_ ?]; done.
  - intros u [->|Hu]%elem_of_cons; [done|]. apply list_elem_of_filter in Hu as [Hu Hin].
    apply failure_offered in Hin as [? _]; [|done..]. by apply list_elem_of_filter.
Qed.

(** As many retries as there are unreachable nodes on offer, and one more, reach
    a node, if some active node can be reached. *)
Lemma sdk_attempts_reach s0 requests s (w : W) good :
  same_nodes s0 s → disabled (health_config (health_store_ s)) = false →
  Forall (λ r, IsAlternatorEndpoint (GetUri r) s0 (endpoint_override_port client) = true ∧
    IsFirstSdkAttempt r = false) requests →
  (∀ u, stored (health_store_ s0) u → Url_Empty u = false ∧ c_str (url_host u) = url_host u) →
  good ∈ GetActiveNodes s → up good = true →
  (length (unreachable (health_store_ s)) < length requests)%nat →
  ∃ response σ, sdk_attempts delegate client requests (s, w) = (Ok response, σ) ∧
    ObservationFromHttpResult response ≠ ConnectionFailure ∧ same_nodes s0 σ.1.
Proof.
  revert s w. induction requests as [|request requests IH]; intros s w Hsame Hd Hr Hk Hg Hgu Hlen;
    [cbn in Hlen; lia|].
  pose proof Hsame as (Hs & Hl & Hi & Hc & Hst). pose proof (li_store s Hs) as Hwf.
  apply Forall_cons_1 in Hr as [[Ei Ef] Hr].
  destruct (retry_asks request s w) as (u & decoded & s1 & w1 & Hu & Eh & Ho & E); [|done| | |].
  { unfold IsAlternatorEndpoint, GetNodes in *. by rewrite Hl, Hi. }
  { intros E. rewrite E in Hg. by apply elem_of_nil in Hg. }
  { intros u Hu. apply Hk. apply Hst. by apply offered_stored. }
  pose proof (MakeRequest_keeps _ (same_nodes_stable s0) delegate client (Some request) (s, w) Hsame) as Hk2.
  cbn [sdk_attempts]. rewrite (bind_run_ok _ _ _ _ _ E). rewrite E in Hk2. cbn [snd] in Hk2.
  case_bool_decide as Eo; [|by eexists _, _].
  apply Ho in Eo as Hdown. rewrite Eo in *.
  destruct (ReportNodeResult_store u ConnectionFailure s1 w1) as [now Er]. rewrite Eh in Er.
  destruct (ReportNodeResult u ConnectionFailure (s1, w1)) as [r2 [s2 w2]]. cbn [fst snd] in *.
  assert (stored (health_store_ s) u) as Hus by (by apply offered_stored).
  apply IH; try done.
  - by rewrite Er, config_Report.
  - unfold GetActiveNodes. rewrite Er. apply failure_active; [done..|]. split; [done|congruence].
  - rewrite Er. assert (u ∈ unreachable (health_store_ s)) as Hun by (by apply list_elem_of_filter).
    pose proof (failure_unreachable now u (health_store_ s) Hwf Hd Hun). cbn in Hlen. lia.
Qed.
End attempts.

(** ** An attempt with the retry hook *)

Section hooks.
Context {W : Type} `{World W} `{AwsHttp}.

(** One attempt of a request that [AttachNodeErrorReporter] went over, as the
    SDK makes it: the request is signed, made, and found to need a retry. *)
Definition hooked_attempt (delegate : option aws_request → W → option aws_response * W)
    (client : AlternatorHttpClient) (request : aws_request) (s : AlternatorLiveNodes) (w : W)
    : AlternatorLiveNodes * W :=
  let '(_, ((last_node, s), w)) := RequestSignedHandler None request ((Url_default, s), w) in
  let '(_, (s, w)) := MakeRequest delegate client (Some request) (s, w) in
  let '(_, ((_, s), w)) := RequestRetryHandler None ((last_node, s), w) in
  (s, w).

(** It reports twice: for the node asked, and for the endpoint it was signed for. *)
Lemma hooked_attempt_reports delegate client request s (w : W) u sent s1 w1 decoded :
  GetPort (GetUri request) ≠ 0%N → Url_Empty (UrlFromAwsUri (GetUri request)) = false →
  prepare_attempt client (Some request) (s, w) = (Ok (u, Some sent), (s1, w1)) →
  Url_Empty u = false →
  DecodeCompressedAwsResponse sent (delegate (Some sent) w1).1 (client_decoders client) = Ok decoded →
  ∃ t1 t2, health_store_ (hooked_attempt delegate client request s w).1 =
    Store_ReportNodeResult t2 (UrlFromAwsUri (GetUri request)) ServerError
      (Store_ReportNodeResult t1 u (ObservationFromHttpResult decoded) (health_store_ s1)).
Proof.
  intros Hp He E Hu Ed. unfold hooked_attempt.
  unfold RequestSignedHandler, mbind at 1, M_bind at 1, modify. cbn [mret M_ret].
  rewrite (bool_decide_eq_false_2 _ Hp). fold (UrlFromAwsUri (GetUri request)).
  rewrite (MakeRequest_eq _ _ _ _ _ _ _ _ _ E Hu).
  destruct (delegate (Some sent) w1) as [response w2]. cbn [fst] in Ed. rewrite Ed.
  destruct (ReportNodeResult_store u (ObservationFromHttpResult decoded) s1 w2) as [t1 E1].
  destruct (ReportNodeResult u _ (s1, w2)) as [r [s2 w3]]. cbn [fst snd] in *.
  destruct (ReportNodeResult_store (UrlFromAwsUri (GetUri request)) ServerError s2 w3) as [t2 E2].
  exists t1, t2. rewrite <-E1, <-E2.
  unfold RequestRetryHandler, mbind, M_bind, gets, zoom. rewrite He. cbn [fst snd].
  pose proof (ReportNodeResult_ok (UrlFromAwsUri (GetUri request)) ServerError (s2, w3)) as Hr.
  destruct (ReportNodeResult (UrlFromAwsUri _) _ (s2, w3)) as [r2 [s4 w4]]. cbn in *. by subst r2.
Qed.
End hooks.

(** The errors that two reports of a server error leave in a status. *)
Definition reports_for (n u v : Url) : Z :=
  Z.b2z (bool_decide (Url_ToString n = Url_ToString u)) +
  Z.b2z (bool_decide (Url_ToString n = Url_ToString v)).

Lemma two_reports h t1 t2 u v n st :
  wf_store h → disabled (health_config h) = false → GetNodeStatus n h = Some st →
  ∃ st', GetNodeStatus n (Store_ReportNodeResult t2 v ServerError
      (Store_ReportNodeResult t1 u ServerError h)) = Some st' ∧
    consecutive_server_errors st' = u32 (consecutive_server_errors st + reports_for n u v) ∧
    (0 < reports_for n u v →
     consecutive_server_error_threshold (health_config h) <= consecutive_server_errors st' →
     state st' = Down).
Proof.
  intros [_ Hs] Hd Hst. rewrite !GetNodeStatus_Report, config_Report by (by rewrite ?config_Report).
  rewrite Hst. assert (is_u32 (consecutive_server_errors st)) as Hu.
  { unfold GetNodeStatus in Hst. destruct (statuses_ h !! Url_ToString n) as [[k st0]|] eqn:E; [|done].
    simplify_eq/=. by apply (Hs _ _ E). }
  unfold reports_for. case_bool_decide; case_bool_decide; cbn; (eexists; split; [done|]); cbn.
  - split; [unfold u32; rewrite Zplus_mod_idemp_l; f_equal; lia|].
    intros _ Ht. by rewrite (proj2 (Z.leb_le _ _) Ht).
  - split; [f_equal; lia|]. intros _ Ht. by rewrite (proj2 (Z.leb_le _ _) Ht).
  - split; [f_equal; lia|]. intros _ Ht. by rewrite (proj2 (Z.leb_le _ _) Ht).
  - split; [rewrite Z.add_0_r; by rewrite u32_small|lia].
Qed.
