(* ===== verification/ScriptedSdk.v ===== *)
(** A small instance of the SDK's URIs, requests and responses with its laws, on
    which the client of AwsHttpClient.v runs. Header names are stored in lower
    case and values without surrounding space, as the SDK does. *)
From S2P Require Import Prelude Uri Effects Streams RoutingScope NodeHealth QueryPlan.
From S2P Require Import KeyRouteAffinity HttpCompression Config LiveNodes DynamoDBHelper.
From S2P Require Import AwsHttpClient.

Record sdk_uri := mkSdkUri {
  su_scheme : aws_scheme;
  su_host : string;
  su_port : N;
}.
Record sdk_request := mkSdkRequest {
  sr_uri : sdk_uri;
  sr_headers : list (string * string);
  sr_body : option iostream;
}.
Record sdk_response := mkSdkResponse {
  sp_client_error : bool;
  sp_code : Z;
  sp_headers : list (string * string);
  sp_body : iostream;
}.

Definition other_headers (name : string) (headers : list (string * string))
    : list (string * string) :=
  filter (λ h, ToLowerAscii h.1 ≠ ToLowerAscii name) headers.
Fixpoint header_value (name : string) (headers : list (string * string)) : option string :=
  match headers with
  | [] => None
  | (n, v) :: headers =>
      if bool_decide (ToLowerAscii n = ToLowerAscii name) then Some v else header_value name headers
  end.
Definition set_headers (l : list (string * string)) (r : sdk_request) : sdk_request :=
  mkSdkRequest (sr_uri r) l (sr_body r).
Definition set_sdk_body (b : iostream) (r : sdk_request) : sdk_request :=
  mkSdkRequest (sr_uri r) (sr_headers r) (Some b).

#[global] Instance sdk_http : AwsHttp := {
  aws_uri := sdk_uri;
  GetHost := su_host;
  GetPort := su_port;
  GetScheme := su_scheme;
  SetScheme s u := mkSdkUri s (su_host u) (su_port u);
  SetAuthority a u := mkSdkUri (su_scheme u) a (su_port u);
  SetPort p u := mkSdkUri (su_scheme u) (su_host u) p;
  aws_request := sdk_request;
  GetUri := sr_uri;
  update_uri u r := mkSdkRequest u (sr_headers r) (sr_body r);
  HasHeader n r := bool_decide (header_value n (sr_headers r) ≠ None);
  GetHeaderValue n r := default "" (header_value n (sr_headers r));
  SetHeaderValue n v r :=
    set_headers ((ToLowerAscii n, TrimAscii v) :: other_headers n (sr_headers r)) r;
  DeleteHeader n r := set_headers (other_headers n (sr_headers r)) r;
  GetHeaders := sr_headers;
  GetContentBody := sr_body;
  update_body := set_sdk_body;
  AddContentBody := set_sdk_body;
  IsEventStreamRequest _ := false;
  aws_response := sdk_response;
  HasClientError := sp_client_error;
  GetResponseCode := sp_code;
  HasResponseHeader n r := bool_decide (header_value n (sp_headers r) ≠ None);
  GetResponseHeader n r := default "" (header_value n (sp_headers r));
  GetResponseHeaders := sp_headers;
  GetResponseBody := sp_body;
  MakeStandardHttpResponse _ := mkSdkResponse false 0 [] (stringstream "");
  SetResponseCode c r := mkSdkResponse (sp_client_error r) c (sp_headers r) (sp_body r);
  AddHeader n v r :=
    mkSdkResponse (sp_client_error r) (sp_code r)
      ((ToLowerAscii n, TrimAscii v) :: other_headers n (sp_headers r)) (sp_body r);
  update_response_body b r := mkSdkResponse (sp_client_error r) (sp_code r) (sp_headers r) b;
}.

Lemma header_value_other n n' headers :
  ToLowerAscii n ≠ ToLowerAscii n' →
  header_value n' (other_headers n headers) = header_value n' headers.
Proof.
  intros Hn. induction headers as [|[k v] headers IH]; [done|].
  unfold other_headers in *. rewrite filter_cons. cbn [fst header_value].
  case_decide as D; cbn [header_value].
  - by rewrite IH.
  - rewrite bool_decide_eq_false_2; [apply IH|]. intros E. congruence.
Qed.

#[global, program] Instance sdk_laws : AwsHttpLaws.
Next Obligation. done. Qed.
Next Obligation. done. Qed.
Next Obligation. done. Qed.
Next Obligation. done. Qed.
Next Obligation. done. Qed.
Next Obligation. done. Qed.
Next Obligation. done. Qed.
Next Obligation. done. Qed.
Next Obligation. done. Qed.
Next Obligation. done. Qed.
Next Obligation. done. Qed.
Next Obligation. done. Qed.
Next Obligation.
  intros n v r h. cbn. rewrite elem_of_cons. intros [->|Hh]; [by left|right].
  by apply list_elem_of_filter in Hh as [_ ?].
Qed.
Next Obligation. done. Qed.
Next Obligation. done. Qed.
Next Obligation. done. Qed.
Next Obligation.
  intros n n' v r Hv. cbn. rewrite ToLower_idemp, Hv. case_bool_decide; [done|].
  by rewrite header_value_other.
Qed.
Next Obligation. intros n n' r Hn. cbn. by rewrite header_value_other. Qed.
Next Obligation. done. Qed.
Next Obligation. done. Qed.
Next Obligation. done. Qed.
Next Obligation. done. Qed.
