(* ===== verification/BackgroundThread.v ===== *)
(** The live nodes in operation (src/live_nodes.cpp): clients calling the public
    interface in any order, interleaved with the background thread that [Start]
    creates and [Stop] joins.

    [BackgroundLoop] is a state machine over its program points: [Entry],
    the loop head, the two waits, and the stretch after a turn in which
    [background_mutex_] is not yet held again.  The interleaving is at the
    granularity of whole operations (a client call, a turn of the thread);
    [Start] and [Stop] come from one controlling thread and need
    [background_mutex_].  Between any two steps the world may change at will. *)
From S2P Require Import Prelude Uri GoRandom Effects RoutingScope NodeHealth QueryPlan.
From S2P Require Import KeyRouteAffinity HttpCompression Config LocalNodesJson LiveNodes.
From S2P Require Import LiveNodesRefresh.

(** ** The background thread *)

(** The points at which the thread can be found, with its local
    [next_down_probe]; [NoThread] before [Start] and after the join. *)
Inductive thread_state :=
  | NoThread
  | Entry
  | LoopHead (next_down_probe : Z)
  | WaitingStop (next_down_probe : Z)
  | Deciding (next_down_probe wake_at : Z)
  | Waiting (next_down_probe wake_at : Z)
  | Unlocked (next_down_probe : Z)
  | Finished.

#[global] Instance thread_state_eq_dec : EqDecision thread_state.
Proof. solve_decision. Defined.

Definition holds_background_mutex (t : thread_state) : bool :=
  match t with LoopHead _ | Deciding _ _ => true | _ => false end.

Section background.
Context {W : Type} `{World W}.

(** The thread up to its next program point; [timed_out] says how
    [wait_until] returns if that is the point it is at.  [None]: the thread
    cannot move. *)
Definition BackgroundLoop (timed_out : bool) (t : thread_state)
    : M (AlternatorLiveNodes * W) (option thread_state) :=
  match t with
  | NoThread | Finished => mret None
  | Entry =>
      period ← gets (λ σ, down_node_probe_period (node_health (config_ σ.1)));
      now ← on_world steady_now;
      mret (Some (LoopHead (now + milliseconds period)))
  | LoopHead next_down_probe =>
      s ← gets fst;
      if stopping_ s then mret (Some Finished)
      else match background_wake_at next_down_probe s with
           | None => mret (Some (WaitingStop next_down_probe))
           | Some wake_at => mret (Some (Deciding next_down_probe wake_at))
           end
  | WaitingStop next_down_probe =>
      s ← gets fst;
      mret (if stopping_ s then Some (LoopHead next_down_probe) else None)
  | Deciding next_down_probe wake_at => mret (Some (Waiting next_down_probe wake_at))
  | Waiting next_down_probe _ =>
      s ← gets fst;
      if stopping_ s || negb timed_out then mret (Some (LoopHead next_down_probe))
      else next_down_probe ← background_turn next_down_probe;
           mret (Some (Unlocked next_down_probe))
  | Unlocked next_down_probe => mret (Some (LoopHead next_down_probe))
  end.

(** ** Clients and thread together *)

(** A call of the public interface, or the world moving on. *)
Inductive client_step : AlternatorLiveNodes * W → AlternatorLiveNodes * W → Prop :=
  | step_world s w w' : client_step (s, w) (s, w')
  | step_NextNode σ : client_step σ (NextNode σ).2
  | step_GetQueryPlanNodes s w : client_step (s, w) ((GetQueryPlanNodes s).2, w)
  | step_GetQueryPlanNodesForHash hash s w :
      client_step (s, w) ((GetQueryPlanNodesForHash hash s).2, w)
  | step_UpdateLiveNodes σ : client_step σ (UpdateLiveNodes σ).2
  | step_ReportNodeResult node o σ : client_step σ (ReportNodeResult node o σ).2
  | step_ProbeDownNodes σ : client_step σ (ProbeDownNodes σ).2
  | step_CheckScopes σ : client_step σ (CheckIfRackAndDatacenterSetCorrectly σ).2
  | step_CheckFeature σ : client_step σ (CheckIfRackDatacenterFeatureIsSupported σ).2.

(** [stop_pending]: the controlling thread is inside [Stop], before the join. *)
Record system := mkSystem {
  thread : thread_state;
  stop_pending : bool;
  object : AlternatorLiveNodes * W;
}.

(** The steps that leave [Stop] out. *)
Inductive running_step : system → system → Prop :=
  | sys_client t pending σ σ' :
      client_step σ σ' → running_step (mkSystem t pending σ) (mkSystem t pending σ')
  | sys_Start t s w :
      holds_background_mutex t = false → background_started_ s = false →
      running_step (mkSystem t false (s, w)) (mkSystem Entry false (Start s, w))
  | sys_thread timed_out t t' pending σ σ' :
      BackgroundLoop timed_out t σ = (Ok (Some t'), σ') →
      running_step (mkSystem t pending σ) (mkSystem t' pending σ').

Inductive system_step : system → system → Prop :=
  | sys_running x y : running_step x y → system_step x y
  | sys_Stop_request t s w :
      holds_background_mutex t = false → background_started_ s = true →
      system_step (mkSystem t false (s, w)) (mkSystem t true (Stop_request s, w))
  | sys_Stop_joined s w :
      system_step (mkSystem Finished true (s, w)) (mkSystem NoThread false (Stop_joined s, w)).

Definition reachable (initial : list string) (config : Config) (w : W) (x : system) : Prop :=
  ∃ s w', AlternatorLiveNodes_make initial config w = (Ok s, w') ∧
    rtc system_step (mkSystem NoThread false (s, w')) x.

(** ** What every interleaving keeps *)

(** [I] does not notice the flags of the background thread. *)
Definition flagless (I : AlternatorLiveNodes → Prop) : Prop :=
  ∀ b c s, I s → I (set_background b c s).

Lemma client_step_keeps (I : AlternatorLiveNodes → Prop) σ σ' :
  stable I → preserves (λ σ : AlternatorLiveNodes * W, I σ.1) UpdateLiveNodes →
  client_step σ σ' → I σ.1 → I σ'.1.
Proof.
  intros HI HU. destruct 1; intros Hs; simpl in *.
  - done.
  - by apply (keeps_NextNode I HI).
  - by apply (st_GetQueryPlanNodes I HI).
  - by apply (preserves_GetQueryPlanNodesForHash I HI).
  - by apply HU.
  - by apply (keeps_ReportNodeResult I HI).
  - by apply (keeps_ProbeDownNodes I HI).
  - by apply (keeps_CheckScopes I HI).
  - by apply (keeps_CheckFeature I HI).
Qed.

Lemma BackgroundLoop_keeps (I : AlternatorLiveNodes → Prop) timed_out t :
  stable I → preserves (λ σ : AlternatorLiveNodes * W, I σ.1) UpdateLiveNodes →
  preserves (λ σ : AlternatorLiveNodes * W, I σ.1) (BackgroundLoop timed_out t).
Proof.
  intros HI HU. destruct t; simpl; keep. by apply keeps_background_turn.
Qed.

(** A predicate on the object that operations, refreshing and the flags keep
    holds throughout every run. *)
Lemma system_step_keeps (I : AlternatorLiveNodes → Prop) x y :
  stable I → flagless I → preserves (λ σ : AlternatorLiveNodes * W, I σ.1) UpdateLiveNodes →
  system_step x y → I (object x).1 → I (object y).1.
Proof.
  intros HI HF HU [x' y' [|? ? ? _ _|? ? ? ? ? ? E]| |]; simpl.
  - by apply (client_step_keeps I).
  - unfold Start. destruct (background_started_ s); [done|apply HF].
  - intros Hs. pose proof (BackgroundLoop_keeps I timed_out t HI HU σ Hs) as Hk.
    by rewrite E in Hk.
  - unfold Stop_request. destruct (background_started_ s); [apply HF|done].
  - apply HF.
Qed.
Lemma system_steps_keep (I : AlternatorLiveNodes → Prop) x y :
  stable I → flagless I → preserves (λ σ : AlternatorLiveNodes * W, I σ.1) UpdateLiveNodes →
  rtc system_step x y → I (object x).1 → I (object y).1.
Proof.
  intros HI HF HU. induction 1 as [|x y z Hxy _ IH]; [done|].
  intros Hx. apply IH. by apply (system_step_keeps I x y).
Qed.

Lemma live_inv_flagless : flagless live_inv.
Proof. by intros b c s []. Qed.
Lemma reachable_inv initial config w x :
  health_config_u32 (node_health config) → reachable initial config w x → live_inv (object x).1.
Proof.
  intros Hu (s0 & w0 & E & Hr). apply inv_make in E; [|done].
  by apply (system_steps_keep live_inv _ x live_inv_stable live_inv_flagless
    keeps_UpdateLiveNodes Hr).
Qed.

(** ** The life of the thread *)

(** The flags of the background thread have the values [b] and [c]. *)
Definition flags (b c : bool) (s : AlternatorLiveNodes) : Prop :=
  background_started_ s = b ∧ stopping_ s = c ∧
  is_u64 (next_node_index_ s) ∧ is_u64 (quarantine_plan_index_ s) ∧
  is_u64 (quarantine_node_index_ s).

Lemma flags_stable b c : stable (flags b c).
Proof. split; unfold flags; simpl; intros; tauto. Qed.
Lemma keeps_flags_Update b c :
  preserves (λ σ : AlternatorLiveNodes * W, flags b c σ.1) UpdateLiveNodes.
Proof.
  pose proof (flags_stable b c) as HI.
  apply preserves_bind; [apply (keeps_FetchLiveNodes _ HI)|]. intros new_nodes.
  case_bool_decide.
  { apply preserves_bind; [apply (keeps_ProbeDownNodes _ HI)|keep]. }
  apply preserves_bind; [apply (keeps_zoom (flags b c)); by intros s [h w]|]. intros _.
  apply preserves_bind; [keep|]. intros removed.
  do 2 (apply preserves_bind; [apply preserves_modify; by intros [s w]|intros _]).
  apply preserves_bind; [apply preserves_modify|intros _].
  { intros [s w] Hs. by apply (st_remove_assignments _ HI). }
  apply preserves_bind; [apply (keeps_ProbeDownNodes _ HI)|keep].
Qed.
Lemma flags_client b c σ σ' : client_step σ σ' → flags b c σ.1 → flags b c σ'.1.
Proof. apply client_step_keeps; [apply flags_stable|apply keeps_flags_Update]. Qed.
Lemma flags_thread b c timed_out t :
  preserves (λ σ : AlternatorLiveNodes * W, flags b c σ.1) (BackgroundLoop timed_out t).
Proof. apply BackgroundLoop_keeps; [apply flags_stable|apply keeps_flags_Update]. Qed.

(** The flags tell the truth about the thread: [background_started_] that there
    is one to join, [stopping_] that [Stop] is under way; and the thread ends
    only because of [Stop]. *)
Record lifecycle (x : system) : Prop := {
  lc_flags : flags (negb (bool_decide (thread x = NoThread))) (stop_pending x) (object x).1;
  lc_finished : thread x = Finished → stop_pending x = true;
  lc_pending : stop_pending x = true → thread x ≠ NoThread ∧ ∀ p wake, thread x ≠ Deciding p wake;
}.

(** The thread's next point, by where it is and whether it must stop. *)
Lemma BackgroundLoop_next timed_out t σ t' σ' :
  BackgroundLoop timed_out t σ = (Ok (Some t'), σ') →
  t ≠ NoThread ∧ t' ≠ NoThread ∧ (t' = Finished → stopping_ σ.1 = true) ∧
  (∀ p wake, t' = Deciding p wake → stopping_ σ.1 = false).
Proof.
  unfold BackgroundLoop, mbind, M_bind, gets, on_world, mret, M_ret.
  destruct t; intros E; try done; try (by simplify_eq).
  - destruct σ as [s w]. destruct (steady_now w). by simplify_eq.
  - destruct (stopping_ σ.1) eqn:Es; [by simplify_eq|].
    destruct (background_wake_at _ _); by simplify_eq.
  - destruct (stopping_ σ.1); by simplify_eq.
  - destruct (stopping_ σ.1 || negb timed_out); [by simplify_eq|].
    destruct (background_turn _ σ) as [[]]; by simplify_eq.
Qed.

Lemma lifecycle_running x y : running_step x y → lifecycle x → lifecycle y.
Proof.
  intros [t pending σ σ' Hc|t s w Hm Hs|timed_out t t' pending σ σ' E] [Hf Hfin Hp]; simpl in *.
  - split; simpl; [by eapply flags_client|done|done].
  - split; simpl; [|done|done]. unfold Start. rewrite Hs. by destruct Hf as (_ & _ & ?).
  - pose proof (BackgroundLoop_next _ _ _ _ _ E) as (Hn & Hn' & Hfin' & Hd).
    pose proof Hf as (_ & Hst & _). rewrite bool_decide_eq_false_2 in Hf by done.
    pose proof (flags_thread _ _ timed_out t σ Hf) as Hk. rewrite E in Hk.
    split; simpl.
    + by rewrite bool_decide_eq_false_2.
    + intros Ht. rewrite <-Hst. by apply Hfin'.
    + intros Hpd. split; [done|]. intros p wake Ht. specialize (Hd p wake Ht). congruence.
Qed.
Lemma lifecycle_step x y : system_step x y → lifecycle x → lifecycle y.
Proof.
  intros [x' y' Hr|t s w Hm Hs|s w]; [by apply lifecycle_running| |].
  - intros [Hf _ _]. simpl in *. split; simpl; [|done|].
    + unfold Stop_request. rewrite Hs. destruct Hf as (Hb & _ & Hx). rewrite Hs in Hb. by rewrite <-Hb.
    + intros _. split; [|by intros p wake ->]. intros ->. destruct Hf as (Hb & _). simpl in Hb. congruence.
  - intros [Hf _ _]. split; simpl; [|done|done]. by destruct Hf as (_ & _ & ?).
Qed.
Lemma reachable_lifecycle initial config w x :
  health_config_u32 (node_health config) → reachable initial config w x → lifecycle x.
Proof.
  intros Hu (s & w' & E & Hr). revert Hr.
  assert (lifecycle (mkSystem NoThread false (s, w'))) as H0.
  { split; simpl; [|done|done]. pose proof (li_indices s (inv_make initial config w s w' Hu E)).
    unfold AlternatorLiveNodes_make in E. destruct (ValidateConfig config); [|done].
    case_bool_decide; [done|]. destruct (NodeHealthStore_make _ _ _) as [h w1].
    destruct (steady_now w1). simplify_eq. by split. }
  intros Hr. induction Hr as [|? ? ? Hs _ IH] in H0 |- *; [done|].
  apply IH. by eapply lifecycle_step.
Qed.

(** *** Stopping *)

(** What follows a raised flag: [n] steps of the thread among client calls. *)
Inductive stopping_run : nat → system → system → Prop :=
  | run_done x : stopping_run 0 x x
  | run_client n t pending σ σ' y :
      client_step σ σ' → stopping_run n (mkSystem t pending σ') y →
      stopping_run n (mkSystem t pending σ) y
  | run_thread n timed_out t t' pending σ σ' y :
      BackgroundLoop timed_out t σ = (Ok (Some t'), σ') →
      stopping_run n (mkSystem t' pending σ') y →
      stopping_run (S n) (mkSystem t pending σ) y.

(** Steps to the end of a thread that must stop. *)
Definition stop_rank (t : thread_state) : nat :=
  match t with
  | NoThread | Finished => 0
  | LoopHead _ => 1
  | Entry | WaitingStop _ | Waiting _ _ | Unlocked _ => 2
  | Deciding _ _ => 3
  end.

Lemma BackgroundLoop_stops timed_out t σ :
  stopping_ σ.1 = true → t ≠ NoThread → t ≠ Finished →
  ∃ t' σ', BackgroundLoop timed_out t σ = (Ok (Some t'), σ') ∧ (stop_rank t' < stop_rank t)%nat.
Proof.
  intros Hs Hn Hf. destruct t; try done; simpl; unfold mbind, M_bind, gets;
    rewrite ?Hs; simpl; try by (eexists _, _; split; [reflexivity|simpl; lia]).
  unfold on_world. destruct σ, (steady_now w). eexists _, _. split; [reflexivity|]. simpl. lia.
Qed.

Lemma stopping_run_bound n x y :
  lifecycle x → stop_pending x = true → stopping_run n x y →
  lifecycle y ∧ stop_pending y = true ∧ (n + stop_rank (thread y) <= stop_rank (thread x))%nat.
Proof.
  intros Hl Hp Hr. induction Hr as [x|n t pending σ σ' y Hc _ IH|n timed_out t t' pending σ σ' y E _ IH].
  - split_and!; [done|done|lia].
  - apply IH; [|done]. eapply lifecycle_running; [by apply sys_client|done].
  - pose proof (lc_flags _ Hl) as (_ & Hs & _). simpl in *. rewrite Hp in Hs.
    destruct (BackgroundLoop_next _ _ _ _ _ E) as (Hn & _).
    assert (t ≠ Finished) as Hf by (intros ->; done).
    destruct (BackgroundLoop_stops timed_out t σ Hs Hn Hf) as (t1 & σ1 & E1 & Hlt).
    rewrite E in E1. simplify_eq.
    destruct IH as (? & ? & ?); [|done|split_and!; [done|done|lia]].
    eapply lifecycle_running; [by eapply sys_thread|done].
Qed.

(** *** Waiting to be stopped *)

Lemma waiting_stop_step x y p :
  lifecycle x → stop_pending x = false → thread x = WaitingStop p → running_step x y →
  stop_pending y = false ∧ thread y = WaitingStop p.
Proof.
  intros Hl Hp Ht Hr. pose proof (lc_flags x Hl) as (Hb & Hs & _). rewrite Ht in Hb.
  destruct Hr as [|t s w _ Hn|timed_out t t' pending σ σ' E]; simpl in *; [done| |].
  - subst. simpl in Hb. congruence.
  - subst. unfold BackgroundLoop, mbind, M_bind, gets, mret, M_ret in E. rewrite Hs in E. by simplify_eq.
Qed.
Lemma waiting_stop_runs x y p :
  lifecycle x → stop_pending x = false → thread x = WaitingStop p → rtc running_step x y →
  lifecycle y ∧ stop_pending y = false ∧ thread y = WaitingStop p.
Proof.
  intros Hl Hp Ht Hr. induction Hr as [|x y z Hxy _ IH]; [done|].
  destruct (waiting_stop_step x y p Hl Hp Ht Hxy). apply IH; [|done|done].
  by eapply lifecycle_running.
Qed.

(** *** Plain hosts: the health store and the live list agree *)

Definition clean (s : AlternatorLiveNodes) : Prop :=
  live_inv s ∧ tracks s ∧ Forall node_url (live_nodes_ s).

Lemma same_nodes_clean s s1 : clean s → same_nodes s s1 → clean s1.
Proof.
  intros (Hs & Ht & Hn) Hsame. pose proof (tracks_same s s1 Ht Hsame).
  destruct Hsame as (Hs1 & Hl & _). split_and!; [done|done|by rewrite Hl].
Qed.
Lemma clean_stable : stable clean.
Proof.
  pose proof (λ s, same_nodes_stable s) as HS.
  assert (∀ s, clean s → same_nodes s s) as HR by (intros s (Hs & _); by apply same_nodes_refl).
  split; intros *.
  - intros Hs. apply (same_nodes_clean s); [done|]. by apply (st_quarantine _ (HS s)), HR.
  - intros Hs. apply (same_nodes_clean s); [done|]. by apply (st_schedule _ (HS s)), HR.
  - intros ??? Hs. apply (same_nodes_clean s); [done|]. apply (st_indices _ (HS s)); auto.
  - intros (Hs & _). by apply li_indices.
  - intros Hs. apply (same_nodes_clean s); [done|]. by apply (st_report _ (HS s)), HR.
Qed.

Lemma config_scheme_plain c : valid_config c → string_has ":" (scheme c) = false.
Proof. intros Hc. by destruct (valid_scheme c Hc) as [->| ->]. Qed.
Lemma node_url_make c host :
  valid_config c → plain_host host → node_url (Url_make (scheme c) host (port c)).
Proof. intros Hc Hh. split; [by apply config_scheme_plain|]. by split_and!. Qed.

Section plain_hosts.
Context (Hplain : ∀ url (w w' : W) resp hosts,
  http_get url w = (HttpReply resp, w') → status_code resp = 200 →
  ParseJsonStringArray (body resp) = Ok hosts → Forall plain_host hosts).

Lemma keeps_clean_Update :
  preserves (λ σ : AlternatorLiveNodes * W, clean σ.1) UpdateLiveNodes.
Proof.
  intros [s w] Hcl. pose proof Hcl as (Hs & Ht & Hn). simpl in *.
  destruct (FetchLiveNodes (s, w)) as [r [s1 w1]] eqn:E.
  pose proof (FetchLiveNodes_same s w r s1 w1 Hs E) as Hsame.
  pose proof (same_nodes_clean s s1 Hcl Hsame) as Hcl1.
  destruct r as [new_nodes|error].
  2:{ unfold UpdateLiveNodes, mbind at 1, M_bind at 1. by rewrite E. }
  destruct (decide (new_nodes = [])) as [->|Hne].
  { unfold UpdateLiveNodes, mbind at 1, M_bind at 1. rewrite E.
    rewrite bool_decide_eq_true_2 by done. unfold mbind, M_bind.
    pose proof (keeps_ProbeDownNodes _ clean_stable (s1, w1) Hcl1) as Hk.
    by destruct (ProbeDownNodes (s1, w1)) as [[] σ2]. }
  pose proof (finds_FetchLiveNodes plain_host Hplain (config_ s) (s, w) (conj Hs eq_refl)) as Hf.
  rewrite E in Hf. destruct Hf as [_ Hf].
  assert (Forall node_url new_nodes) as Hnn.
  { eapply Forall_impl; [exact Hf|]. intros u (host & Hh & ->).
    apply node_url_make; [apply Hs|done]. }
  destruct (UpdateLiveNodes_run s w new_nodes s1 w1) as (s2 & w2 & -> & Hs2 & Ht2 & Hl2); try done.
  { apply key_inj_nodes. by apply Forall_app_2. }
  simpl. split_and!; [done|done|]. rewrite Hl2. by apply SortAndDedupe_node_url.
Qed.

Lemma clean_make initial config (w : W) s w' :
  health_config_u32 (node_health config) → Forall plain_host initial →
  AlternatorLiveNodes_make initial config w = (Ok s, w') → clean s.
Proof.
  intros Hu Hp E. pose proof (inv_make initial config w s w' Hu E) as Hs.
  split; [done|]. unfold AlternatorLiveNodes_make in E.
  destruct (ValidateConfig config) as [[]|] eqn:Ev; [|done]. apply ValidateConfig_iff in Ev.
  case_bool_decide; [done|]. set (urls := map _ initial) in E.
  assert (Forall node_url urls) as Hn.
  { unfold urls. apply Forall_fmap. eapply Forall_impl; [exact Hp|]. intros h Hh.
    by apply node_url_make. }
  apply SortAndDedupe_node_url in Hn. set (nodes := SortAndDedupeNodes urls) in *.
  assert (∀ u, stored (NodeHealthStore_make (node_health config) nodes w).1 u ↔ u ∈ nodes) as Hst.
  { intros u. unfold NodeHealthStore_make. rewrite (stored_add_nodes nodes); auto with alternator.
    - split; [|by right]. intros [[st Hst]|?]; [|done]. simpl in Hst. by rewrite lookup_empty in Hst.
    - split; [by apply normalize_ok|apply map_Forall_empty].
    - intros x [st Hst]. simpl in Hst. by rewrite lookup_empty in Hst. }
  destruct (NodeHealthStore_make _ _ _) as [h w1]. destruct (steady_now w1) as [now w2].
  simplify_eq/=. split; [exact Hst|done].
Qed.

Lemma clean_flagless : flagless clean.
Proof. intros b c s (Hs & Ht & Hn). split; [by apply live_inv_flagless|done]. Qed.
Lemma reachable_clean initial config w x :
  health_config_u32 (node_health config) → Forall plain_host initial →
  reachable initial config w x → clean (object x).1.
Proof.
  intros Hu Hp (s0 & w0 & E & Hr). apply clean_make in E; [|done|done].
  by apply (system_steps_keep clean _ x clean_stable clean_flagless keeps_clean_Update Hr).
Qed.
End plain_hosts.
End background.
