(* ===== verification/LiveNodesWorld.v ===== *)
(** The live nodes (src/live_nodes.cpp) and the world they act on: what the two
    clocks and [HttpClient::Get] keep of the world, every operation keeps; and
    what a refresh makes of the nodes' replies, for the whole cluster and along
    a chain of scopes. *)
From S2P Require Import Prelude Uri GoRandom Effects RoutingScope NodeHealth QueryPlan.
From S2P Require Import KeyRouteAffinity HttpCompression Config LocalNodesJson LiveNodes.
From S2P Require Import LiveNodesSelection LiveNodesRefresh BackgroundThread.

(** ** Operations as values *)

(** A call of the public interface that may touch the world, or a stretch of the
    background thread. *)
Inductive operation :=
  | CallNextNode
  | CallUpdateLiveNodes
  | CallReportNodeResult (node : Url) (observation : NodeHealthObservation)
  | CallProbeDownNodes
  | CallCheckScopes
  | CallCheckFeature
  | ThreadMoves (timed_out : bool) (t : thread_state).

Section operations.
Context {W : Type} `{World W}.
Abbreviation state := (AlternatorLiveNodes * W)%type.

(** What the operation leaves behind, whether it returns or throws. *)
Definition perform (σ : state) (o : operation) : state :=
  match o with
  | CallNextNode => (NextNode σ).2
  | CallUpdateLiveNodes => (UpdateLiveNodes σ).2
  | CallReportNodeResult node observation => (ReportNodeResult node observation σ).2
  | CallProbeDownNodes => (ProbeDownNodes σ).2
  | CallCheckScopes => (CheckIfRackAndDatacenterSetCorrectly σ).2
  | CallCheckFeature => (CheckIfRackDatacenterFeatureIsSupported σ).2
  | ThreadMoves timed_out t => (BackgroundLoop timed_out t σ).2
  end.

(** ** What the world keeps *)

Context (Q : W → Prop).
Context (Hsteady : ∀ w, Q w → Q (steady_now w).2).
Context (Hhigh : ∀ w, Q w → Q (high_resolution_now w).2).
Context (Hget : ∀ url w, Q w → Q (http_get url w).2).
Abbreviation within m := (preserves (λ σ, Q σ.2) m).

Lemma within_state_op {S A} (f : S → A * S) : within (state_op (W := W) f).
Proof. intros [s w] Hw. unfold state_op. by destruct (f s). Qed.
Lemma within_modify {S} (f : S * W → S) : within (modify (λ σ, (f σ, σ.2))).
Proof. by intros [s w]. Qed.
Lemma within_on_world {S A} (f : W → A * W) :
  (∀ w, Q w → Q (f w).2) → within (on_world (S := S) f).
Proof. intros Hf [s w] Hw. unfold on_world. specialize (Hf w Hw). by destruct (f w). Qed.
Lemma within_zoom {S T A} (get : S → T) set (m : M (T * W) A) :
  within m → within (zoom get set m).
Proof.
  intros Hm [s w] Hw. unfold zoom. specialize (Hm (get s, w) Hw).
  by destruct (m (get s, w)) as [r [t w']].
Qed.
Lemma within_HttpClient_Get {S} url : within (HttpClient_Get (S := S) url).
Proof.
  apply preserves_bind; [by apply within_on_world; auto|]. intros []; auto with alternator.
Qed.

Ltac stay_step :=
  lazymatch goal with
  | |- preserves _ (mret _) => apply preserves_ret
  | |- preserves _ (throw _) => apply preserves_throw
  | |- preserves _ (gets _) => apply preserves_gets
  | |- preserves _ (lift_result _) => apply preserves_lift
  | |- preserves _ (on_world _) => apply within_on_world; auto
  | |- preserves _ (HttpClient_Get _) => apply within_HttpClient_Get
  | |- preserves _ (state_op _) => apply within_state_op
  | |- preserves _ (modify _) => first [apply within_modify|by intros [? ?]]
  | |- preserves _ (zoom _ _ _) => apply within_zoom
  | |- preserves _ (try_catch _ _) => apply preserves_try
  | |- preserves _ (_ ≫= _) => apply preserves_bind
  | |- ∀ _, _ => intro
  | |- _ → _ => intro
  | |- preserves _ _ => first [assumption|case_match]
  end.
Ltac stay := repeat stay_step.

Lemma within_Report node o : within (Store_Report node o).
Proof. unfold Store_Report. stay. Qed.
Lemma within_add_nodes nodes h (w : W) : Q w → Q (add_nodes nodes h w).2.
Proof.
  revert h w. induction nodes as [|n nodes IH]; intros h w Hw; [done|]. simpl.
  destruct (statuses_ h !! Url_ToString n); [by apply IH|].
  specialize (Hsteady w Hw). destruct (steady_now w). by apply IH.
Qed.
Lemma within_probe node st (w : W) : Q w → Q (localnodes_probe node st w).2.
Proof.
  intros Hw. unfold localnodes_probe.
  pose proof (Hget (WithPathAndQuery node "/localnodes" "") w Hw) as Hg.
  by destruct (http_get _ w) as [[] ?].
Qed.
Lemma within_ProbeDownNodes : within ProbeDownNodes.
Proof.
  apply within_zoom. apply preserves_bind; [stay|]. intros d. cbv iota. destruct d; [stay|].
  apply preserves_bind; [stay|]. intros candidates.
  induction candidates as [|node l IH]; [apply preserves_ret|]. simpl.
  apply preserves_bind; [stay|]. intros [st|]; [|done].
  apply preserves_bind; [apply within_on_world, within_probe|]. intros a.
  apply preserves_bind; [stay|]. intros o.
  apply preserves_bind; [apply within_Report|]. intros []. apply preserves_bind; [done|stay].
Qed.
Lemma within_MarkActivity : within MarkActivity.
Proof. unfold MarkActivity. stay. Qed.
Lemma within_ReportNodeResult node o : within (ReportNodeResult node o).
Proof.
  unfold ReportNodeResult. apply preserves_bind; [apply within_MarkActivity|]. intros _.
  apply preserves_bind; [apply within_zoom, within_Report|]. stay.
Qed.
Lemma within_NextNode : within NextNode.
Proof.
  unfold NextNode. apply preserves_bind; [apply within_MarkActivity|]. intros _.
  apply preserves_bind; [stay|]. intros c. apply preserves_bind; [|stay].
  case_bool_decide; [|stay]. apply preserves_bind; [apply within_ProbeDownNodes|stay].
Qed.
Lemma within_GetNodesFromEndpoint endpoint : within (GetNodesFromEndpoint endpoint).
Proof. unfold GetNodesFromEndpoint. stay. Qed.
Lemma within_discovery_loop fuel scope plan d e : within (discovery_loop fuel scope plan d e).
Proof.
  revert plan d e. induction fuel as [|fuel IH]; intros plan d e; [apply preserves_throw|]. simpl.
  destruct (QueryPlan_Next plan) as [next plan']. apply preserves_bind; [stay|]. intros node.
  destruct (Url_Empty node); [unfold discovery_result; stay|].
  apply preserves_bind; [apply preserves_try|].
  - apply preserves_bind; [apply within_GetNodesFromEndpoint|stay].
  - intros x. apply preserves_bind; [apply within_ReportNodeResult|stay].
  - intros [x|nodes]; [apply IH|]. case_bool_decide; [apply IH|].
    destruct (negb _); [stay|apply IH].
Qed.
Lemma within_GetNodesForScope scope : within (GetNodesForScope scope).
Proof.
  unfold GetNodesForScope, GetDiscoveryNodesForScope. apply preserves_bind; [stay|].
  intros nodes. apply preserves_bind; [stay|]. intros c. apply within_discovery_loop.
Qed.
Lemma within_FetchLiveNodes : within FetchLiveNodes.
Proof.
  apply preserves_bind; [stay|]. intros c.
  induction (scope_chain (routing_scope c)) as [|scope scopes IH]; [apply preserves_ret|].
  simpl. apply preserves_bind; [apply within_GetNodesForScope|]. intros l.
  case_bool_decide; [done|stay].
Qed.
Lemma within_UpdateLiveNodes : within UpdateLiveNodes.
Proof.
  unfold UpdateLiveNodes. apply preserves_bind; [apply within_FetchLiveNodes|]. intros new_nodes.
  case_bool_decide; [apply preserves_bind; [apply within_ProbeDownNodes|stay]|].
  apply preserves_bind; [apply within_zoom; intros [h w]; apply within_add_nodes|]. intros _.
  do 4 (apply preserves_bind; [stay|]; intros ?).
  apply preserves_bind; [apply within_ProbeDownNodes|stay].
Qed.
Lemma within_CheckScopes : within CheckIfRackAndDatacenterSetCorrectly.
Proof.
  apply preserves_bind; [stay|]. intros c. generalize (@nil string) as misses.
  induction (scope_chain (routing_scope c)) as [|scope scopes IH]; intros misses; simpl; [stay|].
  destruct (IsCluster scope); [stay|].
  apply preserves_bind; [apply within_GetNodesForScope|]. intros l.
  case_bool_decide; [apply IH|stay].
Qed.
Lemma within_CheckFeature : within CheckIfRackDatacenterFeatureIsSupported.
Proof.
  apply preserves_bind; [unfold NextKnownNode; stay|]. intros node. destruct (Url_Empty node); [stay|].
  do 2 (apply preserves_bind; [apply within_GetNodesFromEndpoint|]; intros ?). stay.
Qed.
Lemma within_background_turn next_down_probe : within (background_turn next_down_probe).
Proof.
  do 3 (apply preserves_bind; [stay|]; intros ?). apply preserves_bind; [|stay].
  apply preserves_try; [|stay].
  apply preserves_bind; [case_match; [apply within_UpdateLiveNodes|stay]|]. intros _.
  case_match; [|stay]. apply preserves_bind; [apply within_ProbeDownNodes|stay].
Qed.
Lemma within_BackgroundLoop timed_out t : within (BackgroundLoop timed_out t).
Proof. destruct t; simpl; stay. apply within_background_turn. Qed.

Lemma perform_keeps σ o : Q σ.2 → Q (perform σ o).2.
Proof.
  destruct o; simpl.
  - apply within_NextNode.
  - apply within_UpdateLiveNodes.
  - apply within_ReportNodeResult.
  - apply within_ProbeDownNodes.
  - apply within_CheckScopes.
  - apply within_CheckFeature.
  - apply within_BackgroundLoop.
Qed.
Lemma performs_keep σ os : Q σ.2 → Q (foldl perform σ os).2.
Proof.
  revert σ. induction os as [|o os IH]; intros σ Hσ; [done|]. apply IH. by apply perform_keeps.
Qed.
End operations.

(** ** A refresh of a cluster-wide scope *)

(** The hosts that a reply to a [/localnodes] request names. *)
Definition hosts_of (out : http_outcome) : option (list string) :=
  match out with
  | HttpReply resp =>
      if status_code resp =? 200 then
        match ParseJsonStringArray (body resp) with Ok hosts => Some hosts | Throw _ => None end
      else None
  | HttpFailure _ => None
  end.

Section collecting.
Context {W : Type} `{World W}.
Context (Q : W → Prop).
Context (Hsteady : ∀ w, Q w → Q (steady_now w).2).
Context (Hhigh : ∀ w, Q w → Q (high_resolution_now w).2).
Context (scope : RoutingScope) (Hscope : IsCluster scope = true).

(** Every one of these nodes replies in the same way throughout, or does not. *)
Definition localnodes_of (node : Url) : Url :=
  WithPathAndQuery node "/localnodes" (LocalNodesQuery scope).
Context (nodes : list Url) (answers : Url → option (list string)).
Context (Hget : ∀ node w, node ∈ nodes → Q w →
  hosts_of (http_get (localnodes_of node) w).1 = answers node ∧
  Q (http_get (localnodes_of node) w).2).

(** The nodes that some node of [l] names. *)
Definition named_by (c : Config) (l : list Url) (u : Url) : Prop :=
  ∃ node hosts, node ∈ l ∧ answers node = Some hosts ∧ u ∈ ToUrls hosts c.

Lemma nonempty_node_urls l : Forall node_url l → nonempty_nodes l.
Proof.
  intros Hl. eapply Forall_impl; [exact Hl|]. intros u (_ & (Hh & _) & _). by apply bool_decide_eq_false_2.
Qed.
Lemma named_by_split c node l l' u :
  (∀ v, v ∈ l ↔ v = node ∨ v ∈ l') → named_by c l u ↔ named_by c [node] u ∨ named_by c l' u.
Proof.
  intros Hl. unfold named_by. setoid_rewrite Hl. setoid_rewrite list_elem_of_singleton. naive_solver.
Qed.
Lemma named_by_one c node hosts u :
  answers node = Some hosts → named_by c [node] u ↔ u ∈ ToUrls hosts c.
Proof.
  intros E. unfold named_by. setoid_rewrite list_elem_of_singleton. naive_solver.
Qed.

Lemma ask_node c node s (w : W) :
  node ∈ nodes → Q w → config_ s = c →
  ∃ r w', GetNodesFromEndpoint (localnodes_of node) (s, w) = (r, (s, w')) ∧ Q w' ∧
    match r with
    | Ok l => ∃ hosts, answers node = Some hosts ∧ l = ToUrls hosts c
    | Throw _ => answers node = None
    end.
Proof.
  intros Hn Hw Hc. destruct (Hget node w Hn Hw) as [Ea Hq]. revert Ea Hq.
  unfold GetNodesFromEndpoint, HttpClient_Get, mbind, M_bind, on_world.
  destruct (http_get (localnodes_of node) w) as [[resp|what] w']; cbn [fst snd hosts_of];
    intros Ea Hq; [|by eexists _, w'].
  cbn. destruct (status_code resp =? 200); cbn [negb]; [|by eexists _, w'].
  unfold try_catch, lift_result, gets. cbn [fst].
  destruct (ParseJsonStringArray (body resp)) as [hosts|error]; [|by eexists _, w'].
  eexists _, w'. split_and!; [done..|]. exists hosts. by rewrite Hc.
Qed.

Lemma report_within node o c s (w : W) :
  live_inv s → config_ s = c → Q w →
  ∃ s' w', ReportNodeResult node o (s, w) = (Ok tt, (s', w')) ∧ Q w' ∧ live_inv s' ∧ config_ s' = c.
Proof.
  intros Hs Hc Hw.
  pose proof (keeps_ReportNodeResult _ (configured_stable c) node o (s, w) (conj Hs Hc)) as [Hs' Hc'].
  pose proof (within_ReportNodeResult Q Hsteady node o (s, w) Hw) as Hw'.
  assert (∃ σ', ReportNodeResult node o (s, w) = (Ok tt, σ')) as [[s' w'] E].
  { unfold ReportNodeResult, MarkActivity, Store_Report, zoom, mbind, M_bind, on_world, state_op,
      gets, modify. destruct (steady_now w) as [now w1]. destruct (MarkActivity_at now s) as [b s1].
    cbn. destruct (_ || _); cbn; [|destruct (steady_now w1); cbn];
      destruct (GetNodeStatus _ _) as [st|]; [case_bool_decide| |case_bool_decide|]; eauto. }
  rewrite E in *. by exists s', w'.
Qed.

(** The loop over a plan collects what the nodes of the plan name. *)
Lemma discovery_collects c fuel plan d e s (w : W) :
  wf_plan plan → Z.of_nat (length (nodes_ plan)) < 2 ^ 31 → nonempty_nodes (nodes_ plan) →
  (length (nodes_ plan) < fuel)%nat → (∀ u, u ∈ nodes_ plan → u ∈ nodes) →
  live_inv s → config_ s = c → Q w →
  let all u := u ∈ d ∨ named_by c (nodes_ plan) u in
  (∃ u, all u) →
  ∃ l s' w', discovery_loop fuel scope plan d e (s, w) = (Ok l, (s', w')) ∧
    (∀ u, u ∈ l ↔ all u).
Proof.
  revert plan d e s w. induction fuel as [|fuel IH]; intros plan d e s w Hp Hl Hne Hf Hsub Hs Hc Hw all Hex; [lia|].
  cbn [discovery_loop].
  destruct (Next_spec plan) as (u & plan' & -> & Hp' & [(En & -> & _)|Hn]); [done|done| |];
    rewrite bind_lift_ok.
  { cbn [Url_Empty Url_default]. unfold discovery_result.
    assert (∀ u, all u ↔ u ∈ d) as Hd.
    { intros u. unfold all, named_by. rewrite En. set_solver. }
    rewrite bool_decide_eq_false_2.
    - eexists _, s, w. split; [done|]. intros u. by rewrite elem_of_SortAndDedupe, Hd.
    - intros ->. destruct Hex as [u Hu]. apply Hd in Hu. set_solver. }
  assert (∀ v, v ∈ nodes_ plan ↔ v = u ∨ v ∈ nodes_ plan') as Hin
    by (intros v; by rewrite Hn, elem_of_cons).
  unfold nonempty_nodes in Hne. rewrite Hn in Hne. apply Forall_cons_1 in Hne as [-> Hne].
  assert (length (nodes_ plan) = S (length (nodes_ plan'))) as HL by (by rewrite Hn).
  (* the rest of the plan, with what the node named added *)
  assert (∀ d' e' s' w', live_inv s' → config_ s' = c → Q w' →
    (∀ v, all v ↔ v ∈ d' ∨ named_by c (nodes_ plan') v) →
    ∃ l s2 w2, discovery_loop fuel scope plan' d' e' (s', w') = (Ok l, (s2, w2)) ∧
      (∀ v, v ∈ l ↔ all v)) as Hrest.
  { intros d' e' s' w' Hs' Hc' Hw' Hall.
    destruct (IH plan' d' e' s' w') as (l & s2 & w2 & E & El);
      [done|lia|done|lia|intros v Hv; apply Hsub, Hin; by right|done|done|done| |].
    - destruct Hex as [v Hv]. exists v. by apply Hall.
    - exists l, s2, w2. split; [done|]. intros v. by rewrite El, Hall. }
  assert (∀ v, all v ↔ (v ∈ d ∨ named_by c [u] v) ∨ named_by c (nodes_ plan') v) as Hall.
  { intros v. unfold all. rewrite (named_by_split c u (nodes_ plan) (nodes_ plan') v Hin). tauto. }
  assert (u ∈ nodes) as Hu by (apply Hsub, Hin; by left).
  destruct (ask_node c u s w Hu Hw Hc) as (r & w1 & E & Hw1 & Hr).
  unfold mbind at 1, M_bind at 1, try_catch, mbind at 1, M_bind at 1. fold (localnodes_of u). rewrite E.
  destruct r as [named|error].
  - destruct Hr as (hosts & Eh & ->). cbn [mret M_ret]. rewrite Hscope. cbn [negb].
    pose proof (λ v, named_by_one c u hosts v Eh) as Hnb.
    case_bool_decide as Et; apply Hrest; try done; intros v; rewrite Hall, Hnb.
    + rewrite Et. set_solver.
    + rewrite elem_of_app. done.
  - destruct (report_within u (discovery_observation error) c s w1 Hs Hc Hw1)
      as (s2 & w2 & E2 & Hw2 & Hs2 & Hc2).
    unfold mbind at 1, M_bind at 1. rewrite E2. cbn [mret M_ret].
    apply Hrest; [done..|]. intros v. rewrite Hall.
    assert (¬ named_by c [u] v) by (intros (n & hosts & ->%list_elem_of_singleton & ? & ?); congruence).
    tauto.
Qed.

(** A refresh then installs what the initial nodes name, if they name any. *)
Lemma refresh_collects s (w : W) :
  clean s → routing_scope (config_ s) = Some scope → initial_nodes_ s = nodes →
  Forall node_url nodes → Z.of_nat (length nodes) < 2 ^ 31 →
  (∀ node hosts, node ∈ nodes → answers node = Some hosts → Forall plain_host hosts) →
  Q w → (∃ u, named_by (config_ s) nodes u) →
  ∃ s' w', UpdateLiveNodes (s, w) = (Ok tt, (s', w')) ∧ live_inv s' ∧ tracks s' ∧
    ∀ u, u ∈ live_nodes_ s' ↔ named_by (config_ s) nodes u.
Proof.
  intros (Hs & Ht & Hn) Er Ei Hu Hl Hp Hw Hex.
  assert (∃ l s1 w1, FetchLiveNodes (s, w) = (Ok l, (s1, w1)) ∧
    ∀ u, u ∈ l ↔ named_by (config_ s) nodes u) as (l & s1 & w1 & E & El).
  { unfold FetchLiveNodes, gets. unfold mbind at 1, M_bind at 1. cbn [fst]. rewrite Er.
    rewrite scope_chain_step. replace (scope_chain (Fallback scope)) with (@nil RoutingScope)
      by (by destruct scope). cbn [fetch_loop].
    unfold GetNodesForScope, GetDiscoveryNodesForScope, gets, on_world. rewrite Hscope.
    unfold mbind, M_bind. cbn [fst]. pose proof (Hhigh w Hw) as Hw0.
    destruct (high_resolution_now w) as [clock w0]. rewrite Ei.
    destruct (discovery_collects (config_ s) (S (length nodes)) (QueryPlan_make clock nodes) [] None s w0)
      as (l & s1 & w1 & -> & El); try done; [by apply nonempty_node_urls|cbn; lia| |].
    - destruct Hex as [u Hu']. exists u. by right.
    - exists l, s1, w1. assert (∀ u, u ∈ l ↔ named_by (config_ s) nodes u) as El'.
      { intros u. rewrite El. cbn. set_solver. }
      split; [|done]. rewrite bool_decide_eq_false_2; [done|]. intros ->.
      destruct Hex as [u Hu']. apply El' in Hu'. set_solver. }
  assert (Forall node_url l) as Hln.
  { apply Forall_forall. intros u (node & hosts & Hnode & Eh & Hin)%El.
    unfold ToUrls in Hin. apply elem_of_SortAndDedupe, list_elem_of_fmap in Hin as (h & -> & Hh).
    apply node_url_make; [apply Hs|]. specialize (Hp node hosts Hnode Eh).
    rewrite Forall_forall in Hp. by apply Hp. }
  destruct (UpdateLiveNodes_run s w l s1 w1) as (s2 & w2 & E2 & Hs2 & Ht2 & Hl2); try done.
  - intros ->. destruct Hex as [u Hu']. apply El in Hu'. set_solver.
  - apply key_inj_nodes. by apply Forall_app_2.
  - exists s2, w2. split_and!; [done..|]. intros u. by rewrite Hl2, elem_of_SortAndDedupe, El.
Qed.
End collecting.

(** ** Scopes and their fallbacks *)

Section falling_back.
Context {W : Type} `{World W}.
Context (Q : W → Prop).
Context (Hsteady : ∀ w, Q w → Q (steady_now w).2).
Context (Hhigh : ∀ w, Q w → Q (high_resolution_now w).2).
(** What every one of these nodes replies throughout. *)
Context (nodes : list Url) (answers : RoutingScope → Url → list string).
Context (Hget : ∀ scope node w, node ∈ nodes → Q w →
  hosts_of (http_get (localnodes_of scope node) w).1 = Some (answers scope node) ∧
  Q (http_get (localnodes_of scope node) w).2).

(** Asking one node: nothing but the world moves. *)
Lemma ask_in_scope scope node s (w : W) :
  node ∈ nodes → Q w →
  ∃ w', GetNodesFromEndpoint (localnodes_of scope node) (s, w) =
      (Ok (ToUrls (answers scope node) (config_ s)), (s, w')) ∧ Q w'.
Proof.
  intros Hn Hw.
  destruct (ask_node Q scope nodes (λ node, Some (answers scope node)) (Hget scope) (config_ s) node s w)
    as (r & w' & E & Hw' & Hr); [done..|]. destruct r as [l|]; [|done].
  destruct Hr as (hosts & [= <-] & ->). by exists w'.
Qed.

Lemma ToUrls_empty hosts c : ToUrls hosts c = [] ↔ hosts = [].
Proof. unfold ToUrls. rewrite SortAndDedupe_nil. by destruct hosts. Qed.

(** A scope for which no node names a host comes out empty. *)
Lemma scope_loop_empty fuel scope plan s (w : W) :
  (∀ node, node ∈ nodes → answers scope node = []) →
  (length (nodes_ plan) < fuel)%nat →
  wf_plan plan → Z.of_nat (length (nodes_ plan)) < 2 ^ 31 → nonempty_nodes (nodes_ plan) →
  (∀ u, u ∈ nodes_ plan → u ∈ nodes) → Q w →
  ∃ w', discovery_loop fuel scope plan [] None (s, w) = (Ok [], (s, w')) ∧ Q w'.
Proof.
  intros Hempty. revert plan w. induction fuel as [|fuel IH]; intros plan w Hf Hp Hl Hne Hsub Hw; [lia|].
  cbn [discovery_loop].
  destruct (Next_spec plan) as (u & plan' & -> & Hp' & [(En & -> & _)|Hn]); [done|done| |];
    rewrite bind_lift_ok; [by exists w|].
  unfold nonempty_nodes in Hne. rewrite Hn in Hne. apply Forall_cons_1 in Hne as [-> Hne].
  assert (u ∈ nodes) as Hu by (apply Hsub; rewrite Hn; by left).
  destruct (ask_in_scope scope u s w Hu Hw) as (w1 & E & Hw1).
  unfold mbind at 1, M_bind at 1, try_catch, mbind at 1, M_bind at 1. fold (localnodes_of scope u). rewrite E.
  cbn [mret M_ret]. rewrite Hempty by done. rewrite bool_decide_eq_true_2 by (by apply ToUrls_empty).
  apply IH; [|done| |done| |done].
  - rewrite Hn in Hf. cbn in Hf. lia.
  - rewrite Hn in Hl. cbn in Hl. lia.
  - intros v Hv. apply Hsub. rewrite Hn. by right.
Qed.

(** Below the cluster, the first node asked decides. *)
Lemma scope_loop_first fuel scope plan s (w : W) :
  IsCluster scope = false → (∀ node, node ∈ nodes → answers scope node ≠ []) →
  wf_plan plan → Z.of_nat (length (nodes_ plan)) < 2 ^ 31 → nonempty_nodes (nodes_ plan) →
  nodes_ plan ≠ [] → (∀ u, u ∈ nodes_ plan → u ∈ nodes) → Q w →
  ∃ node w', node ∈ nodes ∧
    discovery_loop (S fuel) scope plan [] None (s, w) =
    (Ok (ToUrls (answers scope node) (config_ s)), (s, w')).
Proof.
  intros Hc Hfull Hp Hl Hne Hnil Hsub Hw. cbn [discovery_loop].
  destruct (Next_spec plan) as (u & plan' & -> & Hp' & [(En & _)|Hn]); [done..| |]; [done|].
  rewrite bind_lift_ok. unfold nonempty_nodes in Hne. rewrite Hn in Hne.
  apply Forall_cons_1 in Hne as [-> _].
  assert (u ∈ nodes) as Hu by (apply Hsub; rewrite Hn; by left).
  destruct (ask_in_scope scope u s w Hu Hw) as (w1 & E & _).
  exists u, w1. split; [done|].
  unfold mbind at 1, M_bind at 1, try_catch, mbind at 1, M_bind at 1. fold (localnodes_of scope u). rewrite E.
  cbn [mret M_ret]. rewrite bool_decide_eq_false_2 by (rewrite ToUrls_empty; by apply Hfull).
  by rewrite Hc.
Qed.

(** The object as discovery leaves it, and the nodes it may ask. *)
Context (s0 : AlternatorLiveNodes).
Definition asking (s : AlternatorLiveNodes) : Prop :=
  live_inv s ∧ config_ s = config_ s0 ∧ initial_nodes_ s = initial_nodes_ s0 ∧
  health_store_ s = health_store_ s0.
Context (Hactive : GetActiveNodes s0 ≠ []).
Context (Hnodes : nodes = initial_nodes_ s0 ++ GetActiveNodes s0 ++ GetQuarantinedNodes s0).
Context (Hplain : Forall node_url nodes) (Hsize : Z.of_nat (length nodes) < 2 ^ 31).

Lemma asking_plan s : asking s → asking (GetQueryPlanNodes s).2.
Proof.
  intros (Hs & Hc & Hi & Hh).
  pose proof (st_GetQueryPlanNodes _ live_inv_stable s Hs) as Hs'.
  destruct (GetQueryPlanNodes_run s) as [Hh' _].
  assert (config_ (GetQueryPlanNodes s).2 = config_ s ∧
    initial_nodes_ (GetQueryPlanNodes s).2 = initial_nodes_ s) as [Hc' Hi'].
  { unfold GetQueryPlanNodes, ShouldTryQuarantinedNode, NextQuarantinedNode, fetch_quarantine_plan_index,
      fetch_quarantine_node_index. repeat case_match; simplify_eq/=; done. }
  split_and!; [done|congruence..].
Qed.

Lemma discovery_nodes scope s (w : W) :
  asking s → ∃ l s', GetDiscoveryNodesForScope scope (s, w) = (Ok l, (s', w)) ∧ asking s' ∧
    l ≠ [] ∧ Z.of_nat (length l) < 2 ^ 31 ∧ ∀ u, u ∈ l → u ∈ nodes.
Proof.
  intros Ha. pose proof Ha as (Hs & Hc & Hi & Hh). unfold GetDiscoveryNodesForScope.
  destruct (IsCluster scope).
  - exists (initial_nodes_ s), s. split_and!; [done..|apply Hs| |].
    + rewrite Hnodes, length_app in Hsize. rewrite Hi. lia.
    + intros u. rewrite Hi, Hnodes. set_solver.
  - pose proof (asking_plan s Ha) as Ha'. unfold state_op.
    destruct (GetQueryPlanNodes_run s) as [_ Hl].
    assert (GetActiveNodes s = GetActiveNodes s0) as Ea by (unfold GetActiveNodes; by rewrite Hh).
    assert (GetQuarantinedNodes s = GetQuarantinedNodes s0) as Eq
      by (unfold GetQuarantinedNodes; by rewrite Hh).
    rewrite Ea, Eq in Hl. destruct (GetQueryPlanNodes s) as [l s']. cbn [fst snd] in *.
    exists l, s'. split_and!; [done|done| | |].
    + destruct Hl as [->|(q & _ & _ & ->)]; rewrite SortAndDedupe_nil; [done|].
      by intros []%app_eq_nil.
    + apply Z.le_lt_trans with (Z.of_nat (length nodes)); [|done]. apply inj_le.
      rewrite Hnodes, !length_app. destruct Hl as [->|(q & Hq & _ & ->)];
        etransitivity; [apply SortAndDedupe_length| |apply SortAndDedupe_length|]; [lia|].
      rewrite length_app. cbn. destruct (GetQuarantinedNodes s0); [by apply elem_of_nil in Hq|cbn; lia].
    + intros u. rewrite Hnodes. destruct Hl as [->|(q & Hq & _ & ->)];
        rewrite elem_of_SortAndDedupe; [set_solver|]. rewrite elem_of_app, list_elem_of_singleton.
      intros [?| ->]; rewrite !elem_of_app; auto.
Qed.

Lemma scope_empty scope s (w : W) :
  (∀ node, node ∈ nodes → answers scope node = []) → asking s → Q w →
  ∃ s' w', GetNodesForScope scope (s, w) = (Ok [], (s', w')) ∧ asking s' ∧ Q w'.
Proof.
  intros Hempty Ha Hw. destruct (discovery_nodes scope s w Ha) as (l & s1 & E & Ha1 & _ & Hl & Hsub).
  unfold GetNodesForScope. rewrite (bind_run_ok _ _ _ _ _ E). unfold mbind, M_bind, on_world.
  pose proof (Hhigh w Hw) as Hw1. destruct (high_resolution_now w) as [clock w1].
  destruct (scope_loop_empty (S (length l)) scope (QueryPlan_make clock l) s1 w1) as (w2 & E2 & Hw2);
    [done|simpl; lia|done|done| |done|done|by exists s1, w2].
  apply (nonempty_node_urls l). rewrite Forall_forall in *. auto.
Qed.

(** The hosts the nodes name for a scope. *)
Definition named_for (scope : RoutingScope) (u : Url) : Prop :=
  ∃ node host, node ∈ nodes ∧ host ∈ answers scope node ∧
    u = Url_make (scheme (config_ s0)) host (port (config_ s0)).

Lemma scope_found scope s (w : W) :
  (∀ node, node ∈ nodes → answers scope node ≠ []) → asking s → Q w →
  ∃ l s' w', GetNodesForScope scope (s, w) = (Ok l, (s', w')) ∧ l ≠ [] ∧ ∀ u, u ∈ l → named_for scope u.
Proof.
  intros Hfull Ha Hw. destruct (discovery_nodes scope s w Ha) as (l & s1 & E & Ha1 & Hne & Hl & Hsub).
  unfold GetNodesForScope. rewrite (bind_run_ok _ _ _ _ _ E). unfold mbind, M_bind, on_world.
  pose proof (Hhigh w Hw) as Hw1. destruct (high_resolution_now w) as [clock w1].
  assert (nonempty_nodes l) as Hnl
    by (apply nonempty_node_urls; rewrite Forall_forall in *; auto).
  pose proof Ha1 as (Hs1 & Hc1 & _). destruct (IsCluster scope) eqn:Ec.
  - assert (∃ u, named_by (λ node, Some (answers scope node)) (config_ s0) l u) as [u0 Hu0].
    { destruct l as [|node l']; [done|]. assert (node ∈ nodes) as Hn by (apply Hsub; by left).
      specialize (Hfull node Hn). destruct (answers scope node) as [|host hosts] eqn:Eh; [done|].
      exists (Url_make (scheme (config_ s0)) host (port (config_ s0))), node, (host :: hosts).
      split; [by left|]. split; [congruence|]. unfold ToUrls. apply elem_of_SortAndDedupe. by left. }
    destruct (discovery_collects Q Hsteady Hhigh scope Ec nodes (λ node, Some (answers scope node)) (Hget scope)
      (config_ s0) (S (length l)) (QueryPlan_make clock l) [] None s1 w1)
      as (found & s2 & w2 & E2 & Hf); try done; [cbn; lia|exists u0; by right|].
    exists found, s2, w2. split; [done|]. split.
    + intros ->. apply (not_elem_of_nil u0), Hf. by right.
    + intros u [Hu|(node & hosts & Hn & [= <-] & Hu)]%Hf; [by apply elem_of_nil in Hu|].
      unfold ToUrls in Hu. apply elem_of_SortAndDedupe, list_elem_of_fmap in Hu as (h & -> & Hh).
      exists node, h. split_and!; [by apply Hsub|done|done].
  - destruct (scope_loop_first (length l) scope (QueryPlan_make clock l) s1 w1)
      as (node & w2 & Hn & E2); [done..|]. eexists _, s1, w2. split; [exact E2|].
    split; [rewrite ToUrls_empty; by apply Hfull|]. intros u Hu. rewrite Hc1 in Hu.
    unfold ToUrls in Hu. apply elem_of_SortAndDedupe, list_elem_of_fmap in Hu as (h & -> & Hh).
    by exists node, h.
Qed.

(** The first scope of the chain for which the nodes name hosts is used. *)
Lemma fetch_falls_back before scope rest s (w : W) :
  (∀ sc node, sc ∈ before → node ∈ nodes → answers sc node = []) →
  (∀ node, node ∈ nodes → answers scope node ≠ []) → asking s → Q w →
  ∃ l s' w', fetch_loop (before ++ scope :: rest) (s, w) = (Ok l, (s', w')) ∧ l ≠ [] ∧
    ∀ u, u ∈ l → named_for scope u.
Proof.
  intros Hempty Hfull. revert s w. induction before as [|sc before IH]; intros s w Ha Hw.
  - destruct (scope_found scope s w Hfull Ha Hw) as (l & s' & w' & E & Hne & Hl).
    exists l, s', w'. cbn [app fetch_loop]. rewrite (bind_run_ok _ _ _ _ _ E).
    by rewrite bool_decide_eq_false_2.
  - destruct (scope_empty sc s w) as (s1 & w1 & E & Ha1 & Hw1); [|done|done|].
    { intros node. apply Hempty. by left. }
    cbn [app fetch_loop]. rewrite (bind_run_ok _ _ _ _ _ E), bool_decide_eq_true_2 by done.
    apply IH; [|done|done]. intros sc' node Hsc. apply Hempty. by right.
Qed.
End falling_back.
