(* ===== verification/LiveNodesHttp.v ===== *)
(** The live nodes over the default HTTP client: [NewDefaultHttpClient] of
    src/http_client.cpp makes the client whose [Get] the discovery of
    src/live_nodes.cpp calls, in the build without libcurl the one over sockets,
    otherwise the one over libcurl.  Each makes a world of LiveNodes.v out of
    the system's clocks and its own calls. *)
From S2P Require Import Prelude Uri Effects Streams RoutingScope NodeHealth QueryPlan.
From S2P Require Import KeyRouteAffinity HttpCompression Config SocketClient HttpMessages.
From S2P Require Import CurlClient LocalNodesJson LiveNodes LiveNodesRefresh BackgroundThread.
From S2P Require Import LiveNodesWorld.

(** [std::chrono::steady_clock] and [high_resolution_clock]. *)
Class Clocks (W : Type) := {
  steady_clock : W → Z * W;
  high_resolution_clock : W → Z * W;
}.

(** A returned response or whatever was thrown, as callers of [Get] see it. *)
Definition outcome_of (r : result HttpResponse) : http_outcome :=
  match r with
  | Ok resp => HttpReply resp
  | Throw e => HttpFailure (exn_what e)
  end.

(** ** Over sockets *)

Section over_sockets.
Context {W : Type} `{Sockets W} `{Clocks W}.

Definition socket_world (fuel : nat) (config : Config) : World W := {|
  steady_now := steady_clock;
  high_resolution_now := high_resolution_clock;
  http_get url w := let '(r, w) := SocketHttpClient_Get fuel config url w in (outcome_of r, w);
|}.

(** *** A network on which every exchange succeeds

    [serving Idle]: between exchanges.  The other phases are those of an
    exchange: a socket made, connected with [sofar] sent and nothing received
    yet, and receiving.  A peer that has been sent [sofar] will send
    [answer sofar] and close; [up] are the addresses at which peers listen;
    signals interrupt at most [signals] calls. *)
Inductive phase :=
  | Idle
  | Made (fd : Z)
  | Sending (fd : Z) (sofar : string)
  | Receiving (fd : Z).

Class Serving `{!SocketLaws W} (answer : string → string) (signals : nat) := {
  serving : phase → W → Prop;
  up : string → Prop;
  serving_clocks w : serving Idle w →
    serving Idle (steady_clock w).2 ∧ serving Idle (high_resolution_clock w).2;
  serving_getaddrinfo host service family socktype w : serving Idle w →
    ∃ it results w', getaddrinfo host service family socktype w = (inr (it :: results), w') ∧
      up (ai_addr it) ∧ serving Idle w';
  serving_socket family socktype protocol w : serving Idle w →
    ∃ fd w', socket family socktype protocol w = (fd, w') ∧ 0 <= fd ∧ serving (Made fd) w';
  serving_connect fd addr w : serving (Made fd) w → up addr →
    ∃ w', connect fd addr w = (0, w') ∧ serving (Sending fd "") w';
  serving_freeaddrinfo p results w : serving p w → serving p (freeaddrinfo results w);
  serving_send fd sofar data w : serving (Sending fd sofar) w →
    let '(r, w') := send fd data w in
    match r with
    | Done n => serving (Sending fd (sofar +:+ stake n data)) w'
    | Failed errno => errno = EINTR ∧ serving (Sending fd sofar) w'
    end;
  serving_answer fd sofar w : serving (Sending fd sofar) w →
    serving (Receiving fd) w ∧ incoming fd w = answer sofar;
  serving_recv fd n w : serving (Receiving fd) w →
    let '(r, w') := recv fd n w in
    serving (Receiving fd) w' ∧ match r with Done _ => True | Failed errno => errno = EINTR end;
  serving_close fd w : serving (Receiving fd) w → serving Idle (close fd w);
  serving_signals p w : serving p w → (interrupts w <= signals)%nat;
}.

Section exchange.
Context `{!SocketLaws W} (answer : string → string) (signals : nat) `{!Serving answer signals}.

Lemma send_served fuel fd sofar data w :
  serving (Sending fd sofar) w → (String.length data + interrupts w <= fuel)%nat →
  ∃ w', send_loop fuel fd data w = (Ok tt, w') ∧ serving (Sending fd (sofar +:+ data)) w'.
Proof.
  revert sofar data w. induction fuel as [|fuel IH]; intros sofar data w Hw Hf;
    cbn [send_loop]; case_bool_decide as Ed; try (subst; exists w; by rewrite append_empty_r).
  { destruct data; cbn in Hf; [done|lia]. }
  unfold mbind, M_bind, of_state. pose proof (send_ok fd data w Ed) as Hsend.
  pose proof (serving_send fd sofar data w Hw) as Hs.
  destruct (send fd data w) as [[n|errno] w1].
  - destruct Hsend as (Hn & _ & Hi).
    destruct (IH (sofar +:+ stake n data) (sdrop n data) w1) as (w' & E & Hw'); [done| |].
    + rewrite sdrop_length. lia.
    + exists w'. split; [done|]. by rewrite append_assoc, stake_sdrop in Hw'.
  - destruct Hs as [-> Hs]. destruct Hsend as [_ Hi]. specialize (Hi eq_refl). cbn.
    by apply IH; [|lia].
Qed.

Lemma recv_served fuel fd data w :
  serving (Receiving fd) w → (String.length (incoming fd w) + interrupts w < fuel)%nat →
  ∃ w', recv_loop fuel fd data w = (Ok (data +:+ incoming fd w), w') ∧ serving (Receiving fd) w'.
Proof.
  revert data w. induction fuel as [|fuel IH]; intros data w Hw Hf; [lia|].
  cbn [recv_loop]. unfold mbind, M_bind, of_state.
  assert (0 < 4096)%nat as H4096 by (apply Nat.ltb_lt; reflexivity).
  pose proof (recv_ok fd 4096 w H4096) as Hr. pose proof (serving_recv fd 4096 w Hw) as Hs.
  destruct (recv fd 4096 w) as [[chunk|errno] w1]; destruct Hs as [Hw1 He].
  - destruct Hr as (Ei & Hend & Hi). rewrite Ei, string_length_app in Hf. case_bool_decide as Ec.
    + exists w1. split; [|done]. rewrite Ei, Ec, (Hend Ec). cbn. by rewrite append_empty_r.
    + rewrite Ei, <-append_assoc. apply IH; [done|]. destruct chunk; [done|]. cbn in Hf. lia.
  - subst errno. destruct Hr as [Ei Hi]. specialize (Hi eq_refl). cbn. rewrite <-Ei.
    apply IH; [done|]. rewrite Ei. lia.
Qed.

Lemma ConnectTcp_served url w :
  serving Idle w → ∃ fd w', ConnectTcp url w = (Ok (mkFdGuard fd), w') ∧ 0 <= fd ∧
    serving (Sending fd "") w'.
Proof.
  intros Hw. unfold ConnectTcp, mbind, M_bind, of_state.
  destruct (serving_getaddrinfo (c_str (url_host url)) (pretty (url_port url)) AF_UNSPEC SOCK_STREAM w Hw)
    as (it & results & w1 & -> & Hup & Hw1).
  unfold finally. cbn [connect_loop]. unfold mbind, M_bind, of_state, modify.
  destruct (serving_socket (ai_family it) (ai_socktype it) (ai_protocol it) w1 Hw1)
    as (fd & w2 & -> & Hfd & Hw2).
  destruct (Z.ltb_spec fd 0); [lia|].
  destruct (serving_connect fd (ai_addr it) w2 Hw2 Hup) as (w3 & -> & Hw3). cbn.
  exists fd, (freeaddrinfo (it :: results) w3). split_and!; [done|done|].
  by apply serving_freeaddrinfo.
Qed.

(** An exchange gives what the parser makes of the answer to the request. *)
Lemma Get_served fuel config url request w :
  serving Idle w → url_scheme url = "http" → request_text config url = Ok request →
  (String.length request + signals <= fuel)%nat →
  (String.length (answer request) + signals < fuel)%nat →
  ∃ w', SocketHttpClient_Get fuel config url w =
    (ParseHttpResponse (answer request) (content_encoding_decoders config), w') ∧ serving Idle w'.
Proof.
  intros Hw Es Er Hf1 Hf2. unfold SocketHttpClient_Get. rewrite bool_decide_eq_true_2 by done.
  cbn [negb]. rewrite Er, bind_lift_ok.
  destruct (ConnectTcp_served url w Hw) as (fd & w3 & E3 & Hfd & Hw3).
  rewrite (bind_run_ok _ _ _ _ _ E3). unfold finally, SendAll, ReadAll. cbn [guard_fd].
  pose proof (serving_signals _ _ Hw3).
  destruct (send_served fuel fd "" request w3 Hw3) as (w4 & E4 & Hw4); [lia|].
  rewrite (bind_run_ok _ _ _ _ _ E4).
  apply serving_answer in Hw4 as [Hw4 Ea]. rewrite append_empty_l in Ea.
  pose proof (serving_signals _ _ Hw4).
  destruct (recv_served fuel fd "" w4 Hw4) as (w5 & E5 & Hw5); [rewrite Ea; lia|].
  rewrite (bind_run_ok _ _ _ _ _ E5). rewrite append_empty_l, Ea. unfold lift_result, FdGuard_destroy. cbn [guard_fd].
  destruct (Z.leb_spec 0 fd); [|lia]. eexists. split; [done|]. by apply serving_close.
Qed.
End exchange.
End over_sockets.

(** ** Over libcurl *)

(** The world is the client's state, which its [Get] changes, with libcurl's. *)
Definition curl_world {W} `{Curl W} `{Clocks W} (config : Config) : World (CurlState * W) := {|
  steady_now := λ '(s, w), let '(now, w) := steady_clock w in (now, (s, w));
  high_resolution_now := λ '(s, w), let '(now, w) := high_resolution_clock w in (now, (s, w));
  http_get url σ := let '(r, σ) := CurlHttpClient_Get config url σ in (outcome_of r, σ);
|}.
