(* ===== verification/Threads.v ===== *)
(** Threads that share one object: programs as trees of atomic accesses, thread
    pools, and a program logic for them.

    The class [Memory] splits an object's state into regions and says which
    mutex guards each; a region without one is a [std::atomic] or belongs to the
    environment.  A program ([prog]) is a tree of accesses, lock operations,
    waits on the object's one [std::condition_variable], and the two uses of its
    one [std::thread] member.  A pool interleaves such programs at every one of
    these operations.  Since the accesses of a program that races are not
    atomic in C++, a pool means something only where there is no race: that is
    part of what the logic proves.

    The logic is rely-guarantee with lock invariants: a thread's assertion must
    survive what the others may do while it holds its locks; a mutex has an
    invariant that holds while it is free; mutexes are taken in ascending rank;
    a thread that makes the awaited condition true owes a notification, which it
    must pay before it does anything that can block. *)
From S2P Require Import Prelude Effects.

Class Memory (σ : Type) := {
  mutex : Type;
  mutex_eq_dec :: EqDecision mutex;
  region : Type;
  view : region → Type;
  peek : ∀ g : region, σ → view g;
  poke : ∀ g : region, view g → σ → σ;
  guard : region → option mutex;
  (** The order in which mutexes are taken. *)
  rank : mutex → nat;
  (** The mutex of the condition variable, and the one that guards the
      [std::thread] member. *)
  cv_mutex : mutex;
  thread_mutex : mutex;
}.
Arguments mutex σ {_} : assert.
Arguments region σ {_} : assert.

(** ** Programs *)

Section programs.
Context {σ : Type} `{!Memory σ}.

Inductive prog (A : Type) : Type :=
  | Done (r : result A)
  | Act (g : region σ) {B : Type} (f : view g → B * view g) (k : B → prog A)
  | Acquire (m : mutex σ) (k : prog A)
  | Release (m : mutex σ) (k : prog A)
  (** [wait] ([until = None]) or [wait_until]; the answer: did it time out? *)
  | Wait (until : option Z) (k : bool → prog A)
  | NotifyAll (k : prog A)
  (** The thread member gets a new thread; it is joined if it is joinable. *)
  | Spawn (k : prog A)
  | Join (k : prog A).
Arguments Done {_} _.
Arguments Act {_} _ {_} _ _.
Arguments Acquire {_} _ _.
Arguments Release {_} _ _.
Arguments Wait {_} _ _.
Arguments NotifyAll {_} _.
Arguments Spawn {_} _.
Arguments Join {_} _.

(** What follows a program, whether it returns or throws. *)
Fixpoint pcont {A B} (p : prog A) (f : result A → prog B) : prog B :=
  match p with
  | Done r => f r
  | Act g F k => Act g F (λ b, pcont (k b) f)
  | Acquire m k => Acquire m (pcont k f)
  | Release m k => Release m (pcont k f)
  | Wait until k => Wait until (λ b, pcont (k b) f)
  | NotifyAll k => NotifyAll (pcont k f)
  | Spawn k => Spawn (pcont k f)
  | Join k => Join (pcont k f)
  end.

#[global] Instance prog_ret : MRet prog := λ A a, Done (Ok a).
#[global] Instance prog_bind : MBind prog := λ A B f p,
  pcont p (λ r, match r with Ok a => f a | Throw e => Done (Throw e) end).

Definition pthrow {A} (e : exn) : prog A := Done (Throw e).
Definition ptry {A} (p : prog A) (handler : exn → prog A) : prog A :=
  pcont p (λ r, match r with Ok a => Done (Ok a) | Throw e => handler e end).
Definition act {B} (g : region σ) (f : view g → B * view g) : prog B := Act g f (λ b, Done (Ok b)).
Definition look {B} (g : region σ) (f : view g → B) : prog B := act g (λ v, (f v, v)).
Definition write (g : region σ) (f : view g → view g) : prog () := act g (λ v, (tt, f v)).
(** [std::lock_guard]: released on every way out. *)
Definition with_lock {A} (m : mutex σ) (p : prog A) : prog A :=
  Acquire m (pcont p (λ r, Release m (Done r))).
Definition acquire (m : mutex σ) : prog () := Acquire m (Done (Ok tt)).
Definition release (m : mutex σ) : prog () := Release m (Done (Ok tt)).
Definition wait (until : option Z) : prog bool := Wait until (λ b, Done (Ok b)).
Definition notify_all : prog () := NotifyAll (Done (Ok tt)).
Definition spawn : prog () := Spawn (Done (Ok tt)).
Definition join : prog () := Join (Done (Ok tt)).
Fixpoint for_each {A} (l : list A) (body : A → prog ()) : prog () :=
  match l with
  | [] => mret tt
  | x :: l => _ ← body x; for_each l body
  end.

(** A program on its own: nothing blocks, a wait returns at once. *)
Fixpoint run {A} (p : prog A) : M σ A := λ s,
  match p with
  | Done r => (r, s)
  | Act g f k => let '(b, v) := f (peek g s) in run (k b) (poke g v s)
  | Acquire _ k | Release _ k | NotifyAll k | Spawn k | Join k => run k s
  | Wait _ k => run (k false) s
  end.

Lemma run_pcont {A B} (p : prog A) (f : result A → prog B) s :
  run (pcont p f) s = let '(r, s') := run p s in run (f r) s'.
Proof.
  revert s. induction p as [r|g C F k IH|m k IH|m k IH|until k IH|k IH|k IH|k IH];
    intros s; simpl; try done.
  destruct (F (peek g s)) as [b v]. apply IH.
Qed.
Lemma run_bind {A B} (p : prog A) (f : A → prog B) s :
  run (p ≫= f) s = (run p ≫= λ a, run (f a)) s.
Proof. unfold mbind, prog_bind, M_bind. rewrite run_pcont. by destruct (run p s) as [[]]. Qed.
Lemma run_try {A} (p : prog A) h s : run (ptry p h) s = try_catch (run p) (λ e, run (h e)) s.
Proof. unfold ptry, try_catch. rewrite run_pcont. by destruct (run p s) as [[]]. Qed.
Lemma run_with_lock {A} m (p : prog A) s : run (with_lock m p) s = run p s.
Proof. simpl. rewrite run_pcont. by destruct (run p s). Qed.
End programs.

Arguments prog σ {_} A : assert.
Arguments Done {_ _ _} _.
Arguments Act {_ _ _} _ {_} _ _.
Arguments Acquire {_ _ _} _ _.
Arguments Release {_ _ _} _ _.
Arguments Wait {_ _ _} _ _.
Arguments NotifyAll {_ _ _} _.
Arguments Spawn {_ _ _} _.
Arguments Join {_ _ _} _.

(** ** Pools

    [ctl]: what a thread has at the end of a program, the point from which it
    goes on; [resume]: the program from there, if the thread is not over.
    [entry]: what a spawned thread starts with.  [env]: moves of the outside. *)
Class Service (σ : Type) `{!Memory σ} := {
  ctl : Type;
  resume : ctl → option (prog σ ctl);
  entry : prog σ ctl;
  env : σ → σ → Prop;
}.
Arguments ctl σ {_ _} : assert.

Section pools.
Context {σ : Type} `{!Memory σ, !Service σ}.

(** [floor]: the thread only takes mutexes above this rank.  [asleep]: the
    thread waits on the condition variable; has it been notified? *)
Record thread := mkThread {
  floor : nat;
  cur : prog σ (ctl σ);
  held : list (mutex σ);
  asleep : option bool;
}.

(** The shared state, with the thread that the [std::thread] member stands for. *)
Abbreviation memory := (σ * option nat)%type.
Record pool := mkPool {
  threads : list thread;
  mem : memory;
}.

Definition lock_free (ts : list thread) (m : mutex σ) : bool :=
  forallb (λ t, bool_decide (m ∉ held t)) ts.

Definition finished (t : thread) : bool :=
  match asleep t, cur t with
  | None, Done (Ok c) => match resume c with Some _ => false | None => true end
  | None, Done (Throw _) => true
  | _, _ => false
  end.
(** The thread that [join] waits for, if any, is over. *)
Definition joinable_done (ts : list thread) (h : option nat) : bool :=
  match h with
  | None => true
  | Some i => match ts !! i with Some t => finished t | None => true end
  end.

(** How a sleeping thread wakes; other threads just go. *)
Inductive choice := Go | TimeOut | Spurious.

Inductive event := Silent | Notified | Spawned | Joined.

Definition thread_step (ts : list thread) (h : option nat) (ch : choice) (s : σ) (t : thread)
    : option (thread * σ * event) :=
  let go p := Some (mkThread (floor t) p (held t) None, s, Silent) in
  match asleep t, cur t with
  | Some notified, Wait until k =>
      let awake (timed_out : bool) :=
        Some (mkThread (floor t) (k timed_out) (cv_mutex :: held t) None, s, Silent) in
      if lock_free ts cv_mutex then
        match ch with
        | Go => if (notified : bool) then awake false else None
        | TimeOut => match until with Some _ => awake true | None => None end
        | Spurious => awake false
        end
      else None
  | Some _, _ => None
  | None, Done (Ok c) => match resume c with Some p => go p | None => None end
  | None, Done (Throw _) => None
  | None, Act g f k =>
      let '(b, v) := f (peek g s) in
      Some (mkThread (floor t) (k b) (held t) None, poke g v s, Silent)
  | None, Acquire m k =>
      if lock_free ts m then Some (mkThread (floor t) k (m :: held t) None, s, Silent) else None
  | None, Release m k =>
      Some (mkThread (floor t) k (filter (.≠ m) (held t)) None, s, Silent)
  | None, Wait until k =>
      Some (mkThread (floor t) (cur t) (filter (.≠ cv_mutex) (held t)) (Some false), s, Silent)
  | None, NotifyAll k => Some (mkThread (floor t) k (held t) None, s, Notified)
  | None, Spawn k => Some (mkThread (floor t) k (held t) None, s, Spawned)
  | None, Join k =>
      if joinable_done ts h then Some (mkThread (floor t) k (held t) None, s, Joined) else None
  end.

Definition notified (t : thread) : thread :=
  match asleep t with
  | Some _ => mkThread (floor t) (cur t) (held t) (Some true)
  | None => t
  end.

(** The floor of a spawned thread. *)
Definition service_rank : nat := rank (thread_mutex (σ := σ)).

(** A step of thread [i]; assigning to a joinable [std::thread] terminates the
    program, which has no next state. *)
Definition pool_step (i : nat) (ch : choice) (x : pool) : option pool :=
  t ← threads x !! i;
  '(t', s, ev) ← thread_step (threads x) (mem x).2 ch (mem x).1 t;
  let ts := <[i := t']> (threads x) in
  match ev with
  | Silent => Some (mkPool ts (s, (mem x).2))
  | Notified => Some (mkPool (notified <$> ts) (s, (mem x).2))
  | Spawned =>
      match (mem x).2 with
      | Some _ => None
      | None => Some (mkPool (ts ++ [mkThread service_rank entry [] None]) (s, Some (length ts)))
      end
  | Joined => Some (mkPool ts (s, None))
  end.

Inductive step : pool → pool → Prop :=
  | step_thread i ch x y : pool_step i ch x = Some y → step x y
  | step_env ts s s' h : env s s' → step (mkPool ts (s, h)) (mkPool ts (s', h)).

(** A schedule, for concrete runs. *)
Fixpoint run_schedule (l : list (nat * choice)) (x : pool) : option pool :=
  match l with
  | [] => Some x
  | (i, ch) :: l => y ← pool_step i ch x; run_schedule l y
  end.
Lemma run_schedule_steps l x y : run_schedule l x = Some y → rtc step x y.
Proof.
  revert x. induction l as [|[i ch] l IH]; simpl; intros x E; [by simplify_eq|].
  destruct (pool_step i ch x) as [z|] eqn:Ez; [|done].
  eapply rtc_l; [by eapply step_thread|]. by apply IH.
Qed.

(** The pool after a schedule that can be followed. *)
Definition after (l : list (nat * choice)) (x : pool) : pool := default x (run_schedule l x).
Lemma after_steps l x : rtc step x (after l x).
Proof.
  unfold after. destruct (run_schedule l x) eqn:E; [|apply rtc_refl]. by eapply run_schedule_steps.
Qed.

(** *** What must not happen *)

(** The region a thread is about to access, with the thread member as [None]. *)
Definition next_region (t : thread) : option (option (region σ)) :=
  match asleep t, cur t with
  | None, Act g _ _ => Some (Some g)
  | None, Spawn _ | None, Join _ => Some None
  | _, _ => None
  end.
Definition racing (g : option (region σ)) : Prop :=
  match g with Some g => guard g ≠ None | None => True end.
(** Two threads about to access one region that is not atomic. *)
Definition race (x : pool) : Prop :=
  ∃ i j ti tj g, i ≠ j ∧ threads x !! i = Some ti ∧ threads x !! j = Some tj ∧
    next_region ti = Some g ∧ next_region tj = Some g ∧ racing g.
(** A thread about to assign to a joinable [std::thread]. *)
Definition terminating (x : pool) : Prop :=
  ∃ t k, t ∈ threads x ∧ asleep t = None ∧ cur t = Spawn k ∧ (mem x).2 ≠ None.
End pools.

Arguments thread σ {_ _} : assert.
Arguments pool σ {_ _} : assert.
