(* ===== verification/ThreadLogic.v ===== *)
(** The program logic for thread pools: weakest preconditions of programs, the
    invariant of a pool whose threads are verified, and what follows from it:
    no race, no termination by [std::thread], no deadlock, no lost wake-up. *)
From stdpp Require Import functions.
From S2P Require Import Prelude Effects Threads.

(** What a verification is about: the invariant [inv] of the object, true at
    every point; what a thread that holds the locks [h] may do ([guar h]); the
    invariant of each free mutex; and the condition threads sleep for.  The laws
    say that these fit together. *)
Class Protocol (σ : Type) `{!Memory σ, !Service σ} := {
  inv : σ * option nat → Prop;
  guar : list (mutex σ) → relation (σ * option nat);
  lock_inv : mutex σ → σ * option nat → Prop;
  wanted : σ → bool;
  (** The locks a thread holds at its resumption points. *)
  ctl_held : ctl σ → list (mutex σ);
}.
Class ProtocolLaws (σ : Type) `{Protocol σ} := {
  lock_inv_stable m h μ μ' :
    m ∉ h → inv μ' → guar h μ μ' → lock_inv m μ → lock_inv m μ';
  env_allowed s s' h : env s s' → inv (s, h) →
    inv (s', h) ∧ guar [] (s, h) (s', h) ∧ wanted s' = wanted s;
  ctl_over c : resume c = None → ctl_held c = [];
  rank_bound : ∃ n, ∀ m, (rank m <= n)%nat;
}.

Section logic.
Context {σ : Type} `{!Memory σ, !Service σ, !Protocol σ}.
Abbreviation memory := (σ * option nat)%type.

(** An assertion that the other threads do not invalidate. *)
Definition stable_in (h : list (mutex σ)) (P : memory → Prop) : Prop :=
  ∀ h' μ μ', h' ## h → inv μ' → guar h' μ μ' → P μ → P μ'.

Definition any : memory → Prop := λ _, True.

Definition guarded (g : region σ) (h : list (mutex σ)) : Prop :=
  match guard g with Some m => m ∈ h | None => True end.

(** [wp floor p o h P Q]: a thread that holds [h], owes a notification if [o],
    and knows [P], can run [p]; at the end it is in a situation that [Q] allows. *)
Definition post (A : Type) : Type :=
  result A → bool → list (mutex σ) → (memory → Prop) → Prop.
Fixpoint wp (floor : nat) {A} (p : prog σ A) (o : bool) (h : list (mutex σ)) (P : memory → Prop)
    (Q : post A) : Prop :=
  match p with
  | Done r => ∃ P', (∀ μ, inv μ → P μ → P' μ) ∧ stable_in h P' ∧ Q r o h P'
  | Act g f k =>
      guarded g h ∧
      ∀ μ, inv μ → P μ →
        let b := (f (peek g μ.1)).1 in
        let μ' := (poke g (f (peek g μ.1)).2 μ.1, μ.2) in
        inv μ' ∧ guar h μ μ' ∧
        (wanted μ.1 = false → wanted μ'.1 = true → thread_mutex ∈ h) ∧
        ∃ P', P' μ' ∧ stable_in h P' ∧
          wp floor (k b) (o || (negb (wanted μ.1) && wanted μ'.1)) h P' Q
  | Acquire m k =>
      o = false ∧ (floor < rank m)%nat ∧ Forall (λ m', (rank m' < rank m)%nat) h ∧
      ∃ P', (∀ μ, inv μ → P μ → lock_inv m μ → P' μ) ∧ stable_in (m :: h) P' ∧
        wp floor k o (m :: h) P' Q
  | Release m k =>
      (o = true → m ≠ thread_mutex) ∧
      ∃ h' P', h = m :: h' ∧ (m ∉ h') ∧ (∀ μ, inv μ → P μ → lock_inv m μ ∧ P' μ) ∧ stable_in h' P' ∧
        wp floor k o h' P' Q
  | Wait until k =>
      o = false ∧ h = [cv_mutex] ∧ (floor < rank cv_mutex)%nat ∧
      (∀ μ, inv μ → P μ → wanted μ.1 = false ∧ lock_inv cv_mutex μ) ∧
      ∀ b, wp floor (k b) false h any Q
  | NotifyAll k => wp floor k false h P Q
  | Spawn k =>
      thread_mutex ∈ h ∧
      ∃ P', (∀ μ b, inv μ → P μ →
               μ.2 = None ∧ inv (μ.1, Some b) ∧ guar h μ (μ.1, Some b) ∧ P' (μ.1, Some b)) ∧
        stable_in h P' ∧ wp floor k o h P' Q
  | Join k =>
      o = false ∧ h = [thread_mutex] ∧ (floor < service_rank)%nat ∧
      ∃ P', (∀ μ, inv μ → P μ →
               (μ.2 ≠ None → wanted μ.1 = true) ∧
               inv (μ.1, None) ∧ guar h μ (μ.1, None) ∧ P' (μ.1, None)) ∧
        stable_in h P' ∧ wp floor k o h P' Q
  end.

Lemma any_stable h : stable_in h any.
Proof. done. Qed.

Lemma wp_mono floor {A} (p : prog σ A) o h P (Q Q' : post A) :
  wp floor p o h P Q → (∀ r o h P, Q r o h P → Q' r o h P) → wp floor p o h P Q'.
Proof.
  intros Hp HQ. revert o h P Hp.
  induction p as [r|g C F k IH|m k IH|m k IH|until k IH|k IH|k IH|k IH]; intros o h P; simpl.
  - intros (P' & ? & ? & ?). exists P'. auto.
  - intros [Hg H]. split; [done|]. intros μ Hi HP. destruct (H μ Hi HP) as (? & ? & ? & P' & ? & ? & Hw).
    split_and!; [done|done|done|]. exists P'. split_and!; [done|done|]. by apply IH.
  - intros (? & ? & ? & P' & ? & ? & ?). split_and!; try done. exists P'. auto.
  - intros (? & h' & P' & ? & ? & ? & ? & ?). split; [done|]. exists h', P'. split_and!; auto.
  - intros (? & ? & ? & ? & Hw). split_and!; try done. auto.
  - apply IH.
  - intros (? & P' & ? & ? & ?). split; [done|]. exists P'. auto.
  - intros (? & ? & ? & P' & ? & ? & ?). split_and!; try done. exists P'. auto.
Qed.

Lemma wp_weaken floor {A} (p : prog σ A) o h (P P' : memory → Prop) (Q : post A) :
  (∀ μ, inv μ → P μ → P' μ) → wp floor p o h P' Q → wp floor p o h P Q.
Proof.
  revert o h P P'. induction p as [r|g C F k IH|m k IH|m k IH|until k IH|k IH|k IH|k IH];
    intros o h P P' HP; simpl.
  - intros (P1 & ? & ? & ?). exists P1. auto.
  - intros [Hg H]. split; auto.
  - intros (? & ? & ? & P1 & ? & ? & ?). split_and!; try done. exists P1. auto.
  - intros (? & h' & P1 & ? & ? & ? & ? & ?). split; [done|]. exists h', P1. split_and!; auto.
  - intros (? & ? & ? & ? & ?). split_and!; auto.
  - by apply IH.
  - intros (? & P1 & H1 & ? & ?). split; [done|]. exists P1. split_and!; auto.
  - intros (? & ? & ? & P1 & H1 & ? & ?). split_and!; try done. exists P1. split_and!; auto.
Qed.

Lemma wp_cont floor {A B} (p : prog σ A) (f : result A → prog σ B) o h P Q :
  wp floor p o h P (λ r o h P, wp floor (f r) o h P Q) → wp floor (pcont p f) o h P Q.
Proof.
  revert o h P. induction p as [r|g C F k IH|m k IH|m k IH|until k IH|k IH|k IH|k IH];
    intros o h P; simpl.
  - intros (P' & HP & _ & Hw). by eapply wp_weaken.
  - intros [Hg H]. split; [done|]. intros μ Hi HP. destruct (H μ Hi HP) as (? & ? & ? & P' & ? & ? & Hw).
    split_and!; [done|done|done|]. exists P'. split_and!; [done|done|]. by apply IH.
  - intros (? & ? & ? & P' & ? & ? & ?). split_and!; try done. exists P'. auto.
  - intros (? & h' & P' & ? & ? & ? & ? & ?). split; [done|]. exists h', P'. split_and!; auto.
  - intros (? & ? & ? & ? & Hw). split_and!; try done. auto.
  - apply IH.
  - intros (? & P' & ? & ? & ?). split; [done|]. exists P'. auto.
  - intros (? & ? & ? & P' & ? & ? & ?). split_and!; try done. exists P'. auto.
Qed.
Lemma wp_bind floor {A B} (p : prog σ A) (f : A → prog σ B) o h P (Q : post B) :
  wp floor p o h P (λ r o h P,
    match r with Ok a => wp floor (f a) o h P Q | Throw e => wp floor (Done (Throw e)) o h P Q end) →
  wp floor (p ≫= f) o h P Q.
Proof. intros H. apply wp_cont. eapply wp_mono; [exact H|]. by intros [] o' h' P'. Qed.

(** *** Programs that give back the locks they take *)

(** [turns P p R P']: [p] leads from knowledge [P] to knowledge [P' r], with the
    locks and debts as before, and the outcome [r] satisfies [R]. *)
Definition turns (floor : nat) (h : list (mutex σ)) (P : memory → Prop) {A} (p : prog σ A)
    (R : result A → Prop) (P' : result A → memory → Prop) : Prop :=
  wp floor p false h P (λ r o h' K,
    o = false ∧ h' = h ∧ (∀ μ, inv μ → K μ → P' r μ) ∧ R r).

Lemma turns_wp floor h P {A B} (p : prog σ A) (f : result A → prog σ B) R P' Q :
  turns floor h P p R P' → (∀ r, R r → wp floor (f r) false h (P' r) Q) →
  wp floor (pcont p f) false h P Q.
Proof.
  intros Hp Hf. apply wp_cont. eapply wp_mono; [exact Hp|].
  intros r o h' K (-> & -> & HK & HR). eapply wp_weaken; [exact HK|]. by apply Hf.
Qed.
Lemma turns_done floor h P {A} (r : result A) (R : result A → Prop) (P' : result A → memory → Prop) :
  stable_in h P → R r → (∀ μ, inv μ → P μ → P' r μ) → turns floor h P (Done r) R P'.
Proof. intros HS HR HP. exists P. by split_and!. Qed.
Lemma turns_mono floor h P {A} (p : prog σ A) (R R' : result A → Prop) P1 P2 :
  turns floor h P p R P1 → (∀ r, R r → R' r ∧ ∀ μ, inv μ → P1 r μ → P2 r μ) →
  turns floor h P p R' P2.
Proof.
  intros Hp HR. eapply wp_mono; [exact Hp|]. intros r o h' K (? & ? & HK & Hr).
  destruct (HR r Hr) as [? H12]. split_and!; auto.
Qed.
Lemma turns_bind floor h P {A B} (p : prog σ A) (f : A → prog σ B) R P1 R' P2 :
  turns floor h P p R P1 →
  (∀ e, R (Throw e) → turns floor h (P1 (Throw e)) (Done (Throw e)) R' P2) →
  (∀ a, R (Ok a) → turns floor h (P1 (Ok a)) (f a) R' P2) →
  turns floor h P (p ≫= f) R' P2.
Proof. intros Hp He Hf. eapply turns_wp; [exact Hp|]. intros [a|e] HR; [by apply Hf|by apply He]. Qed.
Lemma turns_act floor h P {B} g (f : view g → B * view g) (R : result B → Prop)
    (P' : result B → memory → Prop) :
  guarded g h → (∀ b, stable_in h (P' (Ok b))) →
  (∀ μ, inv μ → P μ →
     let μ' := (poke g (f (peek g μ.1)).2 μ.1, μ.2) in
     inv μ' ∧ guar h μ μ' ∧ P' (Ok (f (peek g μ.1)).1) μ' ∧ wanted μ'.1 = wanted μ.1 ∧
     R (Ok (f (peek g μ.1)).1)) →
  turns floor h P (act g f) R P'.
Proof.
  intros Hg HS H. split; [done|]. intros μ Hi HP. destruct (H μ Hi HP) as (? & ? & ? & Hw & HR).
  cbv zeta in Hw. split_and!; [done|done|by rewrite Hw; intros ->|].
  exists (P' (Ok (f (peek g μ.1)).1)). split_and!; [done|done|].
  exists (P' (Ok (f (peek g μ.1)).1)). split_and!; [done|done| |done|done|done].
  rewrite Hw. by destruct (wanted μ.1).
Qed.
(** A critical section works on the invariant of its mutex. *)
Lemma turns_with_lock floor h P {A} m (p : prog σ A) R (P' : result A → memory → Prop) :
  m ∉ h → (floor < rank m)%nat → Forall (λ m', (rank m' < rank m)%nat) h →
  stable_in (m :: h) (λ μ, P μ ∧ lock_inv m μ) → (∀ r, stable_in h (P' r)) →
  turns floor (m :: h) (λ μ, P μ ∧ lock_inv m μ) p R (λ r μ, P' r μ ∧ lock_inv m μ) →
  turns floor h P (with_lock m p) R P'.
Proof.
  intros Hm Hf Hr HS HS' Hp. split_and!; [done|done|done|].
  exists (λ μ, P μ ∧ lock_inv m μ). split_and!; [done|done|].
  eapply turns_wp; [exact Hp|]. intros r HR. split; [done|]. exists h, (P' r).
  split_and!; [done|done| |done|].
  { by intros μ _ [? ?]. }
  exists (P' r). by split_and!.
Qed.

(** Programs that leave the knowledge as it is. *)
Definition maintains (floor : nat) (P : memory → Prop) (h : list (mutex σ)) {A} (p : prog σ A)
    (R : result A → Prop) : Prop := turns floor h P p R (λ _, P).

Lemma maintains_done floor P h {A} (r : result A) (R : result A → Prop) :
  stable_in h P → R r → maintains floor P h (Done r) R.
Proof. intros HS HR. by apply turns_done. Qed.
Lemma maintains_mono floor P h {A} (p : prog σ A) (R R' : result A → Prop) :
  maintains floor P h p R → (∀ r, R r → R' r) → maintains floor P h p R'.
Proof. intros Hp HR. eapply turns_mono; [exact Hp|]. auto. Qed.
Lemma maintains_bind floor P h {A B} (p : prog σ A) (f : A → prog σ B) R R' :
  stable_in h P → maintains floor P h p R → (∀ e, R (Throw e) → R' (Throw e)) →
  (∀ a, R (Ok a) → maintains floor P h (f a) R') →
  maintains floor P h (p ≫= f) R'.
Proof. intros HS Hp He Hf. eapply turns_bind; [exact Hp| |exact Hf]. intros e HR. apply maintains_done; auto. Qed.
Lemma maintains_try floor P h {A} (p : prog σ A) f R R' :
  stable_in h P → maintains floor P h p R → (∀ a, R (Ok a) → R' (Ok a)) →
  (∀ e, R (Throw e) → maintains floor P h (f e) R') →
  maintains floor P h (ptry p f) R'.
Proof.
  intros HS Hp Ha Hf. eapply turns_wp; [exact Hp|]. intros [a|e] HR; [|by apply Hf].
  apply maintains_done; auto.
Qed.

(** ** Verified pools *)

(** The situations in which a thread may end a program. *)
Definition at_rest : post (ctl σ) := λ r o h _,
  o = false ∧ match r with Ok c => h = ctl_held c | Throw _ => h = [] end.

(** A thread with its assertion and its debt; one that sleeps has neither. *)
Definition thread_ok (P : memory → Prop) (o : bool) (t : thread σ) : Prop :=
  match asleep t with
  | None => wp (floor t) (cur t) o (held t) P at_rest
  | Some _ =>
      o = false ∧ held t = [] ∧ (floor t < rank cv_mutex)%nat ∧
      ∃ until k, cur t = Wait until k ∧ ∀ b, wp (floor t) (k b) false [cv_mutex] any at_rest
  end.

(** The invariant of a pool, with the assertion and the debt of each thread; in
    the second record, that whoever sleeps without a notification sleeps rightly
    or is about to get one, and that the thread member stands for a thread. *)
Record pool_core (P : nat → memory → Prop) (o : nat → bool) (x : pool σ) : Prop := {
  pc_inv : inv (mem x);
  pc_thread i t : threads x !! i = Some t →
    thread_ok (P i) (o i) t ∧ P i (mem x) ∧ stable_in (held t) (P i) ∧ (floor t <= service_rank)%nat ∧
    (o i = true → thread_mutex ∈ held t);
  pc_exclusive i j ti tj m : threads x !! i = Some ti → threads x !! j = Some tj →
    m ∈ held ti → m ∈ held tj → i = j;
  pc_free m : lock_free (threads x) m = true → lock_inv m (mem x);
}.
Record pool_ok (P : nat → memory → Prop) (o : nat → bool) (x : pool σ) : Prop := {
  po_core : pool_core P o x;
  po_wake i t : wanted (mem x).1 = true → threads x !! i = Some t → asleep t = Some false →
    ∃ j, is_Some (threads x !! j) ∧ o j = true;
  po_handle b : (mem x).2 = Some b → ∃ t, threads x !! b = Some t ∧ floor t = service_rank;
}.
Definition verified (x : pool σ) : Prop := ∃ P o, pool_ok P o x.

(** What the thread member is after an event, in a pool of [n] threads. *)
Definition handle_after (ev : event) (h : option nat) (n : nat) : option nat :=
  match ev with Silent | Notified => h | Spawned => Some n | Joined => None end.

Lemma lock_free_iff (ts : list (thread σ)) m :
  lock_free ts m = true ↔ ∀ i t, ts !! i = Some t → m ∉ held t.
Proof.
  unfold lock_free. rewrite forallb_forall. split.
  - intros H i t Ht. specialize (H t). rewrite bool_decide_eq_true in H. apply H.
    apply list_elem_of_In. by eapply list_elem_of_lookup_2.
  - intros H t Ht. apply bool_decide_eq_true. apply list_elem_of_In in Ht.
    apply list_elem_of_lookup_1 in Ht as [i Hi]. by eapply H.
Qed.

(** The effect of a thread's step on the object, its locks and its debt. *)
Record local_ok (ts : list (thread σ)) (μ μ' : memory) (o : bool) (t t' : thread σ)
    (ev : event) (P' : memory → Prop) (o' : bool) : Prop := {
  lo_inv : inv μ';
  lo_guar : μ' = μ ∨ guar (held t) μ μ';
  lo_floor : floor t' = floor t;
  lo_taken m : m ∈ held t' → m ∈ held t ∨ lock_free ts m = true;
  lo_given m : m ∈ held t → m ∉ held t' → lock_inv m μ';
  lo_spawn : ev = Spawned → μ.2 = None;
  lo_wanted : wanted μ'.1 = true → wanted μ.1 = true ∨ o' = true;
  lo_debt : o = true → ev = Notified ∨ o' = true;
  lo_debt_held : o' = true → thread_mutex ∈ held t';
  lo_asleep : asleep t' = Some false → wanted μ'.1 = false;
  lo_knows : P' μ';
  lo_stable : stable_in (held t') P';
  lo_ok : thread_ok P' o' t';
}.

Section adequacy.
Context `{!ProtocolLaws σ}.
Context (Hentry : wp service_rank entry false [] any at_rest).
Context (Hresume : ∀ floor c p, (floor <= service_rank)%nat → resume c = Some p →
  wp floor p false (ctl_held c) any at_rest).

Lemma lock_inv_taken m h P :
  stable_in h P → stable_in (m :: h) P.
Proof. intros HS h' μ μ' Hd. apply HS. set_solver. Qed.

Lemma local_step ts μ ch P o t t' s' ev n :
  inv μ → P μ → thread_ok P o t → stable_in (held t) P → (floor t <= service_rank)%nat →
  (o = true → thread_mutex ∈ held t) → (∀ m, lock_free ts m = true → lock_inv m μ) →
  thread_step ts μ.2 ch μ.1 t = Some (t', s', ev) →
  ∃ P' o', local_ok ts μ (s', handle_after ev μ.2 n) o t t' ev P' o'.
Proof.
  intros Hi HP Ht HS Hfl Hdebt Hfree E. unfold thread_step in E. unfold thread_ok in Ht.
  destruct t as [fl p h sl]. simpl in *.
  destruct sl as [nt|].
  - destruct Ht as (-> & -> & Hr & until & k & -> & Hk).
    destruct (lock_free ts cv_mutex) eqn:El; [|done].
    assert (∃ b, t' = mkThread fl (k b) [cv_mutex] None ∧ s' = μ.1 ∧ ev = Silent) as (b & -> & -> & ->).
    { destruct ch; [destruct nt|destruct until|]; simplify_eq; by eauto. }
    exists any, false. destruct μ as [s hd]. split; simpl; try done; auto.
    + intros m. rewrite list_elem_of_singleton. intros ->. by right.
    + intros m Hm. by apply not_elem_of_nil in Hm.
    + apply Hk.
  - destruct p as [[c|e]|g C F k|m k|m k|until k|k|k|k]; simpl in Ht.
    + destruct (resume c) as [p|] eqn:Er; [|done]. simplify_eq.
      destruct Ht as (P' & HP' & HS' & -> & ->).
      exists any, false. destruct μ. split; simpl; try done; auto. by apply Hresume.
    + done.
    + destruct Ht as [Hg Ht]. destruct (Ht μ Hi HP) as (Hi' & Hgu & Hnew & P' & HP' & HS' & Hw).
      destruct (F (peek g μ.1)) as [b v]. simpl in *. simplify_eq.
      exists P', (o || negb (wanted μ.1) && wanted (poke g v μ.1)).
      destruct μ as [s hd]. split; simpl in *; try done; auto.
      * intros Hw'. rewrite Hw'. destruct (wanted s); [by left|right]. by destruct o.
      * intros ->. by right.
      * intros Ho. destruct o; [by apply Hdebt|]. simpl in Ho.
        apply andb_true_iff in Ho as [Hw0%negb_true_iff Hw1]. by apply Hnew.
    + destruct (lock_free ts m) eqn:El; [|done]. simplify_eq.
      destruct Ht as (-> & Hf & Hr & P' & HP' & HS' & Hw).
      exists P', false. destruct μ as [s hd]. split; simpl; try done; auto.
      * intros m'. rewrite elem_of_cons. intros [->|?]; auto.
      * intros m' Hm Hn. set_solver.
    + destruct Ht as (Hmt & h' & P' & -> & Hm & HP' & HS' & Hw). simplify_eq.
      assert (filter (.≠ m) (m :: h') = h') as Ef.
      { rewrite filter_cons_False by (by intros []). apply filter_keep. intros x Hx ->. done. }
      rewrite Ef in *. exists P', o. destruct μ as [s hd]. destruct (HP' _ Hi HP).
      split; simpl; try done; auto.
      * set_solver.
      * intros m' Hm' Hn. assert (m' = m) as -> by set_solver. done.
      * intros Ho. specialize (Hdebt Ho). specialize (Hmt Ho). apply elem_of_cons in Hdebt.
        destruct Hdebt as [E'|?]; [|done]. by destruct Hmt.
    + destruct Ht as (-> & -> & Hr & HP' & Hw). simplify_eq. destruct (HP' _ Hi HP).
      rewrite (filter_cons_False (.≠ cv_mutex)) by (by intros []).
      exists any, false. destruct μ as [s hd]. split; simpl; try done; auto.
      * intros m Hm. by apply not_elem_of_nil in Hm.
      * intros m Hm _. apply list_elem_of_singleton in Hm as ->. done.
      * split_and!; try done. eauto.
    + simplify_eq. exists P, false. destruct μ as [s hd]. split; simpl; try done; auto.
    + simplify_eq. destruct Ht as (_ & P' & HP' & HS' & Hw).
      destruct μ as [s hd]. destruct (HP' _ n Hi HP) as (? & ? & ? & ?).
      exists P', o. split; simpl; try done; auto.
    + destruct (joinable_done ts μ.2); [|done]. simplify_eq.
      destruct Ht as (-> & -> & _ & P' & HP' & HS' & Hw).
      destruct μ as [s hd]. destruct (HP' _ Hi HP) as (? & ? & ? & ?).
      exists P', false. split; simpl; try done; auto.
Qed.

Lemma core_update P o ts μ μ' i t t' ev P' o' :
  pool_core P o (mkPool ts μ) → ts !! i = Some t →
  local_ok ts μ μ' (o i) t t' ev P' o' →
  pool_core (<[i := P']> P) (<[i := o']> o) (mkPool (<[i := t']> ts) μ').
Proof.
  intros [Hi Ht Hx Hf] Hti L. simpl in *.
  assert (∀ j tj, j ≠ i → ts !! j = Some tj → held t ## held tj) as Hdis.
  { intros j tj Hj Htj m Hm Hm'. apply Hj. by eapply Hx. }
  assert (∀ j tj m, <[i := t']> ts !! j = Some tj → m ∈ held tj →
    j = i ∧ tj = t' ∨ j ≠ i ∧ ts !! j = Some tj) as Hcase.
  { intros j tj m Hj _. apply list_lookup_insert_Some in Hj as [(-> & -> & _)|[? ?]]; auto. }
  split; simpl.
  - apply (lo_inv _ _ _ _ _ _ _ _ _ L).
  - intros j tj Hj. apply list_lookup_insert_Some in Hj as [(<- & <- & _)|[Hj Htj]].
    + rewrite !fn_lookup_insert. destruct (Ht i t Hti) as (_ & _ & _ & Hfl & _).
      split_and!; [by eapply lo_ok|by eapply lo_knows|by eapply lo_stable| |by eapply lo_debt_held].
      by rewrite (lo_floor _ _ _ _ _ _ _ _ _ L).
    + rewrite !fn_lookup_insert_ne by done. destruct (Ht j tj Htj) as (Hok & HP & HS & Hfl & Hd).
      split_and!; try done.
      destruct (lo_guar _ _ _ _ _ _ _ _ _ L) as [->|Hg]; [done|].
      eapply HS; [|by eapply lo_inv|exact Hg|exact HP]. apply (Hdis j); [by intros ->|done].
  - assert (∀ j tj m, j ≠ i → ts !! j = Some tj → m ∈ held t' → m ∈ held tj → False) as Hno.
    { intros j tj m Hj Htj Hm Hm'. destruct (lo_taken _ _ _ _ _ _ _ _ _ L m Hm) as [Hm2|Hfr].
      - by eapply (Hdis j tj Hj Htj m).
      - rewrite lock_free_iff in Hfr. by eapply Hfr. }
    intros j k tj tk m Hj Hk Hmj Hmk.
    destruct (Hcase j tj m Hj Hmj) as [[-> ->]|[Hj' Hj2]],
      (Hcase k tk m Hk Hmk) as [[-> ->]|[Hk' Hk2]]; [done| | |by eapply Hx].
    + exfalso. by eapply (Hno k tk m).
    + exfalso. by eapply (Hno j tj m).
  - intros m Hm. rewrite lock_free_iff in Hm.
    assert (m ∉ held t') as Hnew.
    { apply (Hm i). apply list_lookup_insert_eq. by eapply lookup_lt_Some. }
    destruct (decide (m ∈ held t)) as [Hold|Hold]; [by eapply lo_given|].
    assert (lock_inv m μ) as Hl.
    { apply Hf, lock_free_iff. intros j tj Hj. destruct (decide (j = i)) as [->|Hji].
      - by simplify_eq.
      - apply (Hm j). by rewrite list_lookup_insert_ne. }
    destruct (lo_guar _ _ _ _ _ _ _ _ _ L) as [->|Hg]; [done|].
    by eapply lock_inv_stable; [|eapply lo_inv| |].
Qed.

Lemma notified_fields (t : thread σ) :
  floor (notified t) = floor t ∧ cur (notified t) = cur t ∧ held (notified t) = held t.
Proof. unfold notified. by destruct (asleep t). Qed.
Lemma lookup_notified (ts : list (thread σ)) i t :
  (notified <$> ts) !! i = Some t → ∃ t0, ts !! i = Some t0 ∧ t = notified t0.
Proof. rewrite list_lookup_fmap. destruct (ts !! i); simpl; intros; simplify_eq; eauto. Qed.
Lemma core_notified P o ts μ :
  pool_core P o (mkPool ts μ) → pool_core P o (mkPool (notified <$> ts) μ).
Proof.
  intros [Hi Ht Hx Hf]. split; simpl in *; [done| | |].
  - intros i t (t0 & E & ->)%lookup_notified. destruct (Ht i t0 E) as (Hok & ? & ? & ? & ?).
    destruct (notified_fields t0) as (Ef & Ec & Eh). rewrite Eh, Ef. split_and!; try done.
    unfold thread_ok, notified in *. by destruct (asleep t0) eqn:Ea; simpl; rewrite ?Ea.
  - intros i j ti tj m (t1 & E1 & ->)%lookup_notified (t2 & E2 & ->)%lookup_notified.
    destruct (notified_fields t1) as (_ & _ & ->), (notified_fields t2) as (_ & _ & ->).
    by apply Hx.
  - intros m Hm. apply Hf. rewrite lock_free_iff in *. intros i t E.
    destruct (notified_fields t) as (_ & _ & <-). apply (Hm i). by rewrite list_lookup_fmap, E.
Qed.
Lemma core_spawned P o ts μ :
  pool_core P o (mkPool ts μ) →
  pool_core (<[length ts := any]> P) (<[length ts := false]> o)
    (mkPool (ts ++ [mkThread service_rank entry [] None]) μ).
Proof.
  intros [Hi Ht Hx Hf]. simpl in *.
  assert (∀ i t, (ts ++ [mkThread service_rank entry [] None]) !! i = Some t →
    i ≠ length ts ∧ ts !! i = Some t ∨ i = length ts ∧ t = mkThread service_rank entry [] None) as Hl.
  { intros i t Hit. apply lookup_app_Some in Hit as [Hit|[Hn Hit]].
    - left. apply lookup_lt_Some in Hit as Hlt. split; [lia|done].
    - right. apply list_lookup_singleton_Some in Hit as [? <-]. split; [lia|done]. }
  split; simpl; [done| | |].
  - intros i t [[Hn Hit]|[-> ->]]%Hl.
    + rewrite !fn_lookup_insert_ne by done. by apply Ht.
    + rewrite !fn_lookup_insert. by split_and!.
  - intros i j ti tj m [[Hn Hit]|[-> ->]]%Hl [[Hn' Hjt]|[-> ->]]%Hl; simpl; try done.
    + by apply Hx.
    + intros _ Hm. by apply not_elem_of_nil in Hm.
    + intros Hm. by apply not_elem_of_nil in Hm.
  - intros m Hm. apply Hf. rewrite lock_free_iff in *. intros i t Hit. apply (Hm i).
    by apply lookup_app_l_Some.
Qed.

(** The sleepers after a step of thread [i] that notified nobody. *)
Lemma wake_update P o ts μ μ' i t t' ev P' o' :
  pool_ok P o (mkPool ts μ) → ts !! i = Some t → ev ≠ Notified →
  local_ok ts μ μ' (o i) t t' ev P' o' →
  ∀ j tj, wanted μ'.1 = true → <[i := t']> ts !! j = Some tj → asleep tj = Some false →
    ∃ k, is_Some (<[i := t']> ts !! k) ∧ <[i := o']> o k = true.
Proof.
  intros [_ Hwake _] Hti Hev L j tj Hw Hj Ha. simpl in *.
  assert (is_Some (<[i := t']> ts !! i)) as Hsi.
  { eexists. apply list_lookup_insert_eq. by eapply lookup_lt_Some. }
  destruct o'; [exists i; by rewrite fn_lookup_insert|].
  destruct (lo_wanted _ _ _ _ _ _ _ _ _ L Hw) as [Hw0|?]; [|done].
  apply list_lookup_insert_Some in Hj as [(<- & <- & _)|[Hj Htj]].
  { by rewrite (lo_asleep _ _ _ _ _ _ _ _ _ L Ha) in Hw. }
  destruct (Hwake j tj Hw0 Htj Ha) as (k & [tk Hk] & Ho).
  destruct (decide (k = i)) as [->|Hki].
  { by destruct (lo_debt _ _ _ _ _ _ _ _ _ L Ho). }
  exists k. rewrite list_lookup_insert_ne, fn_lookup_insert_ne by done. eauto.
Qed.
Lemma handle_update (ts : list (thread σ)) i b t t' :
  ts !! i = Some t → floor t' = floor t →
  (∃ tb, ts !! b = Some tb ∧ floor tb = service_rank) →
  ∃ tb, <[i := t']> ts !! b = Some tb ∧ floor tb = service_rank.
Proof.
  intros Hti Hf (tb & Hb & Hfb). destruct (decide (b = i)) as [->|Hbi].
  - exists t'. simplify_eq. split; [|congruence].
    apply list_lookup_insert_eq. by eapply lookup_lt_Some.
  - exists tb. by rewrite list_lookup_insert_ne.
Qed.

Lemma verified_pool_step i ch x y : pool_step i ch x = Some y → verified x → verified y.
Proof.
  intros E (P & o & Hok). destruct x as [ts μ]. unfold pool_step in E. simpl in E.
  destruct (ts !! i) as [t|] eqn:Hti; [|done]. simpl in E.
  destruct (thread_step ts μ.2 ch μ.1 t) as [[[t' s'] ev]|] eqn:Et; [|done]. simpl in E.
  pose proof Hok as [[Hi Ht Hx Hf] Hw Hh]. simpl in *. destruct (Ht i t Hti) as (Hto & HP & HS & Hfl & Hd).
  destruct (local_step ts μ ch (P i) (o i) t t' s' ev (length (<[i := t']> ts)))
    as (P' & o' & L); try done.
  pose proof (core_update _ _ _ _ _ _ _ _ _ _ _ (po_core _ _ _ Hok) Hti L) as Hc.
  pose proof (λ H, wake_update _ _ _ _ _ _ _ _ _ _ _ Hok Hti H L) as Hwake.
  pose proof (lo_floor _ _ _ _ _ _ _ _ _ L) as Hfloor.
  destruct ev; simpl in *.
  - injection E as <-. exists (<[i := P']> P), (<[i := o']> o). split; simpl; [done|by apply Hwake|].
    intros b Hb. by eapply handle_update; [| |apply Hh].
  - injection E as <-. exists (<[i := P']> P), (<[i := o']> o).
    split; simpl; [by apply core_notified| |].
    + intros j tj _ (t0 & _ & ->)%lookup_notified. unfold notified. destruct (asleep t0) eqn:Ea; simpl; [done|]. by rewrite Ea.
    + intros b Hb. destruct (handle_update ts i b t t' Hti Hfloor (Hh b Hb)) as (tb & Hb' & Hfb).
      exists (notified tb). rewrite list_lookup_fmap, Hb'. split; [done|].
      by destruct (notified_fields tb) as (-> & _).
  - destruct μ.2; [done|]. injection E as <-.
    exists (<[length (<[i := t']> ts) := any]> (<[i := P']> P)),
      (<[length (<[i := t']> ts) := false]> (<[i := o']> o)).
    split; simpl; [by apply core_spawned| |].
    + intros j tj Hwt Hj Ha. apply lookup_app_Some in Hj as [Hj|[Hn Hj]].
      * destruct (Hwake ltac:(done) j tj Hwt Hj Ha) as (k & [tk Hk] & Ho). exists k.
        apply lookup_lt_Some in Hk as Hlt. rewrite fn_lookup_insert_ne by lia. split; [|done].
        exists tk. by apply lookup_app_l_Some.
      * apply list_lookup_singleton_Some in Hj as [_ <-]. done.
    + intros b [= <-]. exists (mkThread service_rank entry [] None). split; [|done].
      by rewrite lookup_app_r, Nat.sub_diag.
  - injection E as <-. exists (<[i := P']> P), (<[i := o']> o). split; simpl; [done|by apply Hwake|done].
Qed.

Lemma verified_step x y : step x y → verified x → verified y.
Proof.
  intros [i ch x' y' E|ts s s' h He]; [by eapply verified_pool_step|].
  intros (P & o & [[Hi Ht Hx Hf] Hw Hh]). simpl in *.
  destruct (env_allowed s s' h He Hi) as (Hi' & Hg & Hwe).
  exists P, o. split; [split|..]; simpl in *; try done.
  - intros i t Hit. destruct (Ht i t Hit) as (? & HP & HS & ? & ?). split_and!; try done.
    eapply HS; [|done|exact Hg|done]. set_solver.
  - intros m Hm. eapply lock_inv_stable; [|done|exact Hg|by apply Hf]. apply not_elem_of_nil.
  - rewrite Hwe. apply Hw.
Qed.
Lemma verified_steps x y : rtc step x y → verified x → verified y.
Proof. induction 1 as [|x y z Hxy _ IH]; [done|]. intros Hx. apply IH. by eapply verified_step. Qed.

(** Threads that start without locks, floors or knowledge. *)
Lemma verified_init ps μ :
  inv μ → (∀ m, lock_inv m μ) → μ.2 = None →
  (∀ p, p ∈ ps → wp 0 p false [] any at_rest) →
  verified (mkPool (map (λ p, mkThread 0 p [] None) ps) μ).
Proof.
  intros Hi Hl Hh Hp. exists (λ _, any), (λ _, false).
  assert (∀ i t, map (λ p, mkThread 0 p [] None) ps !! i = Some t →
    ∃ p, p ∈ ps ∧ t = mkThread 0 p [] None) as Ht.
  { intros i t Hit. apply list_elem_of_lookup_2, list_elem_of_fmap in Hit as (p & -> & ?). eauto. }
  split; [split|..]; simpl; try done.
  - intros i t (p & Hin & ->)%Ht. split_and!; [by apply Hp|done|done|simpl; lia|done].
  - intros i j ti tj m (p & _ & ->)%Ht _ Hm. by apply not_elem_of_nil in Hm.
  - intros i t _ (p & _ & ->)%Ht. done.
  - intros b Hb. congruence.
Qed.

End adequacy.

(** ** What verified pools never do *)

Section consequences.
Context `{!ProtocolLaws σ}.

Lemma verified_race_free x : verified x → ¬ race x.
Proof.
  intros (P & o & [[Hi Ht Hx Hf] _ _]) (i & j & ti & tj & g & Hij & Hti & Htj & Hgi & Hgj & Hr).
  assert (∀ k t, threads x !! k = Some t → next_region t = Some g →
    match g with Some g => guarded g (held t) | None => thread_mutex ∈ held t end) as Hheld.
  { intros k t Hk Hg. destruct (Ht k t Hk) as (Hok & _). unfold thread_ok, next_region in *.
    destruct (asleep t); [done|].
    destruct (cur t) as [|g' C F kk|m kk|m kk|until kk|kk|kk|kk]; simpl in *; simplify_eq.
    - by destruct Hok.
    - by destruct Hok.
    - destruct Hok as (_ & -> & _). set_solver. }
  pose proof (Hheld i ti Hti Hgi) as Hhi. pose proof (Hheld j tj Htj Hgj) as Hhj.
  destruct g as [g|]; [|by apply Hij; eapply Hx].
  unfold racing, guarded in *. destruct (guard g); [|done]. by apply Hij; eapply Hx.
Qed.

Lemma verified_not_terminating x : verified x → ¬ terminating x.
Proof.
  intros (P & o & [[Hi Ht Hx Hf] _ _]) (t & k & Hin & Ha & Hc & Hn).
  apply list_elem_of_lookup_1 in Hin as [i Hit]. destruct (Ht i t Hit) as (Hok & HP & _).
  unfold thread_ok in Hok. rewrite Ha, Hc in Hok. destruct Hok as (_ & P' & HP' & _).
  by destruct (HP' _ 0%nat Hi HP) as (? & _).
Qed.

(** *** Progress *)

Definition moves (x : pool σ) : Prop := ∃ j y, pool_step j Go x = Some y.

Lemma holder_awake P o x i t m :
  pool_core P o x → threads x !! i = Some t → m ∈ held t → asleep t = None ∧ finished t = false.
Proof.
  intros [_ Ht _ _] Hti Hm. destruct (Ht i t Hti) as (Hok & _). unfold thread_ok, finished in *.
  destruct (asleep t).
  { destruct Hok as (_ & Eh & _). rewrite Eh in Hm. by apply not_elem_of_nil in Hm. }
  split; [done|]. destruct (cur t) as [[c|e]| | | | | | |]; simpl in Hok; try done.
  - destruct (resume c) eqn:Er; [done|]. destruct Hok as (P' & _ & _ & _ & Eh).
    rewrite Eh, (ctl_over c Er) in Hm. by apply not_elem_of_nil in Hm.
  - destruct Hok as (P' & _ & _ & _ & Eh). rewrite Eh in Hm. by apply not_elem_of_nil in Hm.
Qed.

(** What can keep a thread that is awake. *)
Lemma awake_cases P o x i t :
  pool_ok P o x → threads x !! i = Some t → asleep t = None → finished t = false →
  moves x ∨
  (∃ m k, cur t = Acquire m k ∧ lock_free (threads x) m = false) ∨
  (∃ k, cur t = Join k ∧ joinable_done (threads x) (mem x).2 = false).
Proof.
  intros [[Hi Ht _ _] _ _] Hti Ha Hnf. destruct (Ht i t Hti) as (Hok & HP & _).
  unfold thread_ok in Hok. unfold finished in Hnf. rewrite Ha in Hok, Hnf.
  assert (∀ r, thread_step (threads x) (mem x).2 Go (mem x).1 t = Some r →
    (r.2 = Spawned → (mem x).2 = None) → moves x) as Hmove.
  { intros [[t' s'] ev] E Hsp. unfold moves. exists i. unfold pool_step. rewrite Hti. simpl.
    rewrite E. simpl. destruct ev; eauto. rewrite Hsp by done. eauto. }
  unfold thread_step in Hmove. rewrite Ha in Hmove.
  destruct (cur t) as [[c|e]|g C F k|m k|m k|until k|k|k|k] eqn:Ec; simpl in Hok; try done.
  - destruct (resume c); [|done]. left. by eapply Hmove.
  - left. destruct (F (peek g (mem x).1)). by eapply Hmove.
  - destruct (lock_free (threads x) m) eqn:El; [left; by eapply Hmove|right; left; eauto].
  - left. by eapply Hmove.
  - left. by eapply Hmove.
  - left. by eapply Hmove.
  - left. destruct Hok as (_ & P' & HP' & _). destruct (HP' _ 0%nat Hi HP) as (? & _).
    by eapply Hmove.
  - destruct (joinable_done (threads x) (mem x).2) eqn:Ej; [left; by eapply Hmove|right; right; eauto].
Qed.

Definition joiner_moves (x : pool σ) : Prop :=
  ∀ i t k, threads x !! i = Some t → asleep t = None → cur t = Join k →
    joinable_done (threads x) (mem x).2 = false → moves x.

(** Behind a mutex that is taken somebody can move: follow the holders upwards. *)
Lemma held_moves P o x m :
  pool_ok P o x → (service_rank < rank m)%nat ∨ joiner_moves x →
  lock_free (threads x) m = false → moves x.
Proof.
  intros Hok. destruct rank_bound as [n Hn]. remember (n - rank m)%nat as d eqn:Hd.
  revert m Hd. induction d as [d IH] using lt_wf_ind. intros m Hd Hj Hm.
  apply not_true_iff_false in Hm. rewrite lock_free_iff in Hm.
  destruct (decide (Exists (λ t, m ∈ held t) (threads x))) as [He|He].
  2:{ destruct Hm. intros i t Hit Hin. apply He, Exists_exists. exists t. split; [|done].
      by eapply list_elem_of_lookup_2. }
  apply Exists_exists in He as (t & Hin & Hmt). apply list_elem_of_lookup_1 in Hin as [i Hti].
  pose proof Hok as [Hc _ _]. destruct (holder_awake _ _ _ _ _ _ Hc Hti Hmt) as [Ha Hnf].
  pose proof (pc_thread _ _ _ Hc i t Hti) as (Hto & _). unfold thread_ok in Hto. rewrite Ha in Hto.
  destruct (awake_cases _ _ _ _ _ Hok Hti Ha Hnf) as [?|[(m' & k & Ec & Hl)|(k & Ec & Hl)]]; [done| |].
  - rewrite Ec in Hto. destruct Hto as (_ & _ & Hr & _). rewrite Forall_forall in Hr.
    specialize (Hr m Hmt). pose proof (Hn m'). eapply (IH (n - rank m')%nat); [lia|done| |done].
    destruct Hj as [?|?]; [left; lia|by right].
  - destruct Hj as [Hj|Hj]; [|by eapply Hj].
    rewrite Ec in Hto. destruct Hto as (_ & Eh & _). rewrite Eh in Hmt.
    apply list_elem_of_singleton in Hmt as ->. unfold service_rank in Hj. lia.
Qed.

(** A thread that owes a notification is not kept by anything. *)
Lemma debtor_moves P o x j :
  pool_ok P o x → is_Some (threads x !! j) → o j = true → moves x.
Proof.
  intros Hok [t Hj] Ho. pose proof Hok as [[_ Ht _ _] _ _]. destruct (Ht j t Hj) as (Hto & _).
  unfold thread_ok in Hto. destruct (asleep t) eqn:Ea; [destruct Hto; congruence|].
  assert (finished t = false) as Hnf.
  { unfold finished. rewrite Ea. destruct (cur t); try done.
    destruct Hto as (P' & _ & _ & ? & _). congruence. }
  destruct (awake_cases _ _ _ _ _ Hok Hj Ea Hnf) as [?|[(m' & k & Ec & _)|(k & Ec & _)]]; [done| |];
    rewrite Ec in Hto; destruct Hto; congruence.
Qed.

Lemma verified_joiner_moves P o x : pool_ok P o x → joiner_moves x.
Proof.
  intros Hok i t k Hti Ha Ec Hjd. pose proof Hok as [Hc Hwake Hh].
  destruct (mem x).2 as [b|] eqn:Eh; [|done]. destruct (Hh b eq_refl) as (tb & Hb & Hfb).
  unfold joinable_done in Hjd. rewrite Hb in Hjd.
  pose proof (pc_thread _ _ _ Hc b tb Hb) as (Htb & _). unfold thread_ok in Htb.
  destruct (asleep tb) as [nt|] eqn:Eb.
  - destruct Htb as (_ & _ & Hr & until & kb & Ecb & _).
    destruct nt.
    + destruct (lock_free (threads x) cv_mutex) eqn:El.
      * exists b. unfold pool_step. rewrite Hb. simpl. unfold thread_step. rewrite Eb, Ecb, El. simpl. eauto.
      * eapply held_moves; [done| |exact El]. left. lia.
    + assert (wanted (mem x).1 = true) as Hw.
      { destruct (pc_thread _ _ _ Hc i t Hti) as (Hto & HP & _). unfold thread_ok in Hto.
        rewrite Ha, Ec in Hto. destruct Hto as (_ & _ & _ & P' & HP' & _).
        destruct (HP' _ (pc_inv _ _ _ Hc) HP) as (Hw & _). apply Hw. congruence. }
      destruct (Hwake b tb Hw Hb Eb) as (j & Hj & Ho). by eapply debtor_moves.
  - destruct (awake_cases _ _ _ _ _ Hok Hb Eb Hjd) as [?|[(m' & k' & Ec' & Hl)|(k' & Ec' & Hl)]]; [done| |].
    + eapply held_moves; [done| |exact Hl]. left. rewrite Ec' in Htb.
      destruct Htb as (_ & Hf & _). lia.
    + rewrite Ec' in Htb. destruct Htb as (_ & _ & Hf & _). lia.
Qed.

(** While a thread is in the middle of something, some thread can move, without
    a time-out or a spurious wake-up. *)
Lemma verified_progress x i t :
  verified x → threads x !! i = Some t → asleep t = None → finished t = false → moves x.
Proof.
  intros (P & o & Hok) Hti Ha Hnf. pose proof (verified_joiner_moves P o x Hok) as Hj.
  destruct (awake_cases _ _ _ _ _ Hok Hti Ha Hnf) as [?|[(m & k & Ec & Hl)|(k & Ec & Hl)]]; [done| |].
  - eapply held_moves; [done|by right|exact Hl].
  - by eapply Hj.
Qed.

(** A thread waits in [join] only while the condition holds, *)
Lemma verified_join x i t k :
  verified x → threads x !! i = Some t → asleep t = None → cur t = Join k → (mem x).2 ≠ None →
  wanted (mem x).1 = true.
Proof.
  intros (P & o & [Hc _ _]) Hi Ha Ec Hn. destruct (pc_thread _ _ _ Hc i t Hi) as (Hto & HP & _).
  unfold thread_ok in Hto. rewrite Ha, Ec in Hto. destruct Hto as (_ & _ & _ & P' & HP' & _).
  destruct (HP' _ (pc_inv _ _ _ Hc) HP) as (Hw & _). by apply Hw.
Qed.
(** and then nobody sleeps unnotified. *)
Lemma verified_wake x i j ti tj k :
  verified x → threads x !! i = Some ti → asleep ti = None → cur ti = Join k → (mem x).2 ≠ None →
  threads x !! j = Some tj → asleep tj ≠ Some false.
Proof.
  intros Hv Hi Ha Ec Hn Hj Hs. pose proof (verified_join x i ti k Hv Hi Ha Ec Hn) as Hw.
  destruct Hv as (P & o & [Hc Hwake _]). destruct (pc_thread _ _ _ Hc i ti Hi) as (Hto & _).
  unfold thread_ok in Hto. rewrite Ha, Ec in Hto. destruct Hto as (Ho & Eh & _).
  destruct (Hwake j tj Hw Hj Hs) as (d & [td Hd] & Hod).
  destruct (pc_thread _ _ _ Hc d td Hd) as (_ & _ & _ & _ & Hheld).
  assert (d = i) as ->; [|congruence].
  eapply (pc_exclusive _ _ _ Hc); [exact Hd|exact Hi|by apply Hheld|]. rewrite Eh. set_solver.
Qed.
End consequences.
End logic.
