(* ===== verification/LiveNodesThreads.v ===== *)
(** The live nodes (src/live_nodes.cpp, src/node_health.cpp) as several threads
    see them: every member function as a program of atomic accesses, with the
    mutexes it takes, the atomic counters it moves, its requests and its uses of
    the condition variable and the thread member.

    The object's state is the record of LiveNodes.v together with the world.
    [mutex_] guards the node list, the quarantine assignments and the schedule;
    the health store's mutex its statuses; [background_mutex_] the two flags.
    Configuration and initial nodes do not change after construction: they are
    parameters of the programs.  [ControlMutex] is not of the object: [Start]
    and [Stop] may not overlap, and callers that use them from several threads
    must serialise them, which is what a program that takes it does.

    LiveNodesAlone.v proves that each program, run alone, is the member function
    of LiveNodes.v. *)
From S2P Require Import Prelude Uri GoRandom Effects RoutingScope NodeHealth QueryPlan.
From S2P Require Import KeyRouteAffinity HttpCompression Config LocalNodesJson LiveNodes.
From S2P Require Import Threads.

Inductive live_mutex := ControlMutex | BackgroundMutex | ObjectMutex | HealthMutex.
#[global] Instance live_mutex_eq_dec : EqDecision live_mutex.
Proof. solve_decision. Defined.

Inductive live_region :=
  | Guarded      (** [live_nodes_], [quarantine_by_hash_], [next_update_], [last_activity_] *)
  | Statuses     (** [statuses_] of the health store *)
  | Flags        (** [background_started_], [stopping_] *)
  | NextIndex | PlanIndex | NodeIndex
  | Outside.     (** clocks and requests *)

Record guarded_fields := mkGuarded {
  g_live_nodes : list Url;
  g_quarantine : gmap Z Url;
  g_next_update : Z;
  g_last_activity : Z;
}.
Definition set_g_quarantine (m : gmap Z Url) (g : guarded_fields) : guarded_fields :=
  mkGuarded (g_live_nodes g) m (g_next_update g) (g_last_activity g).

Abbreviation status_map := (gmap string (Url * NodeHealthStatus)).

Section memory.
Context {W : Type}.
Abbreviation state := (AlternatorLiveNodes * W)%type.

Definition live_view (g : live_region) : Type :=
  match g with
  | Guarded => guarded_fields
  | Statuses => status_map
  | Flags => bool * bool
  | NextIndex | PlanIndex | NodeIndex => Z
  | Outside => W
  end.
Definition live_peek (g : live_region) (σ : state) : live_view g :=
  let s := σ.1 in
  match g with
  | Guarded => mkGuarded (live_nodes_ s) (quarantine_by_hash_ s) (next_update_ s) (last_activity_ s)
  | Statuses => statuses_ (health_store_ s)
  | Flags => (background_started_ s, stopping_ s)
  | NextIndex => next_node_index_ s
  | PlanIndex => quarantine_plan_index_ s
  | NodeIndex => quarantine_node_index_ s
  | Outside => σ.2
  end.
Definition live_poke (g : live_region) : live_view g → state → state :=
  match g with
  | Guarded => λ v σ, (set_live_nodes (g_live_nodes v)
      (set_quarantine_by_hash (g_quarantine v)
        (set_schedule (g_next_update v) (g_last_activity v) σ.1)), σ.2)
  | Statuses => λ v σ, (set_health (set_statuses (health_store_ σ.1) v) σ.1, σ.2)
  | Flags => λ v σ, (set_background v.1 v.2 σ.1, σ.2)
  | NextIndex => λ v σ,
      (set_indices v (quarantine_plan_index_ σ.1) (quarantine_node_index_ σ.1) σ.1, σ.2)
  | PlanIndex => λ v σ,
      (set_indices (next_node_index_ σ.1) v (quarantine_node_index_ σ.1) σ.1, σ.2)
  | NodeIndex => λ v σ,
      (set_indices (next_node_index_ σ.1) (quarantine_plan_index_ σ.1) v σ.1, σ.2)
  | Outside => λ v σ, (σ.1, v)
  end.
Definition live_guard (g : live_region) : option live_mutex :=
  match g with
  | Guarded => Some ObjectMutex
  | Statuses => Some HealthMutex
  | Flags => Some BackgroundMutex
  | NextIndex | PlanIndex | NodeIndex | Outside => None
  end.
Definition live_rank (m : live_mutex) : nat :=
  match m with ControlMutex => 1 | BackgroundMutex => 2 | ObjectMutex => 3 | HealthMutex => 4 end.

#[global] Instance live_memory : Memory (AlternatorLiveNodes * W) := {|
  mutex := live_mutex;
  region := live_region;
  view := live_view;
  peek := live_peek;
  poke := live_poke;
  guard := live_guard;
  rank := live_rank;
  cv_mutex := BackgroundMutex;
  thread_mutex := ControlMutex;
|}.
End memory.

(** Where the background thread goes on: at the head of its loop, in the wait
    for [stopping_], or nowhere. *)
Inductive live_ctl :=
  | AtHead (next_down_probe : Z)
  | AtWaitStop (next_down_probe : Z)
  | Exit.

Section operations.
Context {W : Type} `{World W}.
Context (config : Config) (initial_nodes : list Url).
Abbreviation state := (AlternatorLiveNodes * W)%type.
Abbreviation prog := (prog (AlternatorLiveNodes * W)).

Definition guarded_op {B} (f : guarded_fields → B * guarded_fields) : prog B :=
  act (Guarded : region state) f.
Definition statuses_op {B} (f : status_map → B * status_map) : prog B :=
  act (Statuses : region state) f.
Definition flags_op {B} (f : bool * bool → B * (bool * bool)) : prog B :=
  act (Flags : region state) f.
Definition outside {B} (f : W → B * W) : prog B := act (Outside : region state) f.
(** [fetch_add(1)] *)
Definition fetch_add_next : prog Z := act (NextIndex : region state) (λ i : Z, (i, u64 (i + 1))).
Definition fetch_add_plan : prog Z := act (PlanIndex : region state) (λ i : Z, (i, u64 (i + 1))).
Definition fetch_add_node : prog Z := act (NodeIndex : region state) (λ i : Z, (i, u64 (i + 1))).
Definition lift {A} (r : result A) : prog A := Done r.

(** ** The health store *)

Definition health : NodeHealthStoreConfig := normalize_health_config (node_health config).

Definition p_GetNodesByState (st : NodeHealthState) : prog (list Url) :=
  with_lock (HealthMutex : mutex state)
    (statuses_op (λ m, (GetNodesByState st (mkStore health m), m))).
Definition p_GetActiveNodes : prog (list Url) :=
  if disabled health then
    with_lock (HealthMutex : mutex state)
      (statuses_op (λ m, (sort_urls (map fst (status_entries (mkStore health m))), m)))
  else p_GetNodesByState Active.
Definition p_GetQuarantinedNodes : prog (list Url) :=
  if disabled health then mret [] else p_GetNodesByState Quarantined.
Definition p_GetDownNodes : prog (list Url) :=
  if disabled health then mret [] else p_GetNodesByState Down.
Definition p_GetNodeStatus (node : Url) : prog (option NodeHealthStatus) :=
  with_lock (HealthMutex : mutex state)
    (statuses_op (λ m, (GetNodeStatus node (mkStore health m), m))).
(** [statuses_.find(node) != statuses_.end()] *)
Definition has_status (node : Url) : prog bool :=
  statuses_op (λ m, (negb (bool_decide (m !! Url_ToString node = None)), m)).
Definition p_AddNode (node : Url) : prog () :=
  with_lock (HealthMutex : mutex state)
    (known ← has_status node;
     if (known : bool) then mret tt
     else now ← outside steady_now;
          statuses_op (λ m, (tt, statuses_ (AddNode now node (mkStore health m))))).
Definition p_RemoveNode (node : Url) : prog () :=
  with_lock (HealthMutex : mutex state)
    (statuses_op (λ m, (tt, statuses_ (RemoveNode node (mkStore health m))))).
Definition p_Store_Report (node : Url) (observation : NodeHealthObservation) : prog () :=
  if disabled health then mret tt
  else
    with_lock (HealthMutex : mutex state)
      (known ← has_status node;
       if negb known then mret tt
       else now ← outside steady_now;
            statuses_op (λ m,
              (tt, statuses_ (Store_ReportNodeResult now node observation (mkStore health m))))).

(** The probe of the live nodes. *)
Definition p_probe (node : Url) : prog NodeHealthObservation :=
  out ← outside (http_get (WithPathAndQuery node "/localnodes" ""));
  mret match out with
       | HttpReply resp => if 500 <=? status_code resp then ServerError else Success
       | HttpFailure _ => ConnectionFailure
       end.
Fixpoint p_probe_loop (candidates : list Url) : prog (list Url) :=
  match candidates with
  | [] => mret []
  | node :: candidates =>
      status ← p_GetNodeStatus node;
      match status with
      | None => p_probe_loop candidates
      | Some _ =>
          observation ← p_probe node;
          _ ← p_Store_Report node observation;
          responsive ← p_probe_loop candidates;
          mret (if bool_decide (observation = Success) then node :: responsive else responsive)
      end
  end.
Definition p_ProbeDownNodes : prog (list Url) :=
  if disabled health then mret []
  else candidates ← p_GetDownNodes; p_probe_loop candidates.

(** ** Selection *)

Definition p_GetNodes : prog (list Url) :=
  with_lock (ObjectMutex : mutex state)
    (guarded_op (λ g, (if bool_decide (g_live_nodes g = []) then initial_nodes
                       else g_live_nodes g, g))).

Definition p_ShouldTryQuarantinedNode (active_nodes_empty : bool) : prog bool :=
  quarantined_nodes ← p_GetQuarantinedNodes;
  if bool_decide (quarantined_nodes = []) then mret false
  else if active_nodes_empty then mret true
  else
    let interval := quarantine_traffic_interval (node_health config) in
    let interval := if interval =? 0 then 1 else interval in
    index ← fetch_add_plan;
    let attempt := u64 (index + 1) in
    mret (attempt mod interval =? 0).

Definition p_NextQuarantinedNode : prog Url :=
  nodes ← p_GetQuarantinedNodes;
  if bool_decide (nodes = []) then mret Url_default
  else index ← fetch_add_node; mret (pick_round_robin nodes index).

Definition p_GetQueryPlanNodes : prog (list Url) :=
  candidates ← p_GetActiveNodes;
  try ← p_ShouldTryQuarantinedNode (bool_decide (candidates = []));
  candidates ← (if (try : bool) then
                  quarantined ← p_NextQuarantinedNode;
                  mret (if Url_Empty quarantined then candidates else candidates ++ [quarantined])
                else mret candidates);
  mret (SortAndDedupeNodes candidates).

(** The first critical section of [StickyQuarantinedNodeForHash]: [Some] for
    the two [return]s in it. *)
Definition p_assigned_node (hash : Z) (quarantined_nodes active_nodes : list Url)
    : prog (option Url) :=
  with_lock (ObjectMutex : mutex state)
    (assigned ← guarded_op (λ g, (g_quarantine g !! hash, g));
     let erase := guarded_op (λ g, (tt, set_g_quarantine (delete hash (g_quarantine g)) g)) in
     match assigned with
     | Some node =>
         if bool_decide (node ∈ quarantined_nodes) then
           first ← lift (QuarantinedNodeIsFirstForHash node active_nodes hash);
           if negb first then _ ← erase; mret (Some Url_default) else mret (Some node)
         else _ ← erase; mret None
     | None => mret None
     end).
Definition p_StickyQuarantinedNodeForHash (hash : Z) (active_nodes : list Url) : prog Url :=
  quarantined_nodes ← p_GetQuarantinedNodes;
  answer ← p_assigned_node hash quarantined_nodes active_nodes;
  match answer with
  | Some node => mret node
  | None =>
      try ← p_ShouldTryQuarantinedNode (bool_decide (active_nodes = []));
      if negb try then mret Url_default
      else
        quarantined_nodes ← p_GetQuarantinedNodes;
        if bool_decide (quarantined_nodes = []) then mret Url_default
        else
          index ← fetch_add_node;
          let node := pick_round_robin quarantined_nodes index in
          first ← lift (QuarantinedNodeIsFirstForHash node active_nodes hash);
          if negb first then mret Url_default
          else
            _ ← with_lock (ObjectMutex : mutex state)
                  (guarded_op (λ g, (tt, set_g_quarantine (<[hash := node]> (g_quarantine g)) g)));
            mret node
  end.
Definition p_GetQueryPlanNodesForHash (hash : Z) : prog (list Url) :=
  active_nodes ← p_GetActiveNodes;
  let active_nodes := SortAndDedupeNodes active_nodes in
  quarantined ← p_StickyQuarantinedNodeForHash hash active_nodes;
  mret (AppendUniqueNodes (if Url_Empty quarantined then [] else [quarantined]) active_nodes).

Definition p_RemoveQuarantineHashAssignmentsForNode (node : Url) : prog () :=
  with_lock (ObjectMutex : mutex state)
    (guarded_op (λ g,
       (tt, set_g_quarantine (filter (λ e, Url_eqb e.2 node = false) (g_quarantine g)) g))).

(** The critical section of [MarkActivity]; the answer: notify? *)
Definition p_mark (now : Z) : prog bool :=
  guarded_op (λ g,
    let marked next := mkGuarded (g_live_nodes g) (g_quarantine g) next now in
    if 0 <? nodes_list_update_period config then
      let active_due := now + milliseconds (nodes_list_update_period config) in
      if active_due <? g_next_update g then (true, marked active_due)
      else (g_next_update g <=? now, marked (g_next_update g))
    else (false, marked (g_next_update g))).
Definition p_MarkActivity : prog () :=
  now ← outside steady_now;
  notify ← with_lock (ObjectMutex : mutex state) (p_mark now);
  if (notify : bool) then notify_all else mret tt.

Definition p_ReportNodeResult (node : Url) (observation : NodeHealthObservation) : prog () :=
  _ ← p_MarkActivity;
  _ ← p_Store_Report node observation;
  status ← p_GetNodeStatus node;
  match status with
  | Some st =>
      if bool_decide (NodeHealth.state st = Quarantined) then mret tt
      else p_RemoveQuarantineHashAssignmentsForNode node
  | None => p_RemoveQuarantineHashAssignmentsForNode node
  end.

Definition p_NextNode : prog Url :=
  _ ← p_MarkActivity;
  candidates ← p_GetActiveNodes;
  candidates ← (if bool_decide (candidates = []) then _ ← p_ProbeDownNodes; p_GetActiveNodes
                else mret candidates);
  try ← p_ShouldTryQuarantinedNode (bool_decide (candidates = []));
  quarantined ← (if (try : bool) then p_NextQuarantinedNode else mret Url_default);
  if negb (Url_Empty quarantined) then mret quarantined
  else if bool_decide (candidates = []) then mret Url_default
  else index ← fetch_add_next; mret (pick_round_robin candidates index).

Definition p_NextKnownNode : prog Url :=
  nodes ← p_GetNodes;
  if bool_decide (nodes = []) then mret Url_default
  else index ← fetch_add_next; mret (pick_round_robin nodes index).

(** ** Discovery *)

Definition p_HttpClient_Get (url : Url) : prog HttpResponse :=
  out ← outside (http_get url);
  match out with
  | HttpReply resp => mret resp
  | HttpFailure what => pthrow (RuntimeError what)
  end.
Definition p_GetNodesFromEndpoint (endpoint : Url) : prog (list Url) :=
  resp ← p_HttpClient_Get endpoint;
  if negb (status_code resp =? 200) then
    pthrow (HttpStatusError ("non-200 response from " +:+ Url_ToString endpoint)
              (status_code resp))
  else
    ptry (nodes ← lift (ParseJsonStringArray (body resp)); mret (ToUrls nodes config))
      (λ error, pthrow (InvalidHttpResponseError (exn_what error))).

Definition p_GetDiscoveryNodesForScope (scope : RoutingScope) : prog (list Url) :=
  if IsCluster scope then mret initial_nodes else p_GetQueryPlanNodes.

Definition p_discovery_result (discovered : list Url) (last_error : option exn) : prog (list Url) :=
  if bool_decide (discovered = []) then
    match last_error with Some error => pthrow error | None => mret [] end
  else mret (SortAndDedupeNodes discovered).
Fixpoint p_discovery_loop (fuel : nat) (scope : RoutingScope) (plan : QueryPlan)
    (discovered : list Url) (last_error : option exn) : prog (list Url) :=
  match fuel with
  | O => pthrow out_of_fuel
  | S fuel =>
      let '(next, plan) := QueryPlan_Next plan in
      node ← lift next;
      if Url_Empty node then p_discovery_result discovered last_error
      else
        answer ← ptry
          (nodes ← p_GetNodesFromEndpoint
                     (WithPathAndQuery node "/localnodes" (LocalNodesQuery scope));
           mret (inr nodes))
          (λ error, _ ← p_ReportNodeResult node (discovery_observation error);
                    mret (inl error));
        match answer with
        | inl error => p_discovery_loop fuel scope plan discovered (Some error)
        | inr nodes =>
            if bool_decide (nodes = []) then
              p_discovery_loop fuel scope plan discovered last_error
            else if negb (IsCluster scope) then mret nodes
            else p_discovery_loop fuel scope plan (discovered ++ nodes) last_error
        end
  end.
Definition p_GetNodesForScope (scope : RoutingScope) : prog (list Url) :=
  nodes ← p_GetDiscoveryNodesForScope scope;
  clock ← outside high_resolution_now;
  p_discovery_loop (S (length nodes)) scope (QueryPlan_make clock nodes) [] None.

Fixpoint p_fetch_loop (scopes : list RoutingScope) : prog (list Url) :=
  match scopes with
  | [] => mret []
  | scope :: scopes =>
      nodes ← p_GetNodesForScope scope;
      if bool_decide (nodes = []) then p_fetch_loop scopes else mret nodes
  end.
Definition p_FetchLiveNodes : prog (list Url) := p_fetch_loop (scope_chain (routing_scope config)).

(** The critical section of [UpdateLiveNodes] returns [removed_nodes]. *)
Definition p_install (new_nodes : list Url) : prog (list Url) :=
  with_lock (ObjectMutex : mutex state)
    (_ ← for_each new_nodes p_AddNode;
     removed_nodes ← guarded_op (λ g, (filter (λ n, n ∉ new_nodes) (g_live_nodes g), g));
     _ ← for_each removed_nodes p_RemoveNode;
     _ ← guarded_op (λ g, (tt, mkGuarded (SortAndDedupeNodes new_nodes) (g_quarantine g)
                                 (g_next_update g) (g_last_activity g)));
     mret removed_nodes).
Definition p_UpdateLiveNodes : prog () :=
  new_nodes ← p_FetchLiveNodes;
  if bool_decide (new_nodes = []) then _ ← p_ProbeDownNodes; mret tt
  else
    removed_nodes ← p_install new_nodes;
    _ ← for_each removed_nodes p_RemoveQuarantineHashAssignmentsForNode;
    _ ← p_ProbeDownNodes;
    mret tt.

Fixpoint p_check_scopes (scopes : list RoutingScope) (misses : list string) : prog () :=
  match scopes with
  | [] =>
      if bool_decide (misses = []) then mret tt
      else pthrow (RuntimeError
             (foldl (λ message miss, message +:+ " " +:+ miss)
                "routing scope has no nodes:" misses))
  | scope :: scopes =>
      if IsCluster scope then mret tt
      else nodes ← p_GetNodesForScope scope;
           if bool_decide (nodes = []) then p_check_scopes scopes (misses ++ [Scope_ToString scope])
           else mret tt
  end.
Definition p_CheckIfRackAndDatacenterSetCorrectly : prog () :=
  p_check_scopes (scope_chain (routing_scope config)) [].

Definition p_CheckIfRackDatacenterFeatureIsSupported : prog bool :=
  node ← p_NextKnownNode;
  if Url_Empty node then pthrow (RuntimeError "no known nodes are available")
  else
    hosts_with_fake_rack ← p_GetNodesFromEndpoint (WithPathAndQuery node "/localnodes" "rack=fakeRack");
    hosts_without_rack ← p_GetNodesFromEndpoint (WithPathAndQuery node "/localnodes" "");
    if bool_decide (hosts_without_rack = []) then
      pthrow (RuntimeError "host returned empty /localnodes list")
    else mret (negb (bool_decide (length hosts_with_fake_rack = length hosts_without_rack))).

(** ** The background thread *)

Definition p_Start : prog () :=
  with_lock (BackgroundMutex : mutex state)
    (started ← flags_op (λ f, (f.1, f));
     if (started : bool) then mret tt
     else _ ← flags_op (λ _, (tt, (true, false))); spawn).

Definition p_Stop : prog () :=
  started ← with_lock (BackgroundMutex : mutex state)
    (flags_op (λ f, if (f.1 : bool) then (true, (f.1, true)) else (false, f)));
  if negb started then mret tt
  else
    _ ← notify_all;
    _ ← join;
    with_lock (BackgroundMutex : mutex state) (flags_op (λ _, (tt, (false, false)))).

(** [BackgroundLoop] up to its first resumption point, from the head of the loop
    to the next one (with [background_mutex_] held at both), and in the wait for
    [stopping_]. *)
Definition p_background_entry : prog live_ctl :=
  _ ← acquire (BackgroundMutex : mutex state);
  now ← outside steady_now;
  mret (AtHead (now + milliseconds (down_node_probe_period (node_health config)))).

Definition p_schedule (now : Z) : prog bool :=
  guarded_op (λ g,
    let should_update := negb (g_next_update g =? time_max) && (g_next_update g <=? now) in
    let s := mkLive config initial_nodes [] ∅ (mkStore health ∅) 0 0 0
               (g_next_update g) (g_last_activity g) false false in
    (should_update,
     if should_update then
       mkGuarded (g_live_nodes g) (g_quarantine g)
         (next_update_ (ScheduleNextRefresh now s)) (g_last_activity g)
     else g)).
Definition p_background_work (should_update should_probe_down : bool) : prog () :=
  ptry (_ ← (if should_update then p_UpdateLiveNodes else mret tt);
        if should_probe_down then _ ← p_ProbeDownNodes; mret tt else mret tt)
    (λ _, mret tt).

(** What follows the reading of [next_update_], with the time to wait until. *)
Definition p_wake_at (next_down_probe next_update : Z) : Z :=
  let probe_enabled := 0 <? down_node_probe_period (node_health config) in
  let refresh_enabled := negb (next_update =? time_max) in
  let wake_at := if refresh_enabled then next_update else next_down_probe in
  if probe_enabled && (negb refresh_enabled || (next_down_probe <? wake_at))
  then next_down_probe else wake_at.
Definition p_background_sleep (next_down_probe next_update : Z) : prog live_ctl :=
  let probe_period := down_node_probe_period (node_health config) in
  let probe_enabled := 0 <? probe_period in
  let refresh_enabled := negb (next_update =? time_max) in
  if negb refresh_enabled && negb probe_enabled then mret (AtWaitStop next_down_probe)
  else
    timed_out ← wait (Some (p_wake_at next_down_probe next_update));
    stopping ← flags_op (λ f, (f.2, f));
    if (stopping : bool) || negb timed_out then mret (AtHead next_down_probe)
    else
      now ← outside steady_now;
      should_update ← with_lock (ObjectMutex : mutex state) (p_schedule now);
      let should_probe_down := probe_enabled && (next_down_probe <=? now) in
      let next_down_probe :=
        if should_probe_down then now + milliseconds probe_period else next_down_probe in
      _ ← release (BackgroundMutex : mutex state);
      _ ← p_background_work should_update should_probe_down;
      _ ← acquire (BackgroundMutex : mutex state);
      mret (AtHead next_down_probe).
Definition p_background_turn (next_down_probe : Z) : prog live_ctl :=
  stopping ← flags_op (λ f, (f.2, f));
  if (stopping : bool) then _ ← release (BackgroundMutex : mutex state); mret Exit
  else
    next_update ← with_lock (ObjectMutex : mutex state) (guarded_op (λ g, (g_next_update g, g)));
    p_background_sleep next_down_probe next_update.
Definition p_background_wait (next_down_probe : Z) : prog live_ctl :=
  stopping ← flags_op (λ f, (f.2, f));
  if (stopping : bool) then mret (AtHead next_down_probe)
  else _ ← wait None; mret (AtWaitStop next_down_probe).

Definition p_resume (c : live_ctl) : option (prog live_ctl) :=
  match c with
  | AtHead next_down_probe => Some (p_background_turn next_down_probe)
  | AtWaitStop next_down_probe => Some (p_background_wait next_down_probe)
  | Exit => None
  end.

#[local] Instance live_service : Service (AlternatorLiveNodes * W) := {|
  ctl := live_ctl;
  resume := p_resume;
  entry := p_background_entry;
  env := λ σ σ', σ'.1 = σ.1;
|}.

(** ** Callers *)

(** The public interface; [Start] and [Stop] are serialised by the caller. *)
Inductive method : ∀ A, prog A → Prop :=
  | m_NextNode : method _ p_NextNode
  | m_GetNodes : method _ p_GetNodes
  | m_GetActiveNodes : method _ p_GetActiveNodes
  | m_GetQueryPlanNodes : method _ p_GetQueryPlanNodes
  | m_GetQueryPlanNodesForHash hash : method _ (p_GetQueryPlanNodesForHash hash)
  | m_GetQuarantinedNodes : method _ p_GetQuarantinedNodes
  | m_GetDownNodes : method _ p_GetDownNodes
  | m_UpdateLiveNodes : method _ p_UpdateLiveNodes
  | m_ReportNodeResult node o : method _ (p_ReportNodeResult node o)
  | m_ProbeDownNodes : method _ p_ProbeDownNodes
  | m_CheckScopes : method _ p_CheckIfRackAndDatacenterSetCorrectly
  | m_CheckFeature : method _ p_CheckIfRackDatacenterFeatureIsSupported
  | m_Start : method _ (with_lock (ControlMutex : mutex state) p_Start)
  | m_Stop : method _ (with_lock (ControlMutex : mutex state) p_Stop).

(** A caller makes any calls, each depending on the outcomes before it. *)
Inductive caller : prog live_ctl → Prop :=
  | caller_exit : caller (Done (Ok Exit))
  | caller_call A (p : prog A) (k : result A → prog live_ctl) :
      method A p → (∀ r, caller (k r)) → caller (pcont p k).
End operations.
