(* ===== verification/LiveNodesAlone.v ===== *)
(** Run alone, each program of LiveNodesThreads.v is the member function of
    LiveNodes.v: the two renderings of src/live_nodes.cpp and
    src/node_health.cpp agree. *)
From S2P Require Import Prelude Uri GoRandom Effects RoutingScope NodeHealth QueryPlan.
From S2P Require Import KeyRouteAffinity HttpCompression Config LocalNodesJson LiveNodes.
From S2P Require Import Threads LiveNodesThreads.

Section alone.
Context {W : Type} `{World W}.
Context (config : Config) (initial_nodes : list Url).
Abbreviation state := (AlternatorLiveNodes * W)%type.
Abbreviation prog := (prog (AlternatorLiveNodes * W)).

(** The object's constants are the parameters of the programs. *)
Definition consts (s : AlternatorLiveNodes) : Prop :=
  config_ s = config ∧ initial_nodes_ s = initial_nodes ∧
  health_config (health_store_ s) = health config.

Definition alone {A} (p : prog A) (m : M state A) : Prop :=
  ∀ s w, consts s → run p (s, w) = m (s, w) ∧ consts (m (s, w)).2.1.

Lemma alone_done {A} (r : result A) : alone (Done r) (lift_result r).
Proof. by split. Qed.
Lemma alone_ret {A} (a : A) : alone (mret a) (mret a).
Proof. by split. Qed.
Lemma alone_throw {A} e : alone (A := A) (pthrow e) (throw e).
Proof. by split. Qed.
Lemma alone_bind {A B} (p : prog A) m (f : A → prog B) (g : A → M state B) :
  alone p m → (∀ a, alone (f a) (g a)) → alone (p ≫= f) (m ≫= g).
Proof.
  intros Hp Hf s w Hs. destruct (Hp s w Hs) as [E Hs'].
  rewrite run_bind. unfold mbind, M_bind. rewrite E.
  destruct (m (s, w)) as [[a|e] [s' w']]; [by apply Hf|done].
Qed.
Lemma alone_try {A} (p : prog A) m (f : exn → prog A) g :
  alone p m → (∀ e, alone (f e) (g e)) → alone (ptry p f) (try_catch m g).
Proof.
  intros Hp Hf s w Hs. destruct (Hp s w Hs) as [E Hs'].
  rewrite run_try. unfold try_catch. rewrite E.
  destruct (m (s, w)) as [[a|e] [s' w']]; [done|by apply Hf].
Qed.
Lemma alone_lock {A} x (p : prog A) m : alone p m → alone (with_lock x p) m.
Proof. intros Hp s w Hs. rewrite run_with_lock. by apply Hp. Qed.
Lemma alone_eq {A} (p : prog A) (m m' : M state A) :
  alone p m → (∀ s w, consts s → m (s, w) = m' (s, w)) → alone p m'.
Proof. intros Hp E s w Hs. rewrite <-E by done. by apply Hp. Qed.
Lemma alone_act {B} g (f : live_view (W := W) g → B * live_view g) m :
  (∀ s w, consts s →
     m (s, w) = (Ok (f (live_peek g (s, w))).1, live_poke g (f (live_peek g (s, w))).2 (s, w)) ∧
     consts (m (s, w)).2.1) →
  alone (act (g : region state) f) m.
Proof.
  intros E s w Hs. destruct (E s w Hs) as [-> Hc]. split; [|done].
  simpl. by destruct (f (live_peek g (s, w))).
Qed.
Lemma alone_outside {B} (f : W → B * W) : alone (outside f) (on_world f).
Proof. apply (alone_act Outside). intros s w Hs. simpl. by destruct (f w). Qed.

(** Reading back what was just read changes nothing. *)
Lemma poke_statuses s (w : W) h :
  health_config h = health_config (health_store_ s) →
  live_poke Statuses (statuses_ h) (s, w) = (set_health h s, w).
Proof. simpl. intros E. destruct h as [c m]. simpl in *. by rewrite E. Qed.
Lemma poke_peek (g : live_region) (σ : state) : live_poke g (live_peek g σ) σ = σ.
Proof. destruct σ as [[? ? ? ? [] ? ? ? ? ? ? ?] w]. by destruct g. Qed.
Lemma store_of s : consts s → mkStore (health config) (statuses_ (health_store_ s)) = health_store_ s.
Proof. intros (_ & _ & E). destruct (health_store_ s). simpl in *. by rewrite <-E. Qed.

Lemma alone_look {B} g (f : live_view (W := W) g → B) (F : state → B) :
  (∀ s w, consts s → F (s, w) = f (live_peek g (s, w))) →
  alone (act (g : region state) (λ v, (f v, v))) (gets F).
Proof.
  intros E. apply alone_act. intros s w Hs. unfold gets. rewrite E by done. simpl.
  by rewrite poke_peek.
Qed.

(** *** The health store *)

Lemma alone_GetNodesByState st :
  alone (p_GetNodesByState config st) (gets (λ σ, GetNodesByState st (health_store_ σ.1))).
Proof. apply alone_lock, (alone_look Statuses). intros s w Hs. simpl. by rewrite store_of. Qed.
Lemma alone_GetActiveNodes : alone (p_GetActiveNodes config) (gets (λ σ, GetActiveNodes σ.1)).
Proof.
  unfold p_GetActiveNodes. destruct (disabled (health config)) eqn:Ed.
  - apply alone_lock, (alone_look Statuses). intros s w Hs. simpl. rewrite store_of by done.
    unfold GetActiveNodes, Store_GetActiveNodes. destruct Hs as (_ & _ & ->). by rewrite Ed.
  - eapply alone_eq; [apply alone_GetNodesByState|]. intros s w (_ & _ & Hc). unfold gets. simpl.
    unfold GetActiveNodes, Store_GetActiveNodes. by rewrite Hc, Ed.
Qed.
Lemma alone_GetQuarantinedNodes :
  alone (p_GetQuarantinedNodes config) (gets (λ σ, GetQuarantinedNodes σ.1)).
Proof.
  unfold p_GetQuarantinedNodes. destruct (disabled (health config)) eqn:Ed;
    (eapply alone_eq; [apply alone_ret || apply alone_GetNodesByState|]); intros s w (_ & _ & Hc);
    unfold gets, mret, M_ret; simpl; unfold GetQuarantinedNodes, Store_GetQuarantinedNodes;
    by rewrite Hc, Ed.
Qed.
Lemma alone_GetDownNodes : alone (p_GetDownNodes config) (gets (λ σ, GetDownNodes σ.1)).
Proof.
  unfold p_GetDownNodes. destruct (disabled (health config)) eqn:Ed;
    (eapply alone_eq; [apply alone_ret || apply alone_GetNodesByState|]); intros s w (_ & _ & Hc);
    unfold gets, mret, M_ret; simpl; unfold GetDownNodes, Store_GetDownNodes;
    by rewrite Hc, Ed.
Qed.
Lemma alone_GetNodeStatus node :
  alone (p_GetNodeStatus config node) (gets (λ σ, GetNodeStatus node (health_store_ σ.1))).
Proof. apply alone_lock, (alone_look Statuses). intros s w Hs. simpl. by rewrite store_of. Qed.

(** A store operation, through the object. *)
Lemma alone_statuses (f : NodeHealthStore → NodeHealthStore) :
  (∀ h, health_config (f h) = health_config h) →
  alone (statuses_op (λ m, (tt, statuses_ (f (mkStore (health config) m)))))
    (modify (λ σ, (set_health (f (health_store_ σ.1)) σ.1, σ.2))).
Proof.
  intros Hf. apply (alone_act Statuses). intros s w Hs. unfold modify.
  simpl live_peek. simpl fst. simpl snd. rewrite store_of by done.
  rewrite poke_statuses by done. split; [done|]. destruct Hs as (? & ? & Hc).
  split_and!; [done|done|]. simpl. by rewrite Hf.
Qed.
Lemma alone_Store_Report node o :
  alone (p_Store_Report config node o) (zoom health_store_ set_health (Store_Report node o)).
Proof.
  unfold p_Store_Report. destruct (disabled (health config)) eqn:Ed.
  { eapply alone_eq; [apply alone_ret|]. intros s w (_ & _ & Hc). unfold zoom, Store_Report.
    unfold mbind, M_bind, gets. simpl. rewrite Hc, Ed. simpl. by rewrite set_health_id. }
  eapply alone_eq.
  { apply alone_lock. eapply alone_bind.
    - apply (alone_look Statuses (λ m, negb (bool_decide (m !! Url_ToString node = None)))
        (λ σ, negb (bool_decide (statuses_ (health_store_ σ.1) !! Url_ToString node = None)))).
      done.
    - intros known. instantiate (1 := λ known : bool, if negb known then mret tt else
        now ← on_world steady_now;
        modify (λ σ, (set_health (Store_ReportNodeResult now node o (health_store_ σ.1)) σ.1, σ.2))).
      cbv beta. destruct (negb known); [apply alone_ret|].
      apply alone_bind; [apply alone_outside|]. intros now.
      apply (alone_statuses (Store_ReportNodeResult now node o)). intros h. apply config_Report. }
  intros s w (_ & _ & Hc). unfold zoom, Store_Report, mbind, M_bind, gets, on_world, modify. simpl.
  rewrite Hc, Ed. simpl. rewrite negb_involutive.
  case_bool_decide; simpl; [by rewrite set_health_id|]. by destruct (steady_now w).
Qed.

(** Store operations in sequence, through the object. *)
Abbreviation in_store := (zoom (W := W) health_store_ set_health).
Lemma in_store_bind {A B} (m : M (NodeHealthStore * W) A) (f : A → M (NodeHealthStore * W) B) σ :
  in_store (m ≫= f) σ = (in_store m ≫= λ a, in_store (f a)) σ.
Proof.
  destruct σ as [s w]. unfold zoom, mbind, M_bind. destruct (m (health_store_ s, w)) as [[a|e] [h w']].
  - simpl. by destruct (f a (h, w')) as [r [h' w'']].
  - done.
Qed.
Lemma in_store_gets {A} (f : NodeHealthStore * W → A) σ :
  in_store (gets f) σ = gets (λ σ, f (health_store_ σ.1, σ.2)) σ.
Proof. destruct σ as [s w]. unfold zoom, gets. simpl. by rewrite set_health_id. Qed.
Lemma in_store_ret {A} (a : A) σ : in_store (mret a) σ = (mret a : M state A) σ.
Proof. destruct σ as [s w]. unfold zoom. simpl. by rewrite set_health_id. Qed.

Lemma alone_in_store_bind {A B} p m (f : A → prog B) g :
  alone p (in_store m) → (∀ a, alone (f a) (in_store (g a))) →
  alone (p ≫= f) (in_store (m ≫= g)).
Proof.
  intros Hp Hf. eapply alone_eq; [eapply alone_bind; [exact Hp|exact Hf]|]. intros s w _.
  by rewrite in_store_bind.
Qed.
Lemma alone_in_store_ret {A} (a : A) : alone (mret a) (in_store (mret a)).
Proof. eapply alone_eq; [apply alone_ret|]. intros s w _. by rewrite in_store_ret. Qed.

Lemma alone_probe node status :
  alone (p_probe node)
    (in_store (answer ← on_world (localnodes_probe node status); lift_result answer)).
Proof.
  intros s w Hs. unfold p_probe, localnodes_probe, zoom, on_world, mbind, M_bind. simpl.
  destruct (http_get _ w) as [[resp|what] w']; simpl; by rewrite set_health_id.
Qed.
Lemma alone_probe_loop candidates :
  alone (p_probe_loop config candidates) (in_store (probe_loop localnodes_probe candidates)).
Proof.
  induction candidates as [|node candidates IH]; [apply alone_in_store_ret|].
  cbn [p_probe_loop probe_loop]. apply alone_in_store_bind.
  { eapply alone_eq; [apply alone_GetNodeStatus|]. intros s w _. by rewrite in_store_gets. }
  intros [status|]; [|apply IH]. eapply alone_eq.
  { apply (alone_in_store_bind _ _ _ (λ observation,
      _ ← Store_Report node observation;
      responsive ← probe_loop localnodes_probe candidates;
      mret (if bool_decide (observation = Success) then node :: responsive else responsive))
      (alone_probe node status)). intros observation.
    apply alone_in_store_bind; [apply alone_Store_Report|]. intros _.
    apply alone_in_store_bind; [apply IH|]. intros responsive. apply alone_in_store_ret. }
  intros s w _. unfold zoom, mbind, M_bind. simpl.
  by destruct (localnodes_probe node status w) as [[o|e] w'].
Qed.
Lemma alone_ProbeDownNodes : alone (p_ProbeDownNodes config) ProbeDownNodes.
Proof.
  unfold p_ProbeDownNodes, ProbeDownNodes, Store_ProbeDownNodes.
  destruct (disabled (health config)) eqn:Ed.
  { eapply alone_eq; [apply alone_ret|]. intros s w (_ & _ & Hc).
    rewrite in_store_bind. unfold mbind at 1, M_bind at 1. rewrite in_store_gets.
    unfold gets. simpl fst. rewrite Hc, Ed. by rewrite in_store_ret. }
  eapply alone_eq.
  { eapply alone_bind; [apply alone_GetDownNodes|]. apply alone_probe_loop. }
  intros s w (_ & _ & Hc). rewrite in_store_bind. unfold mbind at 2, M_bind at 2.
  rewrite in_store_gets. unfold gets at 2. simpl fst. rewrite Hc, Ed.
  rewrite in_store_bind. unfold mbind, M_bind. by rewrite in_store_gets.
Qed.

(** *** Selection *)

Lemma alone_fetch_next : alone fetch_add_next (state_op fetch_next_node_index).
Proof. by apply (alone_act NextIndex). Qed.
Lemma alone_fetch_plan : alone fetch_add_plan (state_op fetch_quarantine_plan_index).
Proof. by apply (alone_act PlanIndex). Qed.
Lemma alone_fetch_node : alone fetch_add_node (state_op fetch_quarantine_node_index).
Proof. by apply (alone_act NodeIndex). Qed.

Lemma alone_ShouldTry b :
  alone (p_ShouldTryQuarantinedNode config b) (state_op (ShouldTryQuarantinedNode b)).
Proof.
  unfold p_ShouldTryQuarantinedNode. eapply alone_eq.
  { eapply alone_bind; [apply alone_GetQuarantinedNodes|]. intros nodes.
    instantiate (1 := λ nodes, if bool_decide (nodes = []) then mret false
      else if b then mret true
      else index ← state_op fetch_quarantine_plan_index; mret _). cbv beta.
    case_bool_decide; [apply alone_ret|]. destruct b; [apply alone_ret|].
    apply alone_bind; [apply alone_fetch_plan|]. intros index. apply alone_ret. }
  intros s w (Hc & _). unfold state_op, ShouldTryQuarantinedNode, mbind, M_bind, gets. simpl.
  case_bool_decide; [done|]. destruct b; [done|]. by rewrite Hc.
Qed.
Lemma alone_NextQuarantined :
  alone (p_NextQuarantinedNode config) (state_op NextQuarantinedNode).
Proof.
  unfold p_NextQuarantinedNode. eapply alone_eq.
  { eapply alone_bind; [apply alone_GetQuarantinedNodes|]. intros nodes.
    instantiate (1 := λ nodes, if bool_decide (nodes = []) then mret Url_default
      else index ← state_op fetch_quarantine_node_index; mret (pick_round_robin nodes index)).
    cbv beta. case_bool_decide; [apply alone_ret|].
    apply alone_bind; [apply alone_fetch_node|]. intros index. apply alone_ret. }
  intros s w _. unfold state_op, NextQuarantinedNode, mbind, M_bind, gets. simpl.
  by case_bool_decide.
Qed.
Lemma alone_GetQueryPlanNodes :
  alone (p_GetQueryPlanNodes config) (state_op GetQueryPlanNodes).
Proof.
  unfold p_GetQueryPlanNodes. eapply alone_eq.
  { eapply alone_bind; [apply alone_GetActiveNodes|]. intros candidates.
    instantiate (1 := λ candidates,
      try ← state_op (ShouldTryQuarantinedNode (bool_decide (candidates = [])));
      candidates ← (if (try : bool) then
                      quarantined ← state_op NextQuarantinedNode;
                      mret (if Url_Empty quarantined then candidates else candidates ++ [quarantined])
                    else mret candidates);
      mret (SortAndDedupeNodes candidates)). cbv beta.
    apply alone_bind; [apply alone_ShouldTry|]. intros try.
    apply alone_bind; [|intros; apply alone_ret]. destruct try; [|apply alone_ret].
    apply alone_bind; [apply alone_NextQuarantined|]. intros. apply alone_ret. }
  intros s w _. unfold state_op, GetQueryPlanNodes, mbind, M_bind, gets. simpl.
  destruct (ShouldTryQuarantinedNode _ s) as [[] s']; [|done].
  by destruct (NextQuarantinedNode s').
Qed.

(** An operation that leaves the world alone. *)
Definition in_object {A} (m : M AlternatorLiveNodes A) : M state A := λ '(s, w),
  let '(r, s) := m s in (r, (s, w)).
Lemma in_object_bind {A B} (m : M AlternatorLiveNodes A) (f : A → M AlternatorLiveNodes B) σ :
  in_object (m ≫= f) σ = (in_object m ≫= λ a, in_object (f a)) σ.
Proof. destruct σ as [s w]. unfold in_object, mbind, M_bind. by destruct (m s) as [[]]. Qed.

(** An access to the guarded fields, as a function of the object. *)
Lemma alone_quarantine (f : gmap Z Url → gmap Z Url) :
  alone (guarded_op (λ g, (tt, set_g_quarantine (f (g_quarantine g)) g)))
    (modify (λ σ, (set_quarantine_by_hash (f (quarantine_by_hash_ σ.1)) σ.1, σ.2))).
Proof. apply (alone_act Guarded). intros s w Hs. split; [by destruct s|done]. Qed.

(** [StickyQuarantinedNodeForHash] from its second half. *)
Definition choose_sticky (hash : Z) (active_nodes : list Url) : M state Url :=
  try ← state_op (ShouldTryQuarantinedNode (bool_decide (active_nodes = [])));
  if negb try then mret Url_default
  else
    quarantined_nodes ← gets (λ σ, GetQuarantinedNodes σ.1);
    if bool_decide (quarantined_nodes = []) then mret Url_default
    else
      index ← state_op fetch_quarantine_node_index;
      let node := pick_round_robin quarantined_nodes index in
      first ← lift_result (QuarantinedNodeIsFirstForHash node active_nodes hash);
      if negb first then mret Url_default
      else
        _ ← modify (λ σ, (set_quarantine_by_hash (<[hash := node]> (quarantine_by_hash_ σ.1)) σ.1, σ.2));
        mret node.
Definition assigned_sticky (hash : Z) (quarantined_nodes active_nodes : list Url)
    : M state (option Url) :=
  assigned ← gets (λ σ, quarantine_by_hash_ σ.1 !! hash);
  let erase := modify (λ σ, (set_quarantine_by_hash (delete hash (quarantine_by_hash_ σ.1)) σ.1, σ.2)) in
  match assigned with
  | Some node =>
      if bool_decide (node ∈ quarantined_nodes) then
        first ← lift_result (QuarantinedNodeIsFirstForHash node active_nodes hash);
        if negb first then _ ← erase; mret (Some Url_default) else mret (Some node)
      else _ ← erase; mret None
  | None => mret None
  end.
Lemma alone_assigned hash quarantined active :
  alone (p_assigned_node hash quarantined active) (assigned_sticky hash quarantined active).
Proof.
  apply alone_lock, alone_bind; [by apply (alone_look Guarded)|]. intros [node|]; [|apply alone_ret].
  case_bool_decide.
  - apply alone_bind; [apply alone_done|]. intros first. destruct (negb first); [|apply alone_ret].
    apply alone_bind; [apply (alone_quarantine (delete hash))|]. intros _. apply alone_ret.
  - apply alone_bind; [apply (alone_quarantine (delete hash))|]. intros _. apply alone_ret.
Qed.
Lemma alone_Sticky hash active :
  alone (p_StickyQuarantinedNodeForHash config hash active)
    (in_object (StickyQuarantinedNodeForHash hash active)).
Proof.
  unfold p_StickyQuarantinedNodeForHash. eapply alone_eq.
  { eapply alone_bind; [apply alone_GetQuarantinedNodes|]. intros quarantined.
    instantiate (1 := λ quarantined,
      answer ← assigned_sticky hash quarantined active;
      match answer with Some node => mret node | None => choose_sticky hash active end). cbv beta.
    apply alone_bind; [apply alone_assigned|]. intros [node|]; [apply alone_ret|].
    apply alone_bind; [apply alone_ShouldTry|]. intros try. destruct (negb try); [apply alone_ret|].
    apply alone_bind; [apply alone_GetQuarantinedNodes|]. intros nodes.
    case_bool_decide; [apply alone_ret|].
    apply alone_bind; [apply alone_fetch_node|]. intros index. cbv zeta.
    apply alone_bind; [apply alone_done|]. intros first. destruct (negb first); [apply alone_ret|].
    apply alone_bind; [|intros; apply alone_ret]. apply alone_lock.
    apply (alone_quarantine (insert hash (pick_round_robin nodes index))). }
  intros s w _. unfold StickyQuarantinedNodeForHash, assigned_sticky, choose_sticky, in_object, state_op,
    of_state, mbind, M_bind, gets, lift_result, modify. simpl.
  destruct (quarantine_by_hash_ s !! hash) as [node|]; simpl; [case_bool_decide; simpl|].
  1: by destruct (QuarantinedNodeIsFirstForHash node active hash) as [[]|].
  all: destruct (ShouldTryQuarantinedNode _ _) as [[] s']; simpl; [|done].
  all: case_bool_decide; simpl; [done|].
  all: by destruct (QuarantinedNodeIsFirstForHash _ active hash) as [[]|].
Qed.
Lemma alone_GetQueryPlanNodesForHash hash :
  alone (p_GetQueryPlanNodesForHash config hash) (in_object (GetQueryPlanNodesForHash hash)).
Proof.
  unfold p_GetQueryPlanNodesForHash. eapply alone_eq.
  { eapply alone_bind; [apply alone_GetActiveNodes|]. intros active.
    instantiate (1 := λ active,
      quarantined ← in_object (StickyQuarantinedNodeForHash hash (SortAndDedupeNodes active));
      mret (AppendUniqueNodes (if Url_Empty quarantined then [] else [quarantined])
              (SortAndDedupeNodes active))). cbv beta zeta.
    apply alone_bind; [apply alone_Sticky|]. intros. apply alone_ret. }
  intros s w _. unfold GetQueryPlanNodesForHash, in_object, mbind, M_bind, gets. simpl.
  by destruct (StickyQuarantinedNodeForHash hash _ s) as [[]].
Qed.

Lemma alone_RemoveAssignments node :
  alone (p_RemoveQuarantineHashAssignmentsForNode node)
    (modify (λ σ, (RemoveQuarantineHashAssignmentsForNode node σ.1, σ.2))).
Proof. apply alone_lock, (alone_quarantine (filter (λ e, Url_eqb e.2 node = false))). Qed.
Lemma alone_mark now : alone (p_mark config now) (state_op (MarkActivity_at now)).
Proof.
  apply (alone_act Guarded). intros s w Hs. pose proof Hs as (Hc & _).
  unfold state_op, MarkActivity_at. rewrite Hc. simpl.
  destruct s; simpl in *. repeat case_match; simplify_eq/=; by split.
Qed.
Lemma alone_MarkActivity : alone (p_MarkActivity config) MarkActivity.
Proof.
  apply alone_bind; [apply alone_outside|]. intros now.
  apply alone_bind; [apply alone_lock, alone_mark|]. intros notify.
  destruct notify; [|apply alone_ret]. by split.
Qed.
Lemma alone_ReportNodeResult node o :
  alone (p_ReportNodeResult config node o) (ReportNodeResult node o).
Proof.
  apply alone_bind; [apply alone_MarkActivity|]. intros _.
  apply alone_bind; [apply alone_Store_Report|]. intros _.
  apply alone_bind; [apply alone_GetNodeStatus|]. intros [st|]; [|apply alone_RemoveAssignments].
  case_bool_decide; [apply alone_ret|apply alone_RemoveAssignments].
Qed.
Lemma alone_NextNode : alone (p_NextNode config) NextNode.
Proof.
  apply alone_bind; [apply alone_MarkActivity|]. intros _.
  apply alone_bind; [apply alone_GetActiveNodes|]. intros c1.
  apply alone_bind.
  { case_bool_decide; [|apply alone_ret].
    apply alone_bind; [apply alone_ProbeDownNodes|]. intros _. apply alone_GetActiveNodes. }
  intros candidates. apply alone_bind; [apply alone_ShouldTry|]. intros try.
  apply alone_bind; [destruct try; [apply alone_NextQuarantined|apply alone_ret]|]. intros q.
  destruct (negb (Url_Empty q)); [apply alone_ret|]. case_bool_decide; [apply alone_ret|].
  apply alone_bind; [apply alone_fetch_next|]. intros. apply alone_ret.
Qed.
Lemma alone_GetNodes : alone (p_GetNodes initial_nodes) (gets (λ σ, GetNodes σ.1)).
Proof.
  apply alone_lock, (alone_look Guarded). intros s w (_ & Hi & _). simpl.
  unfold GetNodes. by rewrite Hi.
Qed.
Lemma alone_NextKnownNode : alone (p_NextKnownNode initial_nodes) NextKnownNode.
Proof.
  apply alone_bind; [apply alone_GetNodes|]. intros nodes. case_bool_decide; [apply alone_ret|].
  apply alone_bind; [apply alone_fetch_next|]. intros. apply alone_ret.
Qed.

(** *** Discovery *)

Lemma alone_HttpClient_Get url : alone (p_HttpClient_Get url) (HttpClient_Get url).
Proof.
  apply alone_bind; [apply alone_outside|]. intros []; [apply alone_ret|apply alone_throw].
Qed.
Lemma alone_GetNodesFromEndpoint endpoint :
  alone (p_GetNodesFromEndpoint config endpoint) (GetNodesFromEndpoint endpoint).
Proof.
  unfold p_GetNodesFromEndpoint, GetNodesFromEndpoint.
  apply alone_bind; [apply alone_HttpClient_Get|]. intros resp.
  destruct (negb _); [apply alone_throw|]. eapply alone_eq.
  { apply alone_try.
    - apply alone_bind; [apply alone_done|]. intros nodes. apply alone_ret.
    - intros e. apply alone_throw. }
  intros s w (Hc & _). unfold mbind at 2, M_bind at 2. unfold gets. simpl. by rewrite Hc.
Qed.
Lemma alone_discovery_result d e : alone (p_discovery_result d e) (discovery_result d e).
Proof.
  unfold p_discovery_result, discovery_result. case_bool_decide; [|apply alone_ret].
  destruct e; [apply alone_throw|apply alone_ret].
Qed.
Lemma alone_discovery_loop fuel scope plan d e :
  alone (p_discovery_loop config fuel scope plan d e) (discovery_loop fuel scope plan d e).
Proof.
  revert plan d e. induction fuel as [|fuel IH]; intros plan d e; [apply alone_throw|].
  cbn [p_discovery_loop discovery_loop]. destruct (QueryPlan_Next plan) as [next plan'].
  apply alone_bind; [apply alone_done|]. intros node.
  destruct (Url_Empty node); [apply alone_discovery_result|].
  apply alone_bind; [apply alone_try|].
  - apply alone_bind; [apply alone_GetNodesFromEndpoint|]. intros. apply alone_ret.
  - intros error. apply alone_bind; [apply alone_ReportNodeResult|]. intros. apply alone_ret.
  - intros [error|nodes]; [apply IH|]. case_bool_decide; [apply IH|].
    destruct (negb (IsCluster scope)); [apply alone_ret|apply IH].
Qed.
Lemma alone_GetNodesForScope scope :
  alone (p_GetNodesForScope config initial_nodes scope) (GetNodesForScope scope).
Proof.
  apply alone_bind.
  { unfold p_GetDiscoveryNodesForScope, GetDiscoveryNodesForScope.
    destruct (IsCluster scope); [|apply alone_GetQueryPlanNodes].
    eapply alone_eq; [apply alone_ret|]. intros s w (_ & Hi & _). unfold gets. simpl. by rewrite Hi. }
  intros nodes. apply alone_bind; [apply alone_outside|]. intros clock. apply alone_discovery_loop.
Qed.
Lemma alone_FetchLiveNodes : alone (p_FetchLiveNodes config initial_nodes) FetchLiveNodes.
Proof.
  assert (∀ scopes, alone (p_fetch_loop config initial_nodes scopes) (fetch_loop scopes)) as Hl.
  { induction scopes as [|scope scopes IH]; [apply alone_ret|]. cbn [p_fetch_loop fetch_loop].
    apply alone_bind; [apply alone_GetNodesForScope|]. intros nodes.
    case_bool_decide; [apply IH|apply alone_ret]. }
  eapply alone_eq; [apply Hl|]. intros s w (Hc & _). unfold FetchLiveNodes, mbind, M_bind, gets.
  simpl. by rewrite Hc.
Qed.

Lemma alone_AddNode node :
  alone (p_AddNode config node) (in_store (AddNodes [node])).
Proof.
  apply alone_lock. eapply alone_eq.
  { eapply alone_bind.
    - apply (alone_look Statuses (λ m, negb (bool_decide (m !! Url_ToString node = None)))
        (λ σ, negb (bool_decide (statuses_ (health_store_ σ.1) !! Url_ToString node = None)))).
      done.
    - intros known. instantiate (1 := λ known : bool, if known then mret tt else
        now ← on_world steady_now;
        modify (λ σ, (set_health (AddNode now node (health_store_ σ.1)) σ.1, σ.2))).
      cbv beta. destruct known; [apply alone_ret|].
      apply alone_bind; [apply alone_outside|]. intros now.
      apply (alone_statuses (AddNode now node)). intros h. apply config_AddNode. }
  intros s w _. unfold zoom, AddNodes, mbind, M_bind, gets, on_world, modify. simpl.
  destruct (statuses_ (health_store_ s) !! Url_ToString node) eqn:El; simpl.
  - unfold AddNode. rewrite El. by rewrite set_health_id.
  - by destruct (steady_now w).
Qed.
Lemma alone_AddNodes nodes :
  alone (for_each nodes (p_AddNode config)) (in_store (AddNodes nodes)).
Proof.
  induction nodes as [|node nodes IH]; [apply alone_in_store_ret|]. eapply alone_eq.
  { cbn [for_each]. exact (alone_bind _ _ _ _ (alone_AddNode node) (λ _, IH)). }
  intros s w _. unfold zoom, AddNodes, mbind, M_bind. simpl.
  destruct (statuses_ (health_store_ s) !! Url_ToString node); [done|]. by destruct (steady_now w).
Qed.
Lemma alone_RemoveNodes nodes :
  alone (for_each nodes (p_RemoveNode config))
    (modify (λ σ, (set_health (foldl (flip RemoveNode) (health_store_ σ.1) nodes) σ.1, σ.2))).
Proof.
  induction nodes as [|node nodes IH]; cbn [for_each].
  { eapply alone_eq; [apply alone_ret|]. intros s w _. unfold modify. simpl. by rewrite set_health_id. }
  eapply alone_eq.
  { eapply (alone_bind _ _ _ _); [|exact (λ _, IH)].
    apply alone_lock, (alone_statuses (RemoveNode node)). done. }
  done.
Qed.
Lemma alone_remove_assignments nodes :
  alone (for_each nodes p_RemoveQuarantineHashAssignmentsForNode)
    (modify (λ σ, (foldl (flip RemoveQuarantineHashAssignmentsForNode) σ.1 nodes, σ.2))).
Proof.
  induction nodes as [|node nodes IH]; cbn [for_each].
  { eapply alone_eq; [apply alone_ret|]. done. }
  eapply alone_eq; [exact (alone_bind _ _ _ _ (alone_RemoveAssignments node) (λ _, IH))|]. done.
Qed.
(** The critical section of [UpdateLiveNodes]. *)
Lemma alone_install new_nodes :
  alone (p_install config new_nodes)
    (_ ← in_store (AddNodes new_nodes);
     removed_nodes ← gets (λ σ, filter (λ n, n ∉ new_nodes) (live_nodes_ σ.1));
     _ ← modify (λ σ, (set_health (foldl (flip RemoveNode) (health_store_ σ.1) removed_nodes) σ.1,
                       σ.2));
     _ ← modify (λ σ, (set_live_nodes (SortAndDedupeNodes new_nodes) σ.1, σ.2));
     mret removed_nodes).
Proof.
  apply alone_lock, alone_bind; [apply alone_AddNodes|]. intros _.
  apply alone_bind; [by apply (alone_look Guarded)|]. intros removed.
  apply alone_bind; [apply alone_RemoveNodes|]. intros _.
  apply alone_bind; [|intros; apply alone_ret].
  apply (alone_act Guarded). intros s w Hs. split; [by destruct s|done].
Qed.
Lemma alone_UpdateLiveNodes : alone (p_UpdateLiveNodes config initial_nodes) UpdateLiveNodes.
Proof.
  apply alone_bind; [apply alone_FetchLiveNodes|]. intros new_nodes. case_bool_decide.
  { apply alone_bind; [apply alone_ProbeDownNodes|]. intros. apply alone_ret. }
  eapply alone_eq.
  { eapply alone_bind; [apply alone_install|]. intros removed.
    instantiate (1 := λ removed,
      _ ← modify (λ σ, (foldl (flip RemoveQuarantineHashAssignmentsForNode) σ.1 removed, σ.2));
      _ ← ProbeDownNodes; mret tt). cbv beta.
    apply alone_bind; [apply alone_remove_assignments|]. intros _.
    apply alone_bind; [apply alone_ProbeDownNodes|]. intros. apply alone_ret. }
  intros s w _. unfold mbind, M_bind, gets, modify.
  by destruct (in_store (AddNodes new_nodes) (s, w)) as [[[]|] [s' w']].
Qed.

Lemma alone_CheckScopes :
  alone (p_CheckIfRackAndDatacenterSetCorrectly config initial_nodes)
    CheckIfRackAndDatacenterSetCorrectly.
Proof.
  assert (∀ scopes misses,
    alone (p_check_scopes config initial_nodes scopes misses) (check_scopes scopes misses)) as Hl.
  { induction scopes as [|scope scopes IH]; intros misses; cbn [p_check_scopes check_scopes].
    { case_bool_decide; [apply alone_ret|apply alone_throw]. }
    destruct (IsCluster scope); [apply alone_ret|].
    apply alone_bind; [apply alone_GetNodesForScope|]. intros nodes.
    case_bool_decide; [apply IH|apply alone_ret]. }
  eapply alone_eq; [apply Hl|]. intros s w (Hc & _).
  unfold CheckIfRackAndDatacenterSetCorrectly, mbind, M_bind, gets. simpl. by rewrite Hc.
Qed.
Lemma alone_CheckFeature :
  alone (p_CheckIfRackDatacenterFeatureIsSupported config initial_nodes)
    CheckIfRackDatacenterFeatureIsSupported.
Proof.
  apply alone_bind; [apply alone_NextKnownNode|]. intros node.
  destruct (Url_Empty node); [apply alone_throw|].
  apply alone_bind; [apply alone_GetNodesFromEndpoint|]. intros l1.
  apply alone_bind; [apply alone_GetNodesFromEndpoint|]. intros l2.
  case_bool_decide; [apply alone_throw|apply alone_ret].
Qed.

(** *** Starting and stopping *)

Lemma alone_Start : alone p_Start (modify (λ σ, (Start σ.1, σ.2))).
Proof.
  intros s w Hs. unfold p_Start, Start, modify. simpl.
  destruct s as [? ? ? ? ? ? ? ? ? ? [] ?]; by split.
Qed.
Lemma alone_Stop :
  alone p_Stop (modify (λ σ,
    (if background_started_ σ.1 then Stop_joined (Stop_request σ.1) else σ.1, σ.2))).
Proof.
  intros s w Hs. unfold p_Stop, Stop_joined, Stop_request, modify. simpl.
  destruct s as [? ? ? ? ? ? ? ? ? ? [] ?]; by split.
Qed.
End alone.
