(* ===== verification/LiveNodesProtocol.v ===== *)
(** The live nodes under all interleavings: the protocol of the object's threads
    and the verification of every program of LiveNodesThreads.v against it.

    The invariant [live_inv] holds between any two accesses; while [mutex_] is
    free the health store holds exactly the live nodes (if all hosts are plain);
    only holders of [mutex_] change the set of known nodes; only a thread that
    may start or stop the background thread, holding [background_mutex_],
    changes the flags; a thread sleeps only while [stopping_] is false. *)
From S2P Require Import Prelude Uri GoRandom Effects RoutingScope NodeHealth QueryPlan.
From S2P Require Import KeyRouteAffinity HttpCompression Config LocalNodesJson LiveNodes.
From S2P Require Import LiveNodesRefresh BackgroundThread Threads ThreadLogic LiveNodesThreads LiveNodesAlone.

Section protocol.
Context {W : Type} `{World W}.
Context (config : Config) (initial_nodes : list Url).
Abbreviation state := (AlternatorLiveNodes * W)%type.
Abbreviation prog := (prog (AlternatorLiveNodes * W)).

(** Replies list plain hosts only; then the live list and the store agree. *)
Definition plain_world : Prop := ∀ url (w w' : W) resp hosts,
  http_get url w = (HttpReply resp, w') → status_code resp = 200 →
  ParseJsonStringArray (body resp) = Ok hosts → Forall plain_host hosts.
Context (plain : Prop) (Hplain : plain → plain_world).

Definition object_inv (μ : state * option nat) : Prop :=
  live_inv μ.1.1 ∧ consts config initial_nodes μ.1.1.

Definition live_guar (h : list live_mutex) (μ μ' : state * option nat) : Prop :=
  let s := μ.1.1 in
  let s' := μ'.1.1 in
  (ObjectMutex ∉ h → live_nodes_ s' = live_nodes_ s ∧
     ∀ u, stored (health_store_ s') u ↔ stored (health_store_ s) u) ∧
  (BackgroundMutex ∉ h ∨ ControlMutex ∉ h →
     background_started_ s' = background_started_ s ∧ stopping_ s' = stopping_ s) ∧
  (ControlMutex ∉ h → μ'.2 = μ.2).

Definition live_lock_inv (m : live_mutex) (μ : state * option nat) : Prop :=
  match m with
  | ObjectMutex => plain → tracks μ.1.1 ∧ Forall node_url (live_nodes_ μ.1.1)
  | ControlMutex =>
      background_started_ μ.1.1 = bool_decide (is_Some μ.2) ∧ stopping_ μ.1.1 = false
  | BackgroundMutex | HealthMutex => True
  end.

#[local] Instance service : Service state := live_service config initial_nodes.
#[local] Instance live_protocol : Protocol state := {|
  inv := object_inv;
  guar := live_guar;
  lock_inv := live_lock_inv;
  wanted := λ σ : state, stopping_ σ.1;
  ctl_held := λ c : live_ctl,
    match c with AtHead _ | AtWaitStop _ => [BackgroundMutex] | Exit => [] end;
|}.

#[local] Instance live_protocol_laws : ProtocolLaws state.
Proof.
  split.
  - intros m h [[s w] hd] [[s' w'] hd'] Hm [Hi _] (Ho & Hf & Hc). simpl in *.
    destruct m; simpl; try done.
    + destruct Hf as [-> ->]; [by right|]. rewrite Hc by done. done.
    + intros Hl Hp. destruct (Hl Hp) as [Ht Hn]. destruct Ho as [E Hst]; [done|].
      rewrite E. split; [|done]. intros u. by rewrite Hst, E.
  - intros [s w] [s' w'] hd E [Hi Hc]. simpl in *. subst s'.
    split_and!; [done| |done]. by split_and!.
  - by intros [].
  - exists 4%nat. intros []; simpl; lia.
Qed.

(** *** Accesses *)

(** An object that differs in nothing the protocol speaks of. *)
Definition unobserved (s s' : AlternatorLiveNodes) : Prop :=
  live_inv s' ∧ config_ s' = config_ s ∧ initial_nodes_ s' = initial_nodes_ s ∧
  live_nodes_ s' = live_nodes_ s ∧
  (∀ u, stored (health_store_ s') u ↔ stored (health_store_ s) u) ∧
  background_started_ s' = background_started_ s ∧ stopping_ s' = stopping_ s.

(** Assertions about known nodes, flags and the thread member. *)
Definition about_nodes (P : state * option nat → Prop) : Prop :=
  ∀ s w s' w' hd, unobserved s s' → P (s, w, hd) → P (s', w', hd).

Lemma unobserved_step s w s' w' hd h :
  object_inv (s, w, hd) → unobserved s s' →
  object_inv (s', w', hd) ∧ live_guar h (s, w, hd) (s', w', hd) ∧ stopping_ s' = stopping_ s.
Proof.
  intros [Hi (Hc & Hn & _)] (Hi' & Ec & En & El & Est & Eb & Es). simpl in *. split_and!; try done.
  split; [done|]. unfold consts. simpl. rewrite Ec, En, (li_config s' Hi'), Ec, Hc. done.
Qed.

Lemma unobserved_act floor P h {B} (g : live_region) (f : live_view (W := W) g → B * live_view g) R :
  match live_guard g with Some m => m ∈ h | None => True end →
  stable_in h P → about_nodes P →
  (∀ s w, live_inv s → consts config initial_nodes s →
     unobserved s (live_poke g (f (live_peek g (s, w))).2 (s, w)).1 ∧
     R (Ok (f (live_peek g (s, w))).1)) →
  maintains floor P h (act (g : region state) f) R.
Proof.
  intros Hg HS HP Hf. apply turns_act; [done|done|].
  intros [[s w] hd] Hi HPs. destruct (Hf s w) as [Hu HR]; [apply Hi|apply Hi|].
  simpl. set (σ' := live_poke g _ (s, w)) in *. destruct σ' as [s' w'] eqn:Es. simpl in *.
  destruct (unobserved_step s w s' w' hd h Hi Hu) as (? & ? & ?).
  split_and!; try done. by eapply HP.
Qed.

Lemma unobserved_refl s : live_inv s → unobserved s s.
Proof. intros Hs. by split_and!. Qed.

Lemma any_about : about_nodes any.
Proof. done. Qed.
Lemma object_lock_about P : about_nodes P → about_nodes (λ μ, P μ ∧ live_lock_inv ObjectMutex μ).
Proof.
  intros HP s w s' w' hd Hu [H1 H2]. split; [by eapply HP|]. intros Hp. destruct (H2 Hp) as [Ht Hn].
  destruct Hu as (_ & _ & _ & El & Est & _). simpl in *. rewrite El. split; [|done].
  intros u. by rewrite Est, El.
Qed.
Lemma health_lock_about P : about_nodes P → about_nodes (λ μ, P μ ∧ live_lock_inv HealthMutex μ).
Proof. intros HP s w s' w' hd Hu [H1 H2]. split; [by eapply HP|done]. Qed.
Lemma lock_stable h P m :
  m ∈ h → stable_in h P → stable_in h (λ μ, P μ ∧ live_lock_inv m μ).
Proof.
  intros Hm HS h' μ μ' Hd Hi Hg [HP Hl]. split; [by eapply HS|].
  refine (lock_inv_stable _ h' _ _ _ Hi Hg Hl). intros Hm'. by apply (Hd m).
Qed.
Lemma stable_more h m P : stable_in h P → stable_in (m :: h) P.
Proof. intros HS h' μ μ' Hd. apply HS. set_solver. Qed.

(** ** Programs that start and end without locks *)

Section quiet.
Context (fl : nat) (Hfl : (fl <= 1)%nat).

Definition quiet {A} (p : prog A) : Prop := maintains fl any [] p (λ _, True).

Lemma quiet_done {A} (r : result A) : quiet (Done r).
Proof. by apply maintains_done. Qed.
Lemma quiet_ret {A} (a : A) : quiet (mret a).
Proof. apply quiet_done. Qed.
Lemma quiet_throw {A} e : quiet (A := A) (pthrow e).
Proof. apply quiet_done. Qed.
Lemma quiet_bind {A B} (p : prog A) (f : A → prog B) :
  quiet p → (∀ a, quiet (f a)) → quiet (p ≫= f).
Proof. intros Hp Hf. eapply maintains_bind; [apply any_stable|exact Hp|done|]. intros a _. apply Hf. Qed.
Lemma quiet_try {A} (p : prog A) (f : exn → prog A) :
  quiet p → (∀ e, quiet (f e)) → quiet (ptry p f).
Proof. intros Hp Hf. eapply maintains_try; [apply any_stable|exact Hp|done|]. intros e _. apply Hf. Qed.
Lemma quiet_for_each {A} (l : list A) body : (∀ x, quiet (body x)) → quiet (for_each l body).
Proof. intros Hb. induction l as [|x l IH]; [apply quiet_ret|]. by apply quiet_bind. Qed.
Lemma quiet_notify : quiet notify_all.
Proof. by exists any. Qed.
(** A critical section of one of the two data mutexes. *)
Lemma quiet_lock {A} m (p : prog A) :
  m = ObjectMutex ∨ m = HealthMutex →
  maintains fl (λ μ, any μ ∧ live_lock_inv m μ) [m] p (λ _, True) →
  quiet (with_lock (m : mutex state) p).
Proof.
  intros Hm Hp. apply turns_with_lock; try done.
  - apply not_elem_of_nil.
  - destruct Hm as [-> | ->]; simpl; lia.
  - apply lock_stable; [by apply list_elem_of_singleton|done].
Qed.
Lemma quiet_outside {B} (f : W → B * W) : quiet (outside f).
Proof.
  apply (unobserved_act _ _ _ Outside); [done|done|apply any_about|]. intros s w Hs _.
  split; [by apply unobserved_refl|done].
Qed.
Lemma quiet_fetch_next : quiet fetch_add_next.
Proof.
  apply (unobserved_act _ _ _ NextIndex); [done|done|apply any_about|]. intros s w Hs _.
  split; [|done]. split_and!; try done. destruct (li_indices s Hs) as (?&?&?).
  simpl. apply (st_indices _ live_inv_stable); auto with alternator.
Qed.
Lemma quiet_fetch_plan : quiet fetch_add_plan.
Proof.
  apply (unobserved_act _ _ _ PlanIndex); [done|done|apply any_about|]. intros s w Hs _.
  split; [|done]. split_and!; try done. destruct (li_indices s Hs) as (?&?&?).
  simpl. apply (st_indices _ live_inv_stable); auto with alternator.
Qed.
Lemma quiet_fetch_node : quiet fetch_add_node.
Proof.
  apply (unobserved_act _ _ _ NodeIndex); [done|done|apply any_about|]. intros s w Hs _.
  split; [|done]. split_and!; try done. destruct (li_indices s Hs) as (?&?&?).
  simpl. apply (st_indices _ live_inv_stable); auto with alternator.
Qed.

(** In a critical section of [mutex_]: accesses that leave the node list alone. *)
Lemma guarded_act P h {B} (f : guarded_fields → B * guarded_fields) :
  ObjectMutex ∈ h → stable_in h P → about_nodes P →
  (∀ g, g_live_nodes (f g).2 = g_live_nodes g) →
  maintains fl P h (guarded_op f) (λ r, ∃ b, r = Ok b).
Proof.
  intros Hh HS HP Hf. apply (unobserved_act _ _ _ Guarded); [done|done|done|].
  intros s w Hs _. split; [|eauto]. set (g := live_peek Guarded (s, w)).
  pose proof (Hf g) as E. destruct (f g) as [b g']. simpl in *.
  assert (set_live_nodes (g_live_nodes g') (set_quarantine_by_hash (g_quarantine g')
    (set_schedule (g_next_update g') (g_last_activity g') s)) =
    set_quarantine_by_hash (g_quarantine g')
      (set_schedule (g_next_update g') (g_last_activity g') s)) as ->
    by (by rewrite E; destruct s).
  split_and!; try done. apply (st_quarantine _ live_inv_stable).
  by apply (st_schedule _ live_inv_stable).
Qed.
Lemma section_guarded {B} (f : guarded_fields → B * guarded_fields) :
  (∀ g, g_live_nodes (f g).2 = g_live_nodes g) →
  maintains fl (λ μ, any μ ∧ live_lock_inv ObjectMutex μ) [ObjectMutex] (guarded_op f) (λ _, True).
Proof.
  intros Hf. eapply maintains_mono; [apply guarded_act|done]; [set_solver| |by apply object_lock_about|done].
  apply lock_stable; [by apply list_elem_of_singleton|done].
Qed.
Lemma section_bind {A B} m (p : prog A) (f : A → prog B) :
  maintains fl (λ μ, any μ ∧ live_lock_inv m μ) [m] p (λ _, True) →
  (∀ a, maintains fl (λ μ, any μ ∧ live_lock_inv m μ) [m] (f a) (λ _, True)) →
  maintains fl (λ μ, any μ ∧ live_lock_inv m μ) [m] (p ≫= f) (λ _, True).
Proof.
  intros Hp Hf. eapply maintains_bind; [|exact Hp|done|by intros a _].
  apply lock_stable; [by apply list_elem_of_singleton|done].
Qed.
Lemma section_done {A} m (r : result A) :
  maintains fl (λ μ, any μ ∧ live_lock_inv m μ) [m] (Done r) (λ _, True).
Proof. apply maintains_done; [|done]. apply lock_stable; [by apply list_elem_of_singleton|done]. Qed.
Lemma quiet_guarded {B} (f : guarded_fields → B * guarded_fields) :
  (∀ g, g_live_nodes (f g).2 = g_live_nodes g) →
  quiet (with_lock (ObjectMutex : mutex state) (guarded_op f)).
Proof. intros Hf. apply quiet_lock; [by left|]. by apply section_guarded. Qed.

(** In a critical section of the health store: reading, and reporting. *)
Lemma section_statuses {B} (f : status_map → B * status_map) :
  (∀ s, live_inv s → consts config initial_nodes s →
     unobserved s (set_health (set_statuses (health_store_ s)
       (f (statuses_ (health_store_ s))).2) s)) →
  maintains fl (λ μ, any μ ∧ live_lock_inv HealthMutex μ) [HealthMutex] (statuses_op f) (λ _, True).
Proof.
  intros Hf. apply (unobserved_act _ _ _ Statuses); [set_solver| |by apply health_lock_about|].
  { apply lock_stable; [by apply list_elem_of_singleton|done]. }
  intros s w Hs Hc. split; [|done]. by apply Hf.
Qed.
Lemma set_statuses_id s :
  set_health (set_statuses (health_store_ s) (statuses_ (health_store_ s))) s = s.
Proof. by destruct s as [? ? ? ? [] ? ? ? ? ? ? ?]. Qed.
Lemma section_look_statuses {B} (f : status_map → B) :
  maintains fl (λ μ, any μ ∧ live_lock_inv HealthMutex μ) [HealthMutex]
    (statuses_op (λ m, (f m, m))) (λ _, True).
Proof.
  apply section_statuses. intros s Hs _. simpl. rewrite set_statuses_id. by apply unobserved_refl.
Qed.
Lemma section_outside {B} m (f : W → B * W) :
  m = ObjectMutex ∨ m = HealthMutex →
  maintains fl (λ μ, any μ ∧ live_lock_inv m μ) [m] (outside f) (λ _, True).
Proof.
  intros Hm. apply (unobserved_act _ _ _ Outside); [done| | |].
  - apply lock_stable; [by apply list_elem_of_singleton|done].
  - destruct Hm as [-> | ->]; [by apply object_lock_about|by apply health_lock_about].
  - intros s w Hs _. split; [by apply unobserved_refl|done].
Qed.

Ltac quiets := repeat
  match goal with
  | |- quiet (mret _) => apply quiet_ret
  | |- quiet (pthrow _) => apply quiet_throw
  | |- quiet (lift _) => apply quiet_done
  | |- quiet notify_all => apply quiet_notify
  | |- quiet (outside _) => apply quiet_outside
  | |- quiet (ptry _ _) => apply quiet_try
  | |- quiet (_ ≫= _) => apply quiet_bind
  | H : quiet ?p |- quiet ?p => exact H
  | |- quiet (if ?b then _ else _) => destruct b
  | |- quiet (match ?x with _ => _ end) => destruct x
  | |- ∀ _, _ => intro
  | |- _ => solve [auto with quiet]
  end.

Create HintDb quiet.
#[local] Hint Resolve quiet_fetch_next quiet_fetch_plan quiet_fetch_node : quiet.

Lemma quiet_GetNodesByState st : quiet (p_GetNodesByState config st).
Proof. apply quiet_lock; [by right|apply section_look_statuses]. Qed.
#[local] Hint Resolve quiet_GetNodesByState : quiet.
Lemma quiet_GetActiveNodes : quiet (p_GetActiveNodes config).
Proof.
  unfold p_GetActiveNodes. quiets. apply quiet_lock; [by right|apply section_look_statuses].
Qed.
Lemma quiet_GetQuarantinedNodes : quiet (p_GetQuarantinedNodes config).
Proof. unfold p_GetQuarantinedNodes. quiets. Qed.
Lemma quiet_GetDownNodes : quiet (p_GetDownNodes config).
Proof. unfold p_GetDownNodes. quiets. Qed.
Lemma quiet_GetNodeStatus node : quiet (p_GetNodeStatus config node).
Proof. apply quiet_lock; [by right|apply section_look_statuses]. Qed.
Lemma quiet_Store_Report node o : quiet (p_Store_Report config node o).
Proof.
  unfold p_Store_Report. quiets. apply quiet_lock; [by right|].
  apply section_bind; [apply section_look_statuses|]. intros known.
  destruct (negb known); [apply section_done|].
  apply section_bind; [apply section_outside; by right|]. intros now.
  apply section_statuses. intros s Hs Hc. cbn [snd].
  assert (set_statuses (health_store_ s) (statuses_ (Store_ReportNodeResult now node o
      (mkStore (health config) (statuses_ (health_store_ s))))) =
    Store_ReportNodeResult now node o (health_store_ s)) as ->.
  { rewrite (store_of config initial_nodes s Hc).
    pose proof (config_Report now node o (health_store_ s)) as Eh.
    unfold set_statuses. rewrite <-Eh.
    by destruct (Store_ReportNodeResult now node o (health_store_ s)). }
  split_and!; try done; [by apply (st_report _ live_inv_stable)|].
  intros u. simpl. apply stored_Report.
Qed.
#[local] Hint Resolve quiet_GetActiveNodes quiet_GetQuarantinedNodes quiet_GetDownNodes
  quiet_GetNodeStatus quiet_Store_Report : quiet.

Lemma quiet_probe_loop candidates : quiet (p_probe_loop config candidates).
Proof.
  induction candidates as [|node candidates IH]; cbn [p_probe_loop]; unfold p_probe; quiets.
Qed.
Lemma quiet_ProbeDownNodes : quiet (p_ProbeDownNodes config).
Proof. unfold p_ProbeDownNodes. quiets. apply quiet_probe_loop. Qed.
#[local] Hint Resolve quiet_ProbeDownNodes : quiet.

Lemma quiet_GetNodes : quiet (p_GetNodes initial_nodes).
Proof. by apply quiet_guarded. Qed.
Lemma quiet_ShouldTry b : quiet (p_ShouldTryQuarantinedNode config b).
Proof. unfold p_ShouldTryQuarantinedNode. quiets. Qed.
Lemma quiet_NextQuarantined : quiet (p_NextQuarantinedNode config).
Proof. unfold p_NextQuarantinedNode. quiets. Qed.
#[local] Hint Resolve quiet_GetNodes quiet_ShouldTry quiet_NextQuarantined : quiet.
Lemma quiet_GetQueryPlanNodes : quiet (p_GetQueryPlanNodes config).
Proof. unfold p_GetQueryPlanNodes. quiets. Qed.
Lemma quiet_assigned hash l1 l2 : quiet (p_assigned_node hash l1 l2).
Proof.
  apply quiet_lock; [by left|]. apply section_bind; [by apply section_guarded|]. intros [node|].
  - case_bool_decide.
    + apply section_bind; [apply section_done|]. intros first. destruct (negb first); [|apply section_done].
      apply section_bind; [by apply section_guarded|]. intros _. apply section_done.
    + apply section_bind; [by apply section_guarded|]. intros _. apply section_done.
  - apply section_done.
Qed.
#[local] Hint Resolve quiet_assigned quiet_GetQueryPlanNodes : quiet.
Lemma quiet_Sticky hash active : quiet (p_StickyQuarantinedNodeForHash config hash active).
Proof. unfold p_StickyQuarantinedNodeForHash. quiets. by apply quiet_guarded. Qed.
#[local] Hint Resolve quiet_Sticky : quiet.
Lemma quiet_GetQueryPlanNodesForHash hash : quiet (p_GetQueryPlanNodesForHash config hash).
Proof. unfold p_GetQueryPlanNodesForHash. quiets. Qed.
Lemma quiet_RemoveAssignments node : quiet (p_RemoveQuarantineHashAssignmentsForNode node).
Proof. by apply quiet_guarded. Qed.
Lemma quiet_MarkActivity : quiet (p_MarkActivity config).
Proof.
  unfold p_MarkActivity. quiets. apply quiet_guarded. intros g. cbv zeta.
  destruct (0 <? _); [destruct (_ <? _)|]; done.
Qed.
#[local] Hint Resolve quiet_RemoveAssignments quiet_MarkActivity : quiet.
Lemma quiet_ReportNodeResult node o : quiet (p_ReportNodeResult config node o).
Proof. unfold p_ReportNodeResult. quiets. Qed.
Lemma quiet_NextNode : quiet (p_NextNode config).
Proof. unfold p_NextNode. quiets. Qed.
Lemma quiet_NextKnownNode : quiet (p_NextKnownNode initial_nodes).
Proof. unfold p_NextKnownNode. quiets. Qed.
#[local] Hint Resolve quiet_ReportNodeResult quiet_NextNode quiet_NextKnownNode : quiet.

(** *** Discovery: what is found is a list of node URLs *)

Context (Hvalid : valid_config config).

Definition found (r : result (list Url)) : Prop :=
  ∀ l, r = Ok l → plain → Forall node_url l.
Definition finds (p : prog (list Url)) : Prop := maintains fl any [] p found.

Lemma finds_bind {A} (p : prog A) (f : A → prog (list Url)) :
  quiet p → (∀ a, finds (f a)) → finds (p ≫= f).
Proof. intros Hp Hf. eapply maintains_bind; [apply any_stable|exact Hp|done|]. intros a _. apply Hf. Qed.
Lemma finds_ret l : (plain → Forall node_url l) → finds (mret l).
Proof. intros Hl. apply maintains_done; [done|]. intros l' [= <-]. done. Qed.
Lemma finds_throw e : finds (pthrow e).
Proof. apply maintains_done; [done|]. by intros l. Qed.
Lemma finds_quiet p : finds p → quiet p.
Proof. intros Hp. by eapply maintains_mono. Qed.

Lemma finds_GetNodesFromEndpoint endpoint : finds (p_GetNodesFromEndpoint config endpoint).
Proof.
  eapply maintains_bind; [done| |by intros e ? l|].
  { instantiate (1 := λ r, ∀ resp, r = Ok resp → ∃ w w', http_get endpoint w = (HttpReply resp, w')).
    eapply maintains_bind; [done| |by intros e ? resp|].
    - apply (unobserved_act _ _ _ Outside _ (λ r, ∃ w, r = Ok (http_get endpoint w).1));
        [done|done|apply any_about|]. intros s w Hs _. split; [by apply unobserved_refl|eauto].
    - intros out (w & [= ->]). destruct (http_get endpoint w) as [[resp|what] w'] eqn:E.
      + apply maintains_done; [done|]. intros resp' [= <-]. eauto.
      + apply maintains_done; [done|]. by intros resp. }
  intros resp Hresp. destruct (Hresp resp eq_refl) as (w & w' & Hget).
  destruct (negb (status_code resp =? 200)) eqn:Ec; [apply finds_throw|].
  apply negb_false_iff, Z.eqb_eq in Ec.
  destruct (ParseJsonStringArray (body resp)) as [hosts|e] eqn:Ep; [|apply finds_throw].
  apply finds_ret. intros Hp. apply SortAndDedupe_node_url, Forall_fmap.
  eapply Forall_impl; [by eapply (Hplain Hp)|]. intros host Hh. by apply node_url_make.
Qed.
Lemma finds_discovered fuel scope plan d e :
  (plain → Forall node_url d) → finds (p_discovery_loop config fuel scope plan d e).
Proof.
  revert plan d e. induction fuel as [|fuel IH]; intros plan d e Hd; [apply finds_throw|].
  cbn [p_discovery_loop]. destruct (QueryPlan_Next plan) as [next plan'].
  apply finds_bind; [apply quiet_done|]. intros node.
  destruct (Url_Empty node).
  { unfold p_discovery_result. case_bool_decide; [destruct e; [apply finds_throw|by apply finds_ret]|].
    apply finds_ret. intros Hp. by apply SortAndDedupe_node_url, Hd. }
  eapply maintains_bind; [done| |by intros ? ? ?|].
  { instantiate (1 := λ r, ∀ nodes, r = Ok (inr nodes) → plain → Forall node_url nodes).
    apply (maintains_try _ _ _ _ _ (λ r, ∀ nodes, r = Ok (inr nodes) → plain → Forall node_url nodes));
      [done| |done|].
    - eapply maintains_bind; [done|apply finds_GetNodesFromEndpoint|by intros ? ? ?|].
      intros nodes Hn. apply maintains_done; [done|]. intros nodes' [= <-]. by apply Hn.
    - intros error _. eapply maintains_bind; [done|apply quiet_ReportNodeResult|by intros ? ? ?|].
      intros _ _. by apply maintains_done. }
  intros [error|nodes] Hn; [by apply IH|]. specialize (Hn nodes eq_refl).
  case_bool_decide; [by apply IH|].
  destruct (negb (IsCluster scope)); [by apply finds_ret|].
  apply IH. intros Hp. apply Forall_app_2; auto.
Qed.
Lemma finds_GetNodesForScope scope : finds (p_GetNodesForScope config initial_nodes scope).
Proof.
  apply finds_bind; [unfold p_GetDiscoveryNodesForScope; quiets|]. intros nodes.
  apply finds_bind; [quiets|]. intros clock. by apply finds_discovered.
Qed.
Lemma finds_fetched : finds (p_FetchLiveNodes config initial_nodes).
Proof.
  unfold p_FetchLiveNodes. induction (scope_chain (routing_scope config)) as [|scope scopes IH];
    cbn [p_fetch_loop]; [by apply finds_ret|].
  eapply maintains_bind; [done|apply finds_GetNodesForScope|by intros ? ? ?|].
  intros nodes Hn. case_bool_decide; [exact IH|]. apply finds_ret. by apply Hn.
Qed.

(** *** Replacing the node set *)

(** In the critical section of [UpdateLiveNodes]: the stored nodes are the live
    ones, without [gone], and [added]. *)
Definition stored_as (live gone added : list Url) (h : NodeHealthStore) : Prop :=
  Forall node_url (live ++ added) ∧ ∀ u, stored h u ↔ (u ∈ live ∧ u ∉ gone) ∨ u ∈ added.
(** [fixed]: the nodes to be removed, once they have been determined. *)
Definition installing (fixed : option (list Url)) (gone added : list Url)
    (μ : state * option nat) : Prop :=
  (∀ l, fixed = Some l → l = filter (λ n, n ∉ added) (live_nodes_ μ.1.1)) ∧
  (plain → stored_as (live_nodes_ μ.1.1) gone added (health_store_ μ.1.1)).

Lemma installing_stable fixed gone added h :
  ObjectMutex ∈ h → stable_in h (installing fixed gone added).
Proof.
  intros Hh h' [[s w] hd] [[s' w'] hd'] Hd _ (Ho & _) [El Hp]. unfold installing. simpl in *.
  destruct Ho as [El' Hst]; [intros Hm; by apply (Hd ObjectMutex)|].
  rewrite El'. split; [done|]. intros HP. destruct (Hp HP) as [Hn Hs]. split; [done|].
  intros u. by rewrite Hst.
Qed.
Lemma installing_lock_stable fixed gone added :
  stable_in [HealthMutex; ObjectMutex] (λ μ, installing fixed gone added μ ∧ live_lock_inv HealthMutex μ).
Proof.
  intros h' μ μ' Hd Hi Hg [Hins _]. split; [|done].
  eapply installing_stable; [|exact Hd|exact Hi|exact Hg|exact Hins]. set_solver.
Qed.

(** An access to the statuses in that section. *)
Lemma installing_act {B} fixed gone added (f : status_map → B * status_map)
    (gone' added' : B → list Url) :
  (∀ s, live_inv s → consts config initial_nodes s →
     (∀ l, fixed = Some l → l = filter (λ n, n ∉ added) (live_nodes_ s)) →
     let h := health_store_ s in
     let '(b, m) := f (statuses_ h) in
     wf_store (set_statuses h m) ∧
     (plain → stored_as (live_nodes_ s) gone added h →
      stored_as (live_nodes_ s) (gone' b) (added' b) (set_statuses h m)) ∧
     (fixed ≠ None → added' b = added)) →
  turns fl [HealthMutex; ObjectMutex] (λ μ, installing fixed gone added μ ∧ live_lock_inv HealthMutex μ)
    (statuses_op f) (λ r, ∃ b, r = Ok b)
    (λ r μ, (match r with Ok b => installing fixed (gone' b) (added' b) μ | Throw _ => False end)
            ∧ live_lock_inv HealthMutex μ).
Proof.
  intros Hf. apply turns_act.
  - apply elem_of_cons. by left.
  - intros b. apply installing_lock_stable.
  - intros [[s w] hd] [Hi Hc] [[El Hst] _]. simpl in *. specialize (Hf s Hi Hc El).
    destruct (f (statuses_ (health_store_ s))) as [b m]. destruct Hf as (Hw & Hst' & Ha). simpl.
    assert (live_inv (set_health (set_statuses (health_store_ s) m) s)) as Hi' by (by apply inv_health).
    split_and!; try done.
    + split_and!; [|done|done]. intros []. set_solver.
    + split; [|intros Hp; by apply Hst', Hst]. intros l Hl. rewrite Ha by (by rewrite Hl). by apply El.
    + eauto.
Qed.
(** A critical section of the store inside that of [UpdateLiveNodes]. *)
Lemma installing_lock {A} fixed gone added (p : prog A) R gone' added' :
  turns fl [HealthMutex; ObjectMutex] (λ μ, installing fixed gone added μ ∧ live_lock_inv HealthMutex μ)
    p R (λ _ μ, installing fixed gone' added' μ ∧ live_lock_inv HealthMutex μ) →
  turns fl [ObjectMutex] (installing fixed gone added) (with_lock (HealthMutex : mutex state) p)
    R (λ _, installing fixed gone' added').
Proof.
  intros Hp. apply turns_with_lock; [set_solver|simpl; lia| | | |exact Hp].
  - apply Forall_singleton. simpl. lia.
  - apply installing_lock_stable.
  - intros _. apply installing_stable. set_solver.
Qed.

Lemma stored_as_add live added h node now :
  wf_store h → node_url node → stored_as live [] added h →
  stored_as live [] (added ++ [node]) (AddNode now node h).
Proof.
  intros Hw Hn [Hu Hs]. split; [rewrite app_assoc; by apply Forall_app_2, Forall_singleton|].
  intros u. rewrite stored_AddNode, Hs, elem_of_app, list_elem_of_singleton.
  destruct (statuses_ h !! Url_ToString node) as [[k st]|] eqn:E; [|tauto].
  assert (k = node) as ->.
  { pose proof (wf_keys_ok h Hw) as Hk. specialize (Hk _ _ E). simpl in Hk.
    assert (stored h k) as Hst by (exists st; by rewrite Hk in E).
    apply Hs in Hst. rewrite Forall_forall in Hu. apply ToString_inj; [|done|congruence].
    apply Hu. set_solver. }
  assert (stored h node) as Hst by (by exists st). apply Hs in Hst.
  split; [|naive_solver]. intros [?|[_ ?]]; [tauto|done].
Qed.
Lemma set_statuses_same h : set_statuses h (statuses_ h) = h.
Proof. by destruct h. Qed.
Lemma set_statuses_of s (F : NodeHealthStore → NodeHealthStore) :
  consts config initial_nodes s → (∀ h, health_config (F h) = health_config h) →
  set_statuses (health_store_ s)
    (statuses_ (F (mkStore (health config) (statuses_ (health_store_ s))))) = F (health_store_ s).
Proof.
  intros Hc HF. rewrite (store_of config initial_nodes s Hc). specialize (HF (health_store_ s)).
  unfold set_statuses. rewrite <-HF. by destruct (F (health_store_ s)).
Qed.

Lemma install_AddNode added node :
  (plain → node_url node) →
  turns fl [ObjectMutex] (installing None [] added) (p_AddNode config node)
    (λ r, r = Ok tt) (λ _, installing None [] (added ++ [node])).
Proof.
  intros Hn. apply installing_lock. eapply turns_bind.
  - apply (installing_act None [] added _ (λ _, []) (λ b : bool, if b then added ++ [node] else added)).
    intros s Hi Hc _. cbv zeta. rewrite set_statuses_same. split_and!; [apply Hi| |done]. intros Hp Hst.
    case_bool_decide as El; [done|]. simpl.
    assert (AddNode 0 node (health_store_ s) = health_store_ s) as <-.
    { unfold AddNode. by destruct (statuses_ (health_store_ s) !! Url_ToString node). }
    apply stored_as_add; [apply Hi|by apply Hn|done].
  - intros e [b [=]].
  - intros known _. cbv beta. destruct known.
    { apply turns_done; [apply installing_lock_stable|done|done]. }
    apply (turns_bind _ _ _ _ _ (λ r, ∃ now, r = Ok now)
      (λ _ μ, installing None [] added μ ∧ live_lock_inv HealthMutex μ)); [|by intros e [? ?]|].
    + apply turns_act; [done|intros _; apply installing_lock_stable|].
      intros [[s w] hd] Hi Hins. simpl.
      split_and!; [apply Hi| |apply Hins|done|done|eauto]. by split_and!.
    + intros now _. eapply turns_mono.
      * apply (installing_act None [] added _ (λ _, []) (λ _ : (), added ++ [node])).
        intros s Hi Hc _. cbv zeta.
        rewrite (set_statuses_of s (AddNode now node) Hc) by (intros; apply config_AddNode).
        split_and!; [apply wf_AddNode, Hi| |done]. intros Hp Hst. apply stored_as_add; [apply Hi|by apply Hn|done].
      * by intros r [[] ->].
Qed.
Lemma install_AddNodes added nodes :
  (plain → Forall node_url nodes) →
  turns fl [ObjectMutex] (installing None [] added) (for_each nodes (p_AddNode config))
    (λ r, r = Ok tt) (λ _, installing None [] (added ++ nodes)).
Proof.
  revert added. induction nodes as [|node nodes IH]; intros added Hn; cbn [for_each].
  { rewrite app_nil_r. apply turns_done; [apply installing_stable; set_solver|done|done]. }
  eapply turns_bind; [apply install_AddNode|done|].
  - intros Hp. specialize (Hn Hp). by inversion Hn.
  - intros [] _. replace (added ++ node :: nodes) with ((added ++ [node]) ++ nodes)
      by (by rewrite <-app_assoc).
    apply IH. intros Hp. specialize (Hn Hp). by inversion Hn.
Qed.

Lemma stored_as_remove live gone added h node :
  node_url node → node ∉ added → stored_as live gone added h →
  stored_as live (node :: gone) added (RemoveNode node h).
Proof.
  intros Hn Ha [Hu Hs]. split; [done|]. intros u. rewrite stored_RemoveNode, Hs.
  assert (u ∈ live ∨ u ∈ added → Url_ToString u = Url_ToString node ↔ u = node) as Heq.
  { intros Hin. split; [|by intros ->]. rewrite Forall_forall in Hu. apply ToString_inj; [|done].
    apply Hu. set_solver. }
  rewrite not_elem_of_cons. split.
  - intros [[[??]|?] Hne]; [|tauto]. left. split_and!; try done. intros ->. by apply Hne.
  - intros [(? & ? & ?)|?]; [rewrite Heq by tauto; tauto|].
    split; [by right|]. rewrite Heq by tauto. intros ->. done.
Qed.
Lemma install_RemoveNodes removed gone added nodes :
  nodes ⊆ removed →
  turns fl [ObjectMutex] (installing (Some removed) gone added) (for_each nodes (p_RemoveNode config))
    (λ r, r = Ok tt) (λ _, installing (Some removed) (reverse nodes ++ gone) added).
Proof.
  revert gone. induction nodes as [|node nodes IH]; intros gone Hl; cbn [for_each].
  { apply turns_done; [apply installing_stable; set_solver|done|done]. }
  apply (turns_bind _ _ _ _ _ (λ r, r = Ok tt) (λ _, installing (Some removed) (node :: gone) added));
    [|done|].
  - apply installing_lock. eapply turns_mono.
    + apply (installing_act (Some removed) gone added _ (λ _ : (), node :: gone) (λ _, added)).
      intros s Hi Hc El. cbv zeta. rewrite (set_statuses_of s (RemoveNode node) Hc) by done.
      split_and!; [apply wf_RemoveNode, Hi| |done]. intros Hp Hst.
      assert (node ∈ removed) as Hin by set_solver. rewrite (El removed eq_refl) in Hin.
      apply list_elem_of_filter in Hin as [Hna Hin]. apply stored_as_remove; [|done|done].
      destruct Hst as [Hu _]. rewrite Forall_forall in Hu. apply Hu. set_solver.
    + by intros r [[] ->].
  - intros [] _. rewrite reverse_cons, <-app_assoc. apply IH. set_solver.
Qed.

(** The last assignment of the section makes the two agree again. *)
Lemma install_live_nodes removed new_nodes :
  new_nodes ≠ [] →
  turns fl [ObjectMutex] (installing (Some removed) (reverse removed) new_nodes)
    (guarded_op (λ g, (tt, mkGuarded (SortAndDedupeNodes new_nodes) (g_quarantine g)
                             (g_next_update g) (g_last_activity g))))
    (λ r, r = Ok tt) (λ _ μ, any μ ∧ live_lock_inv ObjectMutex μ).
Proof.
  intros Hne. apply turns_act; [set_solver|intros _; apply lock_stable; [set_solver|done]|].
  intros [[s w] hd] [Hi Hc] [El Hst]. specialize (El removed eq_refl). simpl in *.
  split_and!; try done.
  - split; [|done]. simpl. apply inv_live_nodes; [by rewrite SortAndDedupe_nil|apply SortAndDedupe_sorted|].
    apply (st_quarantine _ live_inv_stable). by apply (st_schedule _ live_inv_stable).
  - split_and!; [|done|done]. intros []. set_solver.
  - intros Hp. destruct (Hst Hp) as [Hu Hs]. simpl. split.
    + intros u. simpl. rewrite elem_of_SortAndDedupe, Hs, elem_of_reverse, El, list_elem_of_filter.
      split; [|by right]. intros [[Hl Hn]|?]; [|done].
      destruct (decide (u ∈ new_nodes)); [done|]. destruct Hn. done.
    + apply SortAndDedupe_node_url. by apply Forall_app in Hu as [_ ?].
Qed.
Lemma quiet_install new_nodes :
  new_nodes ≠ [] → (plain → Forall node_url new_nodes) → quiet (p_install config new_nodes).
Proof.
  intros Hne Hn. apply quiet_lock; [by left|].
  apply (wp_weaken _ _ _ _ _ (installing None [] [])).
  { intros [[s w] hd] _ [_ Hl]. split; [done|]. intros Hp. destruct (Hl Hp) as [Ht Hu].
    split; [by rewrite app_nil_r|]. intros u. rewrite (Ht u). set_solver. }
  eapply turns_bind; [by apply install_AddNodes|done|]. intros [] _. rewrite app_nil_l.
  apply (turns_bind _ _ _ _ _ (λ r, ∃ l, r = Ok l) (λ r μ,
    match r with Ok removed => installing (Some removed) [] new_nodes μ | Throw _ => False end));
    [|by intros e [? ?]|].
  { apply turns_act; [set_solver|intros removed; apply installing_stable; set_solver|].
    intros [[s w] hd] Hi [_ Hst]. pose proof (poke_peek Guarded (s, w)) as E. simpl in *. rewrite E.
    split_and!; [done|by split_and!| |done|eauto].
    split; [|done]. by intros l [= <-]. }
  intros removed _. eapply turns_bind; [by apply install_RemoveNodes|done|]. intros [] _.
  rewrite app_nil_r. eapply turns_bind; [by apply install_live_nodes|done|].
  intros [] _. apply section_done.
Qed.
Lemma quiet_UpdateLiveNodes : quiet (p_UpdateLiveNodes config initial_nodes).
Proof.
  eapply maintains_bind; [done|apply finds_fetched|done|]. intros new_nodes Hf.
  change (maintains fl any [] ?p _) with (quiet p). case_bool_decide as Hne; [quiets|].
  apply quiet_bind; [by apply quiet_install; [|apply Hf]|]. intros removed. apply quiet_bind; [|quiets].
  apply quiet_for_each. quiets.
Qed.
Lemma quiet_CheckScopes : quiet (p_CheckIfRackAndDatacenterSetCorrectly config initial_nodes).
Proof.
  unfold p_CheckIfRackAndDatacenterSetCorrectly. generalize (@nil string) as misses.
  induction (scope_chain (routing_scope config)) as [|scope scopes IH]; intros misses;
    cbn [p_check_scopes]; [quiets|]. destruct (IsCluster scope); [quiets|].
  apply quiet_bind; [apply finds_quiet, finds_GetNodesForScope|]. intros nodes.
  case_bool_decide; [apply IH|quiets].
Qed.
Lemma quiet_CheckFeature : quiet (p_CheckIfRackDatacenterFeatureIsSupported config initial_nodes).
Proof.
  unfold p_CheckIfRackDatacenterFeatureIsSupported. quiets;
    apply finds_quiet, finds_GetNodesFromEndpoint.
Qed.
End quiet.

(** ** Starting and stopping the thread *)

(** What a thread that holds [ControlMutex] knows of the flags and the member. *)
Definition control (started stopping : bool) (joinable : bool) (μ : state * option nat) : Prop :=
  background_started_ μ.1.1 = started ∧ stopping_ μ.1.1 = stopping ∧
  bool_decide (is_Some μ.2) = joinable.

Lemma control_stable b c j h : ControlMutex ∈ h → stable_in h (control b c j).
Proof.
  intros Hh h' [[s w] hd] [[s' w'] hd'] Hd _ (_ & Hf & Hc) (? & ? & ?). simpl in *.
  assert (ControlMutex ∉ h') as Hn by (intros Hm; by apply (Hd ControlMutex)).
  destruct Hf as [Eb Es]; [by right|]. unfold control. simpl. rewrite Eb, Es, Hc by done. done.
Qed.
(** Setting the flags while holding what that takes. *)
Lemma set_flags s w hd b c h :
  object_inv (s, w, hd) → BackgroundMutex ∈ h → ControlMutex ∈ h →
  object_inv (set_background b c s, w, hd) ∧
  live_guar h (s, w, hd) (set_background b c s, w, hd).
Proof.
  intros [Hi Hc] Hb Hk. split; [split; [by apply live_inv_flagless|done]|].
  split_and!; [done| |done]. simpl. intros [?|?]; done.
Qed.
Lemma read_flags s w hd h :
  object_inv (s, w, hd) →
  object_inv (set_background (background_started_ s) (stopping_ s) s, w, hd) ∧
  live_guar h (s, w, hd) (set_background (background_started_ s) (stopping_ s) s, w, hd).
Proof. intros Hi. destruct s. split; [done|]. by split_and!. Qed.

#[local] Arguments wp : simpl never.

(** The end of a critical section of [background_mutex_] within [ControlMutex]. *)
Lemma control_release floor {A} (r : result A) b c j Q :
  (∀ K, (∀ μ, inv μ → K μ → control b c j μ) → Q r false [ControlMutex] K) →
  wp floor (Release (BackgroundMutex : mutex state) (Done r)) false
    [BackgroundMutex; ControlMutex] (control b c j) Q.
Proof.
  intros HQ. split; [done|]. exists [ControlMutex], (control b c j).
  split_and!; [done|set_solver|done|apply control_stable; set_solver|].
  exists (control b c j). split_and!; [done|apply control_stable; set_solver|]. by apply HQ.
Qed.

(** [ControlMutex] was free. *)
Lemma at_ease_stable h : ControlMutex ∈ h → stable_in h (live_lock_inv ControlMutex).
Proof.
  intros Hh h' μ μ' Hd Hi Hg Hl. refine (lock_inv_stable _ h' _ _ _ Hi Hg Hl).
  intros Hm. by apply (Hd ControlMutex).
Qed.

Lemma control_Start :
  turns 0 [ControlMutex] (live_lock_inv ControlMutex) p_Start (λ _, True)
    (λ _, control true false true).
Proof.
  split_and!; [done|simpl; lia|by apply Forall_singleton; simpl; lia|].
  exists (live_lock_inv ControlMutex). split_and!; [done|apply at_ease_stable; set_solver|].
  split; [set_solver|]. intros [[s w] hd] Hi (Es & Et). simpl in *. symmetry in Es.
  destruct (read_flags s w hd [BackgroundMutex; ControlMutex] Hi) as [Hi' Hg].
  split_and!; [done|done|simpl; congruence|]. exists (control (background_started_ s) false (background_started_ s)).
  split_and!; [done|apply control_stable; set_solver|].
  rewrite Et. destruct (background_started_ s) eqn:Eb; simpl.
  - by apply control_release.
  - split; [set_solver|]. intros [[s1 w1] hd1] Hi1 (Eb1 & Et1 & Eh1). simpl in *.
    destruct (set_flags s1 w1 hd1 true false [BackgroundMutex; ControlMutex] Hi1) as [Hi1' Hg1];
      [set_solver|set_solver|].
    split_and!; [done|done|simpl; congruence|]. exists (control true false false).
    split_and!; [done|apply control_stable; set_solver|]. rewrite Et1. simpl.
    split; [set_solver|]. exists (control true false true).
    split_and!; [|apply control_stable; set_solver|by apply control_release].
    intros [[s2 w2] hd2] t [Hi2 Hc2] (Eb2 & Et2 & Eh2). simpl in *.
    apply bool_decide_eq_false in Eh2. split_and!; try done.
    + destruct hd2; [|done]. by destruct Eh2.
    + split_and!; try done. intros Hn. set_solver.
Qed.

Lemma control_Stop :
  turns 0 [ControlMutex] (live_lock_inv ControlMutex) p_Stop (λ _, True)
    (λ _, control false false false).
Proof.
  split_and!; [done|simpl; lia|by apply Forall_singleton; simpl; lia|].
  exists (live_lock_inv ControlMutex). split_and!; [done|apply at_ease_stable; set_solver|].
  split; [set_solver|]. intros [[s w] hd] Hi (Es & Et). simpl in *. symmetry in Es.
  destruct (background_started_ s) eqn:Eb; simpl.
  - (* the flag is raised: a notification is owed until [notify_all] *)
    destruct (set_flags s w hd true true [BackgroundMutex; ControlMutex] Hi) as [Hi1 Hg1];
      [set_solver|set_solver|].
    split_and!; [done|done|intros; set_solver|]. exists (control true true true).
    split_and!; [done|apply control_stable; set_solver|]. rewrite Et. simpl.
    split; [by intros|]. exists [ControlMutex], (control true true true).
    split_and!; [done|set_solver|done|apply control_stable; set_solver|]. simpl.
    split_and!; [done|done|simpl; lia|]. exists (control true true false).
    split_and!; [|apply control_stable; set_solver|].
    { intros [[s2 w2] hd2] [Hi2 Hc2] (Eb2 & Et2 & Eh2). simpl in *. split_and!; try done.
      split_and!; try done. intros Hn. set_solver. }
    split_and!; [done|simpl; lia|by apply Forall_singleton; simpl; lia|].
    exists (control true true false). split_and!; [done|apply control_stable; set_solver|].
    split; [set_solver|]. intros [[s3 w3] hd3] Hi3 (Eb3 & Et3 & Eh3). simpl in *.
    destruct (set_flags s3 w3 hd3 false false [BackgroundMutex; ControlMutex] Hi3) as [Hi4 Hg4];
      [set_solver|set_solver|].
    split_and!; [done|done|simpl; congruence|]. exists (control false false false).
    split_and!; [done|apply control_stable; set_solver|]. rewrite andb_false_r.
    by apply control_release.
  - destruct (read_flags s w hd [BackgroundMutex; ControlMutex] Hi) as [Hi' Hg]. rewrite Eb in *.
    split_and!; [done|done|simpl; congruence|]. exists (control false false false).
    split_and!; [done|apply control_stable; set_solver|]. rewrite Et. simpl.
    split; [done|]. exists [ControlMutex], (control false false false).
    split_and!; [done|set_solver|done|apply control_stable; set_solver|]. simpl.
    exists (control false false false). split_and!; try done. apply control_stable; set_solver.
Qed.

(** Either of them, serialised by its caller. *)
Lemma quiet_control {A} (p : prog A) b :
  turns 0 [ControlMutex] (live_lock_inv ControlMutex) p (λ _, True) (λ _, control b false b) →
  quiet 0 (with_lock (ControlMutex : mutex state) p).
Proof.
  intros Hp. apply turns_with_lock; try done.
  - set_solver.
  - simpl. lia.
  - apply lock_stable; [by apply list_elem_of_singleton|done].
  - eapply wp_weaken; [|eapply turns_mono; [exact Hp|]]; [by intros μ _ [_ ?]|].
    intros r _. split; [done|]. intros μ _ (? & ? & ?). split; [done|]. split; [congruence|done].
Qed.
Lemma quiet_Start : quiet 0 (with_lock (ControlMutex : mutex state) p_Start).
Proof. eapply quiet_control, control_Start. Qed.
Lemma quiet_Stop : quiet 0 (with_lock (ControlMutex : mutex state) p_Stop).
Proof. eapply quiet_control, control_Stop. Qed.

(** ** The background thread *)

(** It holds [background_mutex_] and has seen that nobody wants it to stop. *)
Definition going (μ : state * option nat) : Prop := stopping_ μ.1.1 = false.
Lemma going_stable h : BackgroundMutex ∈ h → stable_in h going.
Proof.
  intros Hh h' [[s w] hd] [[s' w'] hd'] Hd _ (_ & Hf & _) Hg. unfold going in *. simpl in *.
  destruct Hf as [_ ->]; [|done]. left. intros Hm. by apply (Hd BackgroundMutex).
Qed.

Lemma background_entry_ok :
  wp 1 (p_background_entry config : prog live_ctl) false [] any at_rest.
Proof.
  split_and!; [done|simpl; lia|by apply Forall_nil|]. exists any. split_and!; [done|done|].
  split; [done|]. intros [[s w] hd] Hi _. simpl. split_and!; [done|by split_and!|simpl; congruence|].
  exists any. split_and!; [done|done|]. rewrite andb_negb_l. exists any. by split_and!.
Qed.

(** Reading [stopping_]. *)
Lemma wp_stopping floor {A} (k : bool → prog A) P Q :
  (∀ b, wp floor (k b) false [BackgroundMutex] (if b then any else going) Q) →
  wp floor (Act (Flags : region state) (λ f : bool * bool, (f.2, f)) k) false [BackgroundMutex] P Q.
Proof.
  intros Hk. split; [set_solver|]. intros [[s w] hd] Hi _. simpl.
  destruct (read_flags s w hd [BackgroundMutex] Hi) as [Hi' Hg]. split_and!; [done|done|simpl; congruence|].
  exists (if stopping_ s then any else going). split_and!.
  - by destruct (stopping_ s) eqn:E.
  - destruct (stopping_ s); [done|apply going_stable; set_solver].
  - rewrite andb_negb_l. apply Hk.
Qed.

Lemma background_wait_ok floor p :
  (floor <= 1)%nat → wp floor (p_background_wait p) false [BackgroundMutex] any at_rest.
Proof.
  intros Hf. apply wp_stopping. intros [].
  - exists any. by split_and!.
  - split_and!; [done|done|simpl; lia|by intros|]. intros b. exists any. by split_and!.
Qed.

Lemma going_about : about_nodes going.
Proof. intros s w s' w' hd (_ & _ & _ & _ & _ & _ & Es) Hg. unfold going in *. simpl in *. congruence. Qed.

(** A critical section of [mutex_] inside one of [background_mutex_]. *)
Lemma background_guarded floor P {B} (f : guarded_fields → B * guarded_fields) :
  (floor <= 1)%nat → stable_in [BackgroundMutex] P → about_nodes P →
  (∀ g, g_live_nodes (f g).2 = g_live_nodes g) →
  maintains floor P [BackgroundMutex] (with_lock (ObjectMutex : mutex state) (guarded_op f))
    (λ r, ∃ b, r = Ok b).
Proof.
  intros Hfl HS HP Hf. apply turns_with_lock.
  - set_solver.
  - simpl. lia.
  - apply Forall_singleton. simpl. lia.
  - apply lock_stable; [set_solver|]. by apply stable_more.
  - done.
  - apply (guarded_act floor); [set_solver| |by apply object_lock_about|done].
    apply lock_stable; [set_solver|]. by apply stable_more.
Qed.

Context (Hvalid : valid_config config).

Lemma background_work_ok floor u pr :
  (floor <= 1)%nat → quiet floor (p_background_work config initial_nodes u pr).
Proof.
  intros Hf. apply quiet_try; [|intros; apply quiet_ret]. apply quiet_bind.
  - destruct u; [by apply quiet_UpdateLiveNodes|apply quiet_ret].
  - intros _. destruct pr; [|apply quiet_ret].
    apply quiet_bind; [by apply quiet_ProbeDownNodes|intros; apply quiet_ret].
Qed.

Lemma background_turn_ok floor ndp :
  (floor <= 1)%nat →
  wp floor (p_background_turn config initial_nodes ndp) false [BackgroundMutex] any at_rest.
Proof.
  intros Hf. apply wp_stopping. intros [].
  { split; [done|]. exists [], any. split_and!; [done|apply not_elem_of_nil|done|done|]. exists any. by split_and!. }
  eapply turns_wp.
  { apply background_guarded; [done|apply going_stable; set_solver|apply going_about|done]. }
  intros r [next_update ->]. unfold p_background_sleep. cbv zeta.
  set (refresh := negb (next_update =? time_max)). set (probe := 0 <? _).
  destruct (negb refresh && negb probe).
  { exists any. by split_and!. }
  split_and!; [done|done|simpl; lia|by intros|]. intros timed_out. apply wp_stopping. intros stop.
  apply (wp_weaken _ _ _ _ _ any); [done|].
  destruct (stop || negb timed_out).
  { exists any. by split_and!. }
  split; [done|]. intros [[s w] hd] Hi _. simpl. split_and!; [done|by split_and!|simpl; congruence|].
  exists any. split_and!; [done|done|]. rewrite andb_negb_l. simpl.
  set (now := (steady_now w).1). clearbody now.
  eapply turns_wp.
  { apply background_guarded; [done|done|apply any_about|]. intros g. cbv zeta. by case_match. }
  intros r [should_update ->]. set (should_probe := probe && _).
  split; [done|]. exists [], any. split_and!; [done|apply not_elem_of_nil|done|done|].
  cbn [pcont]. eapply turns_wp; [by apply background_work_ok|]. intros r _.
  destruct r as [[]|e].
  - split_and!; [done|simpl; lia|by apply Forall_nil|]. exists any. split_and!; [done|done|].
    exists any. by split_and!.
  - exists any. by split_and!.
Qed.

(** ** All threads together *)

Lemma resume_ok floor (c : live_ctl) (p : prog live_ctl) :
  (floor <= service_rank (σ := state))%nat → p_resume config initial_nodes c = Some p →
  wp floor p false (ctl_held (σ := state) c) any at_rest.
Proof.
  intros Hf. change (floor <= 1)%nat in Hf. destruct c as [ndp|ndp|]; simpl; intros [= <-].
  - by apply background_turn_ok.
  - by apply background_wait_ok.
Qed.
Lemma method_quiet A (p : prog A) : method config initial_nodes A p → quiet 0 p.
Proof.
  assert (0 <= 1)%nat as H01 by lia.
  destruct 1; [by apply quiet_NextNode|apply quiet_GetNodes|by apply quiet_GetActiveNodes|
    by apply quiet_GetQueryPlanNodes|by apply quiet_GetQueryPlanNodesForHash|
    by apply quiet_GetQuarantinedNodes|by apply quiet_GetDownNodes|by apply quiet_UpdateLiveNodes|
    by apply quiet_ReportNodeResult|by apply quiet_ProbeDownNodes|by apply quiet_CheckScopes|
    by apply quiet_CheckFeature|apply quiet_Start|apply quiet_Stop]; lia.
Qed.
Lemma caller_ok p : caller config initial_nodes p → wp 0 p false [] any at_rest.
Proof.
  induction 1 as [|A p k Hm _ IH]; [exists any; by split_and!|].
  eapply turns_wp; [by apply method_quiet|]. intros r _. apply IH.
Qed.

(** An object in use: callers, and no background thread yet. *)
Definition object_pool (s : AlternatorLiveNodes) (w : W) (callers : list (prog live_ctl)) : pool state :=
  mkPool (map (λ p, mkThread 0 p [] None) callers) ((s, w), None).

Lemma object_pool_verified s w callers x :
  live_inv s → consts config initial_nodes s →
  background_started_ s = false → stopping_ s = false →
  (plain → tracks s ∧ Forall node_url (live_nodes_ s)) →
  (∀ p, p ∈ callers → caller config initial_nodes p) →
  rtc step (object_pool s w callers) x → verified x.
Proof.
  intros Hi Hc Hb Hs Hp Hcs Hr. eapply verified_steps; [|apply resume_ok|exact Hr|].
  - apply background_entry_ok.
  - apply verified_init; [by split| |done|].
    + intros []; simpl; [|done|done|done]. by split.
    + intros p Hin. by apply caller_ok, Hcs.
Qed.
Lemma verified_object x :
  verified x → live_inv (mem x).1.1 ∧
  (lock_free (threads x) (ObjectMutex : mutex state) = true → plain → tracks (mem x).1.1).
Proof.
  intros (P & o & [[[Hi _] _ _ Hf] _ _]). split; [done|]. intros Hl Hp. by apply (Hf ObjectMutex Hl).
Qed.
End protocol.
