(* ===== verification/RoutingProperties.v ===== *)
(** Properties of routing: query plans, key-route affinity, the live nodes and
    their health, each with a concrete instance of its hypotheses. *)
From S2P Require Import Prelude Uri GoRandom Murmur3 AttributeValue Effects RoutingScope.
From S2P Require Import NodeHealth QueryPlan KeyRouteAffinity HttpCompression Config.
From S2P Require Import LocalNodesJson LiveNodes LiveNodesSelection LiveNodesRefresh.
From S2P Require Import BackgroundThread.

(** ** Concrete data for the instances *)

Definition node (host : string) : Url := Url_make "http" host 8080.
Definition three_nodes : list Url := [node "a"; node "b"; node "c"].
Definition users : PartitionKeyMetadata := {[ "users" := "id" ]}.
Definition user (id : string) : AttributeMap := {[ "id" := AttributeValue_String id ]}.
Definition user_with_name (id name : string) : AttributeMap :=
  <[ "name" := AttributeValue_String name ]> (user id).
Definition put_user (id : string) : BatchWriteOperation := BatchWriteOperation_Put "users" (user id).

Lemma three_nodes_url : Forall node_url three_nodes.
Proof. by apply (bool_decide_unpack _). Qed.
Lemma three_nodes_NoDup : NoDup three_nodes.
Proof. by apply (bool_decide_unpack _). Qed.
Lemma three_nodes_usable : usable_nodes three_nodes.
Proof. split; [by repeat constructor|simpl; lia]. Qed.
Lemma three_nodes_inj : key_inj Url_ToString three_nodes.
Proof. apply key_inj_nodes, three_nodes_url. Qed.

(** A world whose nodes a, b and c all report the cluster a, b, c. *)
Definition quoted (s : string) : string := String quote (s +:+ String quote "").
Definition abc_reply : http_outcome :=
  HttpReply (mkResponse 200
    ("[" +:+ quoted "a" +:+ ", " +:+ quoted "b" +:+ ", " +:+ quoted "c" +:+ "]")).
Definition abc_world : script :=
  mkScript 1000 [("http://a:8080/localnodes", abc_reply); ("http://b:8080/localnodes", abc_reply);
                 ("http://c:8080/localnodes", abc_reply)] [].

Definition made (hosts : list string) (c : Config) (w : script) : AlternatorLiveNodes * script :=
  match AlternatorLiveNodes_make hosts c w with
  | (Ok s, w) => (s, w)
  | (Throw _, w) =>
      (mkLive c [] [] ∅ (mkStore (node_health c) ∅) 0 0 0 0 0 false false, w)
  end.
Definition abc : AlternatorLiveNodes := (made ["a"; "b"; "c"] default_config abc_world).1.

Lemma default_health_u32 : health_config_u32 default_health_config.
Proof. unfold health_config_u32. simpl. ranges. Qed.
Lemma abc_inv : live_inv abc.
Proof.
  apply (inv_make ["a"; "b"; "c"] default_config abc_world abc
    (made ["a"; "b"; "c"] default_config abc_world).2); [apply default_health_u32|].
  by vm_compute.
Qed.
Lemma abc_usable : usable_nodes (GetActiveNodes abc).
Proof. assert (GetActiveNodes abc = three_nodes) as -> by by vm_compute. apply three_nodes_usable. Qed.

(** A world in which every request is answered with that cluster. *)
Record answering := mkAnswering { answering_time : Z }.
#[global] Instance answering_world : World answering := {
  steady_now w := (answering_time w, mkAnswering (answering_time w + 1));
  high_resolution_now w := (answering_time w, mkAnswering (answering_time w + 1));
  http_get _ w := (abc_reply, w);
}.
Lemma answering_plain url (w w' : answering) resp hosts :
  http_get url w = (HttpReply resp, w') → status_code resp = 200 →
  ParseJsonStringArray (body resp) = Ok hosts → Forall plain_host hosts.
Proof.
  intros E _ Ep. injection E as <- _.
  assert (ParseJsonStringArray (body (mkResponse 200
    ("[" +:+ quoted "a" +:+ ", " +:+ quoted "b" +:+ ", " +:+ quoted "c" +:+ "]"))) =
    Ok ["a"; "b"; "c"]) as E by by vm_compute.
  rewrite E in Ep. simplify_eq. by apply (bool_decide_unpack _).
Qed.
Definition answered : AlternatorLiveNodes * answering :=
  match AlternatorLiveNodes_make ["a"] default_config (mkAnswering 0) with
  | (Ok s, w) => (s, w)
  | (Throw _, w) => (abc, w)
  end.
Lemma answered_made :
  AlternatorLiveNodes_make ["a"] default_config (mkAnswering 0) = (Ok answered.1, answered.2).
Proof. by vm_compute. Qed.

(** ** Affinity *)

(** C1. Writes for one partition key take the same route everywhere: two
    clients, with whatever implementations of the node source, whose active
    nodes are the same set in any order, and that hash the key to the same
    value, both obtain a plan, and both plans go through the active nodes in
    the same order, each node once, after at most one node that is not active
    (a quarantined node being probed with traffic). *)
Theorem same_key_same_route {S1 S2 : Type} `{NodesSourceLaws S1} `{NodesSourceLaws S2}
    (s1 : S1) (s2 : S2) values1 values2 table metadata seed :
  ns_inv s1 → ns_inv s2 → usable_nodes (ns_GetActiveNodes s1) → ns_GetActiveNodes s1 ≠ [] →
  ns_GetActiveNodes s1 ≡ₚ ns_GetActiveNodes s2 →
  HashPartitionKey values1 table metadata = Ok seed →
  HashPartitionKey values2 table metadata = Ok seed →
  ∃ plan1 plan2 extra1 extra2 order,
    (QueryPlanForPartitionKey values1 table metadata s1).1 = Ok plan1 ∧
    (QueryPlanForPartitionKey values2 table metadata s2).1 = Ok plan2 ∧
    DrainPlan plan1 = Ok (extra1 ++ order) ∧ DrainPlan plan2 = Ok (extra2 ++ order) ∧
    order ≡ₚ ns_GetActiveNodes s1 ∧
    Forall (λ u, u ∉ ns_GetActiveNodes s1) (extra1 ++ extra2) ∧
    (length extra1 <= 1)%nat ∧ (length extra2 <= 1)%nat.
Proof.
  intros I1 I2 Hu Hne Hp H1' H2'. pose proof (usable_perm _ _ Hp Hu) as Hu2.
  assert (ns_GetActiveNodes s2 ≠ []) as Hne2.
  { intros E. apply Hne. rewrite E in Hp. by apply Permutation_nil_r. }
  destruct (QueryPlanForPartitionKey_run values1 table metadata seed s1 I1 Hu Hne H1')
    as (p1 & t1 & x1 & o1 & E1 & _ & D1 & O1 & P1 & L1 & X1).
  destruct (QueryPlanForPartitionKey_run values2 table metadata seed s2 I2 Hu2 Hne2 H2')
    as (p2 & t2 & x2 & o2 & E2 & _ & D2 & O2 & P2 & L2 & X2).
  rewrite (WithSortedSeed_perm _ _ _ (proj2 (ns_active_law s1 I1)) Hp) in O1.
  rewrite O1 in O2. simplify_eq.
  exists p1, p2, x1, x2, o2. rewrite E1, E2. split_and!; try done.
  apply Forall_app. rewrite !Forall_forall. split; intros u Hin; [by apply X1|].
  rewrite Hp. by apply X2.
Qed.

Lemma same_key_same_route_witness :
  ∃ plan1 plan2 extra1 extra2 order,
    (QueryPlanForPartitionKey (user "42") "users" users abc).1 = Ok plan1 ∧
    (QueryPlanForPartitionKey (user_with_name "42" "x") "users" users
      (mkStatic [node "c"; node "a"; node "b"])).1 = Ok plan2 ∧
    DrainPlan plan1 = Ok (extra1 ++ order) ∧ DrainPlan plan2 = Ok (extra2 ++ order) ∧
    order ≡ₚ ns_GetActiveNodes abc ∧
    Forall (λ u, u ∉ ns_GetActiveNodes abc) (extra1 ++ extra2) ∧
    (length extra1 <= 1)%nat ∧ (length extra2 <= 1)%nat.
Proof.
  apply (same_key_same_route abc (mkStatic [node "c"; node "a"; node "b"])
    (user "42") (user_with_name "42" "x") "users" users (HashAttributeValue AVT_String "42")).
  - apply abc_inv.
  - split; [by apply (bool_decide_unpack _)|].
    apply key_inj_nodes. by apply (bool_decide_unpack _).
  - apply abc_usable.
  - by vm_compute.
  - assert (ns_GetActiveNodes abc = three_nodes) as -> by by vm_compute.
    simpl. unfold three_nodes. solve_Permutation.
  - by vm_compute.
  - by vm_compute.
Defined.

(** C8. A batch write has a plan whenever one of its operations has a partition
    key that hashes: the plan tries first the nodes that the operations' own
    plans would try first, those of more operations before those of fewer and
    in order of their URLs among equals, then the remaining active nodes in
    order of their URLs; every active node is tried exactly once, after any
    quarantined nodes the keys are being sent to. *)
Theorem batch_plan_prefers_votes {S : Type} `{NodesSourceLaws S} (s : S) operations metadata op h :
  ns_inv s → usable_nodes (ns_GetActiveNodes s) → ns_GetActiveNodes s ≠ [] →
  Z.of_nat (length operations) < 2 ^ 31 →
  op ∈ operations → HashPartitionKey (op_values op) (table_name op) metadata = Ok h →
  let active := ns_GetActiveNodes s in
  let votes := backing active metadata operations in
  ∃ plan extra preferred rest,
    (QueryPlanForBatchWrite operations metadata s).1 = Ok plan ∧
    DrainPlan plan = Ok (extra ++ preferred ++ rest) ∧
    preferred ++ rest ≡ₚ active ∧
    preferred ≠ [] ∧ (∀ u, u ∈ preferred ↔ 0 < votes u) ∧
    StronglySorted (λ u v, votes v < votes u ∨ votes u = votes v ∧ Url_le u v) preferred ∧
    sorted_nodes rest ∧ NoDup extra ∧ Forall (λ u, u ∉ active) extra.
Proof.
  intros Hs Hu Hne Hops Hop Hh active votes. destruct (ns_active_law s Hs) as [ND Hi].
  assert (votable active) as Hv by done.
  assert (ballots active operations metadata ≠ []) as Hb.
  { unfold ballots. intros E. apply fmap_nil_inv in E.
    assert (h ∈ BatchWriteHashes operations metadata) as Hin; [|rewrite E in Hin; by apply not_elem_of_nil in Hin].
    apply list_elem_of_omap. exists op. split; [done|]. by rewrite operation_hash_key, Hh. }
  destruct (QueryPlanForBatchWrite_run operations metadata s Hs Hu Hne Hops Hb)
    as (p & t & extra & E & _ & D & NDx & X).
  destruct (preferred_ballots active operations metadata Hv Hops) as (NDp & Hin & Hsort).
  fold active in D.
  eexists p, extra, _, _. rewrite E. split_and!; [done|exact D|by apply preferred_rest_perm| | | | |done|].
  - intros En. apply Hb, elem_of_nil_inv. intros u Hu'. apply Hin in Hu'. rewrite En in Hu'.
    by apply not_elem_of_nil in Hu'.
  - intros u. rewrite Hin, tally_pos_iff. unfold votes. by rewrite tally_backing.
  - eapply StronglySorted_weaken; [exact Hsort|]. intros u v _ _.
    unfold votes. by rewrite !tally_backing.
  - apply StronglySorted_filter, SortAndDedupe_sorted.
  - by rewrite Forall_forall.
Qed.

Lemma batch_plan_prefers_votes_witness :
  let operations := [put_user "1"; put_user "2"; put_user "3"] in
  let active := ns_GetActiveNodes abc in
  let votes := backing active users operations in
  map votes active = [2; 0; 1] ∧
  ∃ plan extra preferred rest,
    (QueryPlanForBatchWrite operations users abc).1 = Ok plan ∧
    DrainPlan plan = Ok (extra ++ preferred ++ rest) ∧
    preferred ++ rest ≡ₚ active ∧
    preferred ≠ [] ∧ (∀ u, u ∈ preferred ↔ 0 < votes u) ∧
    StronglySorted (λ u v, votes v < votes u ∨ votes u = votes v ∧ Url_le u v) preferred ∧
    sorted_nodes rest ∧ NoDup extra ∧ Forall (λ u, u ∉ active) extra.
Proof.
  intros operations active votes. split; [by vm_compute|].
  refine (batch_plan_prefers_votes abc operations users (put_user "1")
    (HashAttributeValue AVT_String "1") _ _ _ _ _ _).
  - apply abc_inv.
  - apply abc_usable.
  - by vm_compute.
  - by vm_compute.
  - by left.
  - by vm_compute.
Defined.

(** The preferred nodes of a batch do not depend on the order of its
    operations. *)
Theorem batch_order_irrelevant candidates operations1 operations2 metadata :
  votable candidates → Z.of_nat (length operations1) < 2 ^ 31 → operations1 ≡ₚ operations2 →
  SelectBatchWritePreferredNodesForCandidates candidates operations1 metadata =
  SelectBatchWritePreferredNodesForCandidates candidates operations2 metadata.
Proof.
  intros Hv Hl Hp. rewrite !SelectForCandidates_run by done.
  pose proof (ballots_perm candidates operations1 operations2 metadata Hp) as Hb.
  rewrite (cast_votes_perm _ (ballots candidates operations2 metadata)); [| | |done].
  - by rewrite (bool_decide_ext _ _ (Permutation_nil_iff _ _ Hb)).
  - eapply key_inj_subseteq; [|apply Hv]. by apply ballots_candidates.
  - pose proof (ballots_length candidates operations1 metadata). lia.
Qed.

Lemma batch_order_irrelevant_witness :
  SelectBatchWritePreferredNodesForCandidates three_nodes
    [put_user "1"; put_user "2"; put_user "3"] users =
  SelectBatchWritePreferredNodesForCandidates three_nodes
    [put_user "3"; put_user "1"; put_user "2"] users.
Proof.
  apply (batch_order_irrelevant three_nodes [put_user "1"; put_user "2"; put_user "3"]
    [put_user "3"; put_user "1"; put_user "2"] users).
  - split_and!; [done|apply three_nodes_usable|apply three_nodes_inj].
  - by vm_compute.
  - solve_Permutation.
Defined.

(** ** The live nodes in operation *)

(** Whatever clients call, in whatever order, however the world answers,
    also when calls throw, and however the background thread is started,
    interleaved and stopped: the health store stays well formed under the
    normalised thresholds, the configuration stays the validated one, the
    counters stay 64-bit values, and neither node list is ever empty or out of
    order; and the flags tell the truth about the thread, so that [Start] never
    replaces a thread that has not been joined. *)
Theorem operation_keeps_invariant {W : Type} `{World W} initial config (w : W) x :
  health_config_u32 (node_health config) → reachable initial config w x →
  live_inv (object x).1 ∧
  (background_started_ (object x).1 = false ↔ thread x = NoThread) ∧
  stopping_ (object x).1 = stop_pending x ∧
  (thread x = Finished → stop_pending x = true).
Proof.
  intros Hu Hr. destruct (reachable_lifecycle initial config w x Hu Hr) as [(Hb & Hs & _) Hf _].
  split_and!; [by eapply reachable_inv| |done|done].
  rewrite Hb, negb_false_iff. apply bool_decide_eq_true.
Qed.

(** A run: a client call, [Start], and the thread up to its first wait. *)
Definition abc_system : system (W := script) :=
  mkSystem NoThread false (made ["a"; "b"; "c"] default_config abc_world).
Definition abc_started : system (W := script) :=
  let σ := (NextNode (object abc_system)).2 in mkSystem Entry false (Start σ.1, σ.2).
Definition thread_moves (timed_out : bool) {W : Type} `{World W} (x : system (W := W)) : system :=
  match BackgroundLoop timed_out (thread x) (object x) with
  | (Ok (Some t), σ) => mkSystem t (stop_pending x) σ
  | _ => x
  end.
Definition abc_waiting : system (W := script) :=
  thread_moves true (thread_moves true (thread_moves true abc_started)).

Lemma thread_moves_step timed_out {W : Type} `{World W} (x : system (W := W)) :
  rtc running_step x (thread_moves timed_out x).
Proof.
  destruct x as [t pending σ]. unfold thread_moves. cbn [thread object stop_pending].
  destruct (BackgroundLoop timed_out t σ) as [[[t'|]|] σ'] eqn:E; [|apply rtc_refl..].
  apply rtc_once. by eapply sys_thread.
Qed.
Lemma start_run {W : Type} `{World W} (σ : AlternatorLiveNodes * W) :
  background_started_ σ.1 = false →
  rtc running_step (mkSystem NoThread false σ) (mkSystem Entry false (Start σ.1, σ.2)).
Proof. destruct σ. intros. apply rtc_once. by apply sys_Start. Qed.
Lemma running_system {W : Type} `{World W} (x y : system (W := W)) :
  rtc running_step x y → rtc system_step x y.
Proof. apply rtc_subrel. intros ? ?. apply sys_running. Qed.
Lemma abc_waiting_run : rtc running_step abc_system abc_waiting.
Proof.
  etrans; [|apply thread_moves_step]. etrans; [|apply thread_moves_step].
  etrans; [|apply thread_moves_step]. eapply rtc_l; [by apply sys_client, step_NextNode|].
  apply start_run. by vm_compute.
Qed.
Lemma abc_waiting_reachable : reachable ["a"; "b"; "c"] default_config abc_world abc_waiting.
Proof.
  exists abc, (made ["a"; "b"; "c"] default_config abc_world).2. split; [by vm_compute|].
  change (abc, _) with (made ["a"; "b"; "c"] default_config abc_world).
  apply running_system, abc_waiting_run.
Qed.

Lemma operation_keeps_invariant_witness :
  live_inv (object abc_waiting).1 ∧
  (background_started_ (object abc_waiting).1 = false ↔ thread abc_waiting = NoThread) ∧
  stopping_ (object abc_waiting).1 = stop_pending abc_waiting ∧
  (thread abc_waiting = Finished → stop_pending abc_waiting = true).
Proof.
  apply (operation_keeps_invariant ["a"; "b"; "c"] default_config abc_world).
  - apply default_health_u32.
  - apply abc_waiting_reachable.
Defined.

(** As long as hosts carry no brackets, in the initial list and in every
    reply, the health store holds exactly the live nodes after every
    interleaving of client calls and background refreshes. *)
Theorem health_store_tracks_live_nodes {W : Type} `{World W} initial config (w : W) x :
  (∀ url (w w' : W) resp hosts,
    http_get url w = (HttpReply resp, w') → status_code resp = 200 →
    ParseJsonStringArray (body resp) = Ok hosts → Forall plain_host hosts) →
  health_config_u32 (node_health config) → Forall plain_host initial →
  reachable initial config w x →
  ∀ u, stored (health_store_ (object x).1) u ↔ u ∈ live_nodes_ (object x).1.
Proof. intros Hp Hu Hi Hr. by apply (reachable_clean Hp initial config w x). Qed.

Lemma health_store_tracks_live_nodes_witness :
  let x := mkSystem NoThread false (UpdateLiveNodes answered).2 in
  live_nodes_ (object x).1 = three_nodes ∧
  ∀ u, stored (health_store_ (object x).1) u ↔ u ∈ live_nodes_ (object x).1.
Proof.
  intros x. split; [by vm_compute|].
  apply (health_store_tracks_live_nodes ["a"] default_config (mkAnswering 0) x).
  - apply answering_plain.
  - apply default_health_u32.
  - by apply (bool_decide_unpack _).
  - exists answered.1, answered.2. split; [apply answered_made|].
    apply rtc_once, sys_running, sys_client, (step_UpdateLiveNodes answered).
Defined.

(** C15. A refresh that discovers nodes installs exactly them: it does not
    throw, the live list becomes the sorted discovered list, the health store
    holds exactly the discovered nodes.  The store must hold exactly the live
    nodes before ([tracks], which a refresh keeps), and the hosts of the live and
    the discovered nodes must not be empty or carry brackets ([node_url]): with
    brackets the refresh can lose a node, as [bracketed_host_loses_its_node]
    shows. *)
Theorem refresh_installs_discovered {W : Type} `{World W} s (w : W) new_nodes s1 w1 :
  live_inv s → tracks s → FetchLiveNodes (s, w) = (Ok new_nodes, (s1, w1)) → new_nodes ≠ [] →
  Forall node_url (live_nodes_ s ++ new_nodes) →
  ∃ s2 w2, UpdateLiveNodes (s, w) = (Ok tt, (s2, w2)) ∧
    live_nodes_ s2 = SortAndDedupeNodes new_nodes ∧
    (∀ u, stored (health_store_ s2) u ↔ u ∈ new_nodes).
Proof.
  intros Hs Ht E Hne Hn.
  destruct (UpdateLiveNodes_run s w new_nodes s1 w1) as (s2 & w2 & -> & _ & Ht2 & Hl); try done.
  { by apply key_inj_nodes. }
  exists s2, w2. split_and!; [done|done|]. intros u. rewrite (Ht2 u), Hl.
  apply elem_of_SortAndDedupe.
Qed.

Lemma refresh_installs_discovered_witness :
  ∃ s2 w2, UpdateLiveNodes answered = (Ok tt, (s2, w2)) ∧
    live_nodes_ s2 = SortAndDedupeNodes three_nodes ∧
    (∀ u, stored (health_store_ s2) u ↔ u ∈ three_nodes).
Proof.
  destruct (FetchLiveNodes answered) as [r [s1 w1]] eqn:E.
  assert (r = Ok three_nodes) as ->.
  { change r with (r, (s1, w1)).1. rewrite <-E. by vm_compute. }
  assert (clean answered.1) as (Hs & Ht & Hn).
  { apply (clean_make ["a"] default_config (mkAnswering 0) answered.1 answered.2);
      [apply default_health_u32| |apply answered_made].
    by apply (bool_decide_unpack _). }
  apply (refresh_installs_discovered answered.1 answered.2 three_nodes s1 w1).
  - exact Hs.
  - exact Ht.
  - exact E.
  - done.
  - apply Forall_app_2; [exact Hn|apply three_nodes_url].
Defined.

(** ** Query plans *)

(** C18. Draining any query plan, whatever its seed, order mode and preferred
    nodes, ends and yields every candidate node exactly as often as it was
    given, for candidates with non-empty hosts and fewer than 2^31 of them. *)
Theorem plan_yields_every_node nodes seed deterministic sorted preferred :
  nonempty_nodes nodes → Z.of_nat (length nodes) < 2 ^ 31 →
  ∃ l, DrainPlan (QueryPlan_init nodes seed deterministic sorted preferred) = Ok l ∧ l ≡ₚ nodes.
Proof. intros. by apply (DrainPlan_perm (QueryPlan_init nodes seed deterministic sorted preferred)). Qed.

Lemma plan_yields_every_node_witness :
  ∃ l, DrainPlan (QueryPlan_init three_nodes 42 false true [node "c"]) = Ok l ∧ l ≡ₚ three_nodes.
Proof.
  apply (plan_yields_every_node three_nodes 42 false true [node "c"]).
  - apply three_nodes_usable.
  - by vm_compute.
Defined.

(** A sorted seeded plan is canonical: listing the same nodes in another
    order, gives the same sequence and the same first node. *)
Theorem seeded_order_is_canonical nodes1 nodes2 seed :
  Forall node_url nodes1 → nodes1 ≡ₚ nodes2 →
  DrainPlan (WithSortedSeed nodes1 seed) = DrainPlan (WithSortedSeed nodes2 seed) ∧
  FirstNodeWithSeed nodes1 seed = FirstNodeWithSeed nodes2 seed.
Proof.
  intros Hn Hp. split; [by apply WithSortedSeed_perm; [apply key_inj_nodes|]|].
  unfold FirstNodeWithSeed. by rewrite (SortAndDedupe_set_eq nodes1 nodes2) by (done || by intros; rewrite Hp).
Qed.

Lemma seeded_order_is_canonical_witness :
  DrainPlan (WithSortedSeed three_nodes (-7)) =
  DrainPlan (WithSortedSeed [node "b"; node "c"; node "a"] (-7)) ∧
  FirstNodeWithSeed three_nodes (-7) = FirstNodeWithSeed [node "b"; node "c"; node "a"] (-7).
Proof.
  apply (seeded_order_is_canonical three_nodes [node "b"; node "c"; node "a"] (-7)).
  - apply three_nodes_url.
  - unfold three_nodes. solve_Permutation.
Defined.

(** [FirstNodeWithSeed], which never builds a plan, returns the node that a
    sorted seeded plan over the de-duplicated nodes starts with. *)
Theorem first_node_is_plan_head nodes seed :
  is_i64 seed → Forall node_url nodes → nodes ≠ [] → Z.of_nat (length nodes) < 2 ^ 31 →
  ∃ u l, FirstNodeWithSeed nodes seed = Ok u ∧
    DrainPlan (WithSortedSeed (SortAndDedupeNodes nodes) seed) = Ok (u :: l).
Proof.
  intros Hs Hn Hne Hl. pose proof (key_inj_nodes nodes Hn) as Hi.
  pose proof (SortAndDedupe_length nodes) as Hlen.
  destruct (FirstNodeWithSeed_elem nodes seed Hne) as (u & E & Hu); [lia|].
  assert (∀ v, v ∈ nodes → Url_Empty v = false) as Hempty.
  { rewrite Forall_forall in Hn. intros v Hv. destruct (Hn v Hv) as (_ & [Hh _] & _).
    by apply bool_decide_eq_false_2. }
  destruct (DrainPlan_perm (WithSortedSeed (SortAndDedupeNodes nodes) seed)) as (l & Ed & _).
  { done. }
  { simpl. lia. }
  { apply Forall_forall. intros v. simpl. rewrite elem_of_SortAndDedupe. apply Hempty. }
  pose proof (FirstNodeWithSeed_Next nodes seed Hs Hi) as En. rewrite E in En.
  destruct (QueryPlan_Next _) as [r p'] eqn:Eq. simpl in En. subst r.
  pose proof (DrainPlan_head _ _ _ Eq (Hempty u Hu) l Ed) as Hh.
  destruct l as [|v l]; simplify_eq/=. by exists u, l.
Qed.

Lemma first_node_is_plan_head_witness :
  ∃ u l, FirstNodeWithSeed three_nodes 12345 = Ok u ∧
    DrainPlan (WithSortedSeed (SortAndDedupeNodes three_nodes) 12345) = Ok (u :: l).
Proof.
  apply (first_node_is_plan_head three_nodes 12345).
  - ranges.
  - apply three_nodes_url.
  - done.
  - by vm_compute.
Defined.

(** A plan with preferred nodes serves the preferred nodes that are
    candidates in the order of preference, skipping the others, and then the
    remaining candidates in order of their URLs. *)
Theorem preferred_plan_order nodes preferred :
  NoDup nodes → NoDup preferred → nonempty_nodes nodes →
  DrainPlan (WithPreferredNodes nodes preferred) =
  Ok (filter (λ u, u ∈ nodes) preferred ++ filter (λ u, u ∉ preferred) (sort_urls nodes)).
Proof.
  intros. rewrite DrainPlan_preferred by done. unfold preferred_order. do 2 f_equal.
  apply list_filter_iff. intros u. by rewrite elem_of_sort_urls.
Qed.

Lemma preferred_plan_order_witness :
  DrainPlan (WithPreferredNodes three_nodes [node "z"; node "c"]) =
  Ok [node "c"; node "a"; node "b"].
Proof.
  rewrite (preferred_plan_order three_nodes [node "z"; node "c"]).
  - by vm_compute.
  - apply three_nodes_NoDup.
  - by apply (bool_decide_unpack _).
  - apply three_nodes_usable.
Defined.

(** ** Node selection *)

(** The cluster a, b, c with b down, and with b back in quarantine. *)
Definition abc_b_down : AlternatorLiveNodes :=
  set_health (Store_ReportNodeResult 5 (node "b") ConnectionFailure (health_store_ abc)) abc.
Definition abc_b_quarantined : AlternatorLiveNodes :=
  set_health (Store_ReportNodeResult 6 (node "b") Success (health_store_ abc_b_down)) abc_b_down.

Lemma abc_b_down_inv : live_inv abc_b_down.
Proof. apply (st_report _ live_inv_stable), abc_inv. Qed.
Lemma abc_b_quarantined_inv : live_inv abc_b_quarantined.
Proof. apply (st_report _ live_inv_stable), abc_b_down_inv. Qed.
Lemma abc_b_quarantined_usable : usable_nodes (GetActiveNodes abc_b_quarantined).
Proof.
  assert (GetActiveNodes abc_b_quarantined = [node "a"; node "c"]) as -> by by vm_compute.
  split; [by repeat constructor|simpl; lia].
Qed.

(** C26. A hash that has no quarantined node yet gets the one whose turn it is,
    in every [quarantine_traffic_interval]th attempt (in each one while no node
    is active), exactly if that node comes first in the seeded order of the
    active nodes with it added; and it is sticky: however often the hash asks
    again in the state left behind, it gets the same node and nothing changes.
    In the other cases it gets none. *)
Theorem quarantined_node_is_sticky hash s :
  live_inv s → usable_nodes (GetActiveNodes s) → GetQuarantinedNodes s ≠ [] →
  nonempty_nodes (GetQuarantinedNodes s) → quarantine_by_hash_ s !! hash = None →
  let active := SortAndDedupeNodes (GetActiveNodes s) in
  let u := pick_round_robin (GetQuarantinedNodes s) (quarantine_node_index_ s) in
  let chosen := sampled s active ∧ FirstNodeWithSeed (active ++ [u]) hash = Ok u in
  u ∈ GetQuarantinedNodes s ∧
  (chosen → ∃ s', StickyQuarantinedNodeForHash hash active s = (Ok u, s') ∧
     ∀ n, repeat_m n (StickyQuarantinedNodeForHash hash active) s' = (Ok (replicate n u), s')) ∧
  (¬ chosen → (StickyQuarantinedNodeForHash hash active s).1 = Ok Url_default).
Proof.
  intros Hs [_ Hl] Hq Hn Ha active u chosen.
  pose proof (SortAndDedupe_length (GetActiveNodes s)) as Hlen.
  assert (Z.of_nat (length active) + 1 < 2 ^ 31) as Hl' by (unfold active; lia).
  assert (u ∈ GetQuarantinedNodes s) as Hu by (by apply pick_round_robin_elem).
  destruct (choose_cases hash active s Hl' Hq) as [Hy Hno].
  split_and!; [done| |by rewrite Sticky_unassigned].
  intros Hc. specialize (Hy Hc). rewrite <-(Sticky_unassigned hash active s Ha) in Hy.
  destruct (Sticky_run hash active s Hl') as (v & s' & E & _ & Ho). rewrite E in *.
  injection Hy as ->. exists s'. split; [done|]. destruct Ho as [Eu|Ho].
  - unfold nonempty_nodes in Hn. rewrite Forall_forall in Hn. specialize (Hn u Hu).
    fold u in Eu. by rewrite Eu in Hn.
  - intros n. apply repeat_fixed. by apply Sticky_assigned.
Qed.

(** The tenth attempt. *)
Definition plans_made (n : nat) (s : AlternatorLiveNodes) : AlternatorLiveNodes :=
  Nat.iter n (λ s, (GetQueryPlanNodes s).2) s.
Definition abc_tenth : AlternatorLiveNodes := plans_made 9 abc_b_quarantined.
Lemma plans_made_inv n s : live_inv s → live_inv (plans_made n s).
Proof.
  intros Hs. induction n as [|n IH]; [done|]. unfold plans_made. rewrite Nat.iter_succ.
  by apply (st_GetQueryPlanNodes _ live_inv_stable).
Qed.

Lemma quarantined_node_is_sticky_witness :
  let active := SortAndDedupeNodes (GetActiveNodes abc_tenth) in
  ∃ s', StickyQuarantinedNodeForHash 3 active abc_tenth = (Ok (node "b"), s') ∧
    ∀ n, repeat_m n (StickyQuarantinedNodeForHash 3 active) s' = (Ok (replicate n (node "b")), s').
Proof.
  assert (GetActiveNodes abc_tenth = [node "a"; node "c"]) as Ea by by vm_compute.
  assert (GetQuarantinedNodes abc_tenth = [node "b"]) as Eq by by vm_compute.
  assert (pick_round_robin (GetQuarantinedNodes abc_tenth) (quarantine_node_index_ abc_tenth) = node "b")
    as Ep by by vm_compute.
  rewrite <-Ep. refine (proj1 (proj2 (quarantined_node_is_sticky 3 abc_tenth _ _ _ _ _)) _).
  - apply plans_made_inv, abc_b_quarantined_inv.
  - rewrite Ea. split; [by repeat constructor|simpl; lia].
  - by rewrite Eq.
  - rewrite Eq. by repeat constructor.
  - by vm_compute.
  - split; [right; by vm_compute|]. by vm_compute.
Defined.

(** While no node is quarantined, as many consecutive calls of [NextNode]
    as there are active nodes return every active node exactly once, wherever
    the counter starts (short of wrapping around 2^64). *)
Theorem next_node_is_fair {W : Type} `{World W} s (w : W) :
  live_inv s → GetActiveNodes s ≠ [] → GetQuarantinedNodes s = [] →
  next_node_index_ s + Z.of_nat (length (GetActiveNodes s)) <= 2 ^ 64 →
  ∃ l σ, repeat_m (length (GetActiveNodes s)) NextNode (s, w) = (Ok l, σ) ∧
    l ≡ₚ GetActiveNodes s.
Proof.
  intros Hs Hne Hq Hw. destruct (li_indices s Hs) as (Hi & _).
  destruct (repeat_NextNode_run (length (GetActiveNodes s)) s (GetActiveNodes s) w) as [σ ->];
    [done|done|done|].
  eexists _, σ. split; [done|]. rewrite picks_rotate by (done || ranges). apply rotate_perm.
Qed.

Lemma next_node_is_fair_witness :
  ∃ l σ, repeat_m (length (GetActiveNodes abc)) NextNode (abc, abc_world) = (Ok l, σ) ∧
    l ≡ₚ GetActiveNodes abc.
Proof.
  apply (next_node_is_fair abc abc_world).
  - apply abc_inv.
  - by vm_compute.
  - by vm_compute.
  - by vm_compute.
Defined.

(** C27. While both pools are populated, exactly one of any
    [quarantine_traffic_interval] consecutive query plans (each plan, for an
    interval of 0 or 1) holds the active nodes and one quarantined node, the
    others hold the active nodes only (short of the counter wrapping around
    2^64). *)
Theorem quarantine_gets_its_share s :
  live_inv s → GetActiveNodes s ≠ [] → GetQuarantinedNodes s ≠ [] →
  nonempty_nodes (GetQuarantinedNodes s) → 0 < traffic_interval s →
  quarantine_plan_index_ s + traffic_interval s < 2 ^ 64 →
  let n := Z.to_nat (traffic_interval s) in
  ∃ plans s' i q, repeat_m n (of_state GetQueryPlanNodes) s = (Ok plans, s') ∧
    (i < n)%nat ∧ q ∈ GetQuarantinedNodes s ∧ (q ∉ GetActiveNodes s) ∧
    plans = <[i := SortAndDedupeNodes (GetActiveNodes s ++ [q])]>
              (replicate n (SortAndDedupeNodes (GetActiveNodes s))).
Proof.
  intros Hs Ha Hq Hn Hi Hw n.
  destruct (repeat_plans_run n s) as (plans & s' & E & F); [done|done|lia|].
  unfold n in F. rewrite Z2Nat.id in F by lia.
  destruct (one_sampled s plans Hi F) as (i & q & Hlt & Hel & Ep).
  exists plans, s', i, q. split_and!; [done|done|done| |done].
  intros Hact. by apply (active_not_quarantined (health_store_ s) q (li_store s Hs) Hact).
Qed.

Lemma quarantine_gets_its_share_witness :
  let s := abc_b_quarantined in
  let n := Z.to_nat (traffic_interval s) in
  n = 10%nat ∧
  ∃ plans s' i q, repeat_m n (of_state GetQueryPlanNodes) s = (Ok plans, s') ∧
    (i < n)%nat ∧ q ∈ GetQuarantinedNodes s ∧ (q ∉ GetActiveNodes s) ∧
    plans = <[i := SortAndDedupeNodes (GetActiveNodes s ++ [q])]>
              (replicate n (SortAndDedupeNodes (GetActiveNodes s))).
Proof.
  intros s n. split; [by vm_compute|]. refine (quarantine_gets_its_share abc_b_quarantined _ _ _ _ _ _).
  - apply abc_b_quarantined_inv.
  - by vm_compute.
  - by vm_compute.
  - assert (GetQuarantinedNodes abc_b_quarantined = [node "b"]) as -> by by vm_compute.
    by repeat constructor.
  - by vm_compute.
  - by vm_compute.
Defined.

(** Recording activity never postpones the next refresh, brings it to at
    most one active period away when active refreshing is enabled, and wakes
    the background thread exactly when it moved the refresh or the refresh was
    already due. *)
Theorem activity_advances_refresh now s :
  let '(notified, s') := MarkActivity_at now s in
  let period := nodes_list_update_period (config_ s) in
  last_activity_ s' = now ∧ next_update_ s' <= next_update_ s ∧
  (0 < period → next_update_ s' <= now + milliseconds period) ∧
  (notified = true ↔
   0 < period ∧ (next_update_ s' < next_update_ s ∨ next_update_ s <= now)).
Proof.
  unfold MarkActivity_at. destruct (Z.ltb_spec 0 (nodes_list_update_period (config_ s))).
  2:{ simpl. split_and!; [done|lia|lia|]. split; [done|lia]. }
  destruct (Z.ltb_spec (now + milliseconds (nodes_list_update_period (config_ s)))
    (next_update_ s)); simpl.
  - split_and!; [done|lia|lia|]. split; [|done]. intros _. split; [lia|by left].
  - split_and!; [done|lia|lia|]. rewrite Z.leb_le. lia.
Qed.

(** ** Node health *)

(** The active, quarantined and down nodes of a well-formed store are
    together its known nodes, no node twice, and each pool is in URL order;
    with health tracking disabled every known node is active. *)
Theorem pools_partition_known_nodes s :
  wf_store s →
  Store_GetActiveNodes s ++ Store_GetQuarantinedNodes s ++ Store_GetDownNodes s ≡ₚ known_nodes s ∧
  NoDup (known_nodes s) ∧
  sorted_nodes (Store_GetActiveNodes s) ∧ sorted_nodes (Store_GetQuarantinedNodes s) ∧
  sorted_nodes (Store_GetDownNodes s) ∧
  (disabled (health_config s) = true → Store_GetActiveNodes s ≡ₚ known_nodes s).
Proof.
  intros Hs. split_and!.
  - apply pools_partition.
  - by apply known_nodes_NoDup.
  - apply active_sorted.
  - unfold Store_GetQuarantinedNodes. case_match; [constructor|apply sort_urls_sorted].
  - unfold Store_GetDownNodes. case_match; [constructor|apply sort_urls_sorted].
  - intros Hd. unfold Store_GetActiveNodes. rewrite Hd. apply key_sort_perm.
Qed.

Lemma pools_partition_known_nodes_witness :
  let s := health_store_ abc_b_down in
  Store_GetActiveNodes s ++ Store_GetQuarantinedNodes s ++ Store_GetDownNodes s ≡ₚ known_nodes s ∧
  NoDup (known_nodes s) ∧
  sorted_nodes (Store_GetActiveNodes s) ∧ sorted_nodes (Store_GetQuarantinedNodes s) ∧
  sorted_nodes (Store_GetDownNodes s) ∧
  (disabled (health_config s) = true → Store_GetActiveNodes s ≡ₚ known_nodes s).
Proof. apply (pools_partition_known_nodes (health_store_ abc_b_down)). apply abc_b_down_inv. Defined.

(** C28. A node added to the store leaves the active pool only if a connection
    failure was reported for it or [consecutive_server_error_threshold] server
    errors in a row; and either of the two, at the end of any history, leaves
    it down. *)
Theorem leaving_the_active_pool c now obs (ts : list Z) t :
  health_config_ok c →
  let fresh := mkStatus Active 0 (quarantine_success_threshold c) now in
  (state (run_observations c obs fresh) ≠ Active →
   ConnectionFailure ∈ obs.*2 ∨
   has_streak ServerError (consecutive_server_error_threshold c) obs) ∧
  state (run_observations c (obs ++ [(t, ConnectionFailure)]) fresh) = Down ∧
  (consecutive_server_error_threshold c <= Z.of_nat (length ts) →
   state (run_observations c (obs ++ map (λ t, (t, ServerError)) ts) fresh) = Down).
Proof.
  intros Hc fresh. split_and!.
  - destruct (stays_active c now obs Hc) as [[Ha _]|Ho]; [|done]. intros Hn. by destruct Hn.
  - by rewrite run_snoc.
  - intros Hl. unfold run_observations. rewrite foldl_app. apply streak_takes_down; [done| |done].
    by apply run_ok, fresh_status_ok.
Qed.

Lemma leaving_the_active_pool_witness :
  let c := default_health_config in
  let obs := [(1, ServerError); (2, Success); (3, ServerError); (4, ServerError)] in
  let fresh := mkStatus Active 0 (quarantine_success_threshold c) 0 in
  (state (run_observations c obs fresh) ≠ Active →
   ConnectionFailure ∈ obs.*2 ∨
   has_streak ServerError (consecutive_server_error_threshold c) obs) ∧
  state (run_observations c (obs ++ [(5, ConnectionFailure)]) fresh) = Down ∧
  (consecutive_server_error_threshold c <= Z.of_nat (length [5; 6; 7]) →
   state (run_observations c (obs ++ map (λ t, (t, ServerError)) [5; 6; 7]) fresh) = Down).
Proof.
  apply (leaving_the_active_pool default_health_config 0
    [(1, ServerError); (2, Success); (3, ServerError); (4, ServerError)] [5; 6; 7] 5).
  unfold health_config_ok. simpl. lia.
Defined.

(** A down node never becomes active without
    [quarantine_success_threshold] successes in a row, whatever else is
    reported in between. *)
Theorem promotion_needs_a_streak c st obs :
  health_config_ok c → status_ok c st → state st = Down →
  state (run_observations c obs st) = Active →
  has_streak Success (quarantine_success_threshold c) obs.
Proof.
  intros Hc Hok Hd Ha. destruct (promotion_streak c obs st Hc Hok Hd) as [E|[[E _]|Hs]];
    [congruence|congruence|done].
Qed.

Lemma promotion_needs_a_streak_witness :
  has_streak Success 3
    [(1, Success); (2, ServerError); (3, Success); (4, Success); (5, Success)].
Proof.
  apply (promotion_needs_a_streak default_health_config (mkStatus Down 3 0 0)).
  - unfold health_config_ok. simpl. lia.
  - unfold status_ok. simpl. ranges.
  - done.
  - by vm_compute.
Defined.

(** C29. The promotion schedule of a down node that only succeeds: quarantined
    from the first success on, active from success number
    [max 2 quarantine_success_threshold] on, so that a threshold of 1 acts like
    a threshold of 2. *)
Theorem recovery_takes_two_successes c (ts : list Z) st :
  health_config_ok c → status_ok c st → state st = Down →
  let n := Z.of_nat (length ts) in
  state (run_observations c (map (λ t, (t, Success)) ts) st) =
  if n =? 0 then Down
  else if n <? Z.max 2 (quarantine_success_threshold c) then Quarantined else Active.
Proof.
  intros Hc Hok Hd n. pose proof (recovery_schedule c ts st Hc Hok Hd) as Hr.
  cbv zeta in Hr. fold n in Hr. revert Hr.
  destruct (state (run_observations _ _ _)); intros Hr; destruct (Z.eqb_spec n 0);
    destruct (Z.ltb_spec n (Z.max 2 (quarantine_success_threshold c))); done || lia.
Qed.

Lemma recovery_takes_two_successes_witness :
  let c := mkHealthConfig 3 1 30000 10 false in
  state (run_observations c (map (λ t, (t, Success)) [1]) (mkStatus Down 3 0 0)) = Quarantined.
Proof.
  apply (recovery_takes_two_successes (mkHealthConfig 3 1 30000 10 false) [1] (mkStatus Down 3 0 0)).
  - unfold health_config_ok. simpl. lia.
  - unfold status_ok. simpl. ranges.
  - done.
Defined.

(** Probing visits every down node: a probe that never throws makes
    [ProbeDownNodes] return the nodes that answered with success, which are
    then quarantined, while the other down nodes stay down and the status of
    every node that was not down is untouched. *)
Theorem probing_moves_responsive_nodes {W : Type} `{World W} probe s (w : W) :
  wf_store s → disabled (health_config s) = false →
  (∀ n st w, ∃ o w', probe n st w = (Ok o, w')) →
  ∃ responsive s' w',
    Store_ProbeDownNodes (Some probe) (s, w) = (Ok responsive, (s', w')) ∧
    responsive ⊆ Store_GetDownNodes s ∧
    (∀ u, u ∈ Store_GetDownNodes s →
      state_of u s' = Some (if bool_decide (u ∈ responsive) then Quarantined else Down)) ∧
    (∀ u, u ∈ known_nodes s → u ∉ Store_GetDownNodes s →
      GetNodeStatus u s' = GetNodeStatus u s).
Proof.
  intros Hs Hd Hp.
  destruct (ProbeDownNodes_returns probe s w Hp) as (r & s' & w' & E).
  pose proof (ProbeDownNodes_spec probe s w Hs Hd) as Hsp. rewrite E in Hsp.
  destruct Hsp as (_ & Hsub & Hout & Hin). exists r, s', w'. split_and!; [done|done|done|].
  intros u Hk Hn. apply Hout. intros Hx. apply list_elem_of_fmap in Hx as (v & Ev & Hv).
  apply Hn. rewrite (known_nodes_key_inj s Hs u v Hk); [done| |done]. by apply down_known.
Qed.

Lemma probing_moves_responsive_nodes_witness :
  ∃ responsive s' w',
    Store_ProbeDownNodes (Some localnodes_probe) (health_store_ abc_b_down, abc_world) =
      (Ok responsive, (s', w')) ∧
    responsive ⊆ Store_GetDownNodes (health_store_ abc_b_down) ∧
    (∀ u, u ∈ Store_GetDownNodes (health_store_ abc_b_down) →
      state_of u s' = Some (if bool_decide (u ∈ responsive) then Quarantined else Down)) ∧
    (∀ u, u ∈ known_nodes (health_store_ abc_b_down) →
      u ∉ Store_GetDownNodes (health_store_ abc_b_down) →
      GetNodeStatus u s' = GetNodeStatus u (health_store_ abc_b_down)).
Proof.
  apply (probing_moves_responsive_nodes localnodes_probe (health_store_ abc_b_down) abc_world).
  - apply abc_b_down_inv.
  - by vm_compute.
  - apply localnodes_probe_returns.
Defined.

(** ** Discovery *)

(** C30. The [/localnodes] parser accepts exactly the JSON arrays of strings of
    the grammar [js_array] (white space between tokens, eight escapes), with
    the strings they denote; every other body is refused. *)
Theorem localnodes_parser_is_the_grammar body l :
  ParseJsonStringArray body = Ok l ↔ js_array body l.
Proof. apply parse_iff_grammar. Qed.

(** Discovery invents nothing: every node [FetchLiveNodes] returns has the
    configured scheme and port, no path or query, and a host named by the JSON
    body of some 200 reply; [reported] stands for any property all such hosts
    have. *)
Theorem discovered_nodes_were_reported {W : Type} `{World W} (reported : string → Prop)
    s (w : W) l σ :
  (∀ url (w w' : W) resp hosts,
    http_get url w = (HttpReply resp, w') → status_code resp = 200 →
    ParseJsonStringArray (body resp) = Ok hosts → Forall reported hosts) →
  live_inv s → FetchLiveNodes (s, w) = (Ok l, σ) →
  Forall (λ u, ∃ host, reported host ∧
    u = Url_make (scheme (config_ s)) host (port (config_ s))) l.
Proof.
  intros Hr Hs E.
  pose proof (finds_FetchLiveNodes reported Hr (config_ s) (s, w) (conj Hs eq_refl)) as Hf.
  rewrite E in Hf. apply Hf.
Qed.

Lemma discovered_nodes_were_reported_witness :
  Forall (λ u, ∃ host, plain_host host ∧
    u = Url_make (scheme (config_ answered.1)) host (port (config_ answered.1))) three_nodes.
Proof.
  apply (discovered_nodes_were_reported plain_host answered.1 answered.2 three_nodes
    (FetchLiveNodes answered).2).
  - apply answering_plain.
  - apply (inv_make ["a"] default_config (mkAnswering 0) answered.1 answered.2);
      [apply default_health_u32|apply answered_made].
  - by vm_compute.
Defined.

(** The loop over discovery nodes ends by itself: granting it more turns
    than one per candidate node changes neither what it returns nor what it
    does, whatever the replies. *)
Theorem discovery_loop_ends {W : Type} `{World W} extra scope clock nodes discovered error
    (σ : AlternatorLiveNodes * W) :
  discovery_loop (S (length nodes) + extra) scope (QueryPlan_make clock nodes) discovered error σ =
  discovery_loop (S (length nodes)) scope (QueryPlan_make clock nodes) discovered error σ.
Proof. apply discovery_loop_fuel; simpl; lia. Qed.

(** A server that is known as [::1] in brackets and reports itself without. *)
Definition v6_world : script :=
  mkScript 0 [("http://[::1]:8080/localnodes",
               HttpReply (mkResponse 200 ("[" +:+ quoted "::1" +:+ "]")))] [].

(** C31. A bracketed IPv6 host in the live list (from the initial nodes, say) is
    lost by the first refresh that finds it under its plain name, whatever the
    other nodes: the refresh adds nothing for it (the two URLs print alike) and
    then removes the entry (they differ as values), so that the node is in the
    live list, but neither active nor quarantined nor down.  If it is the only
    node, [NextNode] returns an empty URL. *)
Theorem bracketed_host_loses_its_node {W : Type} `{World W} s (w : W) host new_nodes s1 w1 :
  live_inv s → tracks s → string_has ":" host = true → plain_host host →
  let bracketed := Url_make (scheme (config_ s)) ("[" +:+ host +:+ "]") (port (config_ s)) in
  let plain := Url_make (scheme (config_ s)) host (port (config_ s)) in
  FetchLiveNodes (s, w) = (Ok new_nodes, (s1, w1)) →
  bracketed ∈ live_nodes_ s → bracketed ∉ new_nodes → plain ∈ new_nodes →
  ∃ s2 w2, UpdateLiveNodes (s, w) = (Ok tt, (s2, w2)) ∧
    plain ∈ live_nodes_ s2 ∧ forgotten s2 plain ∧ forgotten s2 bracketed ∧
    (live_nodes_ s = [bracketed] → new_nodes = [plain] →
     GetActiveNodes s2 = [] ∧ (NextNode (s2, w2)).1 = Ok Url_default).
Proof.
  intros Hs Ht Hc (Hne & Hb & _) bracketed plain E Hl Hnb Hp.
  assert (Url_ToString bracketed = Url_ToString plain) as Ep.
  { apply bracketed_prints; [done| |done]. destruct host as [|c host]; [done|].
    cbn [string_has string_front_is] in *. by apply orb_false_iff in Hb as [-> _]. }
  destruct (UpdateLiveNodes_sub s w new_nodes s1 w1 Hs Ht E) as (s2 & w2 & E2 & Hs2 & Hl2 & Hsub);
    [by intros ->; apply not_elem_of_nil in Hp|].
  assert (∀ u, Url_ToString u = Url_ToString bracketed → ¬ stored (health_store_ s2) u) as Hn.
  { intros u Eu Hu. apply Hsub in Hu as [_ Hu]. by apply (Hu bracketed). }
  exists s2, w2. split_and!; [done| |apply not_stored_forgotten; auto..|].
  - rewrite Hl2. by apply elem_of_SortAndDedupe.
  - intros El En. assert (∀ u, ¬ stored (health_store_ s2) u) as Hnone.
    { intros u Hu. apply (Hn u); [|done]. apply Hsub in Hu as [Hin _]. rewrite El, En in Hin.
      apply elem_of_cons in Hin as [->|Hin]; [done|]. by apply list_elem_of_singleton in Hin as ->. }
    split; [|by apply NextNode_none].
    apply (forgotten_all s2). intros u. by apply not_stored_forgotten.
Qed.

Definition v6_made : AlternatorLiveNodes * script := made ["[::1]"] default_config v6_world.
Lemma bracketed_host_loses_its_node_witness :
  ∃ s2 w2, UpdateLiveNodes v6_made = (Ok tt, (s2, w2)) ∧
    node "::1" ∈ live_nodes_ s2 ∧ GetActiveNodes s2 = [] ∧ (NextNode (s2, w2)).1 = Ok Url_default.
Proof.
  assert (live_nodes_ v6_made.1 = [node "[::1]"]) as El by by vm_compute.
  assert ((FetchLiveNodes v6_made).1 = Ok [node "::1"]) as Ef by by vm_compute.
  destruct (FetchLiveNodes v6_made) as [r [s1 w1]] eqn:E. simpl in Ef. subst r.
  destruct (bracketed_host_loses_its_node v6_made.1 v6_made.2 "::1" [node "::1"] s1 w1)
    as (s2 & w2 & E2 & Hl & _ & _ & Hsole).
  - apply (inv_make ["[::1]"] default_config v6_world v6_made.1 v6_made.2);
      [apply default_health_u32|by vm_compute].
  - intros u. rewrite El, list_elem_of_singleton. split.
    + intros [st Hst].
      assert (statuses_ (health_store_ v6_made.1) =
        {[ "http://[::1]:8080" := (node "[::1]", mkStatus Active 0 3 0) ]}) as Es by by vm_compute.
      rewrite Es in Hst. apply lookup_singleton_Some in Hst as [_ Hst].
      exact (eq_sym (f_equal fst Hst)).
    + intros ->. exists (mkStatus Active 0 3 0). by vm_compute.
  - done.
  - by apply (bool_decide_unpack _).
  - exact E.
  - rewrite El. by left.
  - by apply (bool_decide_unpack _).
  - by left.
  - destruct Hsole as [Ha Hn]; [vm_compute; exact eq_refl|vm_compute; exact eq_refl|].
    exists s2, w2. split_and!; [exact E2|exact Hl|exact Ha|exact Hn].
Defined.

(** ** The background thread *)

(** [Stop] ends: once it has raised its flag, the thread takes at most two
    more steps, whatever clients do in between and however its waits return,
    and until it has finished it can always take one, without throwing; so the
    join returns. *)
Theorem stop_is_prompt {W : Type} `{World W} initial config (w : W) x n y :
  health_config_u32 (node_health config) → reachable initial config w x →
  stop_pending x = true → stopping_run n x y →
  (n <= 2)%nat ∧
  (thread y = Finished ∨
   ∀ timed_out, ∃ t' σ', BackgroundLoop timed_out (thread y) (object y) = (Ok (Some t'), σ')).
Proof.
  intros Hu Hr Hp Hs. pose proof (reachable_lifecycle initial config w x Hu Hr) as Hl.
  destruct (stopping_run_bound n x y Hl Hp Hs) as (Hly & Hpy & Hn).
  destruct (lc_pending x Hl Hp) as [_ Hd]. split.
  - assert (stop_rank (thread x) <= 2)%nat by (destruct (thread x) eqn:E; simpl; [lia..| |lia|lia|lia];
      by destruct (Hd next_down_probe wake_at)). lia.
  - destruct (decide (thread y = Finished)) as [|Hf]; [by left|]. right. intros timed_out.
    destruct (lc_flags y Hly) as (_ & Hst & _). rewrite Hpy in Hst.
    destruct (lc_pending y Hly Hpy) as [Hn' _].
    destruct (BackgroundLoop_stops timed_out (thread y) (object y) Hst Hn' Hf) as (t' & σ' & E & _).
    by exists t', σ'.
Qed.

Definition abc_stopping : system (W := script) :=
  mkSystem (thread abc_waiting) true (Stop_request (object abc_waiting).1, (object abc_waiting).2).
Lemma abc_stopping_reachable : reachable ["a"; "b"; "c"] default_config abc_world abc_stopping.
Proof.
  destruct abc_waiting_reachable as (s & w & E & Hr). exists s, w. split; [done|].
  eapply rtc_r; [exact Hr|]. unfold abc_stopping.
  assert (holds_background_mutex (thread abc_waiting) = false) as Hm by by vm_compute.
  assert (background_started_ (object abc_waiting).1 = true) as Hb by by vm_compute.
  assert (stop_pending abc_waiting = false) as Hp by by vm_compute.
  destruct abc_waiting as [t pending [s' w']]. simpl in *. subst. by apply sys_Stop_request.
Qed.

Lemma stop_is_prompt_witness :
  (0 <= 2)%nat ∧
  (thread abc_stopping = Finished ∨
   ∀ timed_out, ∃ t' σ', BackgroundLoop timed_out (thread abc_stopping) (object abc_stopping) =
     (Ok (Some t'), σ')).
Proof.
  apply (stop_is_prompt ["a"; "b"; "c"] default_config abc_world abc_stopping 0 abc_stopping).
  - apply default_health_u32.
  - apply abc_stopping_reachable.
  - done.
  - constructor.
Defined.

(** C33. A background thread that found neither a refresh scheduled nor probing
    enabled waits for [Stop] alone: no client call, whatever it schedules,
    makes it move again.  With idle refreshing and probing off, a thread
    started before the first request therefore never refreshes, although
    requests schedule refreshes and notify it. *)
Theorem activity_cannot_wake_thread {W : Type} `{World W} initial config (w : W) x y p :
  health_config_u32 (node_health config) → reachable initial config w x →
  stop_pending x = false → thread x = WaitingStop p → rtc running_step x y →
  thread y = WaitingStop p ∧
  ∀ timed_out, BackgroundLoop timed_out (thread y) (object y) = (Ok None, object y).
Proof.
  intros Hu Hr Hp Ht Hxy. pose proof (reachable_lifecycle initial config w x Hu Hr) as Hl.
  destruct (waiting_stop_runs x y p Hl Hp Ht Hxy) as (Hly & Hpy & Hty).
  split; [done|]. intros timed_out. destruct (lc_flags y Hly) as (_ & Hs & _).
  rewrite Hty. unfold BackgroundLoop, mbind, M_bind, gets, mret, M_ret. by rewrite Hs, Hpy.
Qed.

(** Refreshing after activity only, with the thread started first. *)
Definition active_only : Config := {|
  port := 8080; scheme := "http"; routing_scope := NewClusterScope;
  aws_region := "default-alb-region"; credentials := mkCredentials "" "";
  nodes_list_update_period := 1000; idle_nodes_list_update_period := 0;
  http_client_timeout := 0; connect_timeout := 1000;
  verify_ssl := true; ca_file := ""; client_certificate_file := "";
  client_private_key_file := "";
  tls_session_cache_enabled := true; tls_session_cache_size := 1024;
  tls_session_timeout := 86400;
  max_connections := 100; reuse_discovery_connections := true;
  request_compressor := None; content_encoding_decoders := [];
  user_agent := "scylladb-alternator-client-cpp/devel"; header_optimization := None;
  node_health := mkHealthConfig 3 3 0 10 false;
  key_route_affinity := mkAffinityConfig KRA_None ∅ 3 100;
|}.
Definition active_system : system (W := script) :=
  mkSystem NoThread false (made ["a"] active_only abc_world).
Definition active_waiting : system (W := script) :=
  let σ := object active_system in
  thread_moves true (thread_moves true (mkSystem Entry false (Start σ.1, σ.2))).
Definition active_requested : system (W := script) :=
  mkSystem (thread active_waiting) false (NextNode (object active_waiting)).2.

(** The request scheduled a refresh that has become due, and still the thread
    waits to be stopped. *)
Lemma activity_cannot_wake_thread_witness :
  (next_update_ (object active_requested).1 <= 1000 + 10 ^ 9 + 10) ∧
  (thread active_requested = WaitingStop 1002 ∧
   ∀ timed_out, BackgroundLoop timed_out (thread active_requested) (object active_requested) =
     (Ok None, object active_requested)).
Proof.
  split; [by vm_compute|].
  apply (activity_cannot_wake_thread ["a"] active_only abc_world active_waiting active_requested).
  - unfold health_config_u32. simpl. ranges.
  - exists (made ["a"] active_only abc_world).1, (made ["a"] active_only abc_world).2.
    split; [by vm_compute|]. apply running_system. rewrite <-surjective_pairing.
    etrans; [|apply thread_moves_step]. etrans; [|apply thread_moves_step].
    apply start_run. by vm_compute.
  - by vm_compute.
  - by vm_compute.
  - apply rtc_once. unfold active_requested.
    assert (active_waiting = mkSystem (thread active_waiting) false (object active_waiting)) as E
      by by vm_compute.
    rewrite E at 1. apply sys_client, step_NextNode.
Defined.
