(* ===== verification/ThreadProperties.v ===== *)
(** Properties of the live nodes under all interleavings of their threads'
    accesses (src/live_nodes.cpp, src/node_health.cpp), each with a concrete
    instance of its hypotheses. *)
From S2P Require Import Prelude Uri GoRandom Effects RoutingScope NodeHealth QueryPlan.
From S2P Require Import KeyRouteAffinity HttpCompression Config LocalNodesJson LiveNodes.
From S2P Require Import LiveNodesRefresh BackgroundThread Threads ThreadLogic LiveNodesThreads.
From S2P Require Import LiveNodesAlone LiveNodesProtocol RoutingProperties.

(** ** An object in use by several threads *)

(** [initial_nodes_] of an object made from these hosts. *)
Definition made_nodes (config : Config) (hosts : list string) : list Url :=
  SortAndDedupeNodes (map (λ node, Url_make (scheme config) node (port config)) hosts).

Abbreviation pool_of W config hosts :=
  (@pool (AlternatorLiveNodes * W) live_memory (live_service config (made_nodes config hosts))).

(** The pools that an object made from [hosts] gets to, whatever calls any
    number of threads make. *)
Definition in_use {W} `{World W} (hosts : list string) (config : Config) (w : W)
    (x : pool_of W config hosts) : Prop :=
  ∃ s w' callers, AlternatorLiveNodes_make hosts config w = (Ok s, w') ∧
    (∀ p, p ∈ callers → caller config (made_nodes config hosts) p) ∧
    rtc step (object_pool config (made_nodes config hosts) s w' callers) x.

Lemma make_members {W} `{World W} hosts config (w : W) s w' :
  AlternatorLiveNodes_make hosts config w = (Ok s, w') →
  valid_config config ∧ consts config (made_nodes config hosts) s ∧
  background_started_ s = false ∧ stopping_ s = false.
Proof.
  unfold AlternatorLiveNodes_make. destruct (ValidateConfig config) as [[]|] eqn:Ev; [|done].
  apply ValidateConfig_iff in Ev. case_bool_decide; [done|]. fold (made_nodes config hosts).
  assert (health_config (NodeHealthStore_make (node_health config) (made_nodes config hosts) w).1 =
    normalize_health_config (node_health config)) as Hc by apply config_add_nodes.
  destruct (NodeHealthStore_make _ _ _) as [h w1]. destruct (steady_now w1) as [now w2].
  intros E. simplify_eq. by split_and!.
Qed.

(** All of it is verified; [plain]: hosts carry no brackets. *)
Lemma in_use_verified {W} `{World W} hosts config (w : W) (x : pool_of W config hosts) plain :
  health_config_u32 (node_health config) →
  (plain → plain_world (W := W)) → (plain → Forall plain_host hosts) →
  in_use hosts config w x →
  @verified _ _ _ (live_protocol config (made_nodes config hosts) plain) x.
Proof.
  intros Hu Hpw Hph (s & w' & callers & Em & Hcs & Hr).
  destruct (make_members _ _ _ _ _ Em) as (Hv & Hc & Hb & Hs).
  apply (object_pool_verified config (made_nodes config hosts) plain Hpw Hv s w' callers); try done.
  - by eapply inv_make.
  - intros Hp. destruct (clean_make hosts config w s w' Hu (Hph Hp) Em) as (_ & ? & ?). done.
Qed.

(** ** What [Stop] waits for *)

Section stopping.
Context {W : Type} `{World W}.
Context (config : Config) (initial_nodes : list Url).
Abbreviation state := (AlternatorLiveNodes * W)%type.
#[local] Instance stopping_service : Service state := live_service config initial_nodes.

(** A step of a thread, possibly notified before, while [stopping_] is raised. *)
Definition stop_move (t t' : thread state) : Prop :=
  ∃ ts hd ch (σ : state) σ' ev, stopping_ σ.1 = true ∧
    (thread_step ts hd ch σ t = Some (t', σ', ev) ∨
     thread_step ts hd ch σ (notified t) = Some (t', σ', ev)).
Abbreviation ends := (Acc (λ t' t, stop_move t t')).

Lemma ends_awake fl p h :
  (∀ t' ts hd ch (σ σ' : state) ev, stopping_ σ.1 = true →
     thread_step ts hd ch σ (mkThread fl p h None) = Some (t', σ', ev) → ends t') →
  ends (mkThread fl p h None).
Proof.
  intros Hstep. constructor. intros t' (ts & hd & ch & σ & σ' & ev & Hs & [E|E]); by eapply Hstep.
Qed.
Ltac one_step :=
  let Hs := fresh "Hs" in let E := fresh "E" in
  intros ? ? ? ? ? ? ? Hs E; cbn in E; rewrite ?Hs in E; simplify_eq; clear Hs.

Lemma ends_exit fl h : ends (mkThread fl (Done (Ok Exit)) h None).
Proof. apply ends_awake. by one_step. Qed.
Lemma ends_head fl h ndp : ends (mkThread fl (p_background_turn config initial_nodes ndp) h None).
Proof.
  apply ends_awake. one_step. apply ends_awake. one_step. apply ends_exit.
Qed.
Lemma ends_wait_stop fl h ndp : ends (mkThread fl (p_background_wait ndp) h None).
Proof.
  apply ends_awake. one_step. apply ends_awake. one_step. apply ends_head.
Qed.

(** Whatever it is doing, a thread that must stop has finitely many steps left. *)
Lemma ends_asleep fl p h n :
  (∀ until k, p = Wait until k → ∀ b h, ends (mkThread fl (k b) h None)) →
  ends (mkThread fl p h (Some n)).
Proof.
  intros Hk.
  assert (∀ n' t' ts hd ch (σ σ' : state) ev,
    thread_step ts hd ch σ (mkThread fl p h (Some n')) = Some (t', σ', ev) → ends t') as Hstep.
  { intros n' t' ts hd ch σ σ' ev. unfold thread_step. cbn [asleep cur floor held].
    destruct p as [| | | |until k| | |]; try discriminate.
    destruct (lock_free ts cv_mutex); [|discriminate].
    destruct ch; [destruct n'|destruct until|]; try discriminate; intros [= <- _ _]; apply (Hk _ _ eq_refl). }
  constructor. intros t' (ts & hd & ch & σ & σ' & ev & Hs & [E|E]).
  - exact (Hstep _ _ _ _ _ _ _ _ E).
  - exact (Hstep true _ _ _ _ _ _ _ E).
Qed.
Lemma ends_always fl p h : ends (mkThread fl p h None).
Proof.
  revert h. induction p as [[[ndp|ndp|]|e]|g C F k IH|m k IH|m k IH|until k IH|k IH|k IH|k IH];
    intros h; apply ends_awake; intros t' ts hd ch σ σ' ev Hs;
    unfold thread_step; cbn [asleep cur floor held].
  - intros [= <- _ _]. apply ends_head.
  - intros [= <- _ _]. apply ends_wait_stop.
  - done.
  - done.
  - destruct (F _) as [b v]. intros [= <- _ _]. apply IH.
  - destruct (lock_free ts m); [|done]. intros [= <- _ _]. apply IH.
  - intros [= <- _ _]. apply IH.
  - intros [= <- _ _]. apply ends_asleep. intros until' k' [= <- <-]. apply IH.
  - intros [= <- _ _]. apply IH.
  - intros [= <- _ _]. apply IH.
  - destruct (joinable_done ts hd); [|done]. intros [= <- _ _]. apply IH.
Qed.
Lemma ends_any t : ends t.
Proof.
  destruct t as [fl p h [n|]]; [|apply ends_always]. apply ends_asleep. intros. apply ends_always.
Qed.

(** *** In the pool *)

(** A step of another thread than [b], or of the outside. *)
Inductive other_step (b : nat) : pool state → pool state → Prop :=
  | other_thread i ch x y : i ≠ b → pool_step i ch x = Some y → other_step b x y
  | other_env ts σ σ' h : env σ σ' → other_step b (mkPool ts (σ, h)) (mkPool ts (σ', h)).
(** A step of thread [b] while [stopping_] is raised, after steps of others. *)
Definition stop_run (b : nat) (x y : pool state) : Prop :=
  ∃ x1 ch, rtc (other_step b) x x1 ∧ stopping_ (mem x1).1.1 = true ∧ pool_step b ch x1 = Some y.

Lemma notified_twice (t : thread state) : notified (notified t) = notified t.
Proof. unfold notified. by destruct (asleep t) eqn:E; simpl; rewrite ?E. Qed.
Lemma other_step_thread b x y t :
  other_step b x y → threads x !! b = Some t →
  threads y !! b = Some t ∨ threads y !! b = Some (notified t).
Proof.
  intros [i ch x' y' Hib E|ts σ σ' h _] Hb; [|by left]. unfold pool_step in E.
  destruct (threads x' !! i) as [ti|]; [|done]. simpl in E.
  destruct (thread_step _ _ _ _ ti) as [[[t' s'] ev]|]; [|done]. simpl in E.
  assert (<[i := t']> (threads x') !! b = Some t) as Hb' by (by rewrite list_lookup_insert_ne).
  destruct ev.
  - injection E as <-. by left.
  - injection E as <-. right. simpl. by rewrite list_lookup_fmap, Hb'.
  - destruct (mem x').2; [done|]. injection E as <-. left. simpl. by apply lookup_app_l_Some.
  - injection E as <-. by left.
Qed.
Lemma other_steps_thread b x y t :
  rtc (other_step b) x y → threads x !! b = Some t →
  threads y !! b = Some t ∨ threads y !! b = Some (notified t).
Proof.
  intros Hr. revert t. induction Hr as [|x y z Hs _ IH]; intros t Hb; [by left|].
  destruct (other_step_thread b x y t Hs Hb) as [Hy|Hy]; [by apply IH|].
  destruct (IH _ Hy) as [|Hz]; [by right|]. right. by rewrite notified_twice in Hz.
Qed.
Lemma stop_run_move b x y t :
  stop_run b x y → threads x !! b = Some t → ∃ t', threads y !! b = Some t' ∧
    (stop_move t t' ∨ ∃ t0, stop_move t t0 ∧ t' = notified t0).
Proof.
  intros (x1 & ch & Hr & Hs & E) Hb. pose proof (other_steps_thread b x x1 t Hr Hb) as Hb1.
  unfold pool_step in E. destruct (threads x1 !! b) as [t1|] eqn:E1; [|done]. simpl in E.
  destruct (thread_step _ _ ch _ t1) as [[[t' s'] ev]|] eqn:Et; [|done]. simpl in E.
  assert (stop_move t t') as Hm.
  { eexists _, _, ch, _, s', ev. split; [exact Hs|]. destruct Hb1; simplify_eq; by eauto. }
  assert (<[b := t']> (threads x1) !! b = Some t') as Hb'.
  { apply list_lookup_insert_eq. by eapply lookup_lt_Some. }
  destruct ev.
  - injection E as <-. eauto.
  - injection E as <-. exists (notified t'). simpl. rewrite list_lookup_fmap, Hb'. eauto.
  - destruct (mem x1).2; [done|]. injection E as <-. exists t'. split; [|by left].
    simpl. by apply lookup_app_l_Some.
  - injection E as <-. eauto.
Qed.
Lemma stop_move_notified t t' : stop_move (notified t) t' → stop_move t t'.
Proof.
  intros (ts & hd & ch & σ & σ' & ev & Hs & E). rewrite notified_twice in E.
  exists ts, hd, ch, σ, σ', ev. split; [done|]. right. by destruct E.
Qed.
Lemma stop_run_ends b x t :
  threads x !! b = Some t → Acc (λ y x, stop_run b x y) x.
Proof.
  intros Hb. assert (threads x !! b = Some t ∨ threads x !! b = Some (notified t)) as Hb2 by (by left).
  clear Hb. revert x Hb2. induction (ends_any t) as [t _ IH]. intros x Hb. constructor. intros y Hy.
  assert (∃ t', stop_move t t' ∧ (threads y !! b = Some t' ∨ threads y !! b = Some (notified t')))
    as (t' & Hm & Hb').
  { destruct Hb as [Hb|Hb]; destruct (stop_run_move b x y _ Hy Hb) as (t' & Hb' & [Hm|(t0 & Hm & ->)]);
      eauto using stop_move_notified. }
  by eapply (IH t').
Qed.
End stopping.

(** ** Concrete runs *)

Abbreviation abc_state := (AlternatorLiveNodes * script)%type.
Definition abc_hosts : list string := ["a"; "b"; "c"].
#[local] Instance abc_service : Service abc_state :=
  live_service default_config (made_nodes default_config abc_hosts).

(** One caller starts and stops the thread, another asks for a node. *)
Definition start_then_stop : prog abc_state live_ctl :=
  pcont (with_lock (ControlMutex : mutex abc_state) p_Start) (λ _,
    pcont (with_lock (ControlMutex : mutex abc_state) p_Stop) (λ _, Done (Ok Exit))).
Definition ask_for_node : prog abc_state live_ctl :=
  pcont (p_NextNode default_config) (λ _, Done (Ok Exit)).
Definition abc_pool (callers : list (prog abc_state live_ctl)) : pool abc_state :=
  object_pool default_config (made_nodes default_config abc_hosts) abc
    (made abc_hosts default_config abc_world).2 callers.
(** Thread [i] goes [n] steps. *)
Definition goes (i n : nat) : list (nat * choice) := replicate n (i, Go).

Lemma abc_callers p :
  p ∈ [start_then_stop; ask_for_node] →
  caller default_config (made_nodes default_config abc_hosts) p.
Proof.
  intros [->|[->|[]%not_elem_of_nil]%elem_of_cons]%elem_of_cons.
  - apply caller_call; [apply m_Start|]. intros _. apply caller_call; [apply m_Stop|].
    intros _. apply caller_exit.
  - apply caller_call; [apply m_NextNode|]. intros _. apply caller_exit.
Qed.
Lemma abc_in_use l :
  in_use abc_hosts default_config abc_world (after l (abc_pool [start_then_stop; ask_for_node])).
Proof.
  exists abc, (made abc_hosts default_config abc_world).2, [start_then_stop; ask_for_node].
  split_and!; [by vm_compute|apply abc_callers|apply after_steps].
Qed.

(** The object with a started thread at its wait, [NextNode] in its critical
    section, and a [Stop] that has notified the thread and joins it. *)
Definition abc_busy : pool abc_state :=
  after (goes 0 7 ++ goes 2 8 ++ goes 1 2) (abc_pool [start_then_stop; ask_for_node]).
Definition abc_joining : pool abc_state :=
  after (goes 0 7 ++ goes 2 8 ++ goes 0 5) (abc_pool [start_then_stop; ask_for_node]).

Definition thread_of (i : nat) (x : pool abc_state) : thread abc_state :=
  default (mkThread 0 (Done (Ok Exit) : prog abc_state live_ctl) [] None) (threads x !! i).
Lemma thread_of_lookup i x :
  (i <? length (threads x))%nat = true → threads x !! i = Some (thread_of i x).
Proof.
  intros [t Ht]%Nat.ltb_lt%lookup_lt_is_Some. unfold thread_of. by rewrite Ht.
Qed.

(** ** The properties *)

(** The two renderings of the object agree: each member function as a
    program of atomic accesses, locks, requests and notifications, run without
    interference, returns (or throws) what the sequential member function does
    and leaves the object and the world in the same state. *)
Theorem threads_run_the_methods {W : Type} `{World W} s (w : W) :
  live_inv s →
  let c := config_ s in
  let i := initial_nodes_ s in
  run (p_NextNode c) (s, w) = NextNode (s, w) ∧
  run (p_GetNodes i) (s, w) = (Ok (GetNodes s), (s, w)) ∧
  run (p_GetActiveNodes c) (s, w) = (Ok (GetActiveNodes s), (s, w)) ∧
  run (p_GetQuarantinedNodes c) (s, w) = (Ok (GetQuarantinedNodes s), (s, w)) ∧
  run (p_GetDownNodes c) (s, w) = (Ok (GetDownNodes s), (s, w)) ∧
  run (p_GetQueryPlanNodes c) (s, w) =
    (Ok (GetQueryPlanNodes s).1, ((GetQueryPlanNodes s).2, w)) ∧
  (∀ hash, run (p_GetQueryPlanNodesForHash c hash) (s, w) =
    ((GetQueryPlanNodesForHash hash s).1, ((GetQueryPlanNodesForHash hash s).2, w))) ∧
  run (p_UpdateLiveNodes c i) (s, w) = UpdateLiveNodes (s, w) ∧
  (∀ node o, run (p_ReportNodeResult c node o) (s, w) = ReportNodeResult node o (s, w)) ∧
  run (p_ProbeDownNodes c) (s, w) = ProbeDownNodes (s, w) ∧
  run (p_CheckIfRackAndDatacenterSetCorrectly c i) (s, w) =
    CheckIfRackAndDatacenterSetCorrectly (s, w) ∧
  run (p_CheckIfRackDatacenterFeatureIsSupported c i) (s, w) =
    CheckIfRackDatacenterFeatureIsSupported (s, w) ∧
  run p_Start (s, w) = (Ok tt, (Start s, w)) ∧
  run p_Stop (s, w) =
    (Ok tt, (if background_started_ s then Stop_joined (Stop_request s) else s, w)).
Proof.
  intros Hs c i. assert (consts c i s) as Hc by (split_and!; [done|done|apply Hs]).
  assert (∀ A (p : prog _ A) m, alone c i p m → run p (s, w) = m (s, w)) as Ha.
  { intros A p m Hp. by apply Hp. }
  split_and!; intros; (erewrite Ha; [|first
    [ apply alone_NextNode | apply alone_GetNodes | apply alone_GetActiveNodes
    | apply alone_GetQuarantinedNodes | apply alone_GetDownNodes | apply alone_GetQueryPlanNodes
    | apply alone_GetQueryPlanNodesForHash | apply alone_UpdateLiveNodes
    | apply alone_ReportNodeResult | apply alone_ProbeDownNodes | apply alone_CheckScopes
    | apply alone_CheckFeature | apply alone_Start | apply alone_Stop ]]); try done.
  - unfold state_op. by destruct (GetQueryPlanNodes s).
  - unfold in_object. by destruct (GetQueryPlanNodesForHash hash s).
Qed.

Lemma threads_run_the_methods_witness :
  run (p_NextNode (config_ abc)) (abc, abc_world) = NextNode (abc, abc_world).
Proof.
  apply (threads_run_the_methods abc abc_world). apply abc_inv.
Defined.

(** C9. Between any two accesses of any threads, whatever methods they are in
    the middle of, the object satisfies its invariant; and whenever no thread
    is inside a critical section of [mutex_], the health store holds exactly
    the live nodes, if the hosts of the initial list and of all replies carry
    no brackets. *)
Theorem invariant_between_accesses {W : Type} `{World W} hosts config (w : W)
    (x : pool_of W config hosts) :
  health_config_u32 (node_health config) → in_use hosts config w x →
  live_inv (mem x).1.1 ∧
  (plain_world (W := W) → Forall plain_host hosts →
   lock_free (threads x) (ObjectMutex : mutex (AlternatorLiveNodes * W)) = true →
   ∀ u, stored (health_store_ (mem x).1.1) u ↔ u ∈ live_nodes_ (mem x).1.1).
Proof.
  intros Hu Hx. split.
  - by apply (verified_object config (made_nodes config hosts) False), (in_use_verified hosts config w).
  - intros Hp Hh. set (plain := plain_world (W := W) ∧ Forall plain_host hosts).
    assert (plain → plain_world (W := W)) by (by intros []).
    assert (plain → Forall plain_host hosts) by (by intros []).
    intros Hl. by apply (verified_object config (made_nodes config hosts) plain);
      [eapply (in_use_verified hosts config w)|..].
Qed.

Lemma invariant_between_accesses_witness :
  live_inv (mem abc_busy).1.1 ∧
  lock_free (threads abc_busy) (ObjectMutex : mutex abc_state) = false.
Proof.
  split; [|by vm_compute].
  apply (invariant_between_accesses abc_hosts default_config abc_world abc_busy).
  - apply default_health_u32.
  - apply abc_in_use.
Defined.

(** C10. However the calls of any number of threads and the background thread
    interleave, no two threads are ever about to access the same unprotected
    data or the thread member, no [std::thread] is overwritten while joinable,
    and as long as some thread is in the middle of a call some thread can take
    a step, without a time-out or a spurious wake-up: there is no deadlock.
    ([Start] and [Stop] are serialised by their callers.) *)
Theorem no_race_no_deadlock {W : Type} `{World W} hosts config (w : W)
    (x : pool_of W config hosts) :
  health_config_u32 (node_health config) → in_use hosts config w x →
  ¬ race x ∧ ¬ terminating x ∧
  ∀ i t, threads x !! i = Some t → asleep t = None → finished t = false →
    ∃ j y, pool_step j Go x = Some y.
Proof.
  intros Hu Hx. pose proof (in_use_verified hosts config w x False Hu ltac:(done) ltac:(done) Hx) as Hv.
  pose proof (live_protocol_laws config (made_nodes config hosts) False).
  split_and!; [exact (verified_race_free x Hv)|exact (verified_not_terminating x Hv)|].
  intros i t. exact (verified_progress x i t Hv).
Qed.

Lemma no_race_no_deadlock_witness :
  ¬ race abc_busy ∧ ∃ j y, pool_step j Go abc_busy = Some y.
Proof.
  destruct (no_race_no_deadlock abc_hosts default_config abc_world abc_busy) as (Hr & _ & Hp).
  - apply default_health_u32.
  - apply abc_in_use.
  - split; [exact Hr|].
    apply (Hp 1%nat (thread_of 1 abc_busy)); [apply thread_of_lookup| |]; vm_compute; exact eq_refl.
Defined.

(** C11. [Stop] gets its thread to end: while it waits in [join], the flag is
    raised, no thread sleeps on the condition variable without a notification
    (none was lost), some thread can move, and the background thread has only
    finitely many steps left, in every interleaving with the others. *)
Theorem stop_ends_the_thread {W : Type} `{World W} hosts config (w : W)
    (x : pool_of W config hosts) i t k b :
  health_config_u32 (node_health config) → in_use hosts config w x →
  threads x !! i = Some t → asleep t = None → cur t = Join k → (mem x).2 = Some b →
  stopping_ (mem x).1.1 = true ∧
  (∀ j tj, threads x !! j = Some tj → asleep tj ≠ Some false) ∧
  (∃ j y, pool_step j Go x = Some y) ∧
  Acc (λ y x, stop_run config (made_nodes config hosts) b x y) x.
Proof.
  intros Hu Hx Hi Ha Hc Hb.
  pose proof (in_use_verified hosts config w x False Hu ltac:(done) ltac:(done) Hx) as Hv.
  pose proof (live_protocol_laws config (made_nodes config hosts) False).
  assert ((mem x).2 ≠ None) as Hn by (by rewrite Hb).
  split_and!.
  - apply (verified_join x i t k Hv); done.
  - intros j tj Hj. apply (verified_wake x i j t tj k Hv); done.
  - apply (verified_progress x i t Hv Hi Ha). unfold finished. by rewrite Ha, Hc.
  - pose proof Hv as (P & o & [_ _ Hh]). destruct (Hh b Hb) as (tb & Htb & _).
    by eapply stop_run_ends.
Qed.

Lemma stop_ends_the_thread_witness :
  stopping_ (mem abc_joining).1.1 = true ∧
  ∃ j y, pool_step j Go abc_joining = Some y.
Proof.
  assert (match cur (thread_of 0 abc_joining) with Join _ => true | _ => false end = true) as Hj
    by (vm_compute; exact eq_refl).
  destruct (cur (thread_of 0 abc_joining)) as [| | | | | | |k] eqn:Ec; try discriminate Hj.
  destruct (stop_ends_the_thread abc_hosts default_config abc_world abc_joining 0
    (thread_of 0 abc_joining) k 2) as (Hs & _ & Hm & _);
    [apply default_health_u32|apply abc_in_use|apply thread_of_lookup; by vm_compute|by vm_compute
    |exact Ec|by vm_compute|].
  split; [exact Hs|exact Hm].
Defined.

(** ** What the locks do not exclude *)






(** Two callers that both stop the thread, without a lock of their own. *)
Definition bare_stop : prog abc_state live_ctl := pcont p_Stop (λ _, Done (Ok Exit)).
Definition bare_start_stop : prog abc_state live_ctl := pcont p_Start (λ _, bare_stop).

(** [Stop] joins the thread after it has released [background_mutex_], so
    that two overlapping calls of it both reach [join] on the thread member, a
    data race: the serialisation of [Start] and [Stop] by their callers, which
    the properties above rely on, is needed. *)
Theorem overlapping_stops_race :
  ∃ x, rtc step (abc_pool [bare_start_stop; bare_stop]) x ∧ race x ∧ (mem x).2 = Some 2%nat.
Proof.
  exists (after (goes 0 9 ++ goes 1 4) (abc_pool [bare_start_stop; bare_stop])).
  split; [apply after_steps|]. split; [|vm_compute; exact eq_refl].
  set (x := after _ _). exists 0%nat, 1%nat, (thread_of 0 x), (thread_of 1 x), None.
  split_and!; try done; try (apply thread_of_lookup); vm_compute; exact eq_refl.
Qed.
