(* ===== verification/CoreProperties.v ===== *)
(** Properties of the self-contained parts: the random generator, the hash, URLs
    and node lists, content encodings and configuration, each with a concrete
    instance of its hypotheses. *)
From S2P Require Import Prelude Uri GoRandom Murmur3 AttributeValue Effects RoutingScope.
From S2P Require Import NodeHealth QueryPlan KeyRouteAffinity HttpCompression Config.
From S2P Require Import LocalNodesJson LiveNodes LiveNodesSelection LiveNodesRefresh.
From S2P Require Import RoutingProperties.

(** ** The random generator *)

(** C35. [Int31n] terminates from every well-formed generator state, without
    bias: it returns the first value of [Int31] below the largest multiple of
    [n] up to 2^31, reduced modulo [n], having drawn exactly up to that value,
    and it finds one within 64 turns of the ring. *)
Theorem int31n_returns_in_range r n :
  wf_rng r → 0 < n < 2 ^ 31 →
  ∃ k, (k < 64 * 607)%nat ∧
    (∀ i, (i < k)%nat → unbiased n <= nth_draw i r) ∧ nth_draw k r < unbiased n ∧
    Int31n r n = Ok (nth_draw k r mod n, after_draws (S k) r) ∧
    0 <= nth_draw k r mod n < n ∧ wf_rng (after_draws (S k) r).
Proof.
  intros W Hn. destruct (Int31n_spec r n W Hn) as (k & Hk & Hrej & Hacc & E). exists k.
  pose proof int31n_fuel_turns. pose proof (Z.mod_pos_bound (nth_draw k r) n).
  split_and!; [lia|done|done|done|lia|lia|].
  by apply wf_after_draws.
Qed.

Lemma int31n_returns_in_range_witness :
  ∃ k, (k < 64 * 607)%nat ∧
    (∀ i, (i < k)%nat → unbiased 3 <= nth_draw i (GoRandom_make 42)) ∧
    nth_draw k (GoRandom_make 42) < unbiased 3 ∧
    Int31n (GoRandom_make 42) 3 =
      Ok (nth_draw k (GoRandom_make 42) mod 3, after_draws (S k) (GoRandom_make 42)) ∧
    0 <= nth_draw k (GoRandom_make 42) mod 3 < 3 ∧ wf_rng (after_draws (S k) (GoRandom_make 42)).
Proof. apply (int31n_returns_in_range (GoRandom_make 42) 3); [apply wf_Seed|lia]. Defined.

(** C36. The ring buffer with its two moving indices is an additive
    lagged-Fibonacci generator: its outputs are those of a queue of 607 words
    that emits and appends the sum modulo 2^64 of the oldest word and the word
    334 places behind it. *)
Theorem uint64_is_lagged_fibonacci r :
  wf_rng r →
  fst (Uint64 r) = fifo_out (rng_queue r) ∧
  rng_queue (snd (Uint64 r)) = fifo_step (rng_queue r).
Proof. intros Hr. split; [by apply Uint64_out|by apply Uint64_queue]. Qed.

Lemma uint64_is_lagged_fibonacci_witness :
  fst (Uint64 (GoRandom_make 1)) = fifo_out (rng_queue (GoRandom_make 1)) ∧
  rng_queue (snd (Uint64 (GoRandom_make 1))) = fifo_step (rng_queue (GoRandom_make 1)).
Proof. apply (uint64_is_lagged_fibonacci (GoRandom_make 1)). apply wf_Seed. Defined.

(** The first draw of a generator seeded with 1 adds two [int64_t] values
    whose sum is not an [int64_t]: the addition of [Uint64] overflows, which
    the language leaves undefined for signed operands. *)
Theorem uint64_addition_overflows :
  let r := GoRandom_make 1 in
  let feed := ring_dec (feed_ r) in
  let tap := ring_dec (tap_ r) in
  is_i64 (vec_ r !!! Z.to_nat feed) ∧ is_i64 (vec_ r !!! Z.to_nat tap) ∧
  ~ is_i64 (vec_ r !!! Z.to_nat feed + vec_ r !!! Z.to_nat tap).
Proof.
  cbv zeta.
  let a := eval vm_compute in (vec_ (GoRandom_make 1) !!! Z.to_nat (ring_dec (feed_ (GoRandom_make 1)))) in
  assert (vec_ (GoRandom_make 1) !!! Z.to_nat (ring_dec (feed_ (GoRandom_make 1))) = a) as ->
    by by vm_compute.
  let b := eval vm_compute in (vec_ (GoRandom_make 1) !!! Z.to_nat (ring_dec (tap_ (GoRandom_make 1)))) in
  assert (vec_ (GoRandom_make 1) !!! Z.to_nat (ring_dec (tap_ (GoRandom_make 1))) = b) as ->
    by by vm_compute.
  unfold is_i64. lia.
Qed.

(** C37. Seeding stays within 32 bits: whatever the 64-bit seed, the state of
    the seeding generator is between 1 and 2^31 - 2 from the start and after
    every step, both products of a step (Schrage's decomposition) are
    non-negative [int32_t] values, and the step is multiplication by 48271
    modulo the prime 2^31 - 1. *)
Theorem seeding_never_overflows seed k :
  let x := Nat.iter k SeedRand (seed_start seed) in
  0 < x < 2 ^ 31 - 1 ∧
  0 <= 48271 * Z.rem x 44488 < 2 ^ 31 ∧ 0 <= 3399 * Z.quot x 44488 < 2 ^ 31 ∧
  SeedRand x = (48271 * x) mod (2 ^ 31 - 1) ∧
  x = (48271 ^ Z.of_nat k * seed_start seed) mod (2 ^ 31 - 1).
Proof.
  cbv zeta. destruct (SeedRand_iter seed k) as [Hx E].
  split_and!; [apply Hx|apply Hx|by apply schrage_bounds..|by apply SeedRand_mod|done].
Qed.

(** ** The hash *)

(** C38. [Murmur3H1], with its block loop, fall-through tail and final mix, is
    the first word of a byte-stream reference: 16-byte blocks read as two
    little-endian words, the remainder zero-padded, and the length folded in
    at the end. *)
Theorem murmur_is_the_reference data :
  Forall is_byte data →
  Murmur3H1 data =
  murmur_final (murmur_ref (length data / 16) (0, 0) data) (u64 (Z.of_nat (length data))).
Proof. apply Murmur3H1Bytes_ref. Qed.

Lemma murmur_is_the_reference_witness :
  let data := type_prefix_s :: string_bytes "partition-key-of-35-bytes-aaaaaaaaaa" in
  Murmur3H1 data =
  murmur_final (murmur_ref (length data / 16) (0, 0) data) (u64 (Z.of_nat (length data))).
Proof.
  apply (murmur_is_the_reference
    (type_prefix_s :: string_bytes "partition-key-of-35-bytes-aaaaaaaaaa")).
  constructor; [by vm_compute|apply string_bytes_byte].
Defined.

(** ** URLs and node lists *)

(** C39. Node URLs with plain hosts print differently when they differ, IPv6
    hosts included, so that [operator<] is a strict total order on them
    (irreflexive, transitive, of two different URLs one is less and the other
    is not) that agrees with [operator==]. *)
Theorem node_urls_print_injectively u v w :
  node_url u → node_url v → node_url w →
  (Url_ToString u = Url_ToString v ↔ u = v) ∧
  Url_ltb u u = false ∧
  (Url_ltb u v = true → Url_ltb v w = true → Url_ltb u w = true) ∧
  (u ≠ v ↔ Url_ltb u v = negb (Url_ltb v u)) ∧
  (Url_eqb u v = true ↔ Url_ltb u v = false ∧ Url_ltb v u = false).
Proof.
  intros Hu Hv Hw.
  assert (Url_ltb u v = false → Url_ltb v u = false → u = v) as Htotal.
  { rewrite <-!Url_le_not_lt. intros. apply ToString_inj; [done|done|]. by apply key_le_antisymm_key. }
  assert (Url_ltb u u = false) as Hirr by (by apply Url_le_not_lt).
  split_and!; [split; [by apply ToString_inj|by intros ->]|done|apply Url_ltb_trans| |].
  - split; [|intros E ->; destruct (Url_ltb v v); done]. intros Hne.
    destruct (Url_ltb u v) eqn:Euv, (Url_ltb v u) eqn:Evu; [|done|done|by destruct Hne; apply Htotal].
    rewrite (Url_ltb_trans u v u) in Hirr; done.
  - rewrite Url_eqb_eq. split; [by intros ->|]. intros [? ?]. by apply Htotal.
Qed.

Lemma node_urls_print_injectively_witness :
  let u := Url_make "http" "::1" 8080 in
  let v := Url_make "http" "::1:8080" 0 in
  let w := Url_make "http" "a" 80 in
  (Url_ToString u = Url_ToString v ↔ u = v) ∧
  Url_ltb u u = false ∧
  (Url_ltb u v = true → Url_ltb v w = true → Url_ltb u w = true) ∧
  (u ≠ v ↔ Url_ltb u v = negb (Url_ltb v u)) ∧
  (Url_eqb u v = true ↔ Url_ltb u v = false ∧ Url_ltb v u = false).
Proof.
  apply (node_urls_print_injectively (Url_make "http" "::1" 8080) (Url_make "http" "::1:8080" 0)
    (Url_make "http" "a" 80)).
  - by apply (bool_decide_unpack _).
  - by apply (bool_decide_unpack _).
  - by apply (bool_decide_unpack _).
Defined.

(** ** Content encodings *)

(** Decoders for the instances: a reversible toy encoding. *)
Definition mark_decoder (name : string) : HttpContentEncodingDecoder :=
  mkDecoder [" " +:+ name; name +:+ "-alt"] (λ body _,
    match body with
    | String _ body => Ok body
    | EmptyString => Throw (RuntimeError "truncated")
    end).

(** What the client advertises it can undo: when the configured decoders
    are accepted and none of their encodings has a comma in it, parsing the
    advertised Accept-Encoding value gives back the encodings of the decoders
    in order, all distinct, and each is found with the decoder that offered
    it. *)
Theorem advertised_encodings_are_decodable decoders value entries :
  BuildDecoderEntries decoders = Ok entries → BuildAcceptEncodingValue decoders = Ok value →
  Forall (λ entry, string_has "," (encoding entry) = false) entries →
  ParseContentEncodings value = map encoding entries ∧ NoDup (map encoding entries) ∧
  (∀ entry, entry ∈ entries → FindDecoderEntry entries (encoding entry) = Some entry ∧
    ∃ d e, Some d ∈ decoders ∧ e ∈ AcceptedResponseEncodings d ∧
      entry = mkEntry (NormalizeResponseEncoding e) d).
Proof.
  intros E Ev Hc. pose proof (BuildDecoderEntries_spec decoders entries E) as ([ND F] & ds & Ed & Ee).
  unfold BuildAcceptEncodingValue in Ev. rewrite E in Ev. injection Ev as <-. split_and!.
  - rewrite join_encodings_joined by (eapply Forall_impl; [exact F|]; by intros x [? _]).
    apply parse_joined. apply Forall_fmap. rewrite Forall_forall in *.
    intros entry Hin. simpl. destruct (F entry Hin). split_and!; auto.
  - done.
  - intros entry Hin. split; [by apply FindDecoderEntry_in|].
    rewrite Ee in Hin. apply list_elem_of_In, in_concat in Hin as (l & Hl & Hin).
    apply in_map_iff in Hl as (d & <- & Hd). apply in_map_iff in Hin as (e & <- & He).
    exists d, e. rewrite Ed. split_and!; [|by apply list_elem_of_In|done].
    apply list_elem_of_fmap_2. by apply list_elem_of_In.
Qed.

Lemma advertised_encodings_are_decodable_witness :
  let decoders := [Some (mark_decoder "X"); Some (mark_decoder "y")] in
  let entries := entries_of (mark_decoder "X") ++ entries_of (mark_decoder "y") in
  ParseContentEncodings "x, x-alt, y, y-alt" = map encoding entries ∧
  NoDup (map encoding entries) ∧
  (∀ entry, entry ∈ entries → FindDecoderEntry entries (encoding entry) = Some entry ∧
    ∃ d e, Some d ∈ decoders ∧ e ∈ AcceptedResponseEncodings d ∧
      entry = mkEntry (NormalizeResponseEncoding e) d).
Proof.
  apply (advertised_encodings_are_decodable
    [Some (mark_decoder "X"); Some (mark_decoder "y")] "x, x-alt, y, y-alt").
  - by vm_compute.
  - by vm_compute.
  - by repeat constructor.
Defined.

(** Decoding undoes layered encodings: a body encoded in turn by the
    encodings a Content-Encoding header lists, each of which its decoder
    inverts ("identity" doing nothing), is restored to the original. *)
Theorem decoding_undoes_encoding decoders entries header layers content :
  BuildDecoderEntries decoders = Ok entries →
  ParseContentEncodings header = map fst layers → Forall (layer_ok entries) layers →
  DecodeHttpResponseBody (encode_layers layers content) header decoders = Ok content.
Proof.
  intros E Ep F. unfold DecodeHttpResponseBody. rewrite Ep.
  case_bool_decide as Hl; [by destruct layers|]. rewrite E. cbn [mbind result_bind].
  by apply decode_encode_layers.
Qed.

Lemma decoding_undoes_encoding_witness :
  DecodeHttpResponseBody "YXpayload" " x, Identity ,Y" [Some (mark_decoder "X"); Some (mark_decoder "y")]
  = Ok "payload".
Proof.
  apply (decoding_undoes_encoding [Some (mark_decoder "X"); Some (mark_decoder "y")]
    (entries_of (mark_decoder "X") ++ entries_of (mark_decoder "y")) " x, Identity ,Y"
    [("x", String "X"); ("identity", λ b, b); ("y", String "Y")] "payload").
  - by vm_compute.
  - by vm_compute.
  - apply Forall_cons; split; [|apply Forall_cons; split; [|apply Forall_cons; split; [|constructor]]].
    + right. split; [done|]. eexists. split; [reflexivity|]. done.
    + by left.
    + right. split; [done|]. eexists. split; [reflexivity|]. done.
Defined.

(** Header lookup sees the last response only and ignores case and
    surrounding blanks: among the lines of several responses (as after a
    redirect) the value found is that of the last line of the last response
    whose name matches, and empty when that response has none. *)
Theorem header_of_the_last_response earlier status_line lines name :
  Forall plain_line (earlier ++ status_line :: lines) → is_prefix "HTTP/" status_line = true →
  FindHttpHeaderValue (render_lines (earlier ++ status_line :: lines)) name =
  foldl (header_step (ToLowerAscii name)) "" lines ∧
  (∀ pre field value, lines = pre ++ [field +:+ String ":" value] →
    string_has ":" field = false → is_prefix "HTTP/" (field +:+ String ":" value) = false →
    ToLowerAscii (TrimAscii field) = ToLowerAscii name →
    FindHttpHeaderValue (render_lines (earlier ++ status_line :: lines)) name = TrimAscii value).
Proof.
  intros F Hs. assert (FindHttpHeaderValue (render_lines (earlier ++ status_line :: lines)) name =
    foldl (header_step (ToLowerAscii name)) "" lines) as E.
  { rewrite FindHttpHeaderValue_lines by done. rewrite foldl_app. cbn [foldl].
    unfold header_step at 2. by rewrite Hs. }
  split; [done|]. intros pre field value -> Hc Hh Hn. rewrite E, foldl_app. cbn [foldl].
  unfold header_step at 1. rewrite Hh, split_at_app by done. by rewrite bool_decide_eq_true_2.
Qed.

Lemma header_of_the_last_response_witness :
  FindHttpHeaderValue (render_lines ["HTTP/1.1 302 Found"; "Content-Encoding: br";
    "HTTP/1.1 200 OK"; "CONTENT-encoding :  gzip "]) "Content-Encoding" = "gzip".
Proof.
  apply (proj2 (header_of_the_last_response ["HTTP/1.1 302 Found"; "Content-Encoding: br"]
    "HTTP/1.1 200 OK" ["CONTENT-encoding :  gzip "] "Content-Encoding"
    ltac:(by repeat constructor) eq_refl) [] "CONTENT-encoding " "  gzip "); by vm_compute.
Defined.

(** ** Configuration *)

(** [ValidateConfig] accepts exactly the valid configurations: http or
    https, a non-zero port, connection limit and discovery attempts, a routing
    scope, encodings that can be advertised, a non-negative backoff, and a
    non-empty lived TLS session cache when it is enabled. *)
Theorem validate_config_is_exact config : ValidateConfig config = Ok tt ↔ valid_config config.
Proof. apply ValidateConfig_iff. Qed.
