(* ===== verification/HelperProperties.v ===== *)
(** Properties of the AWS SDK adapter's routing: the plans it makes for writes
    and the discovery of partition keys, each with a concrete instance of its
    hypotheses. *)
From S2P Require Import Prelude Uri GoRandom Murmur3 AttributeValue Effects RoutingScope NodeHealth.
From S2P Require Import QueryPlan KeyRouteAffinity HttpCompression Config LocalNodesJson LiveNodes.
From S2P Require Import LiveNodesSelection DynamoDBHelper DiscoveryWorkers RoutingProperties.

(** ** Concrete data for the instances *)

(** A service that names "id" as the hash key of every table, and counts. *)
Record service_up := mkUp { up_calls : Z }.
#[global] Instance service_up_world : World service_up := {
  steady_now w := (0, w);
  high_resolution_now w := (0, w);
  http_get _ w := (HttpFailure "unreachable", w);
}.
#[global] Instance service_up_sdk : Sdk service_up := {
  DescribeTable _ := λ '(n, w),
    (Ok (Some [(KeyType_RANGE, "time"); (KeyType_HASH, "id")]), (n, mkUp (up_calls w + 1)));
  create_thread w := (true, w);
  sleep_for _ w := w;
}.

(** A service that refuses to describe tables. *)
Record service_down := mkDown { down_calls : Z }.
#[global] Instance service_down_world : World service_down := {
  steady_now w := (0, w);
  high_resolution_now w := (0, w);
  http_get _ w := (HttpFailure "unreachable", w);
}.
#[global] Instance service_down_sdk : Sdk service_down := {
  DescribeTable _ := λ '(n, w), (Ok None, (n, mkDown (down_calls w + 1)));
  create_thread w := (true, w);
  sleep_for _ w := w;
}.

Definition any_write : Config := {|
  port := 8080; scheme := "http"; routing_scope := NewClusterScope;
  aws_region := "default-alb-region"; credentials := mkCredentials "" "";
  nodes_list_update_period := 1000; idle_nodes_list_update_period := 60000;
  http_client_timeout := 0; connect_timeout := 1000;
  verify_ssl := true; ca_file := ""; client_certificate_file := "";
  client_private_key_file := "";
  tls_session_cache_enabled := true; tls_session_cache_size := 1024;
  tls_session_timeout := 86400;
  max_connections := 100; reuse_discovery_connections := true;
  request_compressor := None; content_encoding_decoders := [];
  user_agent := "scylladb-alternator-client-cpp/devel"; header_optimization := None;
  node_health := default_health_config;
  key_route_affinity := mkAffinityConfig KRA_AnyWrite {[ "users" := "id" ]} 3 100;
|}.
(** A helper over the cluster a, b, c, and one with b in quarantine. *)
Definition helper_abc : DynamoDBHelper :=
  mkHelper abc any_write {[ "users" := "id" ]} ∅ [] ∅.
Definition helper_ac : DynamoDBHelper :=
  mkHelper abc_b_quarantined any_write {[ "users" := "id" ]} ∅ [] ∅.

Definition aws_user (id : string) : AwsItem := {[ "id" := Aws_STRING id ]}.
Definition put_user_request (id : string) : PutItemRequest :=
  mkAwsWrite "users" (<[ "name" := Aws_STRING "n" ]> (aws_user id)) "" [] Aws_NOT_SET.
Definition delete_user_request (id : string) : DeleteItemRequest :=
  mkAwsWrite "users" (aws_user id) "" [] Aws_ALL_OLD.

Lemma keyed_put id h :
  helper_config h = any_write → partition_keys_ h = {[ "users" := "id" ]} →
  keyed h (PutWrite (put_user_request id)) "users" "id" (AttributeValue_String (c_str id)).
Proof.
  intros Ec Ek. split; [|done| |done|].
  - unfold write_affinity, ShouldUseKeyRouteAffinityForWrite. by rewrite Ec.
  - unfold Helper_GetPartitionKeyName. rewrite Ek. by vm_compute.
  - exists (Aws_STRING id). split; [|done]. by vm_compute.
Qed.
Lemma keyed_delete id h :
  helper_config h = any_write → partition_keys_ h = {[ "users" := "id" ]} →
  keyed h (DeleteWrite (delete_user_request id)) "users" "id" (AttributeValue_String (c_str id)).
Proof.
  intros Ec Ek. split; [|done| |done|].
  - unfold write_affinity, ShouldUseKeyRouteAffinityForWrite. by rewrite Ec.
  - unfold Helper_GetPartitionKeyName. rewrite Ek. by vm_compute.
  - exists (Aws_STRING id). split; [|done]. by vm_compute.
Qed.

(** ** Plans for writes *)

(** C2. Item writes of one partition key share a route, across helpers, kinds of
    write (put, update, delete) and the other attributes of the item: when both
    helpers have affinity on for the write, know the table's key, and have the
    same active nodes in any order, both plans exist and go through the active
    nodes in the same order, each once, after at most one quarantined node. *)
Theorem writes_share_a_route {W1 W2 : Type} `{World W1} `{Sdk W1} `{World W2} `{Sdk W2}
    h1 h2 (w1 : W1) (w2 : W2) x1 x2 table key v :
  let active := GetActiveNodes (helper_nodes h1) in
  live_inv (helper_nodes h1) → live_inv (helper_nodes h2) → usable_nodes active → active ≠ [] →
  active ≡ₚ GetActiveNodes (helper_nodes h2) →
  keyed h1 x1 table key v → keyed h2 x2 table key v →
  ∃ plan1 plan2 extra1 extra2 order,
    (write_plan x1 (h1, w1)).1 = Ok plan1 ∧ (write_plan x2 (h2, w2)).1 = Ok plan2 ∧
    DrainPlan plan1 = Ok (extra1 ++ order) ∧ DrainPlan plan2 = Ok (extra2 ++ order) ∧
    order ≡ₚ active ∧ Forall (λ u, u ∉ active) (extra1 ++ extra2) ∧
    (length extra1 <= 1)%nat ∧ (length extra2 <= 1)%nat.
Proof.
  intros active I1 I2 Hu Hne Hp K1 K2. pose proof (usable_perm _ _ Hp Hu) as Hu2.
  assert (GetActiveNodes (helper_nodes h2) ≠ []) as Hne2.
  { intros E. apply Hne. rewrite E in Hp. by apply Permutation_nil_r. }
  destruct (keyed_plan_run x1 h1 w1 table key v I1 Hu Hne K1)
    as (p1 & σ1 & e1 & o1 & E1 & D1 & O1 & P1 & L1 & X1).
  destruct (keyed_plan_run x2 h2 w2 table key v I2 Hu2 Hne2 K2)
    as (p2 & σ2 & e2 & o2 & E2 & D2 & O2 & P2 & L2 & X2).
  rewrite (WithSortedSeed_perm _ _ _ (active_inj (helper_nodes h1) I1) Hp) in O1.
  rewrite O1 in O2. simplify_eq. exists p1, p2, e1, e2, o2. rewrite E1, E2.
  split_and!; try done. apply Forall_app. rewrite !Forall_forall.
  split; intros u Hin; [by apply X1|]. rewrite Hp. by apply X2.
Qed.

Lemma writes_share_a_route_witness :
  let active := GetActiveNodes (helper_nodes helper_ac) in
  let h2 := mkHelper (set_health
    (Store_ReportNodeResult 7 (node "b") ConnectionFailure (health_store_ abc)) abc)
    any_write {[ "users" := "id" ]} ∅ [] ∅ in
  ∃ plan1 plan2 extra1 extra2 order,
    (write_plan (PutWrite (put_user_request "42")) (helper_ac, mkUp 0)).1 = Ok plan1 ∧
    (write_plan (DeleteWrite (delete_user_request "42")) (h2, mkDown 0)).1 = Ok plan2 ∧
    DrainPlan plan1 = Ok (extra1 ++ order) ∧ DrainPlan plan2 = Ok (extra2 ++ order) ∧
    order ≡ₚ active ∧ Forall (λ u, u ∉ active) (extra1 ++ extra2) ∧
    (length extra1 <= 1)%nat ∧ (length extra2 <= 1)%nat.
Proof.
  intros active h2.
  apply (writes_share_a_route helper_ac h2 (mkUp 0) (mkDown 0) _ _ "users" "id"
    (AttributeValue_String "42")).
  - apply abc_b_quarantined_inv.
  - apply (st_report _ live_inv_stable), abc_inv.
  - apply abc_b_quarantined_usable.
  - by vm_compute.
  - assert (GetActiveNodes (helper_nodes helper_ac) = [node "a"; node "c"]) as -> by by vm_compute.
    assert (GetActiveNodes (helper_nodes h2) = [node "a"; node "c"]) as -> by by vm_compute. done.
  - by apply keyed_put.
  - by apply keyed_delete.
Defined.

(** Whatever is in a write (a missing or unsupported key value, a table whose
    key is not known, an empty batch), no exception escapes and the helper has
    a plan that tries every active node and none twice. *)
Theorem every_write_has_a_plan {W : Type} `{World W} `{Sdk W} h (w : W) x request :
  let active := GetActiveNodes (helper_nodes h) in
  live_inv (helper_nodes h) → usable_nodes active → active ≠ [] →
  Z.of_nat (length (BatchWriteOperationsFor h request)) < 2 ^ 31 →
  (∃ plan l, (write_plan x (h, w)).1 = Ok plan ∧ DrainPlan plan = Ok l ∧ NoDup l ∧ active ⊆ l) ∧
  (∃ plan l, (BatchWriteItemQueryPlanFor request (h, w)).1 = Ok plan ∧
     DrainPlan plan = Ok l ∧ NoDup l ∧ active ⊆ l).
Proof.
  intros active Hs Hu Hne Hl. assert (ready active h) as Hr by done. split.
  - destruct (write_plan_covers active x h w Hr) as (p & σ & -> & l & Hc). by exists p, l.
  - destruct (batch_plan_covers active request h w Hr Hl) as (p & σ & -> & l & Hc). by exists p, l.
Qed.

Lemma every_write_has_a_plan_witness :
  let active := GetActiveNodes (helper_nodes helper_abc) in
  let x := PutWrite (mkAwsWrite "users" {[ "id" := Aws_BOOL ]} "" [] Aws_NOT_SET) in
  let request := [("orders", [mkWriteRequest (Some ∅) None]);
                  ("users", [mkWriteRequest (Some (aws_user "1")) None;
                             mkWriteRequest None (Some (aws_user "2"))])] in
  (∃ plan l, (write_plan x (helper_abc, mkUp 0)).1 = Ok plan ∧
     DrainPlan plan = Ok l ∧ NoDup l ∧ active ⊆ l) ∧
  (∃ plan l, (BatchWriteItemQueryPlanFor request (helper_abc, mkUp 0)).1 = Ok plan ∧
     DrainPlan plan = Ok l ∧ NoDup l ∧ active ⊆ l).
Proof.
  intros active x request. apply (every_write_has_a_plan helper_abc (mkUp 0) x request).
  - apply abc_inv.
  - apply abc_usable.
  - by vm_compute.
  - by vm_compute.
Defined.

(** ** Discovery of partition keys *)

(** Learning a table's key asks the service at most
    [partition_key_discovery_attempts] times; it returns true exactly when it
    stores a non-empty name that the service reported as the hash key of that
    table, and otherwise, also when the service throws, leaves the known keys
    as they were.  [calls] counts the requests, [reported] is any property of
    reported hash keys. *)
Theorem key_discovery_is_bounded {W : Type} `{World W} `{Sdk W} (calls : W → Z)
    (reported : string → string → Prop) table h (w : W) :
  (∀ t (σ : AlternatorLiveNodes * W), calls (DescribeTable t σ).2.2 = calls σ.2 + 1) →
  (∀ ms (w : W), calls (sleep_for ms w) = calls w) →
  (∀ t (σ : AlternatorLiveNodes * W) schema σ' name,
    DescribeTable t σ = (Ok (Some schema), σ') → (KeyType_HASH, name) ∈ schema → reported t name) →
  ∃ r h' w', UpdatePartitionKeyName table (h, w) = (r, (h', w')) ∧
    calls w <= calls w' <=
      calls w + Z.max 0 (partition_key_discovery_attempts (key_route_affinity (helper_config h))) ∧
    match r with
    | Ok true => ∃ name, reported (c_str table) name ∧ c_str name ≠ "" ∧
                   Helper_GetPartitionKeyName table h' = c_str name ∧
                   ∀ t, t ≠ table → Helper_GetPartitionKeyName t h' = Helper_GetPartitionKeyName t h
    | _ => partition_keys_ h' = partition_keys_ h
    end.
Proof.
  intros Hc Hs Hr. destruct (Update_run calls reported Hc Hs Hr table h w)
    as (r & h' & w' & E & Hb & _ & _ & Hl).
  exists r, h', w'. split_and!; [done|lia|lia|]. destruct r as [[]|]; [|done|done].
  destruct Hl as (name & Hn & Hne & Ek). exists name.
  unfold Helper_GetPartitionKeyName. rewrite Ek.
  split_and!; [done|done|apply GetPartitionKeyName_set|].
  intros t Ht. by apply GetPartitionKeyName_set_ne.
Qed.

Lemma key_discovery_is_bounded_witness :
  ∃ r h' w', UpdatePartitionKeyName "orders" (helper_abc, mkUp 0) = (r, (h', w')) ∧
    up_calls (mkUp 0) <= up_calls w' <= up_calls (mkUp 0) +
      Z.max 0 (partition_key_discovery_attempts (key_route_affinity (helper_config helper_abc))) ∧
    match r with
    | Ok true => ∃ name, name = "id" ∧ c_str name ≠ "" ∧
                   Helper_GetPartitionKeyName "orders" h' = c_str name ∧
                   ∀ t, t ≠ "orders" →
                     Helper_GetPartitionKeyName t h' = Helper_GetPartitionKeyName t helper_abc
    | _ => partition_keys_ h' = partition_keys_ helper_abc
    end.
Proof.
  apply (key_discovery_is_bounded up_calls (λ _ name, name = "id") "orders" helper_abc (mkUp 0)).
  - by intros t [].
  - done.
  - intros t [n w] schema σ' name E Hin. simpl in E. simplify_eq. set_solver.
Defined.

(** However writes, changes of the live nodes, and discovery threads
    interleave, at most one discovery runs per table: the running threads have
    different tables, [in_progress] holds exactly these, and every running
    thread has a handle, so that the destructor's join waits for all of them. *)
Theorem one_discovery_per_table {W : Type} `{World W} `{Sdk W} initial config (w : W) h w' σ running :
  DynamoDBHelper_make initial config w = (Ok h, w') →
  rtc worker_step ((h, w'), []) (σ, running) →
  NoDup running ∧ (∀ t, t ∈ in_progress σ.1 ↔ t ∈ running) ∧
  running ⊆+ (WaitForPartitionKeyDiscovery σ.1).1.
Proof.
  intros E Hr. destruct (workers_inv_make initial config w h w' _ E Hr) as [Ho Hp Hh].
  simpl in *. split_and!; [done| |done]. intros t. rewrite Hp. apply elem_of_list_to_set.
Qed.

Definition made_helper : DynamoDBHelper :=
  match DynamoDBHelper_make ["a"] any_write (mkDown 0) with
  | (Ok h, _) => h
  | (Throw _, _) => helper_abc
  end.
Definition put_order : ItemWrite := PutWrite (mkAwsWrite "orders" (aws_user "1") "" [] Aws_NOT_SET).
(** Two writes to a table whose key is not known. *)
Definition after_writes : DynamoDBHelper * service_down :=
  (write_plan put_order (write_plan put_order (made_helper, mkDown 0)).2).2.

Lemma one_discovery_per_table_witness :
  NoDup ["orders"] ∧ (∀ t, t ∈ in_progress after_writes.1 ↔ t ∈ ["orders"]) ∧
  ["orders"] ⊆+ (WaitForPartitionKeyDiscovery after_writes.1).1.
Proof.
  apply (one_discovery_per_table ["a"] any_write (mkDown 0) made_helper (mkDown 0)).
  - by vm_compute.
  - eapply rtc_l; [apply (ws_write put_order)|]. eapply rtc_l; [apply (ws_write put_order)|].
    match goal with |- rtc _ (_, ?r) _ => assert (r = ["orders"]) as -> by by vm_compute end.
    apply rtc_refl.
Defined.

(** C40. The handle of a discovery thread outlives the thread: while the service
    cannot describe a table, every round of a write that triggers a discovery
    and the discovery's failure adds a handle of a finished thread, and nothing
    but the destructor removes any. *)
Theorem failed_discoveries_accumulate {W : Type} `{World W} `{Sdk W} n table h (w : W) :
  (∀ t (σ : AlternatorLiveNodes * W), (DescribeTable t σ).1 = Ok None) →
  (∀ w : W, (create_thread w).1 = true) →
  table ≠ "" → Helper_GetPartitionKeyName table h = "" → table ∉ in_progress h →
  ∃ l h' w', repeat_m n (discovery_round table) (h, w) = (Ok l, (h', w')) ∧
    workers h' = workers h ++ replicate n table ∧ in_progress h' = in_progress h.
Proof. apply discovery_rounds_run. Qed.

Lemma failed_discoveries_accumulate_witness :
  ∃ l h' w', repeat_m 1000 (discovery_round "orders") (made_helper, mkDown 0) = (Ok l, (h', w')) ∧
    workers h' = workers made_helper ++ replicate 1000 "orders" ∧
    in_progress h' = in_progress made_helper.
Proof.
  apply (failed_discoveries_accumulate 1000 "orders" made_helper (mkDown 0)).
  - by intros t [].
  - done.
  - done.
  - by vm_compute.
  - apply (bool_decide_unpack _). by vm_compute.
Defined.
