(* ===== verification/ClientProperties.v ===== *)
(** Properties of the HTTP clients and of compression: the zlib loops, the client
    over sockets, the client over libcurl, and the wrapper around the SDK's
    client; each with a concrete instance of its hypotheses. *)
From S2P Require Import Prelude Uri Effects Streams RoutingScope NodeHealth QueryPlan.
From S2P Require Import KeyRouteAffinity HttpCompression Zlib StoredZlib Config SocketClient.
From S2P Require Import HttpMessages ScriptedSockets CurlClient LiveNodes DynamoDBHelper.
From S2P Require Import LiveNodesRefresh AwsHttpClient HelperOperations Failover ScriptedSdk.
From S2P Require Import RoutingProperties HelperProperties.

(** ** Facts shared by the properties *)

Section zlib_facts.
Context `{ZlibLaws}.

(** Decoding a complete stream, whatever follows it. *)
Lemma InflateBody_stream window_bits body data more :
  (inflateInit2 window_bits).1 = Z_OK → stream_of window_bits body data →
  Z.of_nat (String.length (data +:+ more)) <= UINT_MAX →
  InflateBody (data +:+ more) window_bits = Ok body.
Proof.
  intros Ei Hs Hl. unfold InflateBody. destruct (inflateInit2 window_bits) as [code s] eqn:E.
  cbn in Ei. subst code. apply inflateInit2_ok in E as (Hi & Hb & Hc).
  cbn [Z.eqb Z_OK negb]. rewrite CheckedZlibSize_ok by done. unfold mbind, result_bind.
  destruct (Hc body data more Hs) as [Hcom Ebody].
  rewrite inflate_loop_complete by (auto; unfold inflate_fuel; specialize (Hb (data +:+ more)); lia).
  by rewrite Ebody.
Qed.

Lemma InflateBody_ends body window_bits : InflateBody body window_bits ≠ Throw out_of_fuel.
Proof.
  unfold InflateBody. destruct (inflateInit2 window_bits) as [code s] eqn:E.
  destruct (Z.eqb_spec code Z_OK) as [->|?]; [|done]. cbn [negb].
  apply inflateInit2_ok in E as (Hi & Hb & _).
  unfold CheckedZlibSize. destruct (UINT_MAX <? _); [done|]. unfold mbind, result_bind.
  apply inflate_loop_ends; [done|]. unfold inflate_fuel. specialize (Hb body). lia.
Qed.

(** What the gzip compressor writes is a complete stream of what it reads. *)
Lemma Gzip_Compress_spec min size input output :
  (deflateInit2 Z_DEFAULT_COMPRESSION Z_DEFLATED (MAX_WBITS + 16) 8 Z_DEFAULT_STRATEGY).1 = Z_OK →
  source_of (unread input) input → sink_of "" output → min <= size →
  ∃ o input' output',
    Gzip_Compress min size (input, output) = (Ok true, (input', output')) ∧
    sink_of o output' ∧ stream_of (MAX_WBITS + 16) (unread input) o.
Proof.
  intros Ei Hi Ho Hm. unfold Gzip_Compress. destruct (Z.ltb_spec size min); [lia|].
  unfold mbind, M_bind. pose proof (DeflateBody_spec (MAX_WBITS + 16) input output) as Hd.
  destruct (DeflateBody _ _) as [r [input' output']]. destruct Hd as [_ Hd].
  destruct (Hd Ei Hi Ho) as (-> & o & Ho' & Hs). by exists o, input', output'.
Qed.
End zlib_facts.

(** Numbers print without space. *)
Lemma no_space_trim s : no_space s = true → TrimAscii s = s.
Proof.
  intros Hs. unfold TrimAscii. rewrite trim_start_id by
    (destruct s; [done|]; cbn in Hs |- *; by apply andb_true_iff in Hs as [?%negb_true_iff _]).
  induction s as [|c s IH]; [done|]. cbn [no_space trim_end] in *.
  apply andb_true_iff in Hs as [Hc Hs]. apply negb_true_iff in Hc.
  rewrite IH by done. by rewrite Hc, andb_false_r.
Qed.
Lemma no_space_go (x : N) s : no_space s = true → no_space (pretty_N_go x s) = true.
Proof.
  revert s. induction (N.lt_wf_0 x) as [x _ IH]; intros s Hs.
  destruct (decide (x = 0)%N) as [->|Hx]; [by rewrite pretty_N_go_0|].
  rewrite pretty_N_go_step by lia. apply IH; [apply N.div_lt; lia|]. cbn [no_space].
  rewrite Hs, andb_true_r. apply negb_true_iff.
  assert (x mod 10 < 10)%N as Hm by (apply N.mod_lt; lia). revert Hm.
  generalize (x mod 10)%N. intros d Hd. destruct d as [|p]; [done|].
  do 4 (destruct p as [p|p|]; try done; try lia).
Qed.
Lemma trim_pretty (n : N) : TrimAscii (pretty n) = pretty n.
Proof.
  apply no_space_trim. unfold pretty, pretty_N. case_decide; [done|]. by apply no_space_go.
Qed.

(** Preparing a body in memory. *)
Lemma Rewind_memory b description :
  seekable b = true → RewindForReading b description = Ok (seekg_beg (clear b)).
Proof.
  intros Hs. unfold RewindForReading. cbn zeta.
  destruct (rewound b Hs) as ((_ & E1 & E2)%good_bits & _). unfold fail. by rewrite E1, E2.
Qed.
Lemma PrepareOriginal_memory b :
  seekable b = true → reads_before_fault b = None →
  ∃ b', PrepareOriginalRequestBodyForReading b = Ok (String.length (contents b), b') ∧
    source_of (unread b') b' ∧ unread b' = contents b.
Proof.
  intros Hs Hf. unfold PrepareOriginalRequestBodyForReading. cbn zeta.
  set (b1 := seekg_end (clear b)).
  assert (b1 = mkStream (contents b) (String.length (contents b)) (put_pos b) false false false
    true None (room b)) as -> by (unfold b1; destruct b; cbn in Hs, Hf; by subst).
  eexists. split; [done|]. done.
Qed.
Lemma PrepareCompressed_memory o b :
  sink_of o b →
  ∃ b', PrepareCompressedRequestBodyForReading b = Ok (String.length o, b') ∧
    source_of (contents b') b' ∧ contents b' = o.
Proof.
  intros Hb. pose proof Hb as (_ & _ & Hs & Hf & Hc & Hp).
  unfold PrepareCompressedRequestBodyForReading, tellp.
  rewrite (sink_fail o b Hb), Hs, Hp, Rewind_memory by done.
  destruct (rewound b Hs) as (G' & C' & U' & S' & F').
  eexists. split; [done|]. rewrite C'. split; [|done]. split; [done|]. by rewrite F', Hf, U'.
Qed.

(** ** Compression *)

(** C21. The loops around zlib end: on every pair of streams, however their reads
    fault and their writes fail, compression returns or throws one of its own
    errors, and so does decompression of any bytes in any format. *)
Theorem compression_ends `{ZlibLaws} :
  (∀ window_bits input output, (DeflateBody window_bits (input, output)).1 ≠ Throw out_of_fuel) ∧
  (∀ body window_bits, InflateBody body window_bits ≠ Throw out_of_fuel).
Proof.
  split; [|apply InflateBody_ends]. intros wb input output.
  pose proof (DeflateBody_spec wb input output) as Hd.
  destruct (DeflateBody wb (input, output)) as [r [? ?]]. by destruct Hd.
Qed.

Lemma compression_ends_witness :
  (∀ window_bits input output, (DeflateBody window_bits (input, output)).1 ≠ Throw out_of_fuel) ∧
  InflateBody "G.h.i" 31 = Throw (RuntimeError "failed to inflate compressed HTTP response").
Proof. split; [exact (proj1 (compression_ends (H := stored_zlib)))|by vm_compute]. Defined.

(** C19. A compressed request is the original: for a body in memory of at least
    the compressor's minimum size, compression succeeds whatever the position
    and state bits the body was left with; the new body is positioned at its
    start, decoding it gives back the whole original body, and the headers
    state its encoding and its length. *)
Theorem compressed_request_decodes `{ZlibLaws} `{AwsHttpLaws}
    (request : aws_request) (body : iostream) (min_size_bytes : Z) :
  (deflateInit2 Z_DEFAULT_COMPRESSION Z_DEFLATED (MAX_WBITS + 16) 8 Z_DEFAULT_STRATEGY).1 = Z_OK →
  (inflateInit2 (MAX_WBITS + 16)).1 = Z_OK →
  GetContentBody request = Some body → seekable body = true → reads_before_fault body = None →
  IsEventStreamRequest request = false → HasTransferEncoding request = false →
  HasContentEncoding request = false →
  min_size_bytes <= Z.of_nat (String.length (contents body)) →
  ∃ request' body',
    CompressAwsRequestBody request (Some (GzipRequestCompressor min_size_bytes)) "gzip" = Ok request' ∧
    GetContentBody request' = Some body' ∧ source_of (contents body') body' ∧
    GetHeaderValue CONTENT_ENCODING_HEADER request' = "gzip" ∧
    GetHeaderValue CONTENT_LENGTH_HEADER request' =
      pretty (N.of_nat (String.length (contents body'))) ∧
    (Z.of_nat (String.length (contents body')) <= UINT_MAX →
     Zlib_Decode (contents body') "gzip" = Ok (contents body)).
Proof.
  intros Ed Ei Eb Hs Hf E1 E2 E3 Hm. unfold CompressAwsRequestBody. rewrite Eb, E1, E2, E3.
  destruct (PrepareOriginal_memory body Hs Hf) as (b1 & Ep & Hb1 & Eu).
  rewrite bool_decide_eq_false_2 by done. cbn [orb]. rewrite Ep. unfold mbind, result_bind.
  edestruct (Gzip_Compress_spec min_size_bytes (Z.of_nat (String.length (contents body))) b1
    (stringstream "")) as (o & b2 & b3 & Ec & Ho & Hstream); [done..|].
  cbn [Compress GzipRequestCompressor]. rewrite Ec.
  destruct (PrepareCompressed_memory o b3 Ho) as (b4 & Eq & Hb4 & Ec4).
  cbn [negb]. rewrite Eq. eexists _, b4. split; [done|].
  unfold SetContentEncoding, SetContentLength.
  rewrite body_DeleteHeader, body_AddContentBody. split; [done|]. split; [done|].
  rewrite !value_DeleteHeader, !value_AddContentBody by done.
  rewrite !value_SetHeaderValue by (done || apply trim_pretty).
  split; [done|]. split; [by rewrite Ec4|]. intros Hl. rewrite Ec4, Eu in *.
  rewrite <-(append_empty_r o) in Hl |- *. by apply InflateBody_stream.
Qed.

Definition post_request (content : string) : aws_request (AwsHttp := sdk_http) :=
  mkSdkRequest (mkSdkUri HTTP "a" 8080) [("host", "a:8080"); ("amz-sdk-request", "attempt=1; max=11")]
    (Some (stringstream content)).

Lemma compressed_request_decodes_witness :
  ∃ request' body',
    CompressAwsRequestBody (post_request "hello") (Some (GzipRequestCompressor 4)) "gzip" = Ok request' ∧
    GetContentBody request' = Some body' ∧ source_of (contents body') body' ∧
    GetHeaderValue CONTENT_ENCODING_HEADER request' = "gzip" ∧
    GetHeaderValue CONTENT_LENGTH_HEADER request' =
      pretty (N.of_nat (String.length (contents body'))) ∧
    (Z.of_nat (String.length (contents body')) <= UINT_MAX →
     Zlib_Decode (contents body') "gzip" = Ok "hello").
Proof.
  apply (compressed_request_decodes (post_request "hello") (stringstream "hello") 4);
    [done|done|done|done|done|done|done|done|cbn; lia].
Defined.

(** Only the first member of a gzip body is decoded: whatever follows a
    complete stream, another member included, is dropped without an error. *)
Theorem gzip_members_after_the_first_are_lost `{ZlibLaws} (body data more : string) :
  (inflateInit2 (MAX_WBITS + 16)).1 = Z_OK → stream_of (MAX_WBITS + 16) body data →
  Z.of_nat (String.length (data +:+ more)) <= UINT_MAX →
  Zlib_Decode (data +:+ more) "gzip" = Ok body.
Proof. intros Ei Hs Hl. exact (InflateBody_stream _ body data more Ei Hs Hl). Qed.

Lemma gzip_members_after_the_first_are_lost_witness :
  Zlib_Decode ("G.h.i!" +:+ "G.y.o!") "gzip" = Ok "hi".
Proof. apply gzip_members_after_the_first_are_lost; [done|done|by vm_compute]. Defined.

(** ** The client over sockets *)

(** C22. Sending and receiving are exact: with enough calls for the bytes and for
    the signals that interrupt them, [SendAll] puts exactly the data on the
    wire, in order and once, however the kernel cuts it, or throws after a
    proper prefix; [ReadAll] returns exactly what the peer sent before it closed,
    or throws. *)
Theorem socket_io_is_exact {W : Type} `{SocketLaws W} (fuel : nat) (fd : Z) (data : string) (w : W) :
  ((String.length data + interrupts w <= fuel)%nat →
   let '(r, w') := SendAll fuel fd data w in
   (r = Ok tt ∧ wire fd w' = wire fd w +:+ data) ∨
   (r = Throw (RuntimeError "send failed") ∧
    ∃ part rest, data = part +:+ rest ∧ rest ≠ "" ∧ wire fd w' = wire fd w +:+ part)) ∧
  ((String.length (incoming fd w) + interrupts w < fuel)%nat →
   let r := (ReadAll fuel fd w).1 in
   r = Ok (incoming fd w) ∨ r = Throw (RuntimeError "recv failed")).
Proof. split; [apply send_loop_spec|apply (recv_loop_spec fuel fd "")]. Qed.

(** A peer reached through the second of two addresses, with interrupted and
    short transfers. *)
Definition test_addresses : list (addrinfo * bool) :=
  [(mkAddrinfo 10 1 6 "::1", false); (mkAddrinfo 2 1 6 "127.0.0.1", true)].
Definition test_peer : peer :=
  mkPeer test_addresses [1%nat; 0%nat; 2%nat] [3%nat; 0%nat] ∅ 5 (λ _, "")
    (λ _, render_response ["HTTP/1.1 200 OK"] "[]").

Lemma socket_io_is_exact_witness :
  let '(r, w') := SendAll 50 5 "hello" test_peer in
  (r = Ok tt ∧ wire 5 w' = wire 5 test_peer +:+ "hello") ∨
  (r = Throw (RuntimeError "send failed") ∧
   ∃ part rest, "hello" = part +:+ rest ∧ rest ≠ "" ∧ wire 5 w' = wire 5 test_peer +:+ part).
Proof. apply socket_io_is_exact. by apply Nat.leb_le. Defined.

(** [Get] leaks no descriptor: whether it returns a response or throws, at
    whatever point, the open descriptors are those it started with. *)
Theorem socket_get_leaks_nothing {W : Type} `{SocketLaws W} (fuel : nat) (config : Config)
    (url : Url) (w : W) :
  open_fds (SocketHttpClient_Get fuel config url w).2 = open_fds w.
Proof. exact (Get_open (open_fds w) fuel config url w eq_refl). Qed.

Lemma socket_get_leaks_nothing_witness :
  (SocketHttpClient_Get 200 default_config (node "a") test_peer).1 = Ok (mkResponse 200 "[]") ∧
  open_fds (SocketHttpClient_Get 200 default_config (node "a") test_peer).2 = open_fds test_peer.
Proof. split; [by vm_compute|apply socket_get_leaks_nothing]. Defined.

(** C20. A response is read back as it was written: for a status line and headers
    without line breaks inside, and a content coded by the layers that the last
    Content-Encoding header lists and that the decoders undo, the parser
    returns the status and the uncoded body. *)
Theorem response_parses_back (version : string) (status : N) (reason : string)
    (headers : list string) (layers : list (string * (string → string))) (body : string)
    (decoders : list (option HttpContentEncodingDecoder)) entries :
  no_space version = true → (0 < status)%N → Z.of_N status < 2 ^ 63 →
  text_line (render_status_line version status reason) → Forall text_line headers →
  BuildDecoderEntries decoders = Ok entries → Forall (layer_ok entries) layers →
  ParseContentEncodings (foldl (header_step "content-encoding") "" headers) = map fst layers →
  ParseHttpResponse
    (render_response (render_status_line version status reason :: headers)
       (encode_layers layers body)) decoders =
  Ok (mkResponse (Z.of_N status) body).
Proof.
  intros Hv Hs Hmax Hl Hh Ee Hlay Ep. rewrite ParseHttpResponse_rendered by done.
  unfold DecodeHttpResponseBody. rewrite Ep, Ee. case_bool_decide as En.
  - apply map_eq_nil in En. subst layers. cbn. by rewrite Z.min_r by lia.
  - unfold mbind at 2, result_bind at 2. rewrite decode_encode_layers by done.
    cbn. by rewrite Z.min_r by lia.
Qed.

(** An encoding that marks the body with a leading character. *)
Definition marking : HttpContentEncodingDecoder :=
  mkDecoder ["mark"] (λ body _, match body with
    | String _ body => Ok body
    | EmptyString => Throw (RuntimeError "no mark")
    end).
Definition mark (s : string) : string := String "#" s.

Lemma response_parses_back_witness :
  ParseHttpResponse
    (render_response (render_status_line "1.1" 200 "OK" ::
        ["Server: x"; "content-encoding: identity, Mark"])
       (encode_layers [("identity", λ b, b); ("mark", mark)] "[]x"))
    [Some marking] = Ok (mkResponse (Z.of_N 200) "[]x").
Proof.
  apply (response_parses_back "1.1" 200 "OK"
    ["Server: x"; "content-encoding: identity, Mark"]
    [("identity", λ b, b); ("mark", mark)] "[]x" [Some marking] [mkEntry "mark" marking]).
  - done.
  - lia.
  - lia.
  - by vm_compute.
  - repeat constructor; by vm_compute.
  - by vm_compute.
  - constructor; [by left|]. constructor; [|constructor]. right. split; [done|].
    eexists. split; [by vm_compute|]. done.
  - by vm_compute.
Defined.

(** A chunked reply is not decoded: the client asks with HTTP/1.1, and when
    the server answers with a chunked transfer coding the body it returns holds
    the chunk sizes and the final empty chunk. *)
Theorem chunked_framing_stays_in_the_body :
  let content := "2" +:+ CRLF +:+ "[]" +:+ CRLF +:+ "0" +:+ CRLF +:+ CRLF in
  ParseHttpResponse
    (render_response ["HTTP/1.1 200 OK"; "Transfer-Encoding: chunked"] content) [] =
  Ok (mkResponse 200 content).
Proof. by vm_compute. Qed.

(** ** The client over libcurl *)

(** Handles are released: through any sequence of requests, whatever comes
    of them, the client adds at most the one handle it keeps for reuse, and
    after its destructor the handles are those from before it was made. *)
Theorem curl_handles_are_released {W : Type} `{CurlLaws W} (config : Config) (urls : list Url)
    (once : bool) (w : W) :
  let σ := gets_all config urls (CurlHttpClient_make (mkCurlState None once, w)).2 in
  (∀ h, h ∈ handles σ.2 → h ∈ handles w ∨ reusable_handle σ.1 = Some h) ∧
  handles (CurlHttpClient_destroy σ).2.2 = handles w.
Proof.
  cbn zeta. set (σ := gets_all _ _ _).
  assert (owns (handles w) σ) as Ho
    by (apply gets_all_owns; by apply (EnsureCurlInitialized_owns (handles w) (_, w))).
  split.
  - intros h Hh. unfold owns in Ho. destruct (reusable_handle σ.1) as [k|];
      [destruct Ho as [_ Ho]|]; rewrite Ho in Hh; set_solver.
  - apply destroy_owns in Ho. destruct (CurlHttpClient_destroy σ) as [r [s w']]. apply Ho.
Qed.

(** Three transfers, the second of which fails. *)
Definition test_curl : curl_script :=
  mkCurlScript
    [(0, [HeaderPiece "HTTP/1.1 200 OK" 1 15; BodyPiece "[7" 1 2; BodyPiece "]tail" 1 1]);
     (28, []); (0, [BodyPiece "[]" 2 1])] 7 {[ 3 ]} (λ _, []).

Lemma curl_handles_are_released_witness :
  let σ := gets_all default_config [node "a"; node "b"; node "c"]
    (CurlHttpClient_make (mkCurlState None false, test_curl)).2 in
  (∀ h, h ∈ handles σ.2 → h ∈ handles test_curl ∨ reusable_handle σ.1 = Some h) ∧
  handles (CurlHttpClient_destroy σ).2.2 = handles test_curl.
Proof. apply curl_handles_are_released. Defined.

(** C24. A request is made with its own options and no others: whatever was set on
    the handle before, the transfer runs with the options of this URL and
    configuration, so that peer verification is off exactly when the
    configuration says so; and the response is the status and the decoded
    concatenation of the pieces received, or the error of the transfer. *)
Theorem curl_request_is_configured {W : Type} `{CurlLaws W} (h : Z) (url : Url) (config : Config)
    (s : CurlState) (w : W) (accept : string) :
  BuildAcceptEncodingValue (content_encoding_decoders config) = Ok accept →
  ∃ w1 headers,
    options h w1 = get_options url config ++ [CURLOPT_HTTPHEADER headers] ∧
    (CURLOPT_SSL_VERIFYPEER 0 ∈ options h w1 ↔ verify_ssl config = false) ∧
    let '((code, transfers), _) := curl_easy_perform h w1 in
    (PerformCurlGet h url config (s, w)).1 =
    if code =? CURLE_OK then
      (body ← DecodeHttpResponseBody (concat_text (map body_text transfers))
                (FindHttpHeaderValue (concat_text (map header_text transfers)) "content-encoding")
                (content_encoding_decoders config);
       Ok (mkResponse (curl_easy_response_code h (PerformCurlGet h url config (s, w)).2.2) body))
    else Throw (RuntimeError (curl_easy_strerror code)).
Proof.
  intros Ea. destruct (Configure_sets h url config s w) as (w0 & E0 & O0 & _).
  pose proof (PerformCurlGet_eq h url config s w w0 accept E0 Ea) as Hp.
  exists (curl_easy_setopt h (CURLOPT_HTTPHEADER (request_headers config accept)) w0),
    (request_headers config accept).
  rewrite setopt_options, O0. split; [done|]. split; [apply verify_option|].
  revert Hp. cbn zeta. by destruct (curl_easy_perform h _) as [[code transfers] w2].
Qed.

Lemma curl_request_is_configured_witness :
  ∃ w1 headers,
    options 7 w1 = get_options (node "a") default_config ++ [CURLOPT_HTTPHEADER headers] ∧
    (CURLOPT_SSL_VERIFYPEER 0 ∈ options 7 w1 ↔ verify_ssl default_config = false) ∧
    let '((code, transfers), _) := curl_easy_perform 7 w1 in
    (PerformCurlGet 7 (node "a") default_config (mkCurlState None true, test_curl)).1 =
    if code =? CURLE_OK then
      (body ← DecodeHttpResponseBody (concat_text (map body_text transfers))
                (FindHttpHeaderValue (concat_text (map header_text transfers)) "content-encoding")
                (content_encoding_decoders default_config);
       Ok (mkResponse (curl_easy_response_code 7
             (PerformCurlGet 7 (node "a") default_config (mkCurlState None true, test_curl)).2.2) body))
    else Throw (RuntimeError (curl_easy_strerror code)).
Proof. apply (curl_request_is_configured 7 (node "a") default_config _ test_curl ""). done. Defined.

(** ** The client in the SDK *)

(** C5. A write goes to the first node of its plan: the helper sends a put, update
    or delete through a client whose endpoint is the node its plan starts with,
    also when the client comes out of the helper's cache, and the cache stays
    coherent. *)
Theorem write_goes_to_the_plan_head {W Outcome : Type} `{World W} `{Sdk W}
    (send : DynamoDBClient → ItemWrite → M (AlternatorLiveNodes * W) Outcome)
    (x : ItemWrite) (h : DynamoDBHelper) (w : W) (plan : QueryPlan) (h1 : DynamoDBHelper) (w1 : W)
    (u : Url) :
  clients_ok h → write_plan x (h, w) = (Ok plan, (h1, w1)) →
  (QueryPlan_Next plan).1 = Ok u → Url_Empty u = false →
  ∃ n h2, item_write send x (h, w) = pass_on (send (FixedClient n) x) (h2, w1) ∧
    (ResolveEndpoint (W := W) (FixedClient n) (h2, w1)).1 = Ok (Some (c_str (Url_ToString u))) ∧
    helper_nodes h2 = helper_nodes h1 ∧ clients_ok h2.
Proof.
  intros Hc E En Hu.
  pose proof (same_write_plan (fixed_clients_ h) x (h, w) eq_refl) as Hsame.
  rewrite E in Hsame. unfold same_clients in Hsame. cbn in Hsame.
  destruct (NewDynamoDBForQueryPlan_head plan u h1 w1) as (n & h2 & E2 & Ep & Hc2 & Hn);
    [unfold clients_ok in *; by rewrite Hsame|done|done|].
  exists n, h2. rewrite item_write_eq, (bind_run_ok _ _ _ _ _ E), (bind_run_ok _ _ _ _ _ E2).
  split; [done|]. split; [|done]. cbn [ResolveEndpoint fst].
  unfold FixedEndpointProvider_ResolveEndpoint, mret, M_ret. cbn [fst]. by rewrite (Empty_prints u n Hu Ep), Ep.
Qed.

(** A client that says which client it is. *)
Definition echo (client : DynamoDBClient) (x : ItemWrite)
    : M (AlternatorLiveNodes * service_up) DynamoDBClient := mret client.

Lemma write_goes_to_the_plan_head_witness :
  let '(u, h1, w1) :=
    match write_plan (PutWrite (put_user_request "42")) (helper_abc, mkUp 0) with
    | (Ok plan, (h1, w1)) =>
        (match (QueryPlan_Next plan).1 with Ok u => u | Throw _ => Url_default end, h1, w1)
    | (Throw _, (h1, w1)) => (Url_default, h1, w1)
    end in
  ∃ n h2, item_write echo (PutWrite (put_user_request "42")) (helper_abc, mkUp 0) =
      pass_on (echo (FixedClient n) (PutWrite (put_user_request "42"))) (h2, w1) ∧
    (ResolveEndpoint (W := service_up) (FixedClient n) (h2, w1)).1 = Ok (Some (c_str (Url_ToString u))) ∧
    helper_nodes h2 = helper_nodes h1 ∧ clients_ok h2.
Proof.
  assert (match (write_plan (PutWrite (put_user_request "42")) (helper_abc, mkUp 0)).1 with
    | Ok plan => match (QueryPlan_Next plan).1 with Ok u => Url_Empty u = false | Throw _ => False end
    | Throw _ => False
    end) as Hu by by vm_compute.
  assert (clients_ok helper_abc) as Hc by apply map_Forall_empty.
  destruct (write_plan (PutWrite (put_user_request "42")) (helper_abc, mkUp 0))
    as [[plan|e] [h1 w1]] eqn:E; cbn [fst] in Hu; [|contradiction Hu].
  destruct (QueryPlan_Next plan).1 as [u|e] eqn:En; [|contradiction Hu].
  exact (write_goes_to_the_plan_head echo (PutWrite (put_user_request "42")) helper_abc (mkUp 0)
    plan h1 w1 u Hc E En Hu).
Defined.

(** C6. An attempt is reported for the node it was sent to: when an Alternator
    request is made, the request the delegate gets is addressed to the selected
    node, and the node's health is updated with what came back, after
    decoding. A response that cannot be decoded is not reported at all: the
    exception leaves the call. Either way the invariant of the live nodes is
    kept. *)
Theorem attempt_is_reported_where_sent {W : Type} `{AwsHttpLaws} `{World W}
    (delegate : option aws_request → W → option aws_response * W) (client : AlternatorHttpClient)
    (request : aws_request) (s : AlternatorLiveNodes) (w : W) (node : Url)
    (prepared : option aws_request) (s1 : AlternatorLiveNodes) (w1 : W) :
  c_str (GetHost (GetUri request)) = GetHost (GetUri request) →
  prepare_attempt client (Some request) (s, w) = (Ok (node, prepared), (s1, w1)) →
  Url_Empty node = false → c_str (url_host node) = url_host node →
  ∃ sent, prepared = Some sent ∧
    GetScheme (GetUri sent) = AwsScheme (url_scheme node) ∧
    UnbracketHost (GetHost (GetUri sent)) = UnbracketHost (url_host node) ∧
    GetPort (GetUri sent) = url_port node ∧
    (live_inv s → live_inv (MakeRequest delegate client (Some request) (s, w)).2.1) ∧
    MakeRequest delegate client (Some request) (s, w) =
    let '(response, w2) := delegate (Some sent) w1 in
    match DecodeCompressedAwsResponse sent response (client_decoders client) with
    | Throw e => (Throw e, (s1, w2))
    | Ok decoded =>
        (Ok decoded, (ReportNodeResult node (ObservationFromHttpResult decoded) (s1, w2)).2)
    end.
Proof.
  intros Hh E Hne Hn. destruct (prepare_attempt_sent _ _ _ _ _ _ _ Hh E Hne Hn) as (r & -> & Hscheme & Hhost & Hport).
  exists r. split_and!; [done|done|done|done| |by apply MakeRequest_eq].
  apply (MakeRequest_keeps live_inv live_inv_stable delegate client (Some request) (s, w)).
Qed.

(** The helper's client with the default configuration, and a platform client
    that answers 503 and writes down where it was sent. *)
Definition plain_client : AlternatorHttpClient :=
  mkHttpClient 8080 None "" [] "" (mkPolicy false ∅).
Definition unavailable (request : option aws_request) (w : script) : option aws_response * script :=
  (Some (mkSdkResponse false 503 [] (stringstream "")),
   mkScript (script_time w) (script_http w)
     (script_log w ++ [match request with Some r => GetHost (GetUri r) | None => "" end])).

Definition attempt_request (host header : string) : aws_request :=
  mkSdkRequest (mkSdkUri HTTP host 8080) [("host", host); ("amz-sdk-request", header)] None.
Definition override_request : aws_request :=
  attempt_request kEndpointOverrideHost "attempt=1; max=11".

Lemma attempt_is_reported_where_sent_witness :
  let '(node, prepared, s1, w1) :=
    match prepare_attempt plain_client (Some override_request) (abc, abc_world) with
    | (Ok (node, prepared), (s1, w1)) => (node, prepared, s1, w1)
    | (Throw _, (s1, w1)) => (Url_default, None, s1, w1)
    end in
  node = RoutingProperties.node "a" ∧
  ∃ sent, prepared = Some sent ∧
    GetScheme (GetUri sent) = AwsScheme (url_scheme node) ∧
    UnbracketHost (GetHost (GetUri sent)) = UnbracketHost (url_host node) ∧
    GetPort (GetUri sent) = url_port node ∧
    (live_inv abc → live_inv
       (MakeRequest unavailable plain_client (Some override_request) (abc, abc_world)).2.1) ∧
    MakeRequest unavailable plain_client (Some override_request) (abc, abc_world) =
    let '(response, w2) := unavailable (Some sent) w1 in
    match DecodeCompressedAwsResponse sent response (client_decoders plain_client) with
    | Throw e => (Throw e, (s1, w2))
    | Ok decoded =>
        (Ok decoded, (ReportNodeResult node (ObservationFromHttpResult decoded) (s1, w2)).2)
    end.
Proof.
  destruct (prepare_attempt plain_client (Some override_request) (abc, abc_world))
    as [[[node prepared]|e] [s1 w1]] eqn:E; [|by vm_compute in E].
  assert (node = RoutingProperties.node "a") as En
    by (vm_compute in E; by injection E as <- _ _ _).
  split; [done|].
  apply (attempt_is_reported_where_sent unavailable plain_client override_request abc abc_world
    node prepared s1 w1); [done|exact E|by rewrite En|by rewrite En].
Defined.

(** Requests to other services pass untouched: a request whose endpoint is
    neither the override endpoint nor a live node reaches the delegate as it
    is, its response is returned as it is, and the live nodes do not change. *)
Theorem foreign_requests_pass_untouched {W : Type} `{AwsHttp} `{World W}
    (delegate : option aws_request → W → option aws_response * W) (client : AlternatorHttpClient)
    (request : aws_request) (s : AlternatorLiveNodes) (w : W) :
  IsAlternatorEndpoint (GetUri request) s (endpoint_override_port client) = false →
  MakeRequest delegate client (Some request) (s, w) =
  let '(response, w') := delegate (Some request) w in (Ok response, (s, w')).
Proof.
  intros E. unfold MakeRequest, prepare_attempt, SelectAttemptNode, mbind, M_bind, gets.
  cbn [fst]. rewrite E. cbn [negb mret M_ret]. unfold on_world, finish_attempt.
  change (Url_Empty Url_default) with true. cbn [mret M_ret]. by destruct (delegate (Some request) w).
Qed.

Lemma foreign_requests_pass_untouched_witness :
  MakeRequest unavailable plain_client (Some (attempt_request "s3.example.com" "attempt=2; max=3"))
    (abc, abc_world) =
  let '(response, w') := unavailable (Some (attempt_request "s3.example.com" "attempt=2; max=3"))
    abc_world in (Ok response, (abc, w')).
Proof. apply foreign_requests_pass_untouched. by vm_compute. Defined.

(** C7. Retries fail over: as long as some active node can be reached, the
    retries of a call get through to a node after at most as many failed
    attempts as there are unreachable nodes on offer, because the first failure
    of a node takes it off offer; whatever the node it is, the object keeps its
    invariant. *)
Theorem retries_reach_a_node {W : Type} `{World W} `{AwsHttpLaws}
    (delegate : option aws_request → W → option aws_response * W) (client : AlternatorHttpClient)
    (up : Url → bool) (requests : list aws_request) (s : AlternatorLiveNodes) (w : W) (good : Url) :
  live_inv s → disabled (node_health (config_ s)) = false → client_compressor client = None →
  (∀ r w node, sent_to r node →
    ∃ decoded, DecodeCompressedAwsResponse r (delegate (Some r) w).1 (client_decoders client) = Ok decoded ∧
      (ObservationFromHttpResult decoded = ConnectionFailure ↔ up node = false)) →
  Forall (λ r, IsAlternatorEndpoint (GetUri r) s (endpoint_override_port client) = true ∧
    IsFirstSdkAttempt r = false) requests →
  (∀ u, stored (health_store_ s) u → Url_Empty u = false ∧ c_str (url_host u) = url_host u) →
  good ∈ GetActiveNodes s → up good = true →
  (length (filter (λ u, up u = false) (GetActiveNodes s ++ GetQuarantinedNodes s)) < length requests)%nat →
  ∃ response σ, sdk_attempts delegate client requests (s, w) = (Ok response, σ) ∧
    ObservationFromHttpResult response ≠ ConnectionFailure ∧ live_inv σ.1.
Proof.
  intros Hs Hd Hcomp Hup Hr Hk Hg Hgu Hlen.
  destruct (sdk_attempts_reach delegate client Hcomp up Hup s requests s w good)
    as (response & σ & E & Ho & Hσ);
    [by apply same_nodes_refl|by rewrite (li_config s Hs)|done..|].
  exists response, σ. split_and!; [done|done|apply Hσ].
Qed.

(** Only node c can be reached. *)
Definition only_c (request : option aws_request) (w : script) : option aws_response * script :=
  (match request with
   | Some r => if bool_decide (UnbracketHost (GetHost (GetUri r)) = "c")
               then Some (mkSdkResponse false 200 [] (stringstream "")) else None
   | None => None
   end, w).
Definition later_attempts : list aws_request :=
  map (λ n, attempt_request kEndpointOverrideHost ("attempt=" +:+ n +:+ "; max=4")) ["2"; "3"; "4"].

Lemma retries_reach_a_node_witness :
  (sdk_attempts only_c plain_client (take 1 later_attempts) (abc, abc_world)).1 = Ok None ∧
  ∃ response σ, sdk_attempts only_c plain_client later_attempts (abc, abc_world) = (Ok response, σ) ∧
    ObservationFromHttpResult response ≠ ConnectionFailure ∧ live_inv σ.1.
Proof.
  split; [by vm_compute|].
  apply (retries_reach_a_node only_c plain_client
    (λ u, bool_decide (UnbracketHost (url_host u) = "c")) later_attempts abc abc_world (node "c")).
  - apply abc_inv.
  - done.
  - done.
  - intros r w node (_ & Hh & _). unfold only_c. cbn [fst]. rewrite Hh.
    case_bool_decide; eexists; (split; [done|]); done.
  - repeat constructor; by vm_compute.
  - intros u Hu. assert (u ∈ known_nodes (health_store_ abc)) as Hin
      by (apply elem_of_known_nodes; [apply abc_inv|exact Hu]).
    assert (known_nodes (health_store_ abc) = three_nodes) as Ek by by vm_compute.
    rewrite Ek in Hin. clear Hu Ek.
    repeat (apply elem_of_cons in Hin as [->|Hin]; [done|]). by apply elem_of_nil in Hin.
  - assert (GetActiveNodes abc = three_nodes) as -> by by vm_compute. set_solver.
  - done.
  - apply Nat.ltb_lt. by vm_compute.
Defined.

(** C25. Only allowed headers leave the process: with header optimization on,
    every header of the request that the delegate gets for an attempt for which
    a node was selected is on the list, those that the client itself adds for
    compression and routing included.  Attempts for which none was (requests to
    other services, and requests when no node is available) pass untouched and
    are not covered; header names must not contain NUL. *)
Theorem only_allowed_headers_are_sent {W : Type} `{AwsHttpLaws} `{World W}
    (client : AlternatorHttpClient) (request : aws_request) (s : AlternatorLiveNodes) (w : W)
    (node : Url) (sent : aws_request) (σ : AlternatorLiveNodes * W) :
  enabled (client_policy client) = true →
  Forall (λ h, c_str h.1 = h.1) (GetHeaders request) →
  prepare_attempt client (Some request) (s, w) = (Ok (node, Some sent), σ) →
  Url_Empty node = false →
  ∀ h, h ∈ GetHeaders sent → ToLowerAscii (c_str h.1) ∈ allowed_headers (client_policy client).
Proof.
  intros Ee Hc E Hne h Hh.
  apply (bool_decide_eq_true_1 _), (prepare_attempt_allowed client request s w node sent σ Ee Hc E Hne h Hh).
Qed.

Definition lean_config : Config := {|
  port := 8080; scheme := "http"; routing_scope := NewClusterScope;
  aws_region := "default-alb-region"; credentials := mkCredentials "" "";
  nodes_list_update_period := 1000; idle_nodes_list_update_period := 60000;
  http_client_timeout := 0; connect_timeout := 1000;
  verify_ssl := true; ca_file := ""; client_certificate_file := "";
  client_private_key_file := "";
  tls_session_cache_enabled := true; tls_session_cache_size := 1024;
  tls_session_timeout := 86400;
  max_connections := 100; reuse_discovery_connections := true;
  request_compressor := Some (GzipRequestCompressor 4);
  content_encoding_decoders := [];
  user_agent := ""; header_optimization := Some DefaultHeaderOptimization;
  node_health := default_health_config;
  key_route_affinity := mkAffinityConfig KRA_None ∅ 3 100;
|}.
Definition lean_client : AlternatorHttpClient :=
  mkHttpClient 8080 (request_compressor lean_config) "gzip" [] "" (BuildHeaderOptimizationPolicy lean_config).

Lemma only_allowed_headers_are_sent_witness :
  let '(node, sent) :=
    match prepare_attempt lean_client (Some (post_request "hello")) (abc, abc_world) with
    | (Ok (node, Some sent), _) => (node, sent)
    | _ => (Url_default, post_request "")
    end in
  map fst (GetHeaders sent) = ["content-length"; "content-encoding"; "host"] ∧
  ∀ h, h ∈ GetHeaders sent → ToLowerAscii (c_str h.1) ∈ allowed_headers (client_policy lean_client).
Proof.
  destruct (prepare_attempt lean_client (Some (post_request "hello")) (abc, abc_world))
    as [[[node [sent|]]|e] σ] eqn:E; [|by vm_compute in E..].
  split; [vm_compute in E; by injection E as _ <- _|].
  apply (only_allowed_headers_are_sent lean_client (post_request "hello") abc abc_world node sent σ);
    [done| |exact E|by vm_compute in E; injection E as <- _ _].
  repeat constructor.
Defined.

(** Retries ten to nineteen do not move on: the attempt number is tested by
    its first digit, so any attempt whose number starts with 1 counts as the
    first, goes to the node it was resolved for and moves no state. *)
Theorem attempts_ten_to_nineteen_stay {W : Type} `{AwsHttp} `{World W} (request : aws_request)
    (rest : string) (port : N) (s : AlternatorLiveNodes) (w : W) :
  HasHeader SDK_REQUEST_HEADER request = true →
  GetHeaderValue SDK_REQUEST_HEADER request = "attempt=1" +:+ rest →
  IsAlternatorEndpoint (GetUri request) s port = true →
  SameEndpointHost (c_str (GetHost (GetUri request))) kEndpointOverrideHost = false →
  SelectAttemptNode (Some request) port (s, w) =
  (Ok (UrlFromAwsUri (GetUri request), Some request), (s, w)).
Proof.
  intros Hh Ev Ea Eo. unfold SelectAttemptNode, mbind, M_bind, gets. cbn [fst]. rewrite Ea. cbn [negb].
  assert (IsFirstSdkAttempt request = true) as -> by (unfold IsFirstSdkAttempt; by rewrite Hh, Ev).
  unfold UrlFromAwsUri. cbn [url_host Url_make]. by rewrite Eo.
Qed.

Lemma attempts_ten_to_nineteen_stay_witness :
  SelectAttemptNode (Some (attempt_request "b" "attempt=10; max=11")) 8080 (abc, abc_world) =
  (Ok (UrlFromAwsUri (GetUri (attempt_request "b" "attempt=10; max=11")),
       Some (attempt_request "b" "attempt=10; max=11")), (abc, abc_world)).
Proof.
  apply (attempts_ten_to_nineteen_stay _ "0; max=11"); [done|done|by vm_compute|by vm_compute].
Defined.

(** ** The retry hook *)



