(* ===== verification/NetworkProperties.v ===== *)
(** Properties of the live nodes together with the default HTTP client, over
    sockets and over libcurl, each with a concrete instance of its hypotheses. *)
From S2P Require Import Prelude Uri Effects Streams RoutingScope NodeHealth QueryPlan.
From S2P Require Import KeyRouteAffinity HttpCompression Config SocketClient HttpMessages.
From S2P Require Import ScriptedSockets CurlClient LocalNodesJson LiveNodes LiveNodesRefresh.
From S2P Require Import BackgroundThread LiveNodesWorld LiveNodesHttp RoutingProperties.

(** ** A scripted network *)

#[local] Instance peer_clocks : Clocks peer := {
  steady_clock p := (0, p);
  high_resolution_clock p := (0, p);
}.

#[local] Opaque interrupts_left.

(** Every connection gets the same answer. *)
Definition loopback : addrinfo := mkAddrinfo 2 1 6 "127.0.0.1".
Record steady_peer (text : string) (signals : nat) (p : peer) : Prop := {
  sp_addresses : addresses p = [(loopback, true)];
  sp_next : 0 <= next_fd p ∧ ∀ fd, fd ∈ fds p → fd < next_fd p;
  sp_reply fd : next_fd p <= fd → reply p fd = text;
  sp_signals : (interrupts_left (sends p) + interrupts_left (recvs p) <= signals)%nat;
}.
Definition peer_serving text signals (ph : phase) (p : peer) : Prop :=
  steady_peer text signals p ∧
  match ph with
  | Idle => True
  | Made fd | Sending fd _ => fd < next_fd p ∧ reply p fd = text
  | Receiving fd => fd < next_fd p
  end.

Lemma steady_send text signals fd data p :
  steady_peer text signals p →
  steady_peer text signals (peer_send fd data p).2 ∧
  next_fd (peer_send fd data p).2 = next_fd p ∧ reply (peer_send fd data p).2 = reply p ∧
  ∀ errno, (peer_send fd data p).1 = Failed errno → errno = EINTR.
Proof.
  intros [Ha Hn Hr Hs]. unfold peer_send.
  pose proof (next_size_spec (String.length data) (sends p)) as Hsz.
  destruct (next_size _ _) as [[n|] script]; [destruct Hsz as (_ & _ & Hsz)|];
    cbn; (split_and!; [|done|done|by intros ? [= ->]]); split; cbn; try done; try lia.
Qed.
Lemma steady_recv text signals fd n p :
  steady_peer text signals p → fd < next_fd p →
  steady_peer text signals (peer_recv fd n p).2 ∧
  next_fd (peer_recv fd n p).2 = next_fd p ∧
  ∀ errno, (peer_recv fd n p).1 = Failed errno → errno = EINTR.
Proof.
  intros [Ha Hn Hr Hs] Hfd. unfold peer_recv.
  pose proof (next_size_spec (Nat.min n (String.length (reply p fd))) (recvs p)) as Hsz.
  destruct (next_size _ _) as [[k|] script]; [destruct Hsz as (_ & _ & Hsz)|];
    cbn; (split_and!; [|done|by intros ? [= ->]]); split; cbn; try done; try lia.
  intros fd' Hfd'. rewrite bool_decide_eq_false_2 by lia. by apply Hr.
Qed.

#[local, program] Instance peer_is_serving text signals : Serving (W := peer) (λ _, text) signals := {
  serving := peer_serving text signals;
  up addr := addr = "127.0.0.1";
}.
Next Obligation. done. Qed.
Next Obligation.
  intros text signals host service family socktype w [Hw _]. cbn.
  rewrite (sp_addresses _ _ _ Hw). by exists loopback, [], w.
Qed.
Next Obligation.
  intros text signals family socktype protocol w [[Ha [Hn0 Hn] Hr Hs] _]. cbn.
  rewrite bool_decide_eq_false_2 by (intros Hin; specialize (Hn _ Hin); lia).
  destruct (Z.ltb_spec (next_fd w) 0); [lia|]. cbn.
  eexists _, _. split_and!; [done|done|]. split.
  - split; cbn; [done| |intros; apply Hr; lia|done]. split; [lia|].
    intros fd [->%elem_of_singleton|Hin]%elem_of_union; [lia|]. specialize (Hn _ Hin). lia.
  - split; cbn; [lia|]. by apply Hr.
Qed.
Next Obligation.
  intros text signals fd addr w [Hw Hfd] ->. exists w. cbn.
  rewrite (sp_addresses _ _ _ Hw). done.
Qed.
Next Obligation. done. Qed.
Next Obligation.
  intros text signals fd sofar data w [Hw [Hfd Hr]]. cbn.
  destruct (steady_send text signals fd data w Hw) as (Hw' & En & Er & He).
  destruct (peer_send fd data w) as [[n|errno] w']; cbn in *.
  - split; [done|]. by rewrite En, Er.
  - split; [by apply He|]. split; [done|]. by rewrite En, Er.
Qed.
Next Obligation. intros text signals fd sofar w [Hw [Hfd Hr]]. cbn. by split; [split|]. Qed.
Next Obligation.
  intros text signals fd n w [Hw Hfd]. cbn.
  destruct (steady_recv text signals fd n w Hw Hfd) as (Hw' & En & He).
  destruct (peer_recv fd n w) as [[c|errno] w']; cbn in *; (split; [split; [done|by rewrite En]|]);
    [done|by apply He].
Qed.
Next Obligation.
  intros text signals fd w [[Ha [Hn0 Hn] Hr Hs] Hfd]. split; [|done]. split; cbn; [done| |done|done].
  split; [done|]. intros fd' Hin. apply Hn. set_solver.
Qed.
Next Obligation. intros text signals p w [[] _]. done. Qed.
#[local] Transparent interrupts_left.

(** ** Descriptors and handles *)

(** C23. Over the socket client, the live nodes leave no descriptor open: after
    any sequence of calls and of moves of the background thread, whatever
    discovery and probing came to, the open descriptors are those from
    before. *)
Theorem discovery_leaks_no_descriptor {W : Type} `{SocketLaws W} `{Clocks W} fuel config
    (s : AlternatorLiveNodes) (w : W) (os : list operation) :
  (∀ w, open_fds (steady_clock w).2 = open_fds w) →
  (∀ w, open_fds (high_resolution_clock w).2 = open_fds w) →
  open_fds (foldl (@perform _ (socket_world fuel config)) (s, w) os).2 = open_fds w.
Proof.
  intros Hst Hhi. apply (@performs_keep _ (socket_world fuel config) (λ w', open_fds w' = open_fds w)); [..|done].
  - intros w' <-. apply Hst.
  - intros w' <-. apply Hhi.
  - intros url w' Hw. pose proof (Get_open (open_fds w) fuel config url w' Hw) as Ho. cbn.
    by destruct (SocketHttpClient_Get fuel config url w').
Qed.

(** Over the libcurl client, the live nodes leave no handle behind: when
    the client is destroyed after any sequence of calls and of moves of the
    background thread, the handles are those from before it was made. *)
Theorem discovery_releases_handles {W : Type} `{CurlLaws W} `{Clocks W} config
    (s : AlternatorLiveNodes) (once : bool) (w : W) (os : list operation) :
  (∀ w, handles (steady_clock w).2 = handles w) →
  (∀ w, handles (high_resolution_clock w).2 = handles w) →
  let client := (CurlHttpClient_make (mkCurlState None once, w)).2 in
  let σ := (foldl (@perform _ (curl_world config)) (s, client) os).2 in
  handles (CurlHttpClient_destroy σ).2.2 = handles w.
Proof.
  intros Hst Hhi client σ. assert (owns (handles w) σ) as Ho.
  { apply (@performs_keep _ (curl_world config) (owns (handles w))).
    - intros [c w'] Hw. cbn. specialize (Hst w'). destruct (steady_clock w'). unfold owns in *. cbn in *.
      by rewrite Hst.
    - intros [c w'] Hw. cbn. specialize (Hhi w'). destruct (high_resolution_clock w').
      unfold owns in *. cbn in *. by rewrite Hhi.
    - intros url σ' Hw. pose proof (Get_owns (handles w) config url σ' Hw) as Hg. cbn.
      by destruct (CurlHttpClient_Get config url σ').
    - by apply (EnsureCurlInitialized_owns (handles w) (_, w)). }
  apply destroy_owns in Ho. destruct (CurlHttpClient_destroy σ) as [r [s' w']]. apply Ho.
Qed.

(** ** A refresh over the network *)

(** What a node serves: a 200 response without content coding whose content is a
    JSON array of hosts, or something discovery takes no hosts from. *)
Definition serves (decoders : list (option HttpContentEncodingDecoder)) (text : string)
    (served : option (list string)) : Prop :=
  match served with
  | Some hosts => ∃ reason headers content,
      text = render_response (render_status_line "1.1" 200 reason :: headers) content ∧
      text_line (render_status_line "1.1" 200 reason) ∧ Forall text_line headers ∧
      ParseContentEncodings (foldl (header_step "content-encoding") "" headers) = [] ∧
      js_array content hosts
  | None => ∀ resp hosts, ParseHttpResponse text decoders = Ok resp → status_code resp = 200 →
      ¬ js_array (body resp) hosts
  end.

Lemma serves_hosts decoders text served :
  serves decoders text served → hosts_of (outcome_of (ParseHttpResponse text decoders)) = served.
Proof.
  destruct served as [hosts|]; cbn.
  - intros (reason & headers & content & -> & Hl & Hh & Ep & Hj%parse_iff_grammar).
    rewrite ParseHttpResponse_rendered by done. unfold DecodeHttpResponseBody. rewrite Ep.
    cbn. by rewrite Hj.
  - intros Hn. destruct (ParseHttpResponse text decoders) as [resp|e]; [|done]. cbn.
    destruct (Z.eqb_spec (status_code resp) 200) as [E|E]; [|done].
    destruct (ParseJsonStringArray (body resp)) as [hosts|] eqn:Ej; [|done].
    by apply parse_iff_grammar, (Hn resp hosts eq_refl E) in Ej.
Qed.

(** C16. A refresh works end to end, from the bytes on the sockets to the health
    store: over a network whose exchanges succeed, with a cluster-wide scope,
    when some initial node serves a host, the refresh returns without an
    exception and installs exactly the nodes that the initial nodes serve, in
    the live list and in the health store, skipping nodes that serve errors or
    nonsense. *)
Theorem refresh_over_sockets {W : Type} `{SocketLaws W} `{!Clocks W} (answer : string → string)
    (signals : nat) `{!Serving answer signals} fuel s (w : W)
    (served : Url → option (list string)) :
  let config := config_ s in
  clean s → routing_scope config = Some ClusterScope →
  Forall (λ node, node_url node ∧ url_scheme node = "http") (initial_nodes_ s) →
  Z.of_nat (length (initial_nodes_ s)) < 2 ^ 31 →
  (∀ node, node ∈ initial_nodes_ s →
    ∃ request, request_text config (WithPathAndQuery node "/localnodes" "") = Ok request ∧
      (String.length request + signals <= fuel)%nat ∧
      (String.length (answer request) + signals < fuel)%nat ∧
      serves (content_encoding_decoders config) (answer request) (served node)) →
  (∀ node hosts, node ∈ initial_nodes_ s → served node = Some hosts → Forall plain_host hosts) →
  (∃ node host hosts, node ∈ initial_nodes_ s ∧ served node = Some hosts ∧ host ∈ hosts) →
  serving Idle w →
  ∃ s' w', @UpdateLiveNodes _ (socket_world fuel config) (s, w) = (Ok tt, (s', w')) ∧
    live_inv s' ∧ (∀ u, stored (health_store_ s') u ↔ u ∈ live_nodes_ s') ∧
    ∀ u, u ∈ live_nodes_ s' ↔ ∃ node hosts host, node ∈ initial_nodes_ s ∧
      served node = Some hosts ∧ host ∈ hosts ∧ u = Url_make (scheme config) host (port config).
Proof.
  intros config Hcl Er Hn Hl Hreq Hplain Hex Hw.
  assert (∀ u, named_by served config (initial_nodes_ s) u ↔ ∃ node hosts host,
    node ∈ initial_nodes_ s ∧ served node = Some hosts ∧ host ∈ hosts ∧
    u = Url_make (scheme config) host (port config)) as Hnamed.
  { intros u. unfold named_by, ToUrls. setoid_rewrite elem_of_SortAndDedupe.
    setoid_rewrite list_elem_of_fmap. naive_solver. }
  destruct (@refresh_collects _ (socket_world fuel config) (serving Idle)
    (λ w Hw, proj1 (serving_clocks w Hw)) (λ w Hw, proj2 (serving_clocks w Hw))
    ClusterScope eq_refl (initial_nodes_ s) served) with (s := s) (w := w)
    as (s' & w' & E & Hs' & Ht' & Hl'); try done.
  - intros node w0 Hnode Hw0. destruct (Hreq node Hnode) as (request & Et & Hf1 & Hf2 & Hs).
    rewrite Forall_forall in Hn. destruct (Hn node Hnode) as [_ Hsch].
    destruct (Get_served answer signals fuel config (localnodes_of ClusterScope node) request w0)
      as (w1 & Eg & Hw1); try done.
    cbn. unfold config in *. rewrite Eg. split; [by apply serves_hosts|done].
  - eapply Forall_impl; [exact Hn|]. by intros u [].
  - destruct Hex as (node & host & hosts & Hex). eexists. apply Hnamed. exists node, hosts, host. naive_solver.
  - exists s', w'. split_and!; [done..|]. intros u. rewrite Hl'. apply Hnamed.
Qed.

(** *** Concrete networks *)

(** A node's answer: the cluster has nodes b and d. *)
Definition bd_text : string :=
  render_response [render_status_line "1.1" 200 "OK"; "Server: x"]
    ("[" +:+ quoted "b" +:+ ", " +:+ quoted "d" +:+ "]").
Definition bd_network : peer :=
  mkPeer [(loopback, true)] [1%nat; 0%nat; 2%nat] [3%nat; 0%nat] {[1; 2]} 5 (λ _, "") (λ _, bd_text).
Definition abc_refresh : list operation :=
  [CallNextNode; CallUpdateLiveNodes; ThreadMoves false Entry; CallProbeDownNodes].

Lemma discovery_leaks_no_descriptor_witness :
  live_nodes_ (foldl (@perform _ (socket_world 300 default_config)) (abc, bd_network) abc_refresh).1 =
    [node "b"; node "d"] ∧
  open_fds (foldl (@perform _ (socket_world 300 default_config)) (abc, bd_network) abc_refresh).2 =
    open_fds bd_network.
Proof.
  split; [by vm_compute|]. by apply (discovery_leaks_no_descriptor 300 default_config abc bd_network).
Defined.

#[local] Instance curl_script_clocks : Clocks curl_script := {
  steady_clock w := (0, w);
  high_resolution_clock w := (0, w);
}.
Definition bd_curl : curl_script :=
  let reply := (CURLE_OK, [BodyPiece ("[" +:+ quoted "b" +:+ "]") 1 5]) in
  mkCurlScript [reply; reply; reply] 1 {[7]} (λ _, []).

Lemma discovery_releases_handles_witness :
  let client := (CurlHttpClient_make (mkCurlState None false, bd_curl)).2 in
  let σ := (foldl (@perform _ (curl_world default_config)) (abc, client) abc_refresh).2 in
  bool_decide (handles σ.2 = handles bd_curl) = false ∧
  handles (CurlHttpClient_destroy σ).2.2 = handles bd_curl.
Proof.
  split; [by vm_compute|]. by apply (discovery_releases_handles default_config abc false bd_curl).
Defined.

Lemma abc_clean : clean abc.
Proof.
  apply (clean_make ["a"; "b"; "c"] default_config abc_world abc
    (made ["a"; "b"; "c"] default_config abc_world).2); [apply default_health_u32| |by vm_compute].
  repeat constructor; by vm_compute.
Qed.
Lemma bd_serves : serves (content_encoding_decoders default_config) bd_text (Some ["b"; "d"]).
Proof.
  exists "OK", ["Server: x"], ("[" +:+ quoted "b" +:+ ", " +:+ quoted "d" +:+ "]").
  split_and!; [done|by vm_compute| |by vm_compute|].
  - repeat constructor; by vm_compute.
  - apply parse_iff_grammar. by vm_compute.
Qed.
Lemma bd_serving : @serving _ _ _ _ _ _ (peer_is_serving bd_text 2) Idle bd_network.
Proof.
  split; [|done]. split; [done| |done|by apply Nat.leb_le].
  split; [done|]. intros fd. change (fds bd_network) with ({[1; 2]} : gset Z). set_unfold. cbn. lia.
Qed.

Lemma refresh_over_sockets_witness :
  ∃ s' w', @UpdateLiveNodes _ (socket_world 300 default_config) (abc, bd_network) = (Ok tt, (s', w')) ∧
    live_inv s' ∧ (∀ u, stored (health_store_ s') u ↔ u ∈ live_nodes_ s') ∧
    ∀ u, u ∈ live_nodes_ s' ↔ ∃ node hosts host, node ∈ initial_nodes_ abc ∧
      Some ["b"; "d"] = Some hosts ∧ host ∈ hosts ∧
      u = Url_make (scheme default_config) host (port default_config).
Proof.
  apply (refresh_over_sockets (λ _, bd_text) 2 300 abc bd_network (λ _, Some ["b"; "d"])).
  - apply abc_clean.
  - done.
  - repeat constructor; by vm_compute.
  - by vm_compute.
  - intros n Hn. exists (default "" (match request_text default_config (WithPathAndQuery n "/localnodes" "") with
      Ok r => Some r | Throw _ => None end)).
    assert (n ∈ [node "a"; node "b"; node "c"]) as Hn' by exact Hn. clear Hn.
    repeat (apply elem_of_cons in Hn' as [->|Hn']); [..|by apply elem_of_nil in Hn'];
      (split_and!; [done|by apply Nat.leb_le|by apply Nat.leb_le|apply bd_serves]).
  - intros n hosts _ [= <-]. repeat constructor; by vm_compute.
  - exists (node "a"), "b", ["b"; "d"]. split_and!; [by left|done|by left].
  - apply bd_serving.
Defined.

(** ** Fallback scopes *)

(** C17. A refresh follows the chain of scopes: when some node is active, every
    node that can be asked (initial, active or quarantined) replies with hosts
    without brackets, none of them names a host for the scopes before [scope],
    and all of them do for [scope], the refresh passes over the former and
    installs nodes that were named for [scope], with the configured scheme and
    port, and only those.  Without active or quarantined nodes the narrower
    scopes would ask nobody, and an error of one node would keep the refresh from
    falling back; neither is covered. *)
Theorem scopes_fall_back {W : Type} `{World W} (Q : W → Prop)
    (answers : RoutingScope → Url → list string) s (w : W) before scope rest :
  let nodes := initial_nodes_ s ++ GetActiveNodes s ++ GetQuarantinedNodes s in
  (∀ w, Q w → Q (steady_now w).2 ∧ Q (high_resolution_now w).2) →
  (∀ sc node w, node ∈ nodes → Q w →
    let '(out, w') := http_get (WithPathAndQuery node "/localnodes" (LocalNodesQuery sc)) w in
    hosts_of out = Some (answers sc node) ∧ Q w') →
  clean s → GetActiveNodes s ≠ [] → Forall node_url nodes → Z.of_nat (length nodes) < 2 ^ 31 →
  (∀ sc node, node ∈ nodes → Forall plain_host (answers sc node)) →
  scope_chain (routing_scope (config_ s)) = before ++ scope :: rest →
  (∀ sc node, sc ∈ before → node ∈ nodes → answers sc node = []) →
  (∀ node, node ∈ nodes → answers scope node ≠ []) → Q w →
  ∃ s' w', UpdateLiveNodes (s, w) = (Ok tt, (s', w')) ∧ live_inv s' ∧ live_nodes_ s' ≠ [] ∧
    (∀ u, stored (health_store_ s') u ↔ u ∈ live_nodes_ s') ∧
    ∀ u, u ∈ live_nodes_ s' → ∃ node host, node ∈ nodes ∧ host ∈ answers scope node ∧
      u = Url_make (scheme (config_ s)) host (port (config_ s)).
Proof.
  intros nodes Hclocks Hget Hcl Ha Hn Hl Hp Ec Hempty Hfull Hw. pose proof Hcl as (Hs & Ht & Hln).
  assert (∃ l s1 w1, FetchLiveNodes (s, w) = (Ok l, (s1, w1)) ∧ l ≠ [] ∧
    ∀ u, u ∈ l → named_for nodes answers s scope u) as (l & s1 & w1 & E & Hne & Hnamed).
  { unfold FetchLiveNodes, gets, mbind at 1, M_bind at 1. cbn [fst]. rewrite Ec.
    apply (fetch_falls_back Q (λ w Hw, proj1 (Hclocks w Hw)) (λ w Hw, proj2 (Hclocks w Hw))
      nodes answers); try done.
    intros sc node w' Hin Hw'. specialize (Hget sc node w' Hin Hw').
    unfold localnodes_of. by destruct (http_get _ w'). }
  assert (Forall node_url l) as Hl'.
  { apply Forall_forall. intros u (node & host & Hin & Hh & ->)%Hnamed.
    apply node_url_make; [apply Hs|]. specialize (Hp scope node Hin). rewrite Forall_forall in Hp. auto. }
  destruct (UpdateLiveNodes_run s w l s1 w1) as (s2 & w2 & E2 & Hs2 & Ht2 & Hl2); try done.
  { apply key_inj_nodes. by apply Forall_app_2. }
  exists s2, w2. split_and!; [done|done|apply Hs2|done|]. intros u. rewrite Hl2, elem_of_SortAndDedupe.
  apply Hnamed.
Qed.

(** The rack has no nodes; the datacenter has b and d. *)
#[local] Instance empty_rack : World unit := {
  steady_now w := (0, w);
  high_resolution_now w := (0, w);
  http_get url w :=
    (HttpReply (mkResponse 200 (if bool_decide (url_query url = "dc=dc1&rack=r1") then "[]"
       else "[" +:+ quoted "b" +:+ ", " +:+ quoted "d" +:+ "]")), w);
}.
Definition rack_config : Config := {|
  port := 8080; scheme := "http";
  routing_scope := NewRackScope "dc1" "r1" (NewDCScope "dc1" NewClusterScope);
  aws_region := "default-alb-region"; credentials := mkCredentials "" "";
  nodes_list_update_period := 1000; idle_nodes_list_update_period := 60000;
  http_client_timeout := 0; connect_timeout := 1000;
  verify_ssl := true; ca_file := ""; client_certificate_file := "";
  client_private_key_file := "";
  tls_session_cache_enabled := true; tls_session_cache_size := 1024;
  tls_session_timeout := 86400;
  max_connections := 100; reuse_discovery_connections := true;
  request_compressor := None; content_encoding_decoders := [];
  user_agent := ""; header_optimization := None;
  node_health := default_health_config;
  key_route_affinity := mkAffinityConfig KRA_None ∅ 3 100;
|}.
Definition rack_answers (sc : RoutingScope) (_ : Url) : list string :=
  if bool_decide (LocalNodesQuery sc = "dc=dc1&rack=r1") then [] else ["b"; "d"].
Definition rack_abc : AlternatorLiveNodes := (made ["a"; "b"; "c"] rack_config abc_world).1.

Lemma rack_abc_clean : clean rack_abc.
Proof.
  apply (clean_make ["a"; "b"; "c"] rack_config abc_world rack_abc
    (made ["a"; "b"; "c"] rack_config abc_world).2); [apply default_health_u32| |by vm_compute].
  repeat constructor; by vm_compute.
Qed.

Lemma scopes_fall_back_witness :
  ∃ s' w', UpdateLiveNodes (rack_abc, tt) = (Ok tt, (s', w')) ∧ live_inv s' ∧ live_nodes_ s' ≠ [] ∧
    (∀ u, stored (health_store_ s') u ↔ u ∈ live_nodes_ s') ∧
    ∀ u, u ∈ live_nodes_ s' → ∃ node host,
      node ∈ initial_nodes_ rack_abc ++ GetActiveNodes rack_abc ++ GetQuarantinedNodes rack_abc ∧
      host ∈ rack_answers (DatacenterScope "dc1" NewClusterScope) node ∧
      u = Url_make (scheme (config_ rack_abc)) host (port (config_ rack_abc)).
Proof.
  apply (scopes_fall_back (λ _, True) rack_answers rack_abc tt
    [RackScope "dc1" "r1" (NewDCScope "dc1" NewClusterScope)] (DatacenterScope "dc1" NewClusterScope)
    [ClusterScope]).
  - done.
  - intros sc n w _ _. cbn. unfold rack_answers. case_bool_decide; (split; [by vm_compute|done]).
  - apply rack_abc_clean.
  - by vm_compute.
  - assert (initial_nodes_ rack_abc ++ GetActiveNodes rack_abc ++ GetQuarantinedNodes rack_abc =
      three_nodes ++ three_nodes) as -> by by vm_compute.
    apply Forall_app_2; apply three_nodes_url.
  - by vm_compute.
  - intros sc n _. unfold rack_answers. case_bool_decide; repeat constructor; by vm_compute.
  - done.
  - intros sc n ->%list_elem_of_singleton _. done.
  - done.
  - done.
Defined.

(** The same, but node c has no such path for the rack's query. *)
Definition stubborn_rack : World unit := {|
  steady_now w := (0, w);
  high_resolution_now w := (0, w);
  http_get url w :=
    if bool_decide (url_host url = "c" ∧ url_query url = "dc=dc1&rack=r1")
    then (HttpReply (mkResponse 404 ""), w) else @http_get _ empty_rack url w;
|}.

(** That all nodes reply is needed: one node that answers a scope with an error,
    while the others name no host for it, makes the refresh throw instead of
    trying the fallback, now and the next time, since an error below 500 does
    not count against the node. *)
Theorem one_bad_reply_blocks_the_fallback :
  let first := @UpdateLiveNodes _ stubborn_rack (rack_abc, tt) in
  let second := @UpdateLiveNodes _ stubborn_rack first.2 in
  first.1 = Throw (HttpStatusError
    "non-200 response from http://c:8080/localnodes?dc=dc1&rack=r1" 404) ∧
  second.1 = first.1 ∧ live_nodes_ second.2.1 = live_nodes_ rack_abc.
Proof. by vm_compute. Qed.
