(* ===== verification/HelperThreads.v ===== *)
(** The AWS SDK adapter as several threads see it (src/aws_dynamodb_helper.cpp,
    src/key_route_affinity.cpp): the member functions of [DynamoDBHelper] as
    programs of accesses to what threads share, with the mutexes they take, and
    the threads that learn partition keys.

    The state is the record of DynamoDBHelper.v with the world.  Three mutexes
    guard parts of it: that of [PartitionKeyMetadata] the key names, that of
    [PartitionKeyDiscoveryState] the set [in_progress] and the handles, and
    [fixed_clients_mutex_] the cache of clients.  The live nodes have mutexes
    of their own (LiveNodesThreads.v): a call to them is one access here, as are
    requests, clocks and sleeps.  The configuration does not change after
    construction and is a parameter of the programs.

    Every key name is read by a locked access of its own, as in the code, so
    that two reads in one operation may differ.  HelperAlone.v proves that
    each program, run alone, is the function of DynamoDBHelper.v. *)
From S2P Require Import Prelude Uri GoRandom Effects RoutingScope NodeHealth QueryPlan.
From S2P Require Import KeyRouteAffinity HttpCompression Config LocalNodesJson LiveNodes.
From S2P Require Import DynamoDBHelper AwsHttpClient HelperOperations.

Inductive helper_mutex := MetadataMutex | DiscoveryMutex | ClientsMutex.
#[global] Instance helper_mutex_eq_dec : EqDecision helper_mutex.
Proof. solve_decision. Defined.

(** What an access that is not one of the discovery state is to. *)
Inductive helper_region :=
  | KeyNames        (** [partition_key_by_table_] *)
  | ClientCache     (** [fixed_clients_] *)
  | Surroundings.   (** the live nodes, the SDK, the clocks *)

Abbreviation client_cache := (gmap string (Url * DynamoDBClient)).

Definition region_mutex (g : helper_region) : option helper_mutex :=
  match g with
  | KeyNames => Some MetadataMutex
  | ClientCache => Some ClientsMutex
  | Surroundings => None
  end.

Section programs.
Context {W : Type}.

Definition region_view (g : helper_region) : Type :=
  match g with
  | KeyNames => PartitionKeyMetadata
  | ClientCache => client_cache
  | Surroundings => AlternatorLiveNodes * W
  end.
Definition region_get (g : helper_region) (σ : DynamoDBHelper * W) : region_view g :=
  match g with
  | KeyNames => partition_keys_ σ.1
  | ClientCache => fixed_clients_ σ.1
  | Surroundings => (helper_nodes σ.1, σ.2)
  end.
Definition region_set (g : helper_region)
    : region_view g → DynamoDBHelper * W → DynamoDBHelper * W :=
  match g with
  | KeyNames => λ m σ, (set_partition_keys m σ.1, σ.2)
  | ClientCache => λ m σ, (set_fixed_clients m σ.1, σ.2)
  | Surroundings => λ v σ, (set_helper_nodes v.1 σ.1, v.2)
  end.

(** ** Programs

    The operations of [PartitionKeyDiscoveryState] are constructors of their
    own: [in_progress.insert] (was it new?), [in_progress.erase],
    [workers.emplace_back] (false: it threw), [workers.swap] with an empty
    vector, and joining a thread by its number. *)
Inductive hprog (A : Type) : Type :=
  | Fin (r : result A)
  | Access (g : helper_region) {B : Type} (f : region_view g → B * region_view g) (k : B → hprog A)
  | Lock (m : helper_mutex) (k : hprog A)
  | Unlock (m : helper_mutex) (k : hprog A)
  | InsertInProgress (table : string) (k : bool → hprog A)
  | EraseInProgress (table : string) (k : hprog A)
  | EmplaceWorker (table : string) (k : bool → hprog A)
  | SwapWorkers (k : list nat → hprog A)
  | JoinWorker (i : nat) (k : hprog A).
Arguments Fin {_} _.
Arguments Access {_} _ {_} _ _.
Arguments Lock {_} _ _.
Arguments Unlock {_} _ _.
Arguments InsertInProgress {_} _ _.
Arguments EraseInProgress {_} _ _.
Arguments EmplaceWorker {_} _ _.
Arguments SwapWorkers {_} _.
Arguments JoinWorker {_} _ _.

Fixpoint hcont {A B} (p : hprog A) (f : result A → hprog B) : hprog B :=
  match p with
  | Fin r => f r
  | Access g F k => Access g F (λ b, hcont (k b) f)
  | Lock m k => Lock m (hcont k f)
  | Unlock m k => Unlock m (hcont k f)
  | InsertInProgress table k => InsertInProgress table (λ b, hcont (k b) f)
  | EraseInProgress table k => EraseInProgress table (hcont k f)
  | EmplaceWorker table k => EmplaceWorker table (λ b, hcont (k b) f)
  | SwapWorkers k => SwapWorkers (λ l, hcont (k l) f)
  | JoinWorker i k => JoinWorker i (hcont k f)
  end.

#[global] Instance hprog_ret : MRet hprog := λ A a, Fin (Ok a).
#[global] Instance hprog_bind : MBind hprog := λ A B f p,
  hcont p (λ r, match r with Ok a => f a | Throw e => Fin (Throw e) end).

Definition htry {A} (p : hprog A) (handler : exn → hprog A) : hprog A :=
  hcont p (λ r, match r with Ok a => Fin (Ok a) | Throw e => handler e end).
Definition hcatch_invalid {A} (p handler : hprog A) : hprog A :=
  htry p (λ error, match error with InvalidArgument _ => handler | _ => Fin (Throw error) end).
(** [std::lock_guard]: released on every way out. *)
Definition locked {A} (m : helper_mutex) (p : hprog A) : hprog A :=
  Lock m (hcont p (λ r, Unlock m (Fin r))).
Definition access {B} (g : helper_region) (f : region_view g → B * region_view g) : hprog B :=
  Access g f (λ b, Fin (Ok b)).
(** A call that may throw. *)
Definition hcall_out {B} (m : M (AlternatorLiveNodes * W) B) : hprog B :=
  Access Surroundings m (λ r, Fin r).
Definition hcall_nodes {B} (m : M AlternatorLiveNodes B) : hprog B :=
  hcall_out (λ v, let '(r, n) := m v.1 in (r, (n, v.2))).

(** ** The discovery state *)

Definition insert_in_progress (table : string) (h : DynamoDBHelper) : bool * DynamoDBHelper :=
  if bool_decide (table ∈ in_progress h) then (false, h)
  else (true, set_discovery ({[ table ]} ∪ in_progress h) (workers h) h).
Definition push_worker (table : string) (h : DynamoDBHelper) : DynamoDBHelper :=
  set_discovery (in_progress h) (workers h ++ [table]) h.

(** A program on its own: nothing blocks, and the threads it starts wait.  What
    number a handle has does not matter then. *)
Fixpoint hrun {A} `{Sdk W} (p : hprog A) : M (DynamoDBHelper * W) A := λ σ,
  match p with
  | Fin r => (r, σ)
  | Access g f k => let '(b, v) := f (region_get g σ) in hrun (k b) (region_set g v σ)
  | Lock _ k | Unlock _ k | JoinWorker _ k => hrun k σ
  | InsertInProgress table k =>
      let '(b, h) := insert_in_progress table σ.1 in hrun (k b) (h, σ.2)
  | EraseInProgress table k => hrun k (discovery_done table σ.1, σ.2)
  | EmplaceWorker table k =>
      let '(created, w) := create_thread σ.2 in
      hrun (k created) (if (created : bool) then push_worker table σ.1 else σ.1, w)
  | SwapWorkers k =>
      let '(l, h) := WaitForPartitionKeyDiscovery σ.1 in
      hrun (k (const O <$> l)) (h, σ.2)
  end.
End programs.

Arguments region_view : clear implicits.
Arguments hprog : clear implicits.
Arguments Fin {_ _} _.
Arguments Access {_ _} _ {_} _ _.
Arguments Lock {_ _} _ _.
Arguments Unlock {_ _} _ _.
Arguments InsertInProgress {_ _} _ _.
Arguments EraseInProgress {_ _} _ _.
Arguments EmplaceWorker {_ _} _ _.
Arguments SwapWorkers {_ _} _.
Arguments JoinWorker {_ _} _ _.

(** ** The member functions *)

Section members.
Context {W : Type} `{World W} `{Sdk W} (config : Config).
Abbreviation prog := (hprog W).

Definition p_GetPartitionKeyName (table : string) : prog string :=
  locked MetadataMutex
    (access KeyNames (λ m : PartitionKeyMetadata, (GetPartitionKeyName table m, m))).
Definition p_SetPartitionKeyName (table key_name : string) : prog () :=
  locked MetadataMutex
    (access KeyNames (λ m : PartitionKeyMetadata, (tt, SetPartitionKeyName table key_name m))).

(** *** Learning partition keys *)

Definition p_DiscoverPartitionKeyName (table : string) : prog string :=
  outcome ← hcall_out (DescribeTable (c_str table));
  mret (match outcome with None => "" | Some schema => first_hash_key schema end).
Fixpoint p_discover_loop (attempts : nat) (backoff : Z) (table : string) : prog bool :=
  match attempts with
  | O => mret false
  | S attempts =>
      key_name ← p_DiscoverPartitionKeyName table;
      if negb (bool_decide (key_name = "")) then
        _ ← p_SetPartitionKeyName table key_name;
        mret true
      else if bool_decide (attempts = O) then mret false
      else if 0 <? backoff then
        _ ← access Surroundings (λ v, (tt, (v.1, sleep_for backoff v.2)));
        p_discover_loop attempts (backoff * 2) table
      else p_discover_loop attempts backoff table
  end.
Definition p_UpdatePartitionKeyName (table : string) : prog bool :=
  if bool_decide (table = "") then mret false
  else
    let c := key_route_affinity config in
    p_discover_loop (Z.to_nat (partition_key_discovery_attempts c))
      (partition_key_discovery_initial_backoff c) table.

Definition p_erase (table : string) : prog () :=
  locked DiscoveryMutex (EraseInProgress table (Fin (Ok tt))).
(** The body of a discovery thread. *)
Definition p_discovery_worker (table : string) : prog () :=
  _ ← htry (_ ← p_UpdatePartitionKeyName table; mret tt) (λ _, mret tt);
  p_erase table.

(** Returns whether a thread was started.  [workers.emplace_back] throws when
    the thread cannot be created. *)
Definition p_TriggerPartitionKeyDiscovery (table : string) : prog bool :=
  if bool_decide (table = "") then mret false
  else
    key_name ← p_GetPartitionKeyName table;
    if negb (bool_decide (key_name = "")) then mret false
    else
      inserted ← locked DiscoveryMutex (InsertInProgress table (λ b, Fin (Ok b)));
      if negb inserted then mret false
      else
        htry
          (_ ← locked DiscoveryMutex (EmplaceWorker table (λ created,
                 Fin (if (created : bool) then Ok tt
                      else Throw (RuntimeError "Resource temporarily unavailable"))));
           mret true)
          (λ _, _ ← p_erase table; mret false).

Fixpoint p_trigger_all (tables : list string) : prog (list string) :=
  match tables with
  | [] => mret []
  | table :: tables =>
      started ← p_TriggerPartitionKeyDiscovery table;
      rest ← p_trigger_all tables;
      mret (if (started : bool) then table :: rest else rest)
  end.
Fixpoint p_missing_tables (operations : list BatchWriteOperation) : prog (list string) :=
  match operations with
  | [] => mret []
  | op :: operations =>
      key_name ← p_GetPartitionKeyName (table_name op);
      rest ← p_missing_tables operations;
      mret (if bool_decide (key_name = "") then table_name op :: rest else rest)
  end.
Definition p_TriggerPartitionKeyDiscoveryForMissingMetadata (operations : list BatchWriteOperation)
    : prog (list string) :=
  missing_tables ← p_missing_tables operations;
  p_trigger_all (std_unique (key_sort (λ t, t) missing_tables)).

Fixpoint p_join_all (l : list nat) : prog () :=
  match l with
  | [] => mret tt
  | i :: l => JoinWorker i (p_join_all l)
  end.
Definition p_WaitForPartitionKeyDiscovery : prog () :=
  l ← locked DiscoveryMutex (SwapWorkers (λ l, Fin (Ok l)));
  p_join_all l.

(** *** Plans (src/key_route_affinity.cpp, with the metadata that threads share) *)

Definition p_HashPartitionKey (values : AttributeMap) (table : string) : prog Z :=
  key_name ← p_GetPartitionKeyName table;
  if bool_decide (key_name = "") then
    Fin (Throw (InvalidArgument ("partition key information not found for table " +:+ table)))
  else match (values : gmap string AttributeValue) !! key_name with
       | None =>
           Fin (Throw (InvalidArgument ("value for partition key " +:+ key_name +:+ " not found")))
       | Some v => mret (AttributeValue_Hash v)
       end.

Definition p_operation_hash (op : BatchWriteOperation) : prog (option Z) :=
  key_name ← p_GetPartitionKeyName (table_name op);
  mret (if bool_decide (key_name = "") then None
        else match (op_values op : gmap string AttributeValue) !! key_name with
             | None => None
             | Some v => Some (AttributeValue_Hash v)
             end).
Fixpoint p_BatchWriteHashes (operations : list BatchWriteOperation) : prog (list Z) :=
  match operations with
  | [] => mret []
  | op :: operations =>
      hash ← p_operation_hash op;
      hashes ← p_BatchWriteHashes operations;
      mret (match hash with None => hashes | Some x => x :: hashes end)
  end.

Fixpoint p_count_votes (candidate_nodes : list Url) (operations : list BatchWriteOperation)
    (votes : Votes) : prog Votes :=
  match operations with
  | [] => mret votes
  | op :: operations =>
      hash ← p_operation_hash op;
      match hash with
      | None => p_count_votes candidate_nodes operations votes
      | Some x =>
          node ← Fin (FirstNodeWithSeed candidate_nodes x);
          p_count_votes candidate_nodes operations
            (if Url_Empty node then votes else add_vote node votes)
      end
  end.
Definition p_SelectBatchWritePreferredNodesForCandidates (candidate_nodes : list Url)
    (operations : list BatchWriteOperation) : prog (list Url) :=
  if bool_decide (candidate_nodes = []) then
    Fin (Throw (InvalidArgument "batch write request does not have candidate nodes"))
  else
    votes ← p_count_votes candidate_nodes operations ∅;
    if bool_decide ((votes : gmap string (Url * Z)) = ∅) then
      Fin (Throw (InvalidArgument "batch write request does not have usable preferred nodes"))
    else
      let entries := url_entries (votes : gmap string (Url * Z)) in
      let preferred_nodes := map fst (filter (λ e, 0 < e.2) entries) in
      mret (merge_sort (vote_le votes) preferred_nodes).

Definition p_GetActive : prog (list Url) := hcall_nodes (gets ns_GetActiveNodes).
Definition p_PlanNodes : prog (list Url) := hcall_nodes plan_nodes.
Definition p_PlanNodesForHash (hash : Z) : prog (list Url) :=
  hcall_nodes (ns_GetQueryPlanNodesForHash hash).

Fixpoint p_nodes_for_hashes (hashes : list Z) (out : list Url) : prog (list Url) :=
  match hashes with
  | [] => mret out
  | x :: hashes =>
      l ← p_PlanNodesForHash x;
      p_nodes_for_hashes hashes (AppendMissingNodes out l)
  end.
Definition p_QueryPlanNodesForHashes (hashes : list Z) : prog (list Url) :=
  out ← p_nodes_for_hashes hashes [];
  if bool_decide (out = []) then p_PlanNodes else mret out.

Definition p_QueryPlanForPartitionKey (values : AttributeMap) (table : string) : prog QueryPlan :=
  seed ← p_HashPartitionKey values table;
  active_nodes ← p_GetActive;
  query_plan_nodes ← p_PlanNodesForHash seed;
  if bool_decide (active_nodes = []) then mret (WithSortedSeed query_plan_nodes seed)
  else
    let active_nodes := SortAndDedupeNodes active_nodes in
    let ordered_nodes := NodesMissingFrom query_plan_nodes active_nodes in
    seeded ← Fin (DrainPlan (WithSortedSeed active_nodes seed));
    mret (FromOrderedNodes (AppendMissingNodes ordered_nodes seeded)).
Definition p_QueryPlanForBatchWrite (operations : list BatchWriteOperation) : prog QueryPlan :=
  active_nodes ← p_GetActive;
  hashes ← p_BatchWriteHashes operations;
  query_plan_nodes ← p_QueryPlanNodesForHashes hashes;
  if bool_decide (active_nodes = []) then
    preferred ← p_SelectBatchWritePreferredNodesForCandidates query_plan_nodes operations;
    mret (WithPreferredNodes query_plan_nodes preferred)
  else
    let active_nodes := SortAndDedupeNodes active_nodes in
    let ordered_nodes := NodesMissingFrom query_plan_nodes active_nodes in
    preferred ← p_SelectBatchWritePreferredNodesForCandidates active_nodes operations;
    mret (FromOrderedNodes
      (AppendMissingNodes (AppendMissingNodes ordered_nodes preferred) active_nodes)).

(** *** The helper's plans *)

Definition p_DefaultQueryPlan : prog QueryPlan :=
  clock ← access Surroundings (λ v,
    let '(clock, w) := high_resolution_now v.2 in (clock, (v.1, w)));
  hcall_nodes (of_state (FromNodesSource clock)).

Definition p_NewPartitionKeyQueryPlan (values : AttributeMap) (table : string) : prog QueryPlan :=
  key_name ← p_GetPartitionKeyName table;
  if bool_decide (key_name = "") then
    _ ← p_TriggerPartitionKeyDiscovery table;
    p_DefaultQueryPlan
  else hcatch_invalid (p_QueryPlanForPartitionKey values table) p_DefaultQueryPlan.
Definition p_NewBatchWriteQueryPlan (operations : list BatchWriteOperation) : prog QueryPlan :=
  _ ← p_TriggerPartitionKeyDiscoveryForMissingMetadata operations;
  hcatch_invalid (p_QueryPlanForBatchWrite operations) p_DefaultQueryPlan.

Definition p_PartitionKeyQueryPlanFor (values : AwsItem) (table_name : string) : prog QueryPlan :=
  let table := c_str table_name in
  key_name ← p_GetPartitionKeyName table;
  if bool_decide (key_name = "") then p_NewPartitionKeyQueryPlan ∅ table
  else hcatch_invalid
         (key_values ← Fin (PartitionKeyOnlyAttributeMap values key_name);
          p_NewPartitionKeyQueryPlan key_values table)
         (p_NewPartitionKeyQueryPlan ∅ table).

(** [DefaultQueryPlanFor]: the same plan, made by the free functions. *)
Definition p_DefaultQueryPlanFor : prog QueryPlan :=
  clock ← access Surroundings (λ v,
    let '(clock, w) := high_resolution_now v.2 in (clock, (v.1, w)));
  hcall_nodes (of_state (FromNodesSource clock)).

Definition affinity_for (kind : WriteOperationKind) (options : WriteOperationOptions) : bool :=
  ShouldUseKeyRouteAffinity (mode (key_route_affinity config)) kind options.
Definition p_write_plan (x : ItemWrite) : prog QueryPlan :=
  match x with
  | PutWrite r =>
      if negb (affinity_for PutItem (PutItemOptions r)) then p_DefaultQueryPlanFor
      else p_PartitionKeyQueryPlanFor (GetItem r) (GetTableName r)
  | UpdateWrite r =>
      if negb (affinity_for UpdateItem (UpdateItemOptions r)) then p_DefaultQueryPlanFor
      else p_PartitionKeyQueryPlanFor (GetItem (update_request r)) (GetTableName (update_request r))
  | DeleteWrite r =>
      if negb (affinity_for DeleteItem (DeleteItemOptions r)) then p_DefaultQueryPlanFor
      else p_PartitionKeyQueryPlanFor (GetItem r) (GetTableName r)
  end.

Definition AddBatchWriteOperationForMissingMetadata (operations : list BatchWriteOperation)
    (table : string) : list BatchWriteOperation := operations ++ [BatchWriteOperation_Put table ∅].
(** One turn of the loop over the tables. *)
Definition table_operations (table key_name : string) (writes : list WriteRequest)
    (operations : list BatchWriteOperation) : list BatchWriteOperation :=
  if bool_decide (key_name = "") then
    if bool_decide (length writes = O) then operations
    else AddBatchWriteOperationForMissingMetadata operations table
  else foldl (add_write table key_name) operations writes.
Fixpoint p_BatchWriteOperationsFor (request : BatchWriteItemRequest)
    (operations : list BatchWriteOperation) : prog (list BatchWriteOperation) :=
  match request with
  | [] => mret operations
  | (table, writes) :: request =>
      key_name ← p_GetPartitionKeyName (c_str table);
      p_BatchWriteOperationsFor request (table_operations (c_str table) key_name writes operations)
  end.
Definition p_BatchWriteItemQueryPlanFor (request : BatchWriteItemRequest) : prog QueryPlan :=
  if negb (affinity_for PutItem default_options) then p_DefaultQueryPlanFor
  else
    operations ← p_BatchWriteOperationsFor request [];
    if bool_decide (length operations = O) then p_DefaultQueryPlanFor
    else p_NewBatchWriteQueryPlan operations.

(** *** Clients and writes *)

Definition p_NewDynamoDBForNode (node : Url) : prog DynamoDBClient :=
  locked ClientsMutex
    (existing ← access ClientCache (λ m : client_cache, (m !! Url_ToString node, m));
     match existing with
     | Some (_, client) => mret client
     | None =>
         let client := FixedClient node in
         _ ← access ClientCache (λ m : client_cache,
               (tt, <[Url_ToString node := (node, client)]> m));
         mret client
     end).
Definition p_NewDynamoDBForQueryPlan (plan : QueryPlan) : prog DynamoDBClient :=
  node ← Fin (QueryPlan_Next plan).1;
  if Url_Empty node then mret RoundRobinClient else p_NewDynamoDBForNode node.

(** What the SDK does with a request: errors are part of its outcome. *)
Context {Outcome : Type}.
Context (send_item : DynamoDBClient → ItemWrite →
           AlternatorLiveNodes * W → Outcome * (AlternatorLiveNodes * W)).
Context (send_batch : DynamoDBClient → BatchWriteItemRequest →
           AlternatorLiveNodes * W → Outcome * (AlternatorLiveNodes * W)).

(** A write with its local variables: the plan, the client, the outcome. *)
Definition p_item_write (x : ItemWrite) : prog (QueryPlan * DynamoDBClient * Outcome) :=
  plan ← p_write_plan x;
  client ← p_NewDynamoDBForQueryPlan plan;
  outcome ← access Surroundings (send_item client x);
  mret (plan, client, outcome).
Definition p_batch_write (request : BatchWriteItemRequest)
    : prog (QueryPlan * DynamoDBClient * Outcome) :=
  plan ← p_BatchWriteItemQueryPlanFor request;
  client ← p_NewDynamoDBForQueryPlan plan;
  outcome ← access Surroundings (send_batch client request);
  mret (plan, client, outcome).

(** [~DynamoDBHelper]; the end of the refresh thread, which [Stop] waits for, is
    in LiveNodesThreads.v. *)
Definition p_destroy : prog () :=
  _ ← p_WaitForPartitionKeyDiscovery;
  access Surroundings (λ v, (tt, (Stop_request v.1, v.2))).
End members.
