(* ===== verification/HelperAlone.v ===== *)
(** Run alone, the programs of HelperThreads.v are the functions of
    DynamoDBHelper.v and HelperOperations.v: key names that are read again and
    again are those of one snapshot, and locks change nothing. *)
From S2P Require Import Prelude Uri GoRandom Effects RoutingScope NodeHealth QueryPlan.
From S2P Require Import KeyRouteAffinity HttpCompression Config LocalNodesJson LiveNodes.
From S2P Require Import DynamoDBHelper AwsHttpClient HelperOperations HelperThreads.

Section alone.
Context {W : Type} `{World W} `{Sdk W}.

(** ** Programs *)

Lemma hrun_hcont {A B} (p : hprog W A) (f : result A → hprog W B) σ :
  hrun (hcont p f) σ = let '(r, σ') := hrun p σ in hrun (f r) σ'.
Proof.
  revert σ. induction p as [r|g C F k IH|m k IH|m k IH|t k IH|t k IH|t k IH|k IH|i k IH];
    intros σ; cbn [hcont hrun]; try done.
  - destruct (F (region_get g σ)) as [b v]. apply IH.
  - destruct (insert_in_progress t σ.1) as [b h]. apply IH.
  - destruct (create_thread σ.2) as [b w]. apply IH.
  - destruct (WaitForPartitionKeyDiscovery σ.1) as [l h]. apply IH.
Qed.
Lemma hrun_bind {A B} (p : hprog W A) (f : A → hprog W B) σ :
  hrun (p ≫= f) σ = (hrun p ≫= λ a, hrun (f a)) σ.
Proof. unfold mbind, hprog_bind, M_bind. rewrite hrun_hcont. by destruct (hrun p σ) as [[]]. Qed.
Lemma hrun_try {A} (p : hprog W A) f σ : hrun (htry p f) σ = try_catch (hrun p) (λ e, hrun (f e)) σ.
Proof. unfold htry, try_catch. rewrite hrun_hcont. by destruct (hrun p σ) as [[]]. Qed.
Lemma hrun_catch {A} (p f : hprog W A) σ :
  hrun (hcatch_invalid p f) σ = catch_invalid_argument (hrun p) (hrun f) σ.
Proof.
  unfold hcatch_invalid, catch_invalid_argument. rewrite hrun_try. unfold try_catch.
  by destruct (hrun p σ) as [[|[]]].
Qed.
Lemma hrun_locked {A} m (p : hprog W A) σ : hrun (locked m p) σ = hrun p σ.
Proof. cbn [locked hrun]. rewrite hrun_hcont. by destruct (hrun p σ). Qed.

(** ** Calls of the live nodes *)

Lemma set_helper_nodes_same h : set_helper_nodes (helper_nodes h) h = h.
Proof. by destruct h. Qed.
Lemma hrun_out {A} (m : M (AlternatorLiveNodes * W) A) σ :
  hrun (hcall_out m) σ = zoom helper_nodes set_helper_nodes m σ.
Proof.
  destruct σ as [h w]. unfold zoom. cbn [hcall_out hrun region_get region_set fst snd].
  by destruct (m (helper_nodes h, w)) as [r [n w']].
Qed.
Lemma hrun_nodes {A} (m : M AlternatorLiveNodes A) σ : hrun (hcall_nodes m) σ = on_nodes m σ.
Proof.
  destruct σ as [h w]. unfold hcall_nodes, on_nodes. rewrite hrun_out. unfold zoom. cbn [fst snd].
  by destruct (m (helper_nodes h)).
Qed.
Lemma on_nodes_bind {A B} (m : M AlternatorLiveNodes A) (f : A → M AlternatorLiveNodes B)
    (σ : DynamoDBHelper * W) :
  on_nodes (m ≫= f) σ = (on_nodes m ≫= λ a, on_nodes (f a)) σ.
Proof.
  destruct σ as [h w]. unfold on_nodes, mbind, M_bind.
  destruct (m (helper_nodes h)) as [[a|e] n]; [|done]. cbn [helper_nodes set_helper_nodes].
  by destruct (f a n).
Qed.
Lemma on_nodes_lift {A} (r : result A) (σ : DynamoDBHelper * W) :
  on_nodes (lift_result r) σ = lift_result r σ.
Proof. destruct σ as [h w]. unfold on_nodes, lift_result. by rewrite set_helper_nodes_same. Qed.

(** The rule for a program that follows a function of the live nodes step by
    step: these leave the key names alone. *)
Lemma follow_bind {A B} (p : hprog W A) (f : A → hprog W B) (m : M AlternatorLiveNodes A)
    (g : A → M AlternatorLiveNodes B) σ :
  hrun p σ = on_nodes m σ →
  (∀ a σ', partition_keys_ σ'.1 = partition_keys_ σ.1 → hrun (f a) σ' = on_nodes (g a) σ') →
  hrun (p ≫= f) σ = on_nodes (m ≫= g) σ.
Proof.
  intros Ep Hf. rewrite hrun_bind, on_nodes_bind. unfold mbind, M_bind. rewrite Ep.
  destruct σ as [h w]. unfold on_nodes. destruct (m (helper_nodes h)) as [[a|e] n]; [|done].
  by apply Hf.
Qed.
Lemma follow_lift {A} (r : result A) (p : hprog W A) σ :
  hrun p σ = (r, σ) → hrun p σ = on_nodes (lift_result r) σ.
Proof. intros ->. symmetry. apply on_nodes_lift. Qed.
Lemma follow_pure {A B} (p : hprog W A) (f : A → hprog W B) (m : M AlternatorLiveNodes B) σ a :
  hrun p σ = (Ok a, σ) → hrun (f a) σ = on_nodes m σ → hrun (p ≫= f) σ = on_nodes m σ.
Proof. intros Ep Ef. rewrite hrun_bind. unfold mbind, M_bind. by rewrite Ep. Qed.

Lemma hrun_get table σ :
  hrun (p_GetPartitionKeyName table) σ = (Ok (Helper_GetPartitionKeyName table σ.1), σ).
Proof.
  unfold p_GetPartitionKeyName. rewrite hrun_locked. by destruct σ as [[]].
Qed.
Lemma hrun_bind_get {A} table (f : string → hprog W A) σ :
  hrun (p_GetPartitionKeyName table ≫= f) σ = hrun (f (Helper_GetPartitionKeyName table σ.1)) σ.
Proof. rewrite hrun_bind. unfold mbind, M_bind. by rewrite hrun_get. Qed.
Lemma hrun_bind_fin {A B} (r : result A) (f : A → hprog W B) σ :
  hrun (Fin r ≫= f) σ = (lift_result r ≫= λ a, hrun (f a)) σ.
Proof. rewrite hrun_bind. unfold mbind, M_bind, lift_result. by destruct r. Qed.
Lemma hrun_bind_ret {A B} (p : hprog W A) (f : A → hprog W B) σ a σ' :
  hrun p σ = (Ok a, σ') → hrun (p ≫= f) σ = hrun (f a) σ'.
Proof. intros E. rewrite hrun_bind. unfold mbind, M_bind. by rewrite E. Qed.

(** ** Plans from the metadata *)

Lemma alone_HashPartitionKey values table σ :
  hrun (p_HashPartitionKey values table) σ =
  (HashPartitionKey values table (partition_keys_ σ.1), σ).
Proof.
  unfold p_HashPartitionKey. rewrite hrun_bind_get. unfold HashPartitionKey, Helper_GetPartitionKeyName.
  case_bool_decide; [done|]. by destruct (_ !! _).
Qed.
Lemma alone_operation_hash op σ :
  hrun (p_operation_hash op) σ = (Ok (operation_hash (partition_keys_ σ.1) op), σ).
Proof. unfold p_operation_hash. by rewrite hrun_bind_get. Qed.
Lemma alone_BatchWriteHashes operations σ :
  hrun (p_BatchWriteHashes operations) σ =
  (Ok (BatchWriteHashes operations (partition_keys_ σ.1)), σ).
Proof.
  induction operations as [|op ops IH]; [done|]. cbn [p_BatchWriteHashes].
  rewrite (hrun_bind_ret _ _ _ _ _ (alone_operation_hash op σ)), (hrun_bind_ret _ _ _ _ _ IH).
  unfold BatchWriteHashes. simpl. by destruct (operation_hash _ op).
Qed.
Lemma alone_count_votes candidates operations votes σ :
  hrun (p_count_votes candidates operations votes) σ =
  (count_votes candidates operations (partition_keys_ σ.1) votes, σ).
Proof.
  revert votes. induction operations as [|op ops IH]; intros votes; [done|]. cbn [p_count_votes count_votes].
  rewrite (hrun_bind_ret _ _ _ _ _ (alone_operation_hash op σ)).
  destruct (operation_hash _ op) as [x|]; [|apply IH]. rewrite hrun_bind_fin.
  unfold lift_result, mbind, M_bind, result_bind. destruct (FirstNodeWithSeed candidates x); [|done].
  apply IH.
Qed.
Lemma alone_Select candidates operations σ :
  hrun (p_SelectBatchWritePreferredNodesForCandidates candidates operations) σ =
  (SelectBatchWritePreferredNodesForCandidates candidates operations (partition_keys_ σ.1), σ).
Proof.
  unfold p_SelectBatchWritePreferredNodesForCandidates, SelectBatchWritePreferredNodesForCandidates.
  case_bool_decide; [done|]. rewrite hrun_bind. unfold mbind, M_bind, result_bind.
  rewrite alone_count_votes. destruct (count_votes _ _ _ _) as [votes|]; [|done].
  by case_bool_decide.
Qed.

Lemma alone_nodes_for_hashes hashes out σ :
  hrun (p_nodes_for_hashes hashes out) σ = on_nodes (nodes_for_hashes hashes out) σ.
Proof.
  revert out σ. induction hashes as [|x hashes IH]; intros out σ; [by apply follow_lift|].
  apply follow_bind; [apply hrun_nodes|]. intros l σ' _. apply IH.
Qed.
Lemma alone_nodes_plan hashes σ :
  hrun (p_QueryPlanNodesForHashes hashes) σ = on_nodes (QueryPlanNodesForHashes hashes) σ.
Proof.
  apply follow_bind; [apply alone_nodes_for_hashes|]. intros out σ' _.
  case_bool_decide; [apply hrun_nodes|by apply follow_lift].
Qed.

Lemma alone_partition_key values table σ :
  hrun (p_QueryPlanForPartitionKey values table) σ =
  on_nodes (QueryPlanForPartitionKey values table (partition_keys_ σ.1)) σ.
Proof.
  apply follow_bind; [apply follow_lift, alone_HashPartitionKey|]. intros seed σ1 _.
  apply follow_bind; [apply hrun_nodes|]. intros active σ2 _.
  apply follow_bind; [apply hrun_nodes|]. intros l σ3 _.
  case_bool_decide; [by apply follow_lift|].
  apply follow_bind; [by apply follow_lift|]. intros seeded σ4 _. by apply follow_lift.
Qed.
Lemma alone_batch_write operations σ :
  hrun (p_QueryPlanForBatchWrite operations) σ =
  on_nodes (QueryPlanForBatchWrite operations (partition_keys_ σ.1)) σ.
Proof.
  apply follow_bind; [apply hrun_nodes|]. intros active σ1 E1.
  eapply follow_pure; [apply alone_BatchWriteHashes|]. rewrite E1.
  apply follow_bind; [apply alone_nodes_plan|]. intros l σ2 E2. rewrite <-E1, <-E2.
  case_bool_decide; (apply follow_bind; [apply follow_lift, alone_Select|];
    intros preferred σ3 _; by apply follow_lift).
Qed.

(** ** Discovery *)

Lemma hrun_follow {A B} (p : hprog W A) (f : A → hprog W B) (m : M (DynamoDBHelper * W) A) g σ :
  hrun p σ = m σ → (∀ a σ', m σ = (Ok a, σ') → hrun (f a) σ' = g a σ') →
  hrun (p ≫= f) σ = (m ≫= g) σ.
Proof.
  intros Ep Hf. rewrite hrun_bind. unfold mbind, M_bind. rewrite Ep.
  destruct (m σ) as [[a|e] σ'] eqn:E; [by apply Hf|done].
Qed.
Lemma hrun_catches {A} (p f : hprog W A) (m k : M (DynamoDBHelper * W) A) σ :
  hrun p σ = m σ → (∀ what σ', m σ = (Throw (InvalidArgument what), σ') → hrun f σ' = k σ') →
  hrun (hcatch_invalid p f) σ = catch_invalid_argument m k σ.
Proof.
  intros Ep Hf. rewrite hrun_catch. unfold catch_invalid_argument, try_catch. rewrite Ep.
  destruct (m σ) as [[a|[]] σ'] eqn:E; try done. by eapply Hf.
Qed.

Lemma alone_set table key σ :
  hrun (p_SetPartitionKeyName table key) σ = update_helper (Helper_SetPartitionKeyName table key) σ.
Proof. unfold p_SetPartitionKeyName. rewrite hrun_locked. by destruct σ as [[]]. Qed.
Lemma alone_erase table σ : hrun (p_erase table) σ = update_helper (discovery_done table) σ.
Proof. unfold p_erase. by rewrite hrun_locked. Qed.
Lemma alone_discover_loop n backoff table σ :
  hrun (p_discover_loop n backoff table) σ = discover_loop n backoff table σ.
Proof.
  revert backoff σ. induction n as [|n IH]; intros backoff σ; [done|].
  cbn [p_discover_loop discover_loop]. apply hrun_follow.
  { apply hrun_follow; [apply hrun_out|done]. }
  intros key σ1 _. case_bool_decide; cbn [negb].
  - case_bool_decide; [done|]. destruct (0 <? backoff); [|apply IH].
    apply hrun_follow; [|intros; apply IH]. destruct σ1 as [[] w]. done.
  - apply hrun_follow; [apply alone_set|done].
Qed.
Lemma alone_update config table σ :
  helper_config σ.1 = config →
  hrun (p_UpdatePartitionKeyName config table) σ = UpdatePartitionKeyName table σ.
Proof.
  intros <-. unfold p_UpdatePartitionKeyName, UpdatePartitionKeyName.
  case_bool_decide; [done|]. apply alone_discover_loop.
Qed.
Lemma alone_worker config table σ :
  helper_config σ.1 = config →
  hrun (p_discovery_worker config table) σ = discovery_worker table σ.
Proof.
  intros Ec. apply hrun_follow; [|intros; apply alone_erase]. rewrite hrun_try.
  unfold try_catch. rewrite hrun_bind. unfold mbind, M_bind. rewrite (alone_update config) by done.
  by destruct (UpdatePartitionKeyName table σ) as [[]].
Qed.

Lemma bind_gets_run {A B} (f : DynamoDBHelper * W → A) (g : A → M (DynamoDBHelper * W) B) σ :
  (gets f ≫= g) σ = g (f σ) σ.
Proof. done. Qed.

Lemma alone_trigger table σ :
  hrun (p_TriggerPartitionKeyDiscovery table) σ = TriggerPartitionKeyDiscovery table σ.
Proof.
  destruct σ as [h w]. unfold p_TriggerPartitionKeyDiscovery, TriggerPartitionKeyDiscovery.
  rewrite bind_gets_run. cbn [fst].
  case_bool_decide; [done|]. cbn [orb]. rewrite hrun_bind_get. cbn [fst].
  case_bool_decide; [cbn [negb]|done].
  rewrite hrun_bind. unfold mbind at 1, M_bind at 1. rewrite hrun_locked.
  cbn [hrun fst snd]. unfold insert_in_progress. case_bool_decide; [done|]. cbn [negb].
  rewrite hrun_try. unfold try_catch. rewrite hrun_bind. unfold mbind, M_bind.
  rewrite hrun_locked. unfold update_helper, modify, on_world.
  cbn [hrun fst snd]. destruct (create_thread w) as [[] w']; [done|].
  unfold hprog_bind. by rewrite hrun_hcont, alone_erase.
Qed.
Lemma alone_trigger_all tables σ : hrun (p_trigger_all tables) σ = trigger_all tables σ.
Proof.
  revert σ. induction tables as [|t tables IH]; intros σ; [done|].
  apply hrun_follow; [apply alone_trigger|]. intros started σ1 _.
  apply hrun_follow; [apply IH|done].
Qed.
Lemma alone_missing_tables operations σ :
  hrun (p_missing_tables operations) σ =
  (Ok (map table_name
         (filter (λ op, Helper_GetPartitionKeyName (table_name op) σ.1 = "") operations)), σ).
Proof.
  induction operations as [|op ops IH]; [done|]. cbn [p_missing_tables].
  rewrite hrun_bind_get, (hrun_bind_ret _ _ _ _ _ IH), filter_cons.
  by case_bool_decide; [rewrite decide_True|rewrite decide_False].
Qed.
Lemma alone_trigger_missing operations σ :
  hrun (p_TriggerPartitionKeyDiscoveryForMissingMetadata operations) σ =
  TriggerPartitionKeyDiscoveryForMissingMetadata operations σ.
Proof.
  unfold p_TriggerPartitionKeyDiscoveryForMissingMetadata.
  rewrite (hrun_bind_ret _ _ _ _ _ (alone_missing_tables operations σ)). apply alone_trigger_all.
Qed.
Lemma alone_join_all l σ : hrun (p_join_all l) σ = (Ok tt, σ).
Proof. revert σ. induction l as [|i l IH]; intros σ; [done|]. apply IH. Qed.
Lemma alone_wait σ :
  hrun p_WaitForPartitionKeyDiscovery σ =
  (Ok tt, ((WaitForPartitionKeyDiscovery σ.1).2, σ.2)).
Proof.
  unfold p_WaitForPartitionKeyDiscovery. rewrite hrun_bind. unfold mbind, M_bind. rewrite hrun_locked.
  cbn [hrun]. apply alone_join_all.
Qed.

(** ** The helper's plans and writes *)

Lemma alone_default σ : hrun p_DefaultQueryPlan σ = DefaultQueryPlan σ.
Proof.
  apply hrun_follow; [|intros; apply hrun_nodes]. destruct σ as [h w]. unfold on_world.
  cbn [access hrun region_get region_set fst snd]. destruct (high_resolution_now w).
  cbn [fst snd]. by rewrite set_helper_nodes_same.
Qed.
Lemma alone_NewPartitionKey values table σ :
  hrun (p_NewPartitionKeyQueryPlan values table) σ = NewPartitionKeyQueryPlan values table σ.
Proof.
  unfold p_NewPartitionKeyQueryPlan, NewPartitionKeyQueryPlan. rewrite hrun_bind_get.
  rewrite bind_gets_run. case_bool_decide.
  - apply hrun_follow; [apply alone_trigger|]. intros _ σ1 _. apply alone_default.
  - apply hrun_catches; [apply alone_partition_key|]. intros. apply alone_default.
Qed.
Lemma alone_NewBatchWrite operations σ :
  hrun (p_NewBatchWriteQueryPlan operations) σ = NewBatchWriteQueryPlan operations σ.
Proof.
  apply hrun_follow; [apply alone_trigger_missing|]. intros l σ1 _.
  apply hrun_catches; [apply alone_batch_write|]. intros. apply alone_default.
Qed.
Lemma alone_item_plan values table σ :
  hrun (p_PartitionKeyQueryPlanFor values table) σ = PartitionKeyQueryPlanFor values table σ.
Proof.
  unfold p_PartitionKeyQueryPlanFor, PartitionKeyQueryPlanFor. rewrite hrun_bind_get.
  rewrite bind_gets_run. case_bool_decide; [apply alone_NewPartitionKey|].
  apply hrun_catches; [|intros; apply alone_NewPartitionKey].
  apply hrun_follow; [done|]. intros. apply alone_NewPartitionKey.
Qed.
Lemma alone_write_plan config x σ :
  helper_config σ.1 = config → hrun (p_write_plan config x) σ = write_plan x σ.
Proof.
  intros <-. destruct σ as [h w]. rewrite write_plan_affinity.
  destruct x; cbn [p_write_plan write_affinity write_request fst]; unfold affinity_for,
    ShouldUseKeyRouteAffinityForWrite; (destruct (negb _); [apply alone_default|apply alone_item_plan]).
Qed.
Lemma alone_operations request operations σ :
  hrun (p_BatchWriteOperationsFor request operations) σ =
  (Ok (foldl (add_table σ.1) operations request), σ).
Proof.
  revert operations. induction request as [|[table writes] request IH]; intros operations; [done|].
  cbn [p_BatchWriteOperationsFor]. rewrite hrun_bind_get. apply IH.
Qed.
Lemma alone_batch_plan config request σ :
  helper_config σ.1 = config →
  hrun (p_BatchWriteItemQueryPlanFor config request) σ = BatchWriteItemQueryPlanFor request σ.
Proof.
  intros <-. unfold p_BatchWriteItemQueryPlanFor, BatchWriteItemQueryPlanFor.
  rewrite bind_gets_run. unfold affinity_for, ShouldUseKeyRouteAffinityForWrite.
  destruct (negb _); [apply alone_default|].
  rewrite (hrun_bind_ret _ _ _ _ _ (alone_operations request [] σ)).
  unfold BatchWriteOperationsFor. case_bool_decide; [apply alone_default|apply alone_NewBatchWrite].
Qed.

Lemma alone_client_for_node node σ :
  hrun (p_NewDynamoDBForNode node) σ = NewDynamoDBForNode node σ.
Proof.
  unfold p_NewDynamoDBForNode. rewrite hrun_locked. apply hrun_follow.
  { by destruct σ as [[]]. }
  intros [[u c]|] σ1 _; [done|]. apply hrun_follow; [|done]. by destruct σ1 as [[]].
Qed.
Lemma alone_client plan σ :
  hrun (p_NewDynamoDBForQueryPlan plan) σ = NewDynamoDBForQueryPlan plan σ.
Proof.
  apply hrun_follow; [done|]. intros node σ1 _. destruct (Url_Empty node); [done|].
  apply alone_client_for_node.
Qed.

Context {Outcome : Type}.
Context (send_item : DynamoDBClient → ItemWrite →
           AlternatorLiveNodes * W → Outcome * (AlternatorLiveNodes * W)).
Context (send_batch : DynamoDBClient → BatchWriteItemRequest →
           AlternatorLiveNodes * W → Outcome * (AlternatorLiveNodes * W)).

Lemma alone_send {B} (f : AlternatorLiveNodes * W → B * (AlternatorLiveNodes * W)) σ :
  hrun (access Surroundings f) σ = pass_on (of_state f) σ.
Proof.
  destruct σ as [h w]. unfold pass_on, zoom, of_state.
  cbn [access hrun region_get region_set fst snd]. by destruct (f (helper_nodes h, w)) as [o [n w']].
Qed.
Lemma alone_routed {R} (p : hprog W QueryPlan) (m : M (DynamoDBHelper * W) QueryPlan)
    (send : DynamoDBClient → R → AlternatorLiveNodes * W → Outcome * (AlternatorLiveNodes * W)) (r : R) σ :
  hrun p σ = m σ →
  (o ← hrun (plan ← p; client ← p_NewDynamoDBForQueryPlan plan;
             outcome ← access Surroundings (send client r); mret (plan, client, outcome));
   mret o.2) σ =
  (plan ← m; client ← NewDynamoDBForQueryPlan plan; pass_on (of_state (send client r))) σ.
Proof.
  intros Ep. unfold mbind at 1, M_bind at 1. rewrite hrun_bind. unfold mbind, M_bind.
  rewrite Ep. destruct (m σ) as [[plan|] σ1]; [|done].
  fold (M_bind (σ := DynamoDBHelper * W)). unfold hprog_bind. rewrite hrun_hcont, alone_client.
  destruct (NewDynamoDBForQueryPlan plan σ1) as [[client|] σ2]; [|done].
  rewrite hrun_hcont, alone_send. by destruct (pass_on _ σ2) as [[]].
Qed.
Lemma alone_item_write config x σ :
  helper_config σ.1 = config →
  (o ← hrun (p_item_write config send_item x); mret o.2) σ =
  item_write (λ client x, of_state (send_item client x)) x σ.
Proof. intros Ec. rewrite item_write_eq. by apply alone_routed, alone_write_plan. Qed.
Lemma alone_batch config request σ :
  helper_config σ.1 = config →
  (o ← hrun (p_batch_write config send_batch request); mret o.2) σ =
  Helper_BatchWriteItem (λ client r, of_state (send_batch client r)) request σ.
Proof. intros Ec. by apply alone_routed, alone_batch_plan. Qed.
Lemma alone_destroy σ :
  hrun p_destroy σ = (_ ← DynamoDBHelper_destroy; mret tt) σ.
Proof.
  unfold p_destroy. rewrite hrun_bind. unfold mbind, M_bind. rewrite alone_wait. by destruct σ.
Qed.
End alone.
