(* ===== verification/HelperPool.v ===== *)
(** Pools of threads that use one [DynamoDBHelper]: application threads that
    call its member functions one after another, and the discovery threads that
    these start. *)
From S2P Require Import Prelude Uri GoRandom Effects RoutingScope NodeHealth QueryPlan.
From S2P Require Import KeyRouteAffinity HttpCompression Config LocalNodesJson LiveNodes.
From S2P Require Import DynamoDBHelper HelperThreads.

(** The configuration of the helper, and what the SDK makes of a request. *)
Class Deployment (W : Type) := {
  deployed : Config;
  Outcome : Type;
  send_item : DynamoDBClient → ItemWrite →
    AlternatorLiveNodes * W → Outcome * (AlternatorLiveNodes * W);
  send_batch : DynamoDBClient → BatchWriteItemRequest →
    AlternatorLiveNodes * W → Outcome * (AlternatorLiveNodes * W);
}.

(** What an application calls.  The members that only pass a call on to the
    live nodes ([Start], [UpdateLiveNodes], [ReportNodeResult] and the like)
    touch nothing that a mutex of the helper guards: they are among the moves
    that the surroundings make by themselves ([env_move]). *)
Inductive hcall :=
  | CallItem (x : ItemWrite)                               (** [PutItem] and the like *)
  | CallBatch (request : BatchWriteItemRequest)            (** [BatchWriteItem] *)
  | CallKeyPlan (values : AttributeMap) (table : string)   (** [NewPartitionKeyQueryPlan] *)
  | CallBatchPlan (operations : list BatchWriteOperation)  (** [NewBatchWriteQueryPlan] *)
  | CallGetKey (table : string)
  | CallSetKey (table key_name : string)
  | CallUpdateKey (table : string)                         (** [UpdatePartitionKeyName] *)
  | CallDestroy.                                           (** the destructor *)

Section pools.
Context {W : Type} `{World W} `{Sdk W} `{Deployment W}.

Inductive hreply :=
  | Sent (plan : QueryPlan) (client : DynamoDBClient) (outcome : Outcome)
  | Planned (plan : QueryPlan)
  | KeyIs (key_name : string)
  | Learned (updated : bool)
  | Nothing.

Definition hprogram (c : hcall) : hprog W hreply :=
  match c with
  | CallItem x => '(p, c, o) ← p_item_write deployed send_item x; mret (Sent p c o)
  | CallBatch r => '(p, c, o) ← p_batch_write deployed send_batch r; mret (Sent p c o)
  | CallKeyPlan values table => p ← p_NewPartitionKeyQueryPlan values table; mret (Planned p)
  | CallBatchPlan operations => p ← p_NewBatchWriteQueryPlan operations; mret (Planned p)
  | CallGetKey table => k ← p_GetPartitionKeyName table; mret (KeyIs k)
  | CallSetKey table key_name => _ ← p_SetPartitionKeyName table key_name; mret Nothing
  | CallUpdateKey table => b ← p_UpdatePartitionKeyName deployed table; mret (Learned b)
  | CallDestroy => _ ← p_destroy; mret Nothing
  end.
Definition worker_program (table : string) : hprog W hreply :=
  _ ← p_discovery_worker deployed table; mret Nothing.

(** ** Threads *)

(** A discovery thread is one of a table; [Called] runs one of the calls. *)
Inductive job := Called (c : hcall) | Worker (table : string).
Inductive doing := Idle | Busy (j : job) (p : hprog W hreply).
Record hthread := mkHThread {
  now : doing;
  holds : option helper_mutex;
  todo : list hcall;
  answers : list (hcall * result hreply);
}.

(** The helper and the world, with the numbers of the threads whose handles
    [workers] holds, in the same order. *)
Abbreviation hmemory := ((DynamoDBHelper * W) * list nat)%type.
Record hpool := mkHPool { hthreads : list hthread; hmem : hmemory }.

Definition mutex_free (ts : list hthread) (m : helper_mutex) : bool :=
  forallb (λ t, bool_decide (holds t ≠ Some m)) ts.
Definition over (t : hthread) : bool :=
  match now t, todo t with Idle, [] => true | _, _ => false end.
Definition thread_over (ts : list hthread) (i : nat) : bool :=
  match ts !! i with Some t => over t | None => true end.
Definition new_worker (table : string) : hthread :=
  mkHThread (Busy (Worker table) (worker_program table)) None [] [].

(** One step of a thread: the thread, the memory, and a thread it starts; [n] is
    the number that one gets. *)
Definition hthread_step (ts : list hthread) (n : nat) (t : hthread) (μ : hmemory)
    : option (hthread * hmemory * list hthread) :=
  let '(σ, ids) := μ in
  match now t with
  | Idle =>
      match todo t with
      | [] => None
      | c :: cs => Some (mkHThread (Busy (Called c) (hprogram c)) (holds t) cs (answers t), μ, [])
      end
  | Busy j p =>
      let go p := mkHThread (Busy j p) (holds t) (todo t) (answers t) in
      match p with
      | Fin r =>
          Some (mkHThread Idle (holds t) (todo t)
                  (match j with Called c => answers t ++ [(c, r)] | Worker _ => answers t end),
                μ, [])
      | Access g f k =>
          let '(b, v) := f (region_get g σ) in Some (go (k b), (region_set g v σ, ids), [])
      | Lock m k =>
          if mutex_free ts m
          then Some (mkHThread (Busy j k) (Some m) (todo t) (answers t), μ, [])
          else None
      | Unlock m k => Some (mkHThread (Busy j k) None (todo t) (answers t), μ, [])
      | InsertInProgress table k =>
          let '(b, h) := insert_in_progress table σ.1 in Some (go (k b), ((h, σ.2), ids), [])
      | EraseInProgress table k =>
          Some (go k, ((discovery_done table σ.1, σ.2), ids), [])
      | EmplaceWorker table k =>
          let '(created, w) := create_thread σ.2 in
          if (created : bool)
          then Some (go (k true), ((push_worker table σ.1, w), ids ++ [n]), [new_worker table])
          else Some (go (k false), ((σ.1, w), ids), [])
      | SwapWorkers k =>
          Some (go (k ids), (((WaitForPartitionKeyDiscovery σ.1).2, σ.2), []), [])
      | JoinWorker i k => if thread_over ts i then Some (go k, μ, []) else None
      end
  end.

Definition hpool_step (i : nat) (x : hpool) : option hpool :=
  t ← hthreads x !! i;
  '(t', μ, forked) ← hthread_step (hthreads x) (length (hthreads x)) t (hmem x);
  Some (mkHPool (<[i := t']> (hthreads x) ++ forked) μ).

(** The live nodes and the world move by themselves too. *)
Definition env_move (n : AlternatorLiveNodes) (w : W) (x : hpool) : hpool :=
  mkHPool (hthreads x) ((set_helper_nodes n (hmem x).1.1, w), (hmem x).2).

Inductive hstep : hpool → hpool → Prop :=
  | hstep_thread i x y : hpool_step i x = Some y → hstep x y
  | hstep_env n w x : hstep x (env_move n w x).

(** Application threads with what they will call, over a helper no thread has
    used yet. *)
Definition callers (calls : list (list hcall)) : list hthread :=
  map (λ cs, mkHThread Idle None cs []) calls.
Definition hpool_make (calls : list (list hcall)) (h : DynamoDBHelper) (w : W) : hpool :=
  mkHPool (callers calls) ((h, w), []).
Definition unused (h : DynamoDBHelper) : Prop :=
  in_progress h = ∅ ∧ workers h = [] ∧ fixed_clients_ h = ∅.

(** A schedule, for concrete runs; a thread that cannot go on loses its turn. *)
Definition hdrive (l : list nat) (x : hpool) : hpool :=
  foldl (λ x i, default x (hpool_step i x)) x l.
Lemma hdrive_steps l x : rtc hstep x (hdrive l x).
Proof.
  revert x. induction l as [|i l IH]; intros x; [apply rtc_refl|]. cbn.
  destruct (hpool_step i x) as [y|] eqn:E; [|apply IH].
  eapply rtc_l; [by eapply hstep_thread|]. apply IH.
Qed.

(** *** Observations *)

(** The table of a discovery thread that still has something to do. *)
Definition discovers (t : hthread) : option string :=
  match now t with
  | Busy (Worker _) (Fin _) => None
  | Busy (Worker table) _ => Some table
  | _ => None
  end.
(** What a thread is about to touch: a region, or with [None] the discovery
    state; nothing for calls to what synchronises itself. *)
Definition next_touch (t : hthread) : option (option helper_region) :=
  match now t with
  | Busy _ (Access g _ _) => match region_mutex g with Some _ => Some (Some g) | None => None end
  | Busy _ (InsertInProgress _ _) | Busy _ (EraseInProgress _ _) | Busy _ (EmplaceWorker _ _)
  | Busy _ (SwapWorkers _) => Some None
  | _ => None
  end.
Definition hrace (x : hpool) : Prop :=
  ∃ i j ti tj g, i ≠ j ∧ hthreads x !! i = Some ti ∧ hthreads x !! j = Some tj ∧
    next_touch ti = Some g ∧ next_touch tj = Some g.
(** The [n]th answer that thread [i] has got. *)
Definition answer_of (x : hpool) (i n : nat) : option (hcall * result hreply) :=
  t ← hthreads x !! i; answers t !! n.
Definition all_over (x : hpool) : Prop := Forall (λ t, over t = true) (hthreads x).
End pools.

Arguments hreply W {_} : assert.
Arguments hthread W {_} : assert.
Arguments hpool W {_} : assert.
Arguments doing W {_} : assert.
Arguments mutex_free : simpl never.
Arguments thread_over : simpl never.
