(* ===== verification/HelperProtocol.v ===== *)
(** The protocol of the helper's mutexes and discovery threads, and that every
    member function keeps it.

    A thread has a stance: the mutex it holds, the table it has put in
    [in_progress] and must take out or hand to a discovery thread, and the
    handles it has taken out of [workers] and must join.  [keeps] follows a
    stance through a program; the rule for calls is [keeps_hcont]. *)
From S2P Require Import Prelude Uri GoRandom Effects RoutingScope NodeHealth QueryPlan.
From S2P Require Import KeyRouteAffinity HttpCompression Config LocalNodesJson LiveNodes.
From S2P Require Import DynamoDBHelper HelperThreads HelperPool.

Record stance := mkStance {
  held : option helper_mutex;
  claim : option string;
  custody : list nat;
}.
Definition set_held m g := mkStance m (claim g) (custody g).
Definition set_claim c g := mkStance (held g) c (custody g).
Definition set_custody l g := mkStance (held g) (claim g) l.

(** The stance of a thread between calls ([None]), and of a discovery thread of
    a table at work. *)
Definition resting (role : option string) : stance := mkStance None role [].

(** A discovery thread has its table claimed until its last locked scope. *)
Definition working (role : option string) (g : stance) : Prop :=
  match role with
  | Some _ => claim g = role ∨ held g = Some DiscoveryMutex
  | None => True
  end.

Definition cache_ok (m : client_cache) : Prop :=
  map_Forall (λ k e, ∃ n, e.2 = FixedClient n ∧ Url_ToString n = k) m.
Definition region_ok {W} (g : helper_region) : region_view W g → Prop :=
  match g with
  | ClientCache => cache_ok
  | _ => λ _, True
  end.

Section keeps.
Context {W : Type}.

Fixpoint keeps {A} (role : option string) (p : hprog W A) (g : stance)
    (Q : result A → stance → Prop) : Prop :=
  match p with
  | Fin r => Q r g
  | Access rg f k =>
      working role g ∧ held g = region_mutex rg ∧
      ∀ v, region_ok rg v → region_ok rg (f v).2 ∧ keeps role (k (f v).1) g Q
  | Lock m k => working role g ∧ held g = None ∧ keeps role k (set_held (Some m) g) Q
  | Unlock m k => working role g ∧ held g = Some m ∧ keeps role k (set_held None g) Q
  | InsertInProgress table k =>
      role = None ∧ held g = Some DiscoveryMutex ∧ claim g = None ∧
      keeps role (k true) (set_claim (Some table) g) Q ∧ keeps role (k false) g Q
  | EraseInProgress table k =>
      held g = Some DiscoveryMutex ∧ claim g = Some table ∧ keeps role k (set_claim None g) Q
  | EmplaceWorker table k =>
      role = None ∧ held g = Some DiscoveryMutex ∧ claim g = Some table ∧
      keeps role (k true) (set_claim None g) Q ∧ keeps role (k false) g Q
  | SwapWorkers k =>
      role = None ∧ held g = Some DiscoveryMutex ∧ custody g = [] ∧
      ∀ ids, keeps role (k ids) (set_custody ids g) Q
  | JoinWorker i k =>
      role = None ∧ held g = None ∧
      ∃ l, custody g = i :: l ∧ keeps role k (set_custody l g) Q
  end.

Lemma keeps_hcont {A B} role (p : hprog W A) (f : result A → hprog W B) g Q R :
  keeps role p g Q → (∀ r g', Q r g' → keeps role (f r) g' R) → keeps role (hcont p f) g R.
Proof.
  intros Hp Hf. revert g Hp.
  induction p as [r|rg C F k IH|m k IH|m k IH|t k IH|t k IH|t k IH|k IH|i k IH]; intros g Hp;
    cbn [hcont keeps] in *; [by apply Hf|..].
  - destruct Hp as (Hw & Hh & Hk). split_and!; [done|done|]. intros v Hv.
    destruct (Hk v Hv). split; [done|]. by apply IH.
  - destruct Hp as (Hw & Hh & Hk). eauto.
  - destruct Hp as (Hw & Hh & Hk). eauto.
  - destruct Hp as (Hr & Hh & Hc & Ht & Hk). split_and!; eauto.
  - destruct Hp as (Hh & Hc & Hk). eauto.
  - destruct Hp as (Hr & Hh & Hc & Ht & Hk). split_and!; eauto.
  - destruct Hp as (Hr & Hh & Hc & Hk). split_and!; eauto.
  - destruct Hp as (Hr & Hh & l & Hl & Hk). split_and!; eauto.
Qed.
Lemma keeps_mono {A} role (p : hprog W A) g (Q R : result A → stance → Prop) :
  keeps role p g Q → (∀ r g', Q r g' → R r g') → keeps role p g R.
Proof.
  intros Hp HQ. revert g Hp.
  induction p as [r|rg C F k IH|m k IH|m k IH|t k IH|t k IH|t k IH|k IH|i k IH]; intros g Hp;
    cbn [keeps] in *; [by apply HQ|..].
  - destruct Hp as (Hw & Hh & Hk). split_and!; [done|done|]. intros v Hv.
    destruct (Hk v Hv). split; [done|]. by apply IH.
  - destruct Hp as (Hw & Hh & Hk). eauto.
  - destruct Hp as (Hw & Hh & Hk). eauto.
  - destruct Hp as (Hr & Hh & Hc & Ht & Hk). split_and!; eauto.
  - destruct Hp as (Hh & Hc & Hk). eauto.
  - destruct Hp as (Hr & Hh & Hc & Ht & Hk). split_and!; eauto.
  - destruct Hp as (Hr & Hh & Hc & Hk). split_and!; eauto.
  - destruct Hp as (Hr & Hh & l & Hl & Hk). split_and!; eauto.
Qed.

(** ** Programs that end in the stance they start in *)

Definition steady {A} (role : option string) (p : hprog W A) : Prop :=
  keeps role p (resting role) (λ _ g, g = resting role).

Lemma working_resting role m l : working role (mkStance m role l).
Proof. destruct role; [by left|done]. Qed.

Lemma steady_fin {A} role (r : result A) : steady role (Fin r).
Proof. done. Qed.
Lemma steady_ret {A} role (a : A) : steady role (mret a).
Proof. done. Qed.
Lemma steady_hcont {A B} role (p : hprog W A) (f : result A → hprog W B) :
  steady role p → (∀ r, steady role (f r)) → steady role (hcont p f).
Proof. intros Hp Hf. eapply keeps_hcont; [exact Hp|]. intros r g ->. apply Hf. Qed.
Lemma steady_bind {A B} role (p : hprog W A) (f : A → hprog W B) :
  steady role p → (∀ a, steady role (f a)) → steady role (p ≫= f).
Proof. intros Hp Hf. apply steady_hcont; [done|]. intros []; [apply Hf|done]. Qed.
Lemma steady_try {A} role (p : hprog W A) f :
  steady role p → (∀ e, steady role (f e)) → steady role (htry p f).
Proof. intros Hp Hf. apply steady_hcont; [done|]. intros []; [done|apply Hf]. Qed.
Lemma steady_catch {A} role (p f : hprog W A) :
  steady role p → steady role f → steady role (hcatch_invalid p f).
Proof. intros Hp Hf. apply steady_try; [done|]. intros []; done. Qed.
Lemma steady_out {B} role (m : M (AlternatorLiveNodes * W) B) : steady role (hcall_out m).
Proof. split_and!; [apply working_resting|done|]. done. Qed.
Lemma steady_nodes {B} role (m : M AlternatorLiveNodes B) : steady role (hcall_nodes m : hprog W B).
Proof. apply steady_out. Qed.
Lemma steady_surroundings {B} role (f : AlternatorLiveNodes * W → B * (AlternatorLiveNodes * W)) :
  steady role (access Surroundings f).
Proof. split_and!; [apply working_resting|done|]. done. Qed.

(** A locked scope, from what its body does with the mutex held. *)
Lemma steady_locked {A} role m (p : hprog W A) :
  keeps role p (mkStance (Some m) role []) (λ _ g, g = mkStance (Some m) role []) →
  steady role (locked m p).
Proof.
  intros Hp. split_and!; [apply working_resting|done|]. eapply keeps_hcont; [exact Hp|].
  intros r g ->. split_and!; [apply working_resting|done|done].
Qed.
Lemma steady_get role table : steady role (p_GetPartitionKeyName table).
Proof. apply steady_locked. split_and!; [apply working_resting|done|]. done. Qed.
Lemma steady_set role table key_name : steady role (p_SetPartitionKeyName table key_name).
Proof. apply steady_locked. split_and!; [apply working_resting|done|]. done. Qed.
End keeps.

Create HintDb helper_protocol.
#[export] Hint Resolve steady_fin steady_ret steady_bind steady_try steady_catch steady_out steady_nodes
  steady_surroundings steady_get steady_set : helper_protocol.
(** Follows the shape of a program. *)
Ltac calm :=
  repeat lazymatch goal with
  | |- ∀ _, _ => intros ?
  | |- steady _ (if _ then _ else _) => case_match
  | |- steady _ (match _ with _ => _ end) => case_match
  | |- steady _ (_ ≫= _) => apply steady_bind
  | |- steady _ (let _ := _ in _) => cbv zeta
  | |- _ => solve [auto with helper_protocol]
  end.

Section members.
Context {W : Type} `{World W} `{Sdk W}.
Implicit Types p : hprog W QueryPlan.

(** ** Discovery *)

Lemma steady_discover_loop role n backoff table :
  steady role (p_discover_loop n backoff table : hprog W bool).
Proof.
  revert backoff. induction n as [|n IH]; intros backoff; [apply steady_ret|].
  cbn [p_discover_loop]. unfold p_DiscoverPartitionKeyName. calm.
Qed.
Lemma steady_update role config table :
  steady role (p_UpdatePartitionKeyName config table : hprog W bool).
Proof. unfold p_UpdatePartitionKeyName. case_bool_decide; [done|]. apply steady_discover_loop. Qed.
#[local] Hint Resolve steady_discover_loop steady_update : helper_protocol.

(** Erasing a claimed table, for a caller and for the discovery thread of the
    table. *)
Lemma keeps_erase role table :
  role = None ∨ role = Some table →
  keeps role (p_erase table : hprog W ()) (mkStance None (Some table) []) (λ _ g, g = resting None).
Proof. intros [->| ->]; cbn; split_and!; auto. Qed.

Lemma keeps_discovery_worker config table :
  keeps (Some table) (p_discovery_worker config table : hprog W ()) (resting (Some table))
    (λ _ g, g = resting None).
Proof.
  apply (keeps_hcont _ _ _ _ (λ r g, r = Ok tt ∧ g = resting (Some table))).
  - eapply keeps_hcont; [apply steady_bind; [apply steady_update|calm]|].
    by intros [[]|] g ->.
  - intros r g [-> ->]. apply keeps_erase. by right.
Qed.

Lemma keeps_insert table :
  keeps None (locked DiscoveryMutex (InsertInProgress table (λ b, Fin (Ok b))) : hprog W bool)
    (resting None)
    (λ r g, ∃ b : bool, r = Ok b ∧ g = mkStance None (if b then Some table else None) []).
Proof.
  cbn. split_and!; try done; [by exists true|by exists false].
Qed.
Lemma keeps_emplace {A} table (f : bool → result A) :
  keeps None (locked DiscoveryMutex (EmplaceWorker table (λ b, Fin (f b))) : hprog W A)
    (mkStance None (Some table) [])
    (λ r g, ∃ b : bool, r = f b ∧ g = mkStance None (if b then None else Some table) []).
Proof.
  cbn. split_and!; try done; [by exists true|by exists false].
Qed.
Lemma steady_trigger table : steady None (p_TriggerPartitionKeyDiscovery table : hprog W bool).
Proof.
  unfold p_TriggerPartitionKeyDiscovery. case_bool_decide; [done|].
  apply steady_bind; [apply steady_get|]. intros key. case_bool_decide; [|done]. cbn [negb].
  eapply keeps_hcont; [apply keeps_insert|]. intros r g ([] & -> & ->); [|done]. cbn [negb].
  apply (keeps_hcont _ _ _ _ (λ r g, g = mkStance None (if r is Ok _ then None else Some table) [])).
  - eapply keeps_hcont; [apply keeps_emplace|]. by intros r g ([] & -> & ->).
  - intros [b|e] g ->; [done|]. eapply keeps_hcont; [apply keeps_erase; by left|].
    by intros [[]|] g ->.
Qed.
#[local] Hint Resolve steady_trigger : helper_protocol.
Lemma steady_trigger_all tables : steady None (p_trigger_all tables : hprog W _).
Proof. induction tables; cbn [p_trigger_all]; calm. Qed.
Lemma steady_missing role operations : steady role (p_missing_tables operations : hprog W _).
Proof. induction operations; cbn [p_missing_tables]; calm. Qed.
#[local] Hint Resolve steady_trigger_all steady_missing : helper_protocol.

Lemma keeps_join_all l :
  keeps None (p_join_all l : hprog W ()) (mkStance None None l) (λ _ g, g = resting None).
Proof. induction l as [|i l IH]; [done|]. cbn. split_and!; [done|done|]. by exists l. Qed.
Lemma steady_wait : steady None (p_WaitForPartitionKeyDiscovery : hprog W ()).
Proof.
  eapply keeps_hcont.
  { split_and!; [done|done|]. cbn [hcont keeps]. split_and!; [done|done|done|]. intros ids.
    split_and!; [done|done|].
    instantiate (1 := λ r g, ∃ ids, r = Ok ids ∧ g = mkStance None None ids). by exists ids. }
  intros r g (ids & -> & ->). apply keeps_join_all.
Qed.

(** ** Plans and writes *)

Lemma steady_hash role op : steady role (p_operation_hash op : hprog W _).
Proof. unfold p_operation_hash. calm. Qed.
#[local] Hint Resolve steady_hash : helper_protocol.
Lemma steady_hashes role operations : steady role (p_BatchWriteHashes operations : hprog W _).
Proof. induction operations; cbn [p_BatchWriteHashes]; calm. Qed.
Lemma steady_votes role candidates operations votes :
  steady role (p_count_votes candidates operations votes : hprog W _).
Proof. revert votes. induction operations; intros votes; cbn [p_count_votes]; calm. Qed.
#[local] Hint Resolve steady_hashes steady_votes : helper_protocol.
Lemma steady_select role candidates operations :
  steady role (p_SelectBatchWritePreferredNodesForCandidates candidates operations : hprog W _).
Proof. unfold p_SelectBatchWritePreferredNodesForCandidates. calm. Qed.
Lemma steady_nodes_for role hashes out : steady role (p_nodes_for_hashes hashes out : hprog W _).
Proof.
  revert out. induction hashes; intros out; cbn [p_nodes_for_hashes]; unfold p_PlanNodesForHash; calm.
Qed.
#[local] Hint Resolve steady_select steady_nodes_for : helper_protocol.
Lemma steady_partition_key role values table :
  steady role (p_QueryPlanForPartitionKey values table : hprog W _).
Proof.
  unfold p_QueryPlanForPartitionKey, p_HashPartitionKey, p_GetActive, p_PlanNodesForHash. calm.
Qed.
Lemma steady_batch_write role operations : steady role (p_QueryPlanForBatchWrite operations : hprog W _).
Proof.
  unfold p_QueryPlanForBatchWrite, p_GetActive, p_QueryPlanNodesForHashes, p_PlanNodes. calm.
Qed.
Lemma steady_default role : steady role (p_DefaultQueryPlan : hprog W _).
Proof. unfold p_DefaultQueryPlan. calm. Qed.
Lemma steady_default_for role : steady role (p_DefaultQueryPlanFor : hprog W _).
Proof. apply steady_default. Qed.
#[local] Hint Resolve steady_partition_key steady_batch_write steady_default
  steady_default_for : helper_protocol.
Lemma steady_key_plan values table : steady None (p_NewPartitionKeyQueryPlan values table : hprog W _).
Proof. unfold p_NewPartitionKeyQueryPlan. calm. Qed.
Lemma steady_batch_plan operations : steady None (p_NewBatchWriteQueryPlan operations : hprog W _).
Proof.
  unfold p_NewBatchWriteQueryPlan, p_TriggerPartitionKeyDiscoveryForMissingMetadata. calm.
Qed.
#[local] Hint Resolve steady_key_plan steady_batch_plan : helper_protocol.
Lemma steady_item_plan values table : steady None (p_PartitionKeyQueryPlanFor values table : hprog W _).
Proof. unfold p_PartitionKeyQueryPlanFor. calm. Qed.
#[local] Hint Resolve steady_item_plan : helper_protocol.
Lemma steady_write_plan config x : steady None (p_write_plan config x : hprog W _).
Proof. destruct x; cbn [p_write_plan]; calm. Qed.
Lemma steady_operations role request operations :
  steady role (p_BatchWriteOperationsFor request operations : hprog W _).
Proof.
  revert operations. induction request as [|[table writes] request IH]; intros operations;
    cbn [p_BatchWriteOperationsFor]; calm.
Qed.
#[local] Hint Resolve steady_write_plan steady_operations : helper_protocol.
Lemma steady_batch_item_plan config request :
  steady None (p_BatchWriteItemQueryPlanFor config request : hprog W _).
Proof. unfold p_BatchWriteItemQueryPlanFor. calm. Qed.

Lemma steady_client role plan : steady role (p_NewDynamoDBForQueryPlan plan : hprog W _).
Proof.
  unfold p_NewDynamoDBForQueryPlan. calm. apply steady_locked.
  split_and!; [apply working_resting|done|]. cbn [hcont]. intros m Hm. split; [done|].
  cbn [fst]. destruct ((m : client_cache) !! Url_ToString a) as [[u c]|]; [done|].
  split_and!; [apply working_resting|done|]. cbn [hcont snd]. intros m' Hm'. split; [|done].
  apply map_Forall_insert_2; [|done]. by eexists.
Qed.
#[local] Hint Resolve steady_batch_item_plan steady_client steady_wait : helper_protocol.

Context `{Deployment W}.
Lemma steady_program c : steady None (hprogram c : hprog W (hreply W)).
Proof. destruct c; cbn [hprogram]; unfold p_item_write, p_batch_write, p_destroy; calm. Qed.
Lemma keeps_worker table :
  keeps (Some table) (worker_program table : hprog W (hreply W)) (resting (Some table))
    (λ _ g, g = resting None).
Proof. eapply keeps_hcont; [apply keeps_discovery_worker|]. by intros [[]|] g ->. Qed.
End members.
