(* ===== verification/HelperInvariant.v ===== *)
(** What holds of a pool of HelperPool.v in every interleaving: each thread has
    a stance that its program keeps, stances exclude one another, and they
    account for [in_progress] and for every discovery thread. *)
From S2P Require Import Prelude Uri GoRandom Effects RoutingScope NodeHealth QueryPlan.
From S2P Require Import KeyRouteAffinity HttpCompression Config LocalNodesJson LiveNodes.
From S2P Require Import DynamoDBHelper HelperThreads HelperPool HelperProtocol.

Section invariant.
Context {W : Type} `{World W} `{Sdk W} `{Deployment W}.

Definition role_of (j : job) : option string :=
  match j with Called _ => None | Worker table => Some table end.
Definition stance_ok (t : hthread W) (g : stance) : Prop :=
  holds t = held g ∧
  match now t with
  | Idle => g = resting None
  | Busy j p => keeps (role_of j) p g (λ _ g', g' = resting None)
  end.

(** A discovery thread, at work or over. *)
Definition is_worker (t : hthread W) : Prop :=
  todo t = [] ∧ match now t with Busy (Called _) _ => False | _ => True end.
(** A thread claims a table, or holds its handle. *)
Definition claimed (gs : list stance) (table : string) : Prop :=
  ∃ i g, gs !! i = Some g ∧ claim g = Some table.
Definition in_custody (gs : list stance) (ids : list nat) (n : nat) : Prop :=
  n ∈ ids ∨ ∃ i g, gs !! i = Some g ∧ n ∈ custody g.

Record hinv (ts : list (hthread W)) (gs : list stance) (ip : gset string) (ids : list nat)
    : Prop := {
  hi_threads : Forall2 stance_ok ts gs;
  hi_locks i j gi gj m : gs !! i = Some gi → gs !! j = Some gj →
    held gi = Some m → held gj = Some m → i = j;
  hi_claims i j gi gj table : gs !! i = Some gi → gs !! j = Some gj →
    claim gi = Some table → claim gj = Some table → i = j;
  hi_in_progress table : table ∈ ip ↔ claimed gs table;
  hi_workers i t g table p : ts !! i = Some t → gs !! i = Some g →
    now t = Busy (Worker table) p →
    claim g = Some table ∨ claim g = None ∧ (held g = Some DiscoveryMutex → table ∉ ip);
  hi_handles i t table p : ts !! i = Some t → now t = Busy (Worker table) p → in_custody gs ids i;
  hi_custody i : in_custody gs ids i → ∃ t, ts !! i = Some t ∧ is_worker t;
  hi_alone i t g table p : ts !! i = Some t → gs !! i = Some g →
    now t = Busy (Worker table) p → todo t = [] ∧ custody g = [];
}.

Lemma hinv_stance ts gs ip ids i t :
  hinv ts gs ip ids → ts !! i = Some t → ∃ g, gs !! i = Some g ∧ stance_ok t g.
Proof. intros Hi Ht. eapply Forall2_lookup_l; [apply Hi|done]. Qed.

(** ** A step of one thread *)

(** What a step of a thread from stance [g] to [g'] may do to the rest. *)
Record fair_step (ts : list (hthread W)) (gs : list stance) (ip ip' : gset string)
    (ids ids' : list nat) (t t' : hthread W) (g g' : stance) : Prop := {
  fs_ok : stance_ok t' g';
  fs_lock m : held g' = Some m → held g = Some m ∨ ∀ j gj, gs !! j = Some gj → held gj ≠ Some m;
  fs_claim table : claim g' = Some table → claim g = Some table ∨ table ∉ ip;
  fs_in_progress table : table ∈ ip' ↔ claim g' = Some table ∨ table ∈ ip ∧ claim g ≠ Some table;
  fs_guarded table : table ∈ ip' → table ∉ ip → held g = Some DiscoveryMutex;
  fs_keep n : n ∈ ids ∨ n ∈ custody g →
    n ∈ ids' ∨ n ∈ custody g' ∨ thread_over ts n = true;
  fs_only n : n ∈ ids' ∨ n ∈ custody g' → n ∈ ids ∨ n ∈ custody g;
  fs_worker table p : now t' = Busy (Worker table) p →
    (∃ p, now t = Busy (Worker table) p) ∧ (todo t' = todo t ∧ custody g' = custody g) ∧
    (claim g = Some table → claim g' = Some table ∨ claim g' = None) ∧
    (claim g = None → claim g' = None ∧ (held g' = Some DiscoveryMutex → held g = Some DiscoveryMutex));
  fs_is_worker : is_worker t → is_worker t';
}.

Lemma over_busy ts i (t : hthread W) j p :
  ts !! i = Some t → now t = Busy j p → thread_over ts i = false.
Proof. intros Et En. unfold thread_over, over. by rewrite Et, En. Qed.

Section step.
Context (ts : list (hthread W)) (gs : list stance) (ip ip' : gset string) (ids ids' : list nat).
Context (i : nat) (t t' : hthread W) (g g' : stance).
Context (Hi : hinv ts gs ip ids) (Et : ts !! i = Some t) (Eg : gs !! i = Some g).
Context (Hs : fair_step ts gs ip ip' ids ids' t t' g g').

Lemma stance_after j u :
  <[i := g']> gs !! j = Some u → j = i ∧ u = g' ∨ j ≠ i ∧ gs !! j = Some u.
Proof. intros E. apply list_lookup_insert_Some in E as [(-> & -> & _)|[? ?]]; auto. Qed.
Lemma thread_after j u :
  <[i := t']> ts !! j = Some u → j = i ∧ u = t' ∨ j ≠ i ∧ ts !! j = Some u.
Proof. intros E. apply list_lookup_insert_Some in E as [(-> & -> & _)|[? ?]]; auto. Qed.
Lemma own_stance_after : <[i := g']> gs !! i = Some g'.
Proof. apply list_lookup_insert_eq. by eapply lookup_lt_Some. Qed.

Lemma step_locks j k gj gk m :
  <[i := g']> gs !! j = Some gj → <[i := g']> gs !! k = Some gk →
  held gj = Some m → held gk = Some m → j = k.
Proof.
  assert (∀ k gk, k ≠ i → gs !! k = Some gk → held gk = Some m → held g' ≠ Some m) as Hx.
  { intros n gn Nn En Hn Hm. destruct (fs_lock _ _ _ _ _ _ _ _ _ _ Hs m Hm) as [Hg|Hg];
      [|by destruct (Hg _ _ En)]. destruct Nn. by eapply (hi_locks _ _ _ _ Hi). }
  intros Ej Ek Hj Hk.
  destruct (stance_after _ _ Ej) as [[-> ->]|[Nj Ej']], (stance_after _ _ Ek) as [[-> ->]|[Nk Ek']];
    [done|by destruct (Hx _ _ Nk Ek' Hk)|by destruct (Hx _ _ Nj Ej' Hj)|].
  by eapply (hi_locks _ _ _ _ Hi).
Qed.
Lemma step_claims j k gj gk table :
  <[i := g']> gs !! j = Some gj → <[i := g']> gs !! k = Some gk →
  claim gj = Some table → claim gk = Some table → j = k.
Proof.
  assert (∀ k gk, k ≠ i → gs !! k = Some gk → claim gk = Some table → claim g' ≠ Some table) as Hx.
  { intros n gn Nn En Cn C. destruct (fs_claim _ _ _ _ _ _ _ _ _ _ Hs table C) as [C'|C'].
    - destruct Nn. by eapply (hi_claims _ _ _ _ Hi).
    - apply C', (hi_in_progress _ _ _ _ Hi). by exists n, gn. }
  intros Ej Ek Hj Hk.
  destruct (stance_after _ _ Ej) as [[-> ->]|[Nj Ej']], (stance_after _ _ Ek) as [[-> ->]|[Nk Ek']];
    [done|by destruct (Hx _ _ Nk Ek' Hk)|by destruct (Hx _ _ Nj Ej' Hj)|].
  by eapply (hi_claims _ _ _ _ Hi).
Qed.
Lemma step_in_progress table : table ∈ ip' ↔ claimed (<[i := g']> gs) table.
Proof.
  rewrite (fs_in_progress _ _ _ _ _ _ _ _ _ _ Hs), (hi_in_progress _ _ _ _ Hi). split.
  - intros [C|[(j & gj & Ej & Cj) C]]; [exists i, g'; by split; [apply own_stance_after|]|].
    exists j, gj. split; [|done]. rewrite list_lookup_insert_ne; [done|]. intros <-.
    rewrite Eg in Ej. by simplify_eq.
  - intros (j & gj & Ej & Cj). destruct (stance_after _ _ Ej) as [[-> ->]|[Nj Ej']]; [by left|].
    right. split; [by exists j, gj|]. intros C. by destruct Nj; eapply (hi_claims _ _ _ _ Hi).
Qed.
Lemma step_own_worker table p :
  now t' = Busy (Worker table) p →
  claim g' = Some table ∨ claim g' = None ∧ (held g' = Some DiscoveryMutex → table ∉ ip').
Proof.
  intros Hn. destruct (fs_worker _ _ _ _ _ _ _ _ _ _ Hs table p Hn) as ((p0 & Hn0) & _ & H1' & H2').
  destruct (hi_workers _ _ _ _ Hi i t g table p0 Et Eg Hn0) as [C|[C Hh]].
  - destruct (H1' C) as [C'|C']; [by left|]. right. split; [done|]. intros _ Hin.
    apply (fs_in_progress _ _ _ _ _ _ _ _ _ _ Hs) in Hin as [?|[_ ?]]; congruence.
  - destruct (H2' C) as [C' Hh']. right. split; [done|]. intros Hd Hin.
    apply (fs_in_progress _ _ _ _ _ _ _ _ _ _ Hs) in Hin as [?|[Hin _]]; [congruence|].
    by apply Hh in Hin; [|apply Hh'].
Qed.
Lemma step_workers j tj gj table p :
  <[i := t']> ts !! j = Some tj → <[i := g']> gs !! j = Some gj → now tj = Busy (Worker table) p →
  claim gj = Some table ∨ claim gj = None ∧ (held gj = Some DiscoveryMutex → table ∉ ip').
Proof.
  intros Etj Egj Hn.
  destruct (thread_after _ _ Etj) as [[-> ->]|[Nj Etj']], (stance_after _ _ Egj) as [[? ->]|[? Ej']];
    try done; [by eapply step_own_worker|].
  destruct (hi_workers _ _ _ _ Hi j tj gj table p Etj' Ej' Hn) as [C|[C Hh]]; [by left|].
  right. split; [done|]. intros Hd Hin. destruct Nj.
  eapply (hi_locks _ _ _ _ Hi); [done|exact Eg|done|].
  exact (fs_guarded _ _ _ _ _ _ _ _ _ _ Hs table Hin (Hh Hd)).
Qed.
Lemma step_handles j tj table p :
  <[i := t']> ts !! j = Some tj → now tj = Busy (Worker table) p →
  in_custody (<[i := g']> gs) ids' j.
Proof.
  intros Etj Hn.
  assert (in_custody gs ids j ∧ thread_over ts j = false) as [Hcu Ho].
  { destruct (thread_after _ _ Etj) as [[-> ->]|[_ Etj']].
    - destruct (fs_worker _ _ _ _ _ _ _ _ _ _ Hs table p Hn) as ((p0 & Hn0) & _).
      split; [by eapply (hi_handles _ _ _ _ Hi)|by eapply over_busy].
    - split; [by eapply (hi_handles _ _ _ _ Hi)|by eapply over_busy]. }
  assert (j ∈ ids ∨ j ∈ custody g → in_custody (<[i := g']> gs) ids' j) as Hk.
  { intros Hj. destruct (fs_keep _ _ _ _ _ _ _ _ _ _ Hs j Hj) as [?|[?|?]]; [by left| |congruence].
    right. exists i, g'. by split; [apply own_stance_after|]. }
  destruct Hcu as [Hids|(k & gk & Ek & Hk')]; [by apply Hk; left|].
  destruct (decide (k = i)) as [->|Nk]; [apply Hk; right; congruence|].
  right. exists k, gk. by rewrite list_lookup_insert_ne.
Qed.
Lemma step_custody n :
  in_custody (<[i := g']> gs) ids' n → ∃ tn, <[i := t']> ts !! n = Some tn ∧ is_worker tn.
Proof.
  intros Hn. assert (in_custody gs ids n) as Hn'.
  { destruct Hn as [Hn|(k & gk & Ek & Hk)].
    - destruct (fs_only _ _ _ _ _ _ _ _ _ _ Hs n (or_introl Hn)); [by left|]. right. by exists i, g.
    - destruct (stance_after _ _ Ek) as [[-> ->]|[_ Ek']]; [|by right; exists k, gk].
      destruct (fs_only _ _ _ _ _ _ _ _ _ _ Hs n (or_intror Hk)); [by left|]. right. by exists i, g. }
  destruct (hi_custody _ _ _ _ Hi n Hn') as (tn & En & Hw).
  destruct (decide (n = i)) as [->|Nn]; [|exists tn; by rewrite list_lookup_insert_ne].
  exists t'. split; [apply list_lookup_insert_eq; by eapply lookup_lt_Some|].
  apply (fs_is_worker _ _ _ _ _ _ _ _ _ _ Hs). congruence.
Qed.

Lemma hinv_step : hinv (<[i := t']> ts) (<[i := g']> gs) ip' ids'.
Proof.
  split; eauto using step_locks, step_claims, step_in_progress, step_workers, step_handles,
    step_custody.
  - apply Forall2_insert; [apply Hi|apply Hs].
  - intros j tj gj table p Etj Egj Hn.
    destruct (thread_after _ _ Etj) as [[-> ->]|[? Etj']], (stance_after _ _ Egj) as [[? ->]|[? Ej']];
      try done; [|by eapply (hi_alone _ _ _ _ Hi)].
    destruct (fs_worker _ _ _ _ _ _ _ _ _ _ Hs table p Hn) as ((p0 & Hn0) & [-> ->] & _).
    by eapply (hi_alone _ _ _ _ Hi).
Qed.
End step.

(** ** A new discovery thread *)

(** The mutex is held by the thread that starts it, so that no discovery thread
    of the same table is in its last locked scope. *)
Section fork.
Context (ts : list (hthread W)) (gs : list stance) (ip : gset string) (ids : list nat).
Context (table : string) (i : nat) (g : stance).
Context (Hi : hinv ts gs ip ids) (Eg : gs !! i = Some g) (Hd : held g = Some DiscoveryMutex).
Context (Hnw : ∀ t p, ts !! i = Some t → now t ≠ Busy (Worker table) p) (Hip : table ∉ ip).

Lemma stance_forked j u :
  (gs ++ [resting (Some table)]) !! j = Some u →
  gs !! j = Some u ∨ j = length ts ∧ u = resting (Some table).
Proof.
  intros E. rewrite (Forall2_length _ _ _ (hi_threads _ _ _ _ Hi)).
  apply lookup_app_Some in E as [?|[? E]]; [by left|]. right.
  apply list_lookup_singleton_Some in E as [? <-]. split; [lia|done].
Qed.
Lemma thread_forked j u :
  (ts ++ [new_worker table]) !! j = Some u → ts !! j = Some u ∨ j = length ts ∧ u = new_worker table.
Proof.
  intros E. apply lookup_app_Some in E as [?|[? E]]; [by left|]. right.
  apply list_lookup_singleton_Some in E as [? <-]. split; [lia|done].
Qed.
Lemma not_claimed j u : gs !! j = Some u → claim u ≠ Some table.
Proof. intros E C. apply Hip, (hi_in_progress _ _ _ _ Hi). by exists j, u. Qed.
Lemma fork_claims j k gj gk t :
  (gs ++ [resting (Some table)]) !! j = Some gj → (gs ++ [resting (Some table)]) !! k = Some gk →
  claim gj = Some t → claim gk = Some t → j = k.
Proof.
  intros Ej Ek Hj Hk.
  destruct (stance_forked _ _ Ej) as [Ej'|[? ->]], (stance_forked _ _ Ek) as [Ek'|[? ->]].
  - by eapply (hi_claims _ _ _ _ Hi).
  - destruct (not_claimed _ _ Ej'). cbn in Hk. congruence.
  - destruct (not_claimed _ _ Ek'). cbn in Hj. congruence.
  - congruence.
Qed.
Lemma fork_in_progress t : t ∈ {[ table ]} ∪ ip ↔ claimed (gs ++ [resting (Some table)]) t.
Proof.
  rewrite elem_of_union, elem_of_singleton, (hi_in_progress _ _ _ _ Hi). split.
  - intros [->|(j & gj & Ej & Cj)].
    + exists (length gs), (resting (Some table)). split; [|done]. by apply list_lookup_middle.
    + exists j, gj. split; [by apply lookup_app_l_Some|done].
  - intros (j & gj & Ej & Cj). destruct (stance_forked _ _ Ej) as [Ej'|[-> ->]];
      [right; by exists j, gj|left]. cbn in Cj. congruence.
Qed.
Lemma fork_workers j tj gj t p :
  (ts ++ [new_worker table]) !! j = Some tj → (gs ++ [resting (Some table)]) !! j = Some gj →
  now tj = Busy (Worker t) p →
  claim gj = Some t ∨
  claim gj = None ∧ (held gj = Some DiscoveryMutex → t ∉ ({[ table ]} ∪ ip : gset string)).
Proof.
  intros Etj Egj Hn. pose proof (Forall2_length _ _ _ (hi_threads _ _ _ _ Hi)) as El.
  destruct (thread_forked _ _ Etj) as [Etj'|[? ->]], (stance_forked _ _ Egj) as [Egj'|[? ->]].
  - destruct (hi_workers _ _ _ _ Hi j tj gj t p Etj' Egj' Hn) as [?|[C Hh]]; [by left|].
    right. split; [done|]. intros Hj. rewrite not_elem_of_union, not_elem_of_singleton.
    split; [|by apply Hh]. intros ->.
    assert (j = i) as -> by by eapply (hi_locks _ _ _ _ Hi). by eapply Hnw.
  - apply lookup_lt_Some in Etj'. lia.
  - apply lookup_lt_Some in Egj'. lia.
  - left. cbn in Hn. cbn. congruence.
Qed.
Lemma in_custody_forked n :
  in_custody gs ids n → in_custody (gs ++ [resting (Some table)]) (ids ++ [length ts]) n.
Proof.
  intros [Hn|(j & gj & Ej & Hj)]; [left; apply elem_of_app; by left|].
  right. exists j, gj. split; [by apply lookup_app_l_Some|done].
Qed.
Lemma fork_custody n :
  in_custody (gs ++ [resting (Some table)]) (ids ++ [length ts]) n →
  ∃ t, (ts ++ [new_worker table]) !! n = Some t ∧ is_worker t.
Proof.
  intros Hn. assert (in_custody gs ids n ∨ n = length ts) as [Hn'| ->].
  { destruct Hn as [Hn|(j & gj & Ej & Hj)].
    - apply elem_of_app in Hn as [?|Hn]; [left; by left|right]. by apply list_elem_of_singleton in Hn.
    - destruct (stance_forked _ _ Ej) as [Ej'|[-> ->]]; [|by apply elem_of_nil in Hj].
      left. right. by exists j, gj. }
  - destruct (hi_custody _ _ _ _ Hi n Hn') as (t & Et & Hw). exists t.
    split; [by apply lookup_app_l_Some|done].
  - exists (new_worker table). split; [by apply list_lookup_middle|done].
Qed.

Lemma hinv_fork :
  hinv (ts ++ [new_worker table]) (gs ++ [resting (Some table)]) ({[ table ]} ∪ ip)
    (ids ++ [length ts]).
Proof.
  split; eauto using fork_claims, fork_in_progress, fork_workers, fork_custody.
  - apply Forall2_app; [apply Hi|]. repeat constructor. apply keeps_worker.
  - intros j k gj gk m Ej Ek Hj Hk.
    destruct (stance_forked _ _ Ej) as [Ej'|[? ->]], (stance_forked _ _ Ek) as [Ek'|[? ->]]; try done.
    by eapply (hi_locks _ _ _ _ Hi).
  - intros j tj t p Etj Hn. destruct (thread_forked _ _ Etj) as [Etj'|[-> ->]].
    + apply in_custody_forked. by eapply (hi_handles _ _ _ _ Hi).
    + left. apply elem_of_app. right. by apply list_elem_of_singleton.
  - intros j tj gj t p Etj Egj Hn. pose proof (Forall2_length _ _ _ (hi_threads _ _ _ _ Hi)) as El.
    destruct (thread_forked _ _ Etj) as [Etj'|[? ->]], (stance_forked _ _ Egj) as [Egj'|[? ->]].
    + by eapply (hi_alone _ _ _ _ Hi).
    + apply lookup_lt_Some in Etj'. lia.
    + apply lookup_lt_Some in Egj'. lia.
    + done.
Qed.
End fork.
(** ** Every step *)

Definition helper_ok (x : hpool W) : Prop :=
  ∃ gs, hinv (hthreads x) gs (in_progress (hmem x).1.1) (hmem x).2 ∧
    cache_ok (fixed_clients_ (hmem x).1.1).

Lemma mutex_free_held ts gs m j g :
  Forall2 stance_ok ts gs → mutex_free ts m = true → gs !! j = Some g → held g ≠ Some m.
Proof.
  intros Hf Hm Eg. destruct (Forall2_lookup_r _ _ _ _ _ Hf Eg) as (t & Et & <- & _).
  unfold mutex_free in Hm. rewrite forallb_forall in Hm.
  specialize (Hm t). rewrite bool_decide_eq_true in Hm. apply Hm.
  apply list_elem_of_In. by eapply list_elem_of_lookup_2.
Qed.

Lemma claims_same gs (ip : gset string) i g table :
  (∀ table, table ∈ ip ↔ claimed gs table) → gs !! i = Some g →
  table ∈ ip ↔ claim g = Some table ∨ table ∈ ip ∧ claim g ≠ Some table.
Proof.
  intros Hip Eg. split; [|intros [C|[? _]]; [|done]].
  - destruct (decide (claim g = Some table)); tauto.
  - apply Hip. by exists i, g.
Qed.

(** A step inside a program. *)
Lemma fair_busy ts gs ip ip' ids ids' j (p p' : hprog W (hreply W)) m td an g g' :
  keeps (role_of j) p' g' (λ _ g, g = resting None) →
  (∀ m, held g' = Some m → held g = Some m ∨ ∀ k gk, gs !! k = Some gk → held gk ≠ Some m) →
  (∀ table, claim g' = Some table → claim g = Some table ∨ table ∉ ip) →
  (∀ table, table ∈ ip' ↔ claim g' = Some table ∨ table ∈ ip ∧ claim g ≠ Some table) →
  (∀ table, table ∈ ip' → table ∉ ip → held g = Some DiscoveryMutex) →
  (∀ n, n ∈ ids ∨ n ∈ custody g → n ∈ ids' ∨ n ∈ custody g' ∨ thread_over ts n = true) →
  (∀ n, n ∈ ids' ∨ n ∈ custody g' → n ∈ ids ∨ n ∈ custody g) →
  (∀ table, j = Worker table →
    custody g' = custody g ∧ (claim g = Some table → claim g' = Some table ∨ claim g' = None) ∧
    (claim g = None → claim g' = None ∧ (held g' = Some DiscoveryMutex → held g = Some DiscoveryMutex))) →
  fair_step ts gs ip ip' ids ids' (mkHThread (Busy j p) m td an)
    (mkHThread (Busy j p') (held g') td an) g g'.
Proof.
  intros Hk Hl Hc Hp Hg Hkeep Honly Hw. split; try done.
  intros table q E. cbn in E. simplify_eq. destruct (Hw table eq_refl) as [-> ?].
  split; [by eexists|]. done.
Qed.
(** One that touches neither claims nor handles. *)
Lemma fair_plain ts gs ip ids j (p p' : hprog W (hreply W)) m td an g g' :
  (∀ table, table ∈ ip ↔ claimed gs table) → (∃ i, gs !! i = Some g) →
  keeps (role_of j) p' g' (λ _ g, g = resting None) →
  (∀ m, held g' = Some m → held g = Some m ∨ ∀ k gk, gs !! k = Some gk → held gk ≠ Some m) →
  claim g' = claim g → custody g' = custody g →
  (∀ table, j = Worker table → claim g = None → held g' = Some DiscoveryMutex →
    held g = Some DiscoveryMutex) →
  fair_step ts gs ip ip ids ids (mkHThread (Busy j p) m td an)
    (mkHThread (Busy j p') (held g') td an) g g'.
Proof.
  intros Hip [i Eg] Hk Hl Ec Eu Hw. apply fair_busy; rewrite ?Ec, ?Eu; try tauto.
  - intros table. by eapply claims_same.
  - intros table Ej. specialize (Hw table Ej). split; [done|]. tauto.
Qed.

Lemma same_discovery rg v (σ : DynamoDBHelper * W) :
  in_progress (region_set rg v σ).1 = in_progress σ.1.
Proof. by destruct rg. Qed.
Lemma cache_access rg B (f : region_view W rg → B * region_view W rg) σ :
  cache_ok (fixed_clients_ σ.1) →
  (∀ v, region_ok rg v → region_ok rg (f v).2) →
  region_ok rg (region_get rg σ) ∧
  cache_ok (fixed_clients_ (region_set rg (f (region_get rg σ)).2 σ).1).
Proof. intros Hc Hf. destruct rg; cbn in *; auto. Qed.

(** The thread that takes the step, with its stance. *)
Section thread_steps.
Context (ts : list (hthread W)) (gs : list stance) (σ : DynamoDBHelper * W) (ids : list nat).
Context (i : nat) (j : job) (m : option helper_mutex) (td : list hcall).
Context (an : list (hcall * result (hreply W))) (g : stance).
Context (Hi : hinv ts gs (in_progress σ.1) ids) (Hc : cache_ok (fixed_clients_ σ.1)).
Context (Eg : gs !! i = Some g) (Em : m = held g).

Abbreviation busy p := (mkHThread (Busy j p) m td an).
Abbreviation conforms p :=
  (keeps (W := W) (A := hreply W) (role_of j) p g (λ _ g', g' = resting None)).

Lemma helper_ok_update p t' g' σ' ids' :
  ts !! i = Some (busy p) →
  fair_step ts gs (in_progress σ.1) (in_progress σ'.1) ids ids' (busy p) t' g g' →
  cache_ok (fixed_clients_ σ'.1) → helper_ok (mkHPool (<[i := t']> ts ++ []) (σ', ids')).
Proof.
  intros Et Hs Hc'. exists (<[i := g']> gs). rewrite app_nil_r. split; [|done].
  by eapply hinv_step.
Qed.

Lemma ok_Fin r :
  ts !! i = Some (busy (Fin r)) → conforms (Fin r) →
  helper_ok (mkHPool (<[i := mkHThread Idle m td
    (match j with Called c => an ++ [(c, r)] | Worker _ => an end)]> ts ++ []) (σ, ids)).
Proof.
  intros Et Hk. apply (helper_ok_update _ _ g _ _ Et); [|done].
  split; try done; auto.
  - intros table. eapply claims_same; [apply Hi|done].
  - tauto.
  - by intros [? _].
Qed.
Lemma ok_Access rg B (f : region_view W rg → B * region_view W rg) k :
  ts !! i = Some (busy (Access rg f k)) → conforms (Access rg f k) →
  helper_ok (mkHPool (<[i := busy (k (f (region_get rg σ)).1)]> ts ++ [])
    (region_set rg (f (region_get rg σ)).2 σ, ids)).
Proof.
  intros Et (Hw & Hh & Hk). destruct (cache_access rg B f σ Hc) as [Hr Hc'].
  { intros v Hv. by apply Hk. }
  eapply helper_ok_update; [done| |done]. rewrite same_discovery.  rewrite Em.
  apply (fair_plain _ _ _ _ _ _ _ _ _ _ g g); [apply Hi|by exists i|by apply Hk|by left|done|done|done].
Qed.
Lemma ok_Lock m' k :
  ts !! i = Some (busy (Lock m' k)) → conforms (Lock m' k) →
  mutex_free ts m' = true →
  helper_ok (mkHPool (<[i := mkHThread (Busy j k) (Some m') td an]> ts ++ []) (σ, ids)).
Proof.
  intros Et (Hw & Hh & Hk) Hf. eapply helper_ok_update; [done| |done].
  apply (fair_plain _ _ _ _ _ _ _ _ _ _ g (set_held (Some m') g));
    [apply Hi|by exists i|done| |done|done|].
  - intros m0 E. cbn in E. simplify_eq. right. intros n gn En.
    by eapply mutex_free_held; [apply Hi|..].
  - intros table Ej Hn. rewrite Ej in Hw. cbn in Hw. destruct Hw; congruence.
Qed.
Lemma ok_Unlock m' k :
  ts !! i = Some (busy (Unlock m' k)) → conforms (Unlock m' k) →
  helper_ok (mkHPool (<[i := mkHThread (Busy j k) None td an]> ts ++ []) (σ, ids)).
Proof.
  intros Et (Hw & Hh & Hk). eapply helper_ok_update; [done| |done].
  by apply (fair_plain _ _ _ _ _ _ _ _ _ _ g (set_held None g)); [apply Hi|exists i|..].
Qed.
Lemma ok_Insert table k :
  ts !! i = Some (busy (InsertInProgress table k)) →
  conforms (InsertInProgress table k) →
  helper_ok (mkHPool (<[i := busy (k (insert_in_progress table σ.1).1)]> ts ++ [])
    (((insert_in_progress table σ.1).2, σ.2), ids)).
Proof.
  intros Et (Hr & Hh & Hcl & Ht & Hf). unfold insert_in_progress.  rewrite Em.
  case_bool_decide as Hp; (eapply helper_ok_update; [done| |done]); cbn [fst snd].
  - apply (fair_plain _ _ _ _ _ _ _ _ _ _ g g);
      [apply Hi|by exists i|done|by left|done|done|done].
  - apply (fair_busy _ _ _ _ _ _ _ _ _ _ _ _ g (set_claim (Some table) g)); try done; cbn.
    + by left.
    + intros t E. simplify_eq. by right.
    + intros t. rewrite elem_of_union, elem_of_singleton, Hcl. naive_solver.
    + intros n. tauto.
    + intros t Ej. by rewrite Ej in Hr.
Qed.
Lemma ok_Erase table k :
  ts !! i = Some (busy (EraseInProgress table k)) →
  conforms (EraseInProgress table k) →
  helper_ok (mkHPool (<[i := busy k]> ts ++ []) ((discovery_done table σ.1, σ.2), ids)).
Proof.
  intros Et (Hh & Hcl & Hk). eapply helper_ok_update; [done| |done].  rewrite Em.
  apply (fair_busy _ _ _ _ _ _ _ _ _ _ _ _ g (set_claim None g)); try done; cbn.
  - by left.
  - intros t. rewrite elem_of_difference, elem_of_singleton, Hcl. naive_solver.
  - intros n. tauto.
  - intros t Ej. split; [done|]. split; [by right|]. congruence.
Qed.
Lemma ok_Swap k :
  ts !! i = Some (busy (SwapWorkers k)) → conforms (SwapWorkers k) →
  helper_ok (mkHPool (<[i := busy (k ids)]> ts ++ [])
    (((WaitForPartitionKeyDiscovery σ.1).2, σ.2), [])).
Proof.
  intros Et (Hr & Hh & Hcu & Hk). eapply helper_ok_update; [done| |done].  rewrite Em.
  apply (fair_busy _ _ _ _ _ _ _ _ _ _ _ _ g (set_custody ids g)); try done; cbn.
  - by left.
  - by left.
  - intros table. eapply claims_same; [apply Hi|done].
  - intros n. rewrite Hcu. intros [?|Hn]; [tauto|by apply elem_of_nil in Hn].
  - intros n [Hn|?]; [by apply elem_of_nil in Hn|by left].
  - intros t Ej. by rewrite Ej in Hr.
Qed.
Lemma ok_Join n k :
  ts !! i = Some (busy (JoinWorker n k)) → conforms (JoinWorker n k) →
  thread_over ts n = true → helper_ok (mkHPool (<[i := busy k]> ts ++ []) (σ, ids)).
Proof.
  intros Et (Hr & Hh & l & Hcu & Hk) Ho. eapply helper_ok_update; [done| |done].
   rewrite Em.
  apply (fair_busy _ _ _ _ _ _ _ _ _ _ _ _ g (set_custody l g)); try done; cbn.
  - by left.
  - by left.
  - intros table. eapply claims_same; [apply Hi|done].
  - intros q [?|Hq]; [tauto|]. rewrite Hcu, elem_of_cons in Hq. destruct Hq as [->|?]; tauto.
  - intros q [?|?]; [tauto|]. rewrite Hcu, elem_of_cons. tauto.
  - intros t Ej. by rewrite Ej in Hr.
Qed.
Lemma ok_Emplace table k w :
  ts !! i = Some (busy (EmplaceWorker table k)) → conforms (EmplaceWorker table k) →
  helper_ok (mkHPool (<[i := busy (k true)]> ts ++ [new_worker table])
    ((push_worker table σ.1, w), ids ++ [length ts])) ∧
  helper_ok (mkHPool (<[i := busy (k false)]> ts ++ []) ((σ.1, w), ids)).
Proof.
  intros Et (Hr & Hh & Hcl & Ht & Hf). split.
  - exists (<[i := set_claim None g]> gs ++ [resting (Some table)]). split; [|done]. cbn.
    assert (table ∈ in_progress σ.1) as Hin by (apply Hi; by exists i, g).
    rewrite (union_difference_L {[ table ]} (in_progress σ.1)) by set_solver.
    rewrite <-(length_insert ts i (busy (k true))).
    pose proof (lookup_lt_Some _ _ _ Et) as Lt. pose proof (lookup_lt_Some _ _ _ Eg) as Lg.
    apply (hinv_fork _ _ _ _ table i (set_claim None g)); [|by apply list_lookup_insert_eq|done| |set_solver].
    + eapply hinv_step; [exact Hi|done|exact Eg|]. rewrite Em.
      apply (fair_busy _ _ _ _ _ _ _ _ _ _ _ _ g (set_claim None g)); try done; cbn.
      * by left.
      * intros t. rewrite elem_of_difference, elem_of_singleton, Hcl. naive_solver.
      * tauto.
      * intros t Ej. by rewrite Ej in Hr.
    + intros t p E. rewrite list_lookup_insert_eq in E by done.
      injection E as <-. cbn. intros E. injection E as E _. by rewrite E in Hr.
  - eapply helper_ok_update; [done| |done]. rewrite Em.
    apply (fair_plain _ _ _ _ _ _ _ _ _ _ g g); [apply Hi|by exists i|done|by left|done|done|done].
Qed.
End thread_steps.

Lemma ok_Idle ts gs (σ : DynamoDBHelper * W) ids i g m c cs an :
  hinv ts gs (in_progress σ.1) ids → cache_ok (fixed_clients_ σ.1) → gs !! i = Some g →
  ts !! i = Some (mkHThread Idle m (c :: cs) an) →
  helper_ok (mkHPool (<[i := mkHThread (Busy (Called c) (hprogram c)) m cs an]> ts ++ []) (σ, ids)).
Proof.
  intros Hi Hc Eg Et. exists (<[i := g]> gs). rewrite app_nil_r. split; [|done].
  destruct (hinv_stance _ _ _ _ _ _ Hi Et) as (g0 & Eg0 & Hm & Hg). cbn in Hm, Hg.
  assert (g0 = g) as -> by congruence. eapply hinv_step; [exact Hi|done|exact Eg|].
  split; try done; auto.
  - split; [done|]. cbn. rewrite Hg. apply steady_program.
  - intros table. eapply claims_same; [apply Hi|done].
  - tauto.
  - by intros [? _].
Qed.

Lemma helper_ok_step i (x y : hpool W) : hpool_step i x = Some y → helper_ok x → helper_ok y.
Proof.
  destruct x as [ts [σ ids]]. intros E (gs & Hi & Hc). unfold hpool_step in E. cbn in E, Hi, Hc.
  destruct (ts !! i) as [[d m td an]|] eqn:Et; [|done].
  destruct (hinv_stance _ _ _ _ _ _ Hi Et) as (g & Eg & Hm & Hk). cbn in E, Hm, Hk.
  destruct d as [|j p].
  { destruct td as [|c cs]; [done|]. cbn in E. simplify_eq. by eapply ok_Idle. }
  destruct p as [r|rg B f k|m' k|m' k|table k|table k|table k|k|n k]; cbn in E.
  - simplify_eq. by eapply ok_Fin.
  - pose proof (ok_Access ts gs σ ids i j m td an g Hi Hc Eg Hm rg B f k Et Hk) as Hok.
    destruct (f (region_get rg σ)) as [b v]. cbn in E. by simplify_eq.
  - destruct (mutex_free ts m') eqn:Ef; cbn in E; [|done]. simplify_eq. by eapply ok_Lock.
  - simplify_eq. by eapply ok_Unlock.
  - pose proof (ok_Insert ts gs σ ids i j m td an g Hi Hc Eg Hm table k Et Hk) as Hok.
    destruct (insert_in_progress table σ.1) as [b h]. cbn in E. by simplify_eq.
  - simplify_eq. by eapply ok_Erase.
  - destruct (create_thread σ.2) as [created w].
    destruct (ok_Emplace ts gs σ ids i j m td an g Hi Hc Eg Hm table k w Et Hk) as [Ht Hf].
    destruct created; cbn in E; by simplify_eq.
  - simplify_eq. by eapply ok_Swap.
  - destruct (thread_over ts n) eqn:Eo; cbn in E; [|done]. simplify_eq. by eapply ok_Join.
Qed.

Lemma helper_ok_steps (x y : hpool W) : rtc hstep x y → helper_ok x → helper_ok y.
Proof.
  induction 1 as [x|x y z Hs _ IH]; [done|]. intros Hx. apply IH.
  destruct Hs as [i x y E|n w x]; [by eapply helper_ok_step|].
  destruct Hx as (gs & Hi & Hc). by exists gs.
Qed.
Lemma helper_ok_make calls h (w : W) : unused h → helper_ok (hpool_make calls h w).
Proof.
  intros (Hp & Hw & Hf). exists (map (λ _, resting None) calls). cbn. rewrite Hp, Hf. split; [|done].
  assert (∀ i g, map (λ _, resting None) calls !! i = Some g → g = resting None) as Hg.
  { intros i g E. by apply list_lookup_fmap_Some in E as (? & ? & _). }
  assert (∀ i t, callers calls !! i = Some t → now t = Idle) as Ht.
  { intros i t E. by apply list_lookup_fmap_Some in E as (? & -> & _). }
  split.
  - unfold callers. apply Forall2_fmap_2. by apply Forall_Forall2_diag, Forall_true.
  - intros i j gi gj m Ei _ Hh. by rewrite (Hg _ _ Ei) in Hh.
  - intros i j gi gj t Ei _ Hh. by rewrite (Hg _ _ Ei) in Hh.
  - intros table. split; [set_solver|]. intros (i & g & Ei & Hh). by rewrite (Hg _ _ Ei) in Hh.
  - intros i t g table p Ei _ Hn. by rewrite (Ht _ _ Ei) in Hn.
  - intros i t table p Ei Hn. by rewrite (Ht _ _ Ei) in Hn.
  - intros i [Hn|(j & g & Ej & Hn)]; [by apply elem_of_nil in Hn|].
    rewrite (Hg _ _ Ej) in Hn. by apply elem_of_nil in Hn.
  - intros i t g table p Ei _ Hn. by rewrite (Ht _ _ Ei) in Hn.
Qed.
End invariant.
