(* ===== verification/HelperSafety.v ===== *)
(** What the invariant of HelperInvariant.v gives: discoveries exclude one
    another, accesses are guarded, some thread can always go on, and the
    destructor outlives every discovery thread. *)
From S2P Require Import Prelude Uri GoRandom Effects RoutingScope NodeHealth QueryPlan.
From S2P Require Import KeyRouteAffinity HttpCompression Config LocalNodesJson LiveNodes.
From S2P Require Import DynamoDBHelper HelperThreads HelperPool HelperProtocol HelperInvariant.

Section safety.
Context {W : Type} `{World W} `{Sdk W} `{Deployment W}.

(** ** Discoveries *)

Lemma keeps_working {A} table (p : hprog W A) g Q :
  keeps (Some table) p g Q → (∀ r, p ≠ Fin r) → working (Some table) g.
Proof.
  destruct p as [r|rg B f k|m' k|m' k|t k|t k|t k|k|n k]; cbn; [|tauto|tauto|tauto|..].
  - intros _ Hr. by destruct (Hr r).
  - by intros (? & _).
  - intros (? & _) _. by right.
  - by intros (? & _).
  - by intros (? & _).
  - by intros (? & _).
Qed.

Lemma discovers_now (t : hthread W) table :
  discovers t = Some table ↔ ∃ p, now t = Busy (Worker table) p ∧ ∀ r, p ≠ Fin r.
Proof.
  unfold discovers. split.
  - destruct (now t) as [|[c|t0] p]; [done|done|]. intros E. exists p.
    destruct p; by simplify_eq.
  - intros (p & -> & Hp). destruct p; try done. by destruct (Hp r).
Qed.

(** A discovery thread with work left claims its table, or is in its last
    locked scope. *)
Lemma discovering_stance ts gs ip ids i (t : hthread W) table :
  hinv ts gs ip ids → ts !! i = Some t → discovers t = Some table →
  ∃ g, gs !! i = Some g ∧
    (claim g = Some table ∨
     claim g = None ∧ held g = Some DiscoveryMutex ∧ table ∉ ip).
Proof.
  intros Hi Et Hd0. apply discovers_now in Hd0 as (p & Hn & Hp). destruct (hinv_stance _ _ _ _ _ _ Hi Et) as (g & Eg & _ & Hk).
  rewrite Hn in Hk. exists g. split; [done|].
  destruct (hi_workers _ _ _ _ Hi i t g table p Et Eg Hn) as [?|[C Hh]]; [by left|right].
  destruct (keeps_working table p g _ Hk Hp) as [?|Hd]; [congruence|]. auto.
Qed.

Lemma discovering_once ts gs ip ids i j (ti tj : hthread W) table :
  hinv ts gs ip ids → ts !! i = Some ti → ts !! j = Some tj →
  discovers ti = Some table → discovers tj = Some table → i = j.
Proof.
  intros Hi Ei Ej Di Dj.
  destruct (discovering_stance _ _ _ _ _ _ _ Hi Ei Di) as (gi & Gi & [Ci|(Ci & Hd & Hn)]),
    (discovering_stance _ _ _ _ _ _ _ Hi Ej Dj) as (gj & Gj & [Cj|(Cj & Hd' & Hn')]).
  - by eapply (hi_claims _ _ _ _ Hi).
  - destruct Hn'. apply (hi_in_progress _ _ _ _ Hi). by exists i, gi.
  - destruct Hn. apply (hi_in_progress _ _ _ _ Hi). by exists j, gj.
  - by eapply (hi_locks _ _ _ _ Hi).
Qed.

(** No member function is running. *)
Definition no_call (ts : list (hthread W)) : Prop :=
  ∀ i t c p, ts !! i = Some t → now t ≠ Busy (Called c) p.

Lemma claimed_by_worker ts gs ip ids table :
  hinv ts gs ip ids → no_call ts → table ∈ ip →
  ∃ i t, ts !! i = Some t ∧ discovers t = Some table.
Proof.
  intros Hi Hn Hin. apply (hi_in_progress _ _ _ _ Hi) in Hin as (i & g & Eg & C).
  destruct (Forall2_lookup_r _ _ _ _ _ (hi_threads _ _ _ _ Hi) Eg) as (t & Et & _ & Hk).
  destruct (now t) as [|[c|t0] p] eqn:E; [by subst g|by destruct (Hn i t c p Et E)|].
  exists i, t. split; [done|]. apply discovers_now. exists p.
  destruct (hi_workers _ _ _ _ Hi i t g t0 p Et Eg E) as [C'|[C' _]]; [|congruence].
  split; [congruence|]. intros r ->. cbn in Hk. by subst g.
Qed.
Lemma worker_has_handle ts gs ip ids i (t : hthread W) table p :
  hinv ts gs ip ids → no_call ts → ts !! i = Some t → now t = Busy (Worker table) p → i ∈ ids.
Proof.
  intros Hi Hn Et E. destruct (hi_handles _ _ _ _ Hi i t table p Et E) as [?|(j & g & Eg & Hg)]; [done|].
  destruct (Forall2_lookup_r _ _ _ _ _ (hi_threads _ _ _ _ Hi) Eg) as (tj & Ej & _ & Hk).
  exfalso. destruct (now tj) as [|[c|t0] q] eqn:Eq; [|by destruct (Hn j tj c q Ej Eq)|].
  - subst g. by apply elem_of_nil in Hg.
  - destruct (hi_alone _ _ _ _ Hi j tj g t0 q Ej Eg Eq) as [_ E0]. rewrite E0 in Hg.
    by apply elem_of_nil in Hg.
Qed.

(** ** Guards *)

Lemma touch_held ts gs ip ids i (t : hthread W) rg :
  hinv ts gs ip ids → ts !! i = Some t → next_touch t = Some rg →
  ∃ g, gs !! i = Some g ∧ held g = match rg with Some r => region_mutex r | None => Some DiscoveryMutex end ∧
    held g ≠ None.
Proof.
  intros Hi Et E. destruct (hinv_stance _ _ _ _ _ _ Hi Et) as (g & Eg & _ & Hk).
  exists g. split; [done|]. unfold next_touch in E. destruct (now t) as [|j p]; [done|].
  destruct p as [r|r B f k|m' k|m' k|t0 k|t0 k|t0 k|k|n k]; cbn in Hk; try done; simplify_eq.
  - destruct Hk as (_ & Hh & _). destruct (region_mutex r) eqn:Er; [|done]. simplify_eq.
    rewrite Hh, Er. done.
  - destruct Hk as (_ & -> & _). done.
  - destruct Hk as (-> & _). done.
  - destruct Hk as (_ & -> & _). done.
  - destruct Hk as (_ & -> & _). done.
Qed.
Lemma no_hrace (x : hpool W) : helper_ok x → ¬ hrace x.
Proof.
  intros (gs & Hi & _) (i & j & ti & tj & rg & Hij & Ei & Ej & Ti & Tj).
  destruct (touch_held _ _ _ _ _ _ _ Hi Ei Ti) as (gi & Gi & Hhi & Hm).
  destruct (touch_held _ _ _ _ _ _ _ Hi Ej Tj) as (gj & Gj & Hhj & _).
  destruct (held gi) as [m|] eqn:Em; [|done]. apply Hij.
  eapply (hi_locks _ _ _ _ Hi i j gi gj m); congruence.
Qed.
(** Calls to the live nodes, the SDK and the clocks are made without a mutex. *)
Definition calls_out (t : hthread W) : Prop :=
  ∃ j B f (k : B → hprog W (hreply W)), now t = Busy j (Access Surroundings f k).
Lemma calls_out_unlocked (x : hpool W) i t :
  helper_ok x → hthreads x !! i = Some t → calls_out t → holds t = None.
Proof.
  intros (gs & Hi & _) Et (j & B & f & k & E).
  destruct (hinv_stance _ _ _ _ _ _ Hi Et) as (g & _ & -> & Hk). rewrite E in Hk. apply Hk.
Qed.

(** ** Progress *)

Definition can_step (x : hpool W) (i : nat) : Prop := is_Some (hpool_step i x).

Lemma can_step_thread x i (t : hthread W) :
  hthreads x !! i = Some t →
  is_Some (hthread_step (hthreads x) (length (hthreads x)) t (hmem x)) → can_step x i.
Proof.
  intros Et [[[t' μ] forked] Es]. unfold can_step, hpool_step. rewrite Et. cbn. rewrite Es. by eexists.
Qed.
(** Only a mutex in use and a thread that is not over stop a busy thread. *)
Definition stopped (ts : list (hthread W)) (t : hthread W) : Prop :=
  match now t with
  | Idle => todo t = []
  | Busy _ (Lock m _) => mutex_free ts m = false
  | Busy _ (JoinWorker i _) => thread_over ts i = false
  | Busy _ _ => False
  end.
Lemma not_stopped x i t : hthreads x !! i = Some t → ¬ stopped (hthreads x) t → can_step x i.
Proof.
  intros Et Hn. apply (can_step_thread x i t Et). unfold stopped in Hn. unfold hthread_step.
  destruct (hmem x) as [σ ids]. destruct (now t) as [|j p].
  { destruct (todo t); [done|by eexists]. }
  destruct p as [r|r B f k|m' k|m' k|t0 k|t0 k|t0 k|k|n k]; try by eexists.
  - destruct (f (region_get r σ)). by eexists.
  - destruct (mutex_free _ m'); [by eexists|done].
  - destruct (insert_in_progress t0 σ.1). by eexists.
  - destruct (create_thread σ.2) as [[] w]; by eexists.
  - destruct (thread_over _ n); [by eexists|done].
Qed.

Lemma holder_goes_on ts gs ip ids i (t : hthread W) g m :
  hinv ts gs ip ids → ts !! i = Some t → gs !! i = Some g → held g = Some m → ¬ stopped ts t.
Proof.
  intros Hi Et Eg Hh Hs. destruct (hinv_stance _ _ _ _ _ _ Hi Et) as (g0 & Eg0 & _ & Hk).
  assert (g0 = g) as -> by congruence. unfold stopped in Hs. destruct (now t) as [|j p]; [by subst g|].
  destruct p; cbn in Hk, Hs; try done.
  - destruct Hk as (_ & Hn & _). congruence.
  - destruct Hk as (_ & Hn & _). congruence.
Qed.
Lemma no_holder_free ts gs m :
  Forall2 stance_ok ts gs → (∀ i g, gs !! i = Some g → held g = None) → mutex_free (W := W) ts m = true.
Proof.
  intros Hf Hn. unfold mutex_free. apply forallb_forall. intros t Ht.
  apply list_elem_of_In, list_elem_of_lookup in Ht as [i Et]. apply bool_decide_eq_true.
  destruct (Forall2_lookup_l _ _ _ _ _ Hf Et) as (g & Eg & -> & _). by rewrite (Hn i g Eg).
Qed.

(** Without a holder, only joins stop anyone, and a discovery thread joins
    nobody. *)
Lemma worker_goes_on ts gs ip ids i (t : hthread W) :
  hinv ts gs ip ids → (∀ m, mutex_free ts m = true) → ts !! i = Some t → is_worker t →
  over t = false → ¬ stopped ts t.
Proof.
  intros Hi Hf Et [Htd Hw] Ho Hs. unfold over in Ho. rewrite Htd in Ho.
  destruct (hinv_stance _ _ _ _ _ _ Hi Et) as (g & Eg & _ & Hk). unfold stopped in Hs.
  destruct (now t) as [|[c|table] p]; [done|done|]. destruct p; cbn in Hk; try done.
  - by rewrite Hf in Hs.
  - by destruct Hk.
Qed.
(** A thread that is stopped waits for a discovery thread. *)
Lemma stopped_joins ts gs ip ids i (t : hthread W) :
  hinv ts gs ip ids → (∀ m, mutex_free ts m = true) → ts !! i = Some t → over t = false →
  stopped ts t → ∃ n tn, ts !! n = Some tn ∧ is_worker tn ∧ over tn = false.
Proof.
  intros Hi Hf Et Ho Hs. destruct (hinv_stance _ _ _ _ _ _ Hi Et) as (g & Eg & _ & Hk).
  unfold stopped, over in *. destruct (now t) as [|j p]; [by rewrite Hs in Ho|].
  destruct p as [r|r B f k|m' k|m' k|t0 k|t0 k|t0 k|k|n k]; try done; cbn in Hk.
  - by rewrite Hf in Hs.
  - destruct Hk as (_ & _ & l & Hcu & _).
    destruct (hi_custody _ _ _ _ Hi n) as (tn & En & Hw).
    { right. exists i, g. split; [done|]. rewrite Hcu. by left. }
    exists n, tn. unfold thread_over in Hs. by rewrite En in Hs.
Qed.
#[local] Instance stopped_dec ts t : Decision (stopped ts t).
Proof. unfold stopped. repeat case_match; apply _. Defined.

Lemma holder_or_free ts gs ip ids :
  hinv ts gs ip ids →
  (∃ i t, ts !! i = Some t ∧ ¬ stopped ts t) ∨ ∀ m, mutex_free ts m = true.
Proof.
  intros Hi. destruct (decide (Exists (λ g, held g ≠ None) gs)) as [He|Hne].
  - left. apply Exists_exists in He as (g & Hg & Hh). apply list_elem_of_lookup in Hg as [i Eg].
    destruct (Forall2_lookup_r _ _ _ _ _ (hi_threads _ _ _ _ Hi) Eg) as (t & Et & _).
    destruct (held g) as [m|] eqn:Em; [|done]. exists i, t. split; [done|].
    by eapply holder_goes_on.
  - right. intros m. apply (no_holder_free ts gs m (hi_threads _ _ _ _ Hi)). intros i g Eg.
    destruct (held g) eqn:Em; [|done]. destruct Hne. apply Exists_exists. exists g.
    split; [by eapply list_elem_of_lookup_2|congruence].
Qed.
Lemma progress (x : hpool W) : helper_ok x → all_over x ∨ ∃ i, can_step x i.
Proof.
  intros (gs & Hi & _).
  destruct (holder_or_free _ _ _ _ Hi) as [(i & t & Et & Hn)|Hf].
  { right. exists i. exact (not_stopped x i t Et Hn). }
  destruct (decide (Exists (λ t : hthread W, over t = false) (hthreads x))) as [Hx|Hno].
  2:{ left. apply not_Exists_Forall in Hno; [|apply _]. unfold all_over.
      eapply Forall_impl; [exact Hno|]. intros t Ht. cbn in Ht. by destruct (over t). }
  right. apply Exists_exists in Hx as (t & Ht & Ho). apply list_elem_of_lookup in Ht as [i Et].
  destruct (decide (stopped (hthreads x) t)) as [Hs|Hs]; [|exists i; exact (not_stopped x i t Et Hs)].
  destruct (stopped_joins _ _ _ _ _ _ Hi Hf Et Ho Hs) as (n & tn & En & Hw & Hon).
  exists n. apply (not_stopped x n tn En). by eapply worker_goes_on.
Qed.

(** ** The destructor *)

(** A discovery thread starts no thread and touches no handle. *)
Lemma worker_step (x y : hpool W) i t :
  helper_ok x → hthreads x !! i = Some t → is_worker t → hpool_step i x = Some y →
  ∃ t', hthreads y = <[i := t']> (hthreads x) ∧ is_worker t' ∧ (hmem y).2 = (hmem x).2 ∧
    workers (hmem y).1.1 = workers (hmem x).1.1.
Proof.
  intros (gs & Hi & _) Et [Htd Hw] E. destruct (hinv_stance _ _ _ _ _ _ Hi Et) as (g & _ & _ & Hk).
  unfold hpool_step in E. rewrite Et in E. cbn in E. unfold hthread_step in E.
  destruct x as [ts [σ ids]]. cbn in E, Et |- *. rewrite Htd in E.
  destruct (now t) as [|[c|table] p]; [done|done|].
  destruct p as [r|rg B f k|m' k|m' k|t0 k|t0 k|t0 k|k|n k]; cbn in E, Hk.
  - simplify_eq. eexists. by rewrite app_nil_r.
  - destruct (f (region_get rg σ)) as [b v]. cbn in E. simplify_eq. eexists. rewrite app_nil_r.
    split_and!; [done|done|done|]. by destruct rg.
  - destruct (mutex_free ts m'); cbn in E; [|done]. simplify_eq. eexists. by rewrite app_nil_r.
  - simplify_eq. eexists. by rewrite app_nil_r.
  - by destruct Hk.
  - simplify_eq. eexists. by rewrite app_nil_r.
  - by destruct Hk.
  - by destruct Hk.
  - by destruct Hk.
Qed.

(** A program that leaves the handles alone from here on. *)
Fixpoint spent {A} (p : hprog W A) : Prop :=
  match p with
  | Fin _ => True
  | Access _ f k => ∀ v, spent (k (f v).1)
  | Lock _ k | Unlock _ k | JoinWorker _ k => spent k
  | _ => False
  end.
Lemma destroy_program :
  ∃ k, (hprogram CallDestroy : hprog W (hreply W)) = Lock DiscoveryMutex (SwapWorkers k) ∧
    ∀ l, spent (k l).
Proof. cbn. eexists. split; [reflexivity|]. intros l. cbn. by induction l. Qed.

Definition no_handles (x : hpool W) : Prop := (hmem x).2 = [] ∧ workers (hmem x).1.1 = [].
(** Where the destructor is: not called, before it takes the handles, after. *)
Definition destructor_at (t : hthread W) (x : hpool W) : Prop :=
  match now t with
  | Idle => todo t = [CallDestroy] ∨ todo t = [] ∧ no_handles x
  | Busy (Called _) p =>
      todo t = [] ∧
      ((∃ k, (p = Lock DiscoveryMutex (SwapWorkers k) ∨ p = SwapWorkers k) ∧ ∀ l, spent (k l)) ∨
       spent p ∧ no_handles x)
  | Busy (Worker _) _ => False
  end.
Definition destroying (d : nat) (x : hpool W) : Prop :=
  helper_ok x ∧ (∀ i t, i ≠ d → hthreads x !! i = Some t → is_worker t) ∧
  ∃ t, hthreads x !! d = Some t ∧ destructor_at t x.

Lemma destructor_step (x y : hpool W) d t :
  hthreads x !! d = Some t → destructor_at t x → hpool_step d x = Some y →
  ∃ t', hthreads y = <[d := t']> (hthreads x) ∧ destructor_at t' y.
Proof.
  intros Et Ht E. unfold hpool_step in E. rewrite Et in E. cbn in E. unfold hthread_step in E.
  unfold destructor_at in Ht. destruct x as [ts [σ ids]]. cbn in E, Et |- *.
  destruct (now t) as [|[c|table] p]; [| |done].
  { destruct Ht as [Htd|[Htd Hn]]; rewrite Htd in E; [|done]. cbn in E. simplify_eq.
    eexists. rewrite app_nil_r. split; [done|]. cbn. split; [done|]. left.
    destruct destroy_program as (k & Ek & Hk). exists k. split; [by left|done]. }
  destruct Ht as [Htd [(k & [->| ->] & Hk)|[Hsp [Hids Hw]]]].
  - destruct (mutex_free ts _); cbn in E; [|done]. simplify_eq. eexists. rewrite app_nil_r.
    split; [done|]. cbn. split; [done|]. left. eauto.
  - cbn in E. simplify_eq. eexists. rewrite app_nil_r. split; [done|]. cbn. split; [done|]. right.
    split; [apply Hk|done].
  - cbn in Hids, Hw. destruct p as [r|rg B f k|m' k|m' k|t0 k|t0 k|t0 k|k|n k]; cbn in E, Hsp; try done.
    + simplify_eq. eexists. rewrite app_nil_r. split; [done|]. cbn. by right.
    + specialize (Hsp (region_get rg σ)). destruct (f (region_get rg σ)) as [b v]. cbn in E.
      simplify_eq. eexists. rewrite app_nil_r. split; [done|]. cbn. split; [done|]. right.
      split; [done|]. split; [done|]. by destruct rg.
    + destruct (mutex_free ts m'); cbn in E; [|done]. simplify_eq. eexists. rewrite app_nil_r.
      split; [done|]. cbn. split; [done|]. by right.
    + simplify_eq. eexists. rewrite app_nil_r. split; [done|]. cbn. split; [done|]. by right.
    + destruct (thread_over ts n); cbn in E; [|done]. simplify_eq. eexists. rewrite app_nil_r.
      split; [done|]. cbn. split; [done|]. by right.
Qed.

Lemma destroying_step d x y : hstep x y → destroying d x → destroying d y.
Proof.
  intros Hs (Hok & Hw & t & Et & Ht). destruct Hs as [i x y E|n w x]; [|by split; [|split; [|eexists]]].
  split; [by eapply helper_ok_step|]. destruct (decide (i = d)) as [->|Ni].
  - destruct (destructor_step x y d t Et Ht E) as (t' & -> & Ht'). split.
    + intros i u Ni Eu. rewrite list_lookup_insert_ne in Eu by done. by eapply Hw.
    + exists t'. split; [|done]. apply list_lookup_insert_eq. by eapply lookup_lt_Some.
  - destruct (hthreads x !! i) as [ti|] eqn:Ei; [|unfold hpool_step in E; by rewrite Ei in E].
    destruct (worker_step x y i ti Hok Ei (Hw i ti Ni Ei) E) as (t' & -> & Hw' & Em & Ew). split.
    + intros j u Nj Eu. apply list_lookup_insert_Some in Eu as [(-> & -> & _)|[_ Eu]]; [done|].
      by eapply Hw.
    + exists t. rewrite list_lookup_insert_ne by done. split; [done|].
      unfold destructor_at, no_handles in *. by rewrite Em, Ew.
Qed.

Lemma destroying_steps d x y : rtc hstep x y → destroying d x → destroying d y.
Proof. induction 1 as [|? ? ? Hs _ IH]; [done|]. intros Hx. apply IH. by eapply destroying_step. Qed.

(** The destructor returns when nobody else uses the helper any more. *)
Lemma destroyed_over d x t :
  destroying d x → hthreads x !! d = Some t → over t = true →
  all_over x ∧ no_handles x ∧ in_progress (hmem x).1.1 = ∅.
Proof.
  intros ((gs & Hi & _) & Hw & t0 & Et0 & Ht) Et Ho. assert (t0 = t) as -> by congruence.
  unfold over in Ho. unfold destructor_at in Ht.
  destruct (now t) as [|j p] eqn:En; [|done]. destruct (todo t) eqn:Etd; [|done].
  destruct Ht as [?|[_ Hn]]; [done|].
  assert (no_call (hthreads x)) as Hc.
  { intros i u c p Eu Eb. destruct (decide (i = d)) as [->|Ni]; [congruence|].
    destruct (Hw i u Ni Eu) as [_ Hb]. by rewrite Eb in Hb. }
  assert (all_over x) as Ha.
  { apply Forall_lookup. intros i u Eu. unfold over. destruct (now u) as [|[c|table] p] eqn:Eb.
    - destruct (decide (i = d)) as [->|Ni].
      + rewrite Et in Eu. injection Eu as <-. by rewrite Etd.
      + by destruct (Hw i u Ni Eu) as [-> _].
    - by destruct (Hc i u c p Eu).
    - destruct Hn as [E0 _]. pose proof (worker_has_handle _ _ _ _ _ _ _ _ Hi Hc Eu Eb) as Hh.
      rewrite E0 in Hh. by apply elem_of_nil in Hh. }
  split_and!; [done|done|]. apply elem_of_equiv_empty_L. intros table Hin.
  destruct (claimed_by_worker _ _ _ _ _ Hi Hc Hin) as (i & u & Eu & Hd).
  apply discovers_now in Hd as (p' & Eb & _).
  unfold all_over in Ha. rewrite Forall_lookup in Ha. specialize (Ha i u Eu). unfold over in Ha.
  by rewrite Eb in Ha.
Qed.


(** Every thread but [d] is over or a discovery thread. *)
Definition is_workerb (t : hthread W) : bool :=
  match todo t, now t with
  | [], Busy (Called _) _ => false
  | [], _ => true
  | _, _ => false
  end.
Definition only_workers (d : nat) (ts : list (hthread W)) : bool :=
  forallb (λ p, bool_decide (p.1 = d) || is_workerb p.2) (imap pair ts).
Lemma only_workers_spec d ts i t :
  only_workers d ts = true → i ≠ d → ts !! i = Some t → is_worker t.
Proof.
  unfold only_workers. rewrite forallb_forall. intros Ho Hi Et.
  assert ((i, t) ∈ imap pair ts) as Hin.
  { apply list_elem_of_lookup. exists i. by rewrite list_lookup_imap, Et. }
  apply list_elem_of_In, Ho in Hin. cbn in Hin. rewrite bool_decide_eq_false_2 in Hin by done.
  unfold is_workerb in Hin. unfold is_worker. destruct (todo t); [|done].
  by destruct (now t) as [|[]].
Qed.
End safety.
