(* ===== verification/HelperWork.v ===== *)
(** How much work the threads of a helper can have: every program ends after a
    number of steps known in advance, and so does a pool, discovery threads and
    joins included.  Starting a thread is paid for by the program that starts
    it, with the thread's own steps and the step that will join it. *)
From S2P Require Import Prelude Uri GoRandom Effects RoutingScope NodeHealth QueryPlan.
From S2P Require Import KeyRouteAffinity HttpCompression Config LocalNodesJson LiveNodes.
From S2P Require Import DynamoDBHelper HelperThreads HelperPool.

#[local] Open Scope nat_scope.

Section within.
Context {W : Type}.
(** The steps of a discovery thread. *)
Context (worker_steps : nat).

(** [p] takes at most [n] steps, whatever it reads, and returns only values in
    [Q]. *)
Fixpoint within {A} (p : hprog W A) (n : nat) (Q : A → Prop) : Prop :=
  match p with
  | Fin r => match r with Ok a => Q a | Throw _ => True end
  | Access _ f k => ∃ n', n' < n ∧ ∀ v, within (k (f v).1) n' Q
  | Lock _ k | Unlock _ k | EraseInProgress _ k | JoinWorker _ k => ∃ n', n' < n ∧ within k n' Q
  | InsertInProgress _ k => ∃ n', n' < n ∧ ∀ b, within (k b) n' Q
  | EmplaceWorker _ k => ∃ n', n' + worker_steps + 3 <= n ∧ ∀ b, within (k b) n' Q
  | SwapWorkers k => ∃ n', n' < n ∧ ∀ l, within (k l) (length l + n') Q
  end.

Lemma within_le {A} (p : hprog W A) n m Q : within p n Q → n <= m → within p m Q.
Proof.
  destruct p; cbn; [done|intros (n' & ? & ?) ?; exists n'; split; [lia|done]..].
Qed.
Lemma within_hcont {A B} (p : hprog W A) (f : result A → hprog W B) n m Q R :
  within p n Q → (∀ a, Q a → within (f (Ok a)) m R) → (∀ e, within (f (Throw e)) m R) →
  within (hcont p f) (n + m) R.
Proof.
  intros Hp Ho Ht. revert n Hp.
  induction p as [r|rg C F k IH|mu k IH|mu k IH|t k IH|t k IH|t k IH|k IH|i k IH]; intros n Hp;
    cbn [hcont within] in *.
  1: { destruct r; eapply within_le; eauto; lia. }
  7: { destruct Hp as (n' & Hn & Hk). exists (n' + m). split; [lia|]. intros l.
       replace (length l + (n' + m)) with (length l + n' + m) by lia. by apply IH. }
  all: destruct Hp as (n' & Hn & Hk); exists (n' + m); (split; [lia|]); intros; by apply IH.
Qed.
Lemma within_bind {A B} N n m Q R (p : hprog W A) (f : A → hprog W B) :
  within p n Q → (∀ a, Q a → within (f a) m R) → n + m <= N → within (p ≫= f) N R.
Proof.
  intros Hp Hf HN. eapply within_le; [|exact HN]. by eapply within_hcont.
Qed.
Lemma within_then {A B} N n m R (p : hprog W A) (f : A → hprog W B) :
  within p n (λ _, True) → (∀ a, within (f a) m R) → n + m <= N → within (p ≫= f) N R.
Proof. intros. by eapply within_bind. Qed.
Lemma within_try {A} N n m Q (p : hprog W A) f :
  within p n Q → (∀ e, within (f e) m Q) → n + m <= N → within (htry p f) N Q.
Proof.
  intros Hp Hf HN. eapply within_le; [|exact HN]. by eapply within_hcont.
Qed.
Lemma within_catch {A} N n m Q (p f : hprog W A) :
  within p n Q → within f m Q → n + m <= N → within (hcatch_invalid p f) N Q.
Proof. intros Hp Hf HN. eapply within_try; [done| |done]. by intros []. Qed.
Lemma within_ret {A} (a : A) n Q : Q a → within (mret a) n Q.
Proof. done. Qed.
Lemma within_any {A} (r : result A) n : within (Fin r) n (λ _, True).
Proof. by destruct r. Qed.
Lemma within_mono {A} (p : hprog W A) n (Q R : A → Prop) :
  within p n Q → (∀ a, Q a → R a) → within p n R.
Proof.
  intros Hp HQ. revert n Hp.
  induction p as [r|rg C F k IH|mu k IH|mu k IH|t k IH|t k IH|t k IH|k IH|i k IH]; intros n Hp;
    cbn [within] in *.
  1: { destruct r; [by apply HQ|done]. }
  all: destruct Hp as (n' & Hn & Hk); exists n'; (split; [done|]); intros; by apply IH.
Qed.

(** A call out, and an access to a guarded region with its lock. *)
Lemma within_out {B} (m : M (AlternatorLiveNodes * W) B) : within (hcall_out m) 1 (λ _, True).
Proof. exists 0. split; [lia|]. intros v. by destruct (m v) as [[]]. Qed.
Lemma within_nodes {B} (m : M AlternatorLiveNodes B) : within (hcall_nodes m : hprog W B) 1 (λ _, True).
Proof. apply within_out. Qed.
Lemma within_surroundings {B} (f : AlternatorLiveNodes * W → B * (AlternatorLiveNodes * W)) :
  within (access Surroundings f) 1 (λ _, True).
Proof. exists 0. split; [lia|done]. Qed.
Lemma within_locked {A} m (p : hprog W A) n Q : within p n Q → within (locked m p) (n + 2) Q.
Proof.
  intros Hp. exists (n + 1). split; [lia|]. eapply within_hcont; [done|..].
  - intros a Ha. exists 0. split; [lia|done].
  - intros e. exists 0. split; [lia|done].
Qed.
Lemma within_get table : within (p_GetPartitionKeyName table) 3 (λ _, True).
Proof. apply (within_locked _ _ 1). exists 0. split; [lia|done]. Qed.
Lemma within_set table key : within (p_SetPartitionKeyName table key) 3 (λ _, True).
Proof. apply (within_locked _ _ 1). exists 0. split; [lia|done]. Qed.
Lemma within_erase table : within (p_erase table) 3 (λ _, True).
Proof. apply (within_locked _ _ 1). exists 0. split; [lia|done]. Qed.
End within.

Section members.
Context {W : Type} `{World W} `{Sdk W} (K : nat).
Abbreviation within := (within (W := W) K).

(** ** Discovery *)

Lemma within_discover_loop n backoff table :
  within (p_discover_loop n backoff table) (5 * n) (λ _, True).
Proof.
  revert backoff. induction n as [|n IH]; intros backoff; [done|]. cbn [p_discover_loop].
  eapply (within_then _ _ 1 (5 * n + 4)); [| |lia].
  { eapply (within_then _ _ 1 0); [apply within_out|done|lia]. }
  intros key. destruct (negb _).
  { eapply (within_then _ _ 3 0); [apply within_set|done|lia]. }
  case_bool_decide; [done|]. destruct (0 <? backoff)%Z.
  - eapply (within_then _ _ 1 (5 * n)); [apply within_surroundings|intros; apply IH|lia].
  - eapply within_le; [apply IH|lia].
Qed.
Definition update_steps (config : Config) : nat :=
  5 * Z.to_nat (partition_key_discovery_attempts (key_route_affinity config)).
Lemma within_update config table :
  within (p_UpdatePartitionKeyName config table) (update_steps config) (λ _, True).
Proof. unfold p_UpdatePartitionKeyName. case_bool_decide; [done|]. apply within_discover_loop. Qed.
Lemma within_worker config table :
  within (p_discovery_worker config table) (update_steps config + 3) (λ _, True).
Proof.
  eapply (within_then _ _ (update_steps config) 3); [|intros; apply within_erase|lia].
  eapply (within_try _ _ (update_steps config) 0); [|done|lia].
  eapply (within_then _ _ (update_steps config) 0); [apply within_update|done|lia].
Qed.

Definition trigger_steps : nat := K + 14.
Lemma within_trigger table : within (p_TriggerPartitionKeyDiscovery table) trigger_steps (λ _, True).
Proof.
  unfold p_TriggerPartitionKeyDiscovery, trigger_steps. case_bool_decide; [done|].
  eapply (within_then _ _ 3 (K + 11)); [apply within_get| |lia]. intros key.
  destruct (negb _); [done|]. eapply (within_then _ _ 3 (K + 8)); [| |lia].
  { apply (within_locked _ _ _ 1). exists 0. split; [lia|done]. }
  intros b. destruct (negb b); [done|]. eapply (within_try _ _ (K + 5) 3); [| |lia].
  - eapply (within_then _ _ (K + 5) 0); [|done|lia].
    eapply (within_le _ _ (K + 3 + 2)); [|lia]. apply within_locked. exists 0. split; [lia|].
    by intros [].
  - intros e. eapply (within_then _ _ 3 0); [apply within_erase|done|lia].
Qed.
Lemma within_trigger_all tables :
  within (p_trigger_all tables) (length tables * trigger_steps) (λ _, True).
Proof.
  induction tables as [|t tables IH]; [done|]. cbn [p_trigger_all length].
  eapply (within_then _ _ trigger_steps (length tables * trigger_steps));
    [apply within_trigger|intros ?|lia].
  eapply (within_then _ _ (length tables * trigger_steps) 0); [apply IH|done|lia].
Qed.
Lemma within_missing operations :
  within (p_missing_tables operations) (3 * length operations)
    (λ l, length l <= length operations).
Proof.
  induction operations as [|op ops IH]; [cbn; lia|]. cbn [p_missing_tables length].
  eapply (within_then _ _ 3 (3 * length ops)); [apply within_get|intros key|lia].
  eapply (within_bind _ _ (3 * length ops) 0); [apply IH|intros l Hl|lia].
  apply within_ret. cbn in Hl. case_bool_decide; cbn; lia.
Qed.
Lemma length_std_unique (l : list string) : length (std_unique l) <= length l.
Proof.
  destruct l as [|x l]; [done|]. cbn. revert x. induction l as [|y l IH]; intros x; cbn; [lia|].
  case_decide; [specialize (IH x)|specialize (IH y); cbn]; lia.
Qed.
Lemma within_trigger_missing operations :
  within (p_TriggerPartitionKeyDiscoveryForMissingMetadata operations)
    (length operations * (trigger_steps + 3)) (λ _, True).
Proof.
  eapply (within_bind _ _ _ (length operations * trigger_steps)); [apply within_missing| |lia].
  intros l Hl. cbn in Hl. eapply within_le; [apply within_trigger_all|].
  apply Nat.mul_le_mono_r. etrans; [apply length_std_unique|].
  by rewrite (Permutation_length (key_sort_perm _ _)).
Qed.

Lemma within_join_all l : within (p_join_all l) (length l) (λ _, True).
Proof. induction l as [|i l IH]; [done|]. exists (length l). split; [cbn; lia|done]. Qed.
Lemma within_wait : within p_WaitForPartitionKeyDiscovery 3 (λ _, True).
Proof.
  exists 2. split; [lia|]. exists 1. split; [lia|]. intros l. cbn [hcont].
  exists (length l). split; [lia|]. apply within_join_all.
Qed.

(** ** Plans *)

Lemma within_hash op : within (p_operation_hash op) 3 (λ _, True).
Proof. eapply (within_then _ _ 3 0); [apply within_get|done|lia]. Qed.
Lemma within_hashes operations :
  within (p_BatchWriteHashes operations) (3 * length operations) (λ l, length l <= length operations).
Proof.
  induction operations as [|op ops IH]; [cbn; lia|]. cbn [p_BatchWriteHashes length].
  eapply (within_then _ _ 3 (3 * length ops)); [apply within_hash|intros x|lia].
  eapply (within_bind _ _ (3 * length ops) 0); [apply IH|intros l Hl|lia].
  apply within_ret. cbn in Hl. destruct x; cbn; lia.
Qed.
Lemma within_votes candidates operations votes :
  within (p_count_votes candidates operations votes) (3 * length operations) (λ _, True).
Proof.
  revert votes. induction operations as [|op ops IH]; intros votes; [done|].
  cbn [p_count_votes length].
  eapply (within_then _ _ 3 (3 * length ops)); [apply within_hash|intros [x|]; [|apply IH]|lia].
  eapply (within_then _ _ 0 (3 * length ops)); [apply within_any|intros; apply IH|lia].
Qed.
Lemma within_select candidates operations :
  within (p_SelectBatchWritePreferredNodesForCandidates candidates operations)
    (3 * length operations) (λ _, True).
Proof.
  unfold p_SelectBatchWritePreferredNodesForCandidates. case_bool_decide; [done|].
  eapply (within_then _ _ _ 0); [apply within_votes|intros votes; by case_bool_decide|lia].
Qed.
Lemma within_nodes_for hashes out : within (p_nodes_for_hashes hashes out) (length hashes) (λ _, True).
Proof.
  revert out. induction hashes as [|x hashes IH]; intros out; [done|].
  eapply (within_then _ _ 1 (length hashes)); [apply within_nodes|intros; apply IH|cbn; lia].
Qed.
Lemma within_nodes_plan hashes :
  within (p_QueryPlanNodesForHashes hashes) (length hashes + 1) (λ _, True).
Proof.
  eapply (within_then _ _ _ 1); [apply within_nodes_for| |lia]. intros out.
  case_bool_decide; [apply within_nodes|done].
Qed.
Lemma within_partition_key values table :
  within (p_QueryPlanForPartitionKey values table) 5 (λ _, True).
Proof.
  eapply (within_then _ _ 3 2); [|intros seed|lia].
  { eapply (within_then _ _ 3 0); [apply within_get| |lia]. intros key.
    case_bool_decide; [done|]. by destruct (_ !! _). }
  eapply (within_then _ _ 1 1); [apply within_nodes|intros active|lia].
  eapply (within_then _ _ 1 0); [apply within_nodes|intros l|lia].
  case_bool_decide; [done|]. eapply (within_then _ _ 0 0); [apply within_any|done|lia].
Qed.
Definition batch_steps (n : nat) : nat := 7 * n + 2.
Lemma within_batch_write operations :
  within (p_QueryPlanForBatchWrite operations) (batch_steps (length operations)) (λ _, True).
Proof.
  set (n := length operations). unfold batch_steps.
  eapply (within_then _ _ 1 (7 * n + 1)); [apply within_nodes|intros active|lia].
  eapply (within_bind _ _ (3 * n) (4 * n + 1)); [apply within_hashes|intros l Hl; cbn in Hl|lia].
  eapply (within_then _ _ (length l + 1) (3 * n)); [apply within_nodes_plan|intros q|lia].
  case_bool_decide; (eapply (within_then _ _ (3 * n) 0); [apply within_select|done|lia]).
Qed.
Lemma within_default : within p_DefaultQueryPlan 2 (λ _, True).
Proof.
  eapply (within_then _ _ 1 1); [apply within_surroundings|intros; apply within_nodes|lia].
Qed.
Definition key_plan_steps : nat := trigger_steps + 5.
Lemma within_key_plan values table :
  within (p_NewPartitionKeyQueryPlan values table) key_plan_steps (λ _, True).
Proof.
  unfold key_plan_steps. eapply (within_then _ _ 3 (trigger_steps + 2)); [apply within_get| |lia].
  intros key. case_bool_decide.
  - eapply (within_then _ _ trigger_steps 2); [apply within_trigger|intros; apply within_default|lia].
  - unfold trigger_steps.
    eapply (within_catch _ _ 5 2); [apply within_partition_key|apply within_default|lia].
Qed.
Definition batch_plan_steps (n : nat) : nat := n * (trigger_steps + 3) + batch_steps n + 2.
Lemma within_batch_plan operations :
  within (p_NewBatchWriteQueryPlan operations) (batch_plan_steps (length operations)) (λ _, True).
Proof.
  unfold batch_plan_steps. eapply (within_then _ _ _ (batch_steps (length operations) + 2));
    [apply within_trigger_missing|intros _|lia].
  eapply within_catch; [apply within_batch_write|apply within_default|lia].
Qed.
Definition item_plan_steps : nat := 2 * key_plan_steps + 3.
Lemma within_item_plan values table :
  within (p_PartitionKeyQueryPlanFor values table) item_plan_steps (λ _, True).
Proof.
  unfold item_plan_steps.
  eapply (within_then _ _ 3 (2 * key_plan_steps)); [apply within_get| |lia]. intros key.
  case_bool_decide; [eapply within_le; [apply within_key_plan|lia]|].
  eapply (within_catch _ _ key_plan_steps key_plan_steps); [|apply within_key_plan|lia].
  eapply (within_then _ _ 0 key_plan_steps); [apply within_any|intros; apply within_key_plan|lia].
Qed.
Lemma within_write_plan config x : within (p_write_plan config x) item_plan_steps (λ _, True).
Proof.
  assert (within p_DefaultQueryPlan item_plan_steps (λ _, True)) as Hd.
  { eapply within_le; [apply within_default|].
    unfold item_plan_steps, key_plan_steps, trigger_steps. lia. }
  destruct x; cbn [p_write_plan]; (destruct (negb _); [exact Hd|apply within_item_plan]).
Qed.

(** The operations of a batch are at most its writes. *)
Definition batch_writes (request : BatchWriteItemRequest) : nat :=
  sum_list (map (λ e, length e.2) request).
Lemma length_add_writes table key writes operations :
  length (foldl (add_write table key) operations writes) <= length operations + length writes.
Proof.
  revert operations. induction writes as [|x writes IH]; intros operations; cbn; [lia|].
  etrans; [apply IH|]. unfold add_write, AddBatchWriteOperation.
  destruct (GetPutRequest x), (GetDeleteRequest x);
    repeat case_match; rewrite ?length_app; cbn; lia.
Qed.
Lemma length_table_operations table key writes operations :
  length (table_operations table key writes operations) <= length operations + length writes.
Proof.
  unfold table_operations. case_bool_decide; [|apply length_add_writes].
  case_bool_decide; [lia|]. unfold AddBatchWriteOperationForMissingMetadata.
  rewrite length_app. cbn. lia.
Qed.
Lemma within_operations request operations :
  within (p_BatchWriteOperationsFor request operations) (3 * length request)
    (λ l, length l <= length operations + batch_writes request).
Proof.
  revert operations. induction request as [|[table writes] request IH]; intros operations;
    [cbn; lia|]. cbn [p_BatchWriteOperationsFor length].
  eapply (within_then _ _ 3 (3 * length request)); [apply within_get|intros key|lia].
  eapply within_mono; [apply IH|]. intros l Hl. cbn.
  pose proof (length_table_operations (c_str table) key writes operations). unfold batch_writes in *.
  cbn. lia.
Qed.
Definition batch_item_steps (request : BatchWriteItemRequest) : nat :=
  3 * length request + batch_plan_steps (batch_writes request).
Lemma batch_plan_steps_le n m : n <= m → batch_plan_steps n <= batch_plan_steps m.
Proof.
  intros Hn. unfold batch_plan_steps, batch_steps.
  pose proof (Nat.mul_le_mono_r n m (trigger_steps + 3) Hn). lia.
Qed.
Lemma within_batch_item_plan config request :
  within (p_BatchWriteItemQueryPlanFor config request) (batch_item_steps request) (λ _, True).
Proof.
  assert (∀ n, 2 <= n → within p_DefaultQueryPlan n (λ _, True)) as Hd
    by (intros; by eapply within_le; [apply within_default|]).
  assert (2 <= batch_plan_steps (batch_writes request)) as H2
    by (unfold batch_plan_steps; lia).
  unfold p_BatchWriteItemQueryPlanFor, batch_item_steps. destruct (negb _); [apply Hd; lia|].
  eapply within_bind; [apply within_operations|intros l Hl|done]. cbn in Hl.
  case_bool_decide; [by apply Hd|]. eapply within_le; [apply within_batch_plan|].
  by apply batch_plan_steps_le.
Qed.
Lemma within_client plan : within (p_NewDynamoDBForQueryPlan plan) 4 (λ _, True).
Proof.
  eapply (within_then _ _ 0 4); [apply within_any| |lia]. intros node.
  destruct (Url_Empty node); [done|]. apply (within_locked _ _ _ 2).
  eapply (within_then _ _ 1 1); [exists 0; split; [lia|done]| |lia]. intros [[u c]|]; [done|].
  eapply (within_then _ _ 1 0); [exists 0; split; [lia|done]|done|lia].
Qed.
End members.

(** ** Pools *)

Section pools.
Context {W : Type} `{World W} `{Sdk W} `{Deployment W}.

Definition worker_steps : nat := update_steps deployed + 3.
(** The steps of a call, the steps that begin and end it included. *)
Definition call_steps (c : hcall) : nat :=
  2 + match c with
      | CallItem _ => item_plan_steps worker_steps + 5
      | CallBatch r => batch_item_steps worker_steps r + 5
      | CallKeyPlan _ _ => key_plan_steps worker_steps
      | CallBatchPlan operations => batch_plan_steps worker_steps (length operations)
      | CallGetKey _ | CallSetKey _ _ => 3
      | CallUpdateKey _ => update_steps deployed
      | CallDestroy => 4
      end.
Definition todo_steps (cs : list hcall) : nat := sum_list (map call_steps cs).
Abbreviation within := (within (W := W) worker_steps).

Lemma within_program c : ∃ n, within (hprogram c) n (λ _, True) ∧ n + 2 = call_steps c.
Proof.
  exists (call_steps c - 2). split; [|unfold call_steps; lia].
  destruct c as [x|r|values table|operations|table|table key|table|]; unfold call_steps; cbn [hprogram].
  - eapply (within_then _ _ (item_plan_steps worker_steps + 5) 0); [|by intros [[]]|lia].
    eapply (within_then _ _ _ 5); [apply within_write_plan|intros p|lia].
    eapply (within_then _ _ 4 1); [apply within_client|intros cl|lia].
    eapply (within_then _ _ 1 0); [apply within_surroundings|done|lia].
  - eapply (within_then _ _ (batch_item_steps worker_steps r + 5) 0); [|by intros [[]]|lia].
    eapply (within_then _ _ _ 5); [apply within_batch_item_plan|intros p|lia].
    eapply (within_then _ _ 4 1); [apply within_client|intros cl|lia].
    eapply (within_then _ _ 1 0); [apply within_surroundings|done|lia].
  - eapply (within_then _ _ _ 0); [apply within_key_plan|done|lia].
  - eapply (within_then _ _ _ 0); [apply within_batch_plan|done|lia].
  - eapply (within_then _ _ 3 0); [apply within_get|done|lia].
  - eapply (within_then _ _ 3 0); [apply within_set|done|lia].
  - eapply (within_then _ _ _ 0); [apply within_update|done|lia].
  - eapply (within_then _ _ 4 0); [|done|lia].
    eapply (within_then _ _ 3 1); [apply within_wait|intros; apply within_surroundings|lia].
Qed.
Lemma within_worker_program table : within (worker_program table) worker_steps (λ _, True).
Proof. eapply (within_then _ _ worker_steps 0); [apply within_worker|done|lia]. Qed.

(** [n] steps are enough for what the thread still has to do. *)
Definition funded (t : hthread W) (n : nat) : Prop :=
  match now t with
  | Idle => todo_steps (todo t) <= n
  | Busy _ p => ∃ m, within p m (λ _, True) ∧ m + 1 + todo_steps (todo t) <= n
  end.
Definition pool_funded (x : hpool W) (n : nat) : Prop :=
  ∃ ns, Forall2 funded (hthreads x) ns ∧ sum_list ns + length (hmem x).2 <= n.

Lemma funded_busy j q h td an m n :
  within q m (λ _, True) → m + 1 + todo_steps td <= n → funded (mkHThread (Busy j q) h td an) n.
Proof. intros Hq Hn. by exists m. Qed.

(** Each step spends one, and pays for what it starts. *)
Lemma funded_step ts k t (μ : (DynamoDBHelper * W) * list nat) t' μ' forked n :
  funded t n → hthread_step ts k t μ = Some (t', μ', forked) →
  ∃ n' ns, funded t' n' ∧ Forall2 funded forked ns ∧
    n' + sum_list ns + length μ'.2 + 1 <= n + length μ.2.
Proof.
  intros Hf E. destruct μ as [σ ids]. unfold hthread_step in E. unfold funded in Hf.
  destruct (now t) as [|j p].
  { destruct (todo t) as [|c cs] eqn:Et; [done|]. simplify_eq.
    destruct (within_program c) as (m & Hm & Ec). exists (n - 1), [].
    unfold todo_steps in Hf. cbn [map sum_list_with id] in Hf. cbn [snd sum_list_with id].
    split_and!; [|done|lia]. eapply funded_busy; [done|]. unfold todo_steps. lia. }
  destruct Hf as (m & Hm & Hn).
  assert (∀ q h m', m' < m → within q m' (λ _, True) →
    funded (mkHThread (Busy j q) h (todo t) (answers t)) (n - 1)) as Hgo
    by (intros; eapply funded_busy; [done|lia]).
  destruct p as [r|rg B f k'|m' k'|m' k'|t0 k'|t0 k'|t0 k'|k'|i k'];
    [|destruct Hm as (n' & Hlt & Hk)..].
  - simplify_eq. exists (n - 1), []. cbn [snd sum_list_with id]. split_and!; [|done|lia].
    unfold funded. cbn [now todo]. lia.
  - specialize (Hk (region_get rg σ)). destruct (f (region_get rg σ)) as [b v]. simplify_eq.
    exists (n - 1), []. cbn [snd sum_list_with id]. split_and!; [by eapply Hgo|done|lia].
  - destruct (mutex_free ts m'); [|done]. simplify_eq.
    exists (n - 1), []. cbn [snd sum_list_with id]. split_and!; [by eapply Hgo|done|lia].
  - simplify_eq. exists (n - 1), []. cbn [snd sum_list_with id]. split_and!; [by eapply Hgo|done|lia].
  - destruct (insert_in_progress t0 σ.1) as [b h]. simplify_eq.
    exists (n - 1), []. cbn [snd sum_list_with id]. split_and!; [by eapply Hgo|done|lia].
  - simplify_eq. exists (n - 1), []. cbn [snd sum_list_with id]. split_and!; [by eapply Hgo|done|lia].
  - destruct (create_thread σ.2) as [[] w]; simplify_eq.
    + exists (n' + 1 + todo_steps (todo t)), [worker_steps + 1]. cbn [snd sum_list_with id].
      split_and!; [by eapply funded_busy| |rewrite length_app; cbn [length]; lia].
      repeat constructor. eapply funded_busy; [apply within_worker_program|]. unfold todo_steps. cbn. lia.
    + exists (n - 1), []. cbn [snd sum_list_with id]. split_and!; [eapply Hgo; [|done]; lia|done|lia].
  - simplify_eq. exists (length ids + n' + 1 + todo_steps (todo t)), []. cbn [snd sum_list_with id].
    split_and!; [by eapply funded_busy|done|cbn [length]; lia].
  - destruct (thread_over ts i); [|done]. simplify_eq.
    exists (n - 1), []. cbn [snd sum_list_with id]. split_and!; [by eapply Hgo|done|lia].
Qed.

Lemma sum_list_insert (ns : list nat) i n n' :
  ns !! i = Some n → sum_list (<[i := n']> ns) + n = sum_list ns + n'.
Proof.
  revert i. induction ns as [|m ns IH]; intros [|i] E; try done; cbn in *; simplify_eq; [lia|].
  rewrite <-Nat.add_assoc, <-(Nat.add_assoc m). f_equal. by apply IH.
Qed.
Lemma pool_funded_step i (x y : hpool W) n :
  pool_funded x n → hpool_step i x = Some y → 1 <= n ∧ pool_funded y (n - 1).
Proof.
  intros (ns & Hf & Hn) E. unfold hpool_step in E.
  destruct (hthreads x !! i) as [t|] eqn:Et; [|done]. cbn in E.
  destruct (hthread_step _ _ _ _) as [[[t' μ] forked]|] eqn:Es; [|done]. cbn in E. simplify_eq.
  destruct (Forall2_lookup_l _ _ _ _ _ Hf Et) as (nt & En & Ht).
  destruct (funded_step _ _ _ _ _ _ _ _ Ht Es) as (n' & nf & Ht' & Hff & Hle).
  pose proof (sum_list_insert ns i nt n' En) as Hs. split; [lia|].
  exists (<[i := n']> ns ++ nf). cbn. rewrite sum_list_with_app.
  split; [|lia]. apply Forall2_app; [|done]. by apply Forall2_insert.
Qed.

(** Runs, with the number of steps that threads take in them. *)
Inductive hsteps : nat → hpool W → hpool W → Prop :=
  | hsteps_nil x : hsteps 0 x x
  | hsteps_thread i k x y z : hpool_step i x = Some y → hsteps k y z → hsteps (S k) x z
  | hsteps_env k n w x z : hsteps k (env_move n w x) z → hsteps k x z.
Lemma hsteps_rtc k x y : hsteps k x y → rtc hstep x y.
Proof.
  induction 1 as [|i k x y z E _ IH|k n w x z _ IH]; [apply rtc_refl|..].
  - eapply rtc_l; [by eapply hstep_thread|done].
  - eapply rtc_l; [by apply hstep_env|done].
Qed.
(** The turns of a schedule that are not lost. *)
Fixpoint turns (l : list nat) (x : hpool W) : nat :=
  match l with
  | [] => 0
  | i :: l => match hpool_step i x with Some y => S (turns l y) | None => turns l x end
  end.
Lemma hdrive_hsteps l x : hsteps (turns l x) x (hdrive l x).
Proof.
  revert x. induction l as [|i l IH]; intros x; [apply hsteps_nil|]. cbn.
  destruct (hpool_step i x) as [y|] eqn:E; [|apply IH]. by eapply hsteps_thread.
Qed.
Lemma hsteps_bound k x y n : hsteps k x y → pool_funded x n → k <= n ∧ pool_funded y (n - k).
Proof.
  intros Hs. revert n. induction Hs as [x|i k x y z E _ IH|k m w x z _ IH]; intros n Hf.
  - rewrite Nat.sub_0_r. split; [lia|done].
  - destruct (pool_funded_step i x y n Hf E) as [H1' Hf']. destruct (IH (n - 1) Hf') as [Hle Hf''].
    split; [lia|]. by replace (n - S k) with (n - 1 - k) by lia.
  - by apply IH.
Qed.
Lemma pool_funded_make calls h (w : W) :
  pool_funded (hpool_make calls h w) (sum_list (map todo_steps calls)).
Proof.
  exists (map todo_steps calls). split; [|cbn; lia]. apply Forall2_fmap_2.
  apply Forall_Forall2_diag, Forall_true. intros cs. unfold funded. cbn [now todo]. lia.
Qed.
End pools.
