(* ===== verification/HelperRoutes.v ===== *)
(** Plans made while other threads change what they are made from.

    [yields] follows a program through whatever the shared state may be at each
    of its accesses: key names may appear between two reads of one operation,
    the live nodes may move, discoveries may start and end.  All that is
    assumed is that the live nodes the program meets are in their invariant,
    with active nodes ([routable]), and that the lists of active nodes it meets
    are among those [seen]; what the program itself does to the live nodes
    keeps them routable. *)
From S2P Require Import Prelude Uri GoRandom Murmur3 AttributeValue Effects RoutingScope NodeHealth.
From S2P Require Import QueryPlan KeyRouteAffinity HttpCompression Config LocalNodesJson LiveNodes.
From S2P Require Import LiveNodesSelection DynamoDBHelper HelperThreads HelperPool HelperProtocol.
From S2P Require Import HelperInvariant HelperWork.

(** What a list of nodes that a plan is made from must be. *)
Definition plannable (active : list Url) : Prop :=
  NoDup active ∧ key_inj Url_ToString active ∧ usable_nodes active ∧ active ≠ [].
Definition routable (n : AlternatorLiveNodes) : Prop :=
  live_inv n ∧ usable_nodes (GetActiveNodes n) ∧ GetActiveNodes n ≠ [].
Definition met (seen : list Url → Prop) (n : AlternatorLiveNodes) : Prop :=
  routable n ∧ seen (GetActiveNodes n).

Section yields.
Context {W : Type}.
(** The active nodes and the key names that the program may meet. *)
Context (seen : list Url → Prop) (known : PartitionKeyMetadata → Prop).

Definition observed (g : helper_region) : region_view W g → Prop :=
  match g with
  | KeyNames => known
  | ClientCache => cache_ok
  | Surroundings => λ v, met seen v.1
  end.
(** What an access leaves for the others. *)
Definition left_behind (g : helper_region) : region_view W g → Prop :=
  match g with
  | Surroundings => λ v, routable v.1
  | _ => λ _, True
  end.
Fixpoint yields {A} (p : hprog W A) (Q : result A → Prop) : Prop :=
  match p with
  | Fin r => Q r
  | Access g f k => ∀ v, observed g v → left_behind g (f v).2 ∧ yields (k (f v).1) Q
  | Lock _ k | Unlock _ k | EraseInProgress _ k | JoinWorker _ k => yields k Q
  | InsertInProgress _ k | EmplaceWorker _ k => ∀ b, yields (k b) Q
  | SwapWorkers k => ∀ l, yields (k l) Q
  end.

Lemma yields_hcont {A B} (p : hprog W A) (f : result A → hprog W B) Q R :
  yields p Q → (∀ r, Q r → yields (f r) R) → yields (hcont p f) R.
Proof.
  intros Hp Hf. induction p; cbn [hcont yields] in *; auto.
  intros v Hv. destruct (Hp v Hv). auto.
Qed.
Lemma yields_mono {A} (p : hprog W A) (Q R : result A → Prop) :
  yields p Q → (∀ r, Q r → R r) → yields p R.
Proof.
  intros Hp HQ. induction p; cbn [yields] in *; auto. intros v Hv. destruct (Hp v Hv). auto.
Qed.
Lemma yields_imp {A} (p : hprog W A) (P : Prop) (Q : result A → Prop) :
  yields p (λ _, True) → (P → yields p Q) → yields p (λ r, P → Q r).
Proof.
  intros Ht Hq. induction p as [r|g C F k IH|m k IH|m k IH|t k IH|t k IH|t k IH|k IH|i k IH];
    cbn [yields] in *; auto.
  intros v Hv. destruct (Ht v Hv) as [Hl Hk]. split; [done|]. apply IH; [done|].
  intros HP. by apply Hq.
Qed.
(** What [within] says of returned values. *)
Lemma yields_within {A} K (p : hprog W A) n Q R :
  yields p Q → within K p n R →
  yields p (λ r, Q r ∧ match r with Ok a => R a | Throw _ => True end).
Proof.
  revert n. induction p as [r|g C F k IH|m k IH|m k IH|t k IH|t k IH|t k IH|k IH|i k IH]; intros n Hp Hw;
    cbn [yields within] in *; [done|destruct Hw as (n' & _ & Hk)..]; eauto.
  intros v Hv. destruct (Hp v Hv). eauto.
Qed.

(** The program returns a value of [P]; it does so or throws
    [std::invalid_argument]. *)
Definition gives {A} (P : A → Prop) (r : result A) : Prop := ∃ a, r = Ok a ∧ P a.
Definition gives_or_invalid {A} (P : A → Prop) (r : result A) : Prop :=
  gives P r ∨ ∃ what, r = Throw (InvalidArgument what).

Lemma yields_bind {A B} (p : hprog W A) (f : A → hprog W B) P R :
  yields p (gives P) → (∀ a, P a → yields (f a) R) → yields (p ≫= f) R.
Proof. intros Hp Hf. eapply yields_hcont; [exact Hp|]. intros r (a & -> & Ha). by apply Hf. Qed.
Lemma yields_bind_or {A B} (p : hprog W A) (f : A → hprog W B) P (R : B → Prop) :
  yields p (gives_or_invalid P) → (∀ a, P a → yields (f a) (gives_or_invalid R)) →
  yields (p ≫= f) (gives_or_invalid R).
Proof.
  intros Hp Hf. eapply yields_hcont; [exact Hp|].
  intros r [(a & -> & Ha)|[what ->]]; [by apply Hf|]. right. by exists what.
Qed.
Lemma yields_or {A} (p : hprog W A) P : yields p (gives P) → yields p (gives_or_invalid P).
Proof. intros Hp. eapply yields_mono; [exact Hp|]. by left. Qed.
Lemma yields_catch {A} (p f : hprog W A) P :
  yields p (gives_or_invalid P) → yields f (gives P) → yields (hcatch_invalid p f) (gives P).
Proof.
  intros Hp Hf. eapply yields_hcont; [exact Hp|]. intros r [(a & -> & Ha)|[what ->]]; [|done].
  by exists a.
Qed.
Lemma yields_catch_ok {A} (p f : hprog W A) P :
  yields p (gives P) → yields (hcatch_invalid p f) (gives P).
Proof. intros Hp. eapply yields_hcont; [exact Hp|]. intros r (a & -> & Ha). by exists a. Qed.
Lemma yields_ret {A} (a : A) (P : A → Prop) : P a → yields (mret a) (gives P).
Proof. by exists a. Qed.
Lemma yields_locked {A} m (p : hprog W A) Q : yields p Q → yields (locked m p) Q.
Proof. intros Hp. eapply yields_hcont; [exact Hp|done]. Qed.

(** ** Accesses *)

Lemma yields_get table :
  yields (p_GetPartitionKeyName table)
    (gives (λ key, ∃ m, known m ∧ key = GetPartitionKeyName table m)).
Proof. apply yields_locked. intros m Hm. split; [done|]. eexists. split; [done|]. by exists m. Qed.
Lemma yields_get_any table : yields (p_GetPartitionKeyName table) (gives (λ _, True)).
Proof. eapply yields_mono; [apply yields_get|]. intros r (k & -> & _). by exists k. Qed.
Lemma yields_set table key : yields (p_SetPartitionKeyName table key) (gives (λ _, True)).
Proof. apply yields_locked. intros m Hm. split; [done|]. by eexists. Qed.
Lemma yields_access {B} (f : AlternatorLiveNodes * W → B * (AlternatorLiveNodes * W)) :
  (∀ v, routable v.1 → routable (f v).2.1) → yields (access Surroundings f) (gives (λ _, True)).
Proof. intros Hf v [Hv _]. split; [by apply Hf|]. by eexists. Qed.
Lemma yields_out {B} (m : M (AlternatorLiveNodes * W) B) :
  (∀ v, routable v.1 → routable (m v).2.1) → yields (hcall_out m) (λ _, True).
Proof. intros Hm v [Hv _]. split; [by apply Hm|done]. Qed.
Lemma yields_nodes {B} (m : M AlternatorLiveNodes B) P :
  (∀ n, met seen n → gives P (m n).1 ∧ routable (m n).2) →
  yields (hcall_nodes m : hprog W B) (gives P).
Proof. intros Hm [n w] Hv. destruct (Hm n Hv). cbn. by destruct (m n). Qed.

Lemma routable_plannable n : routable n → plannable (GetActiveNodes n).
Proof.
  intros (Hi & Hu & Hne). destruct (ns_active_law n) as [ND Hk]; [exact Hi|]. by split_and!.
Qed.
Lemma routable_same n n' :
  routable n → live_inv n' → GetActiveNodes n' = GetActiveNodes n → routable n'.
Proof. intros (_ & Hu & Hne) Hi E. unfold routable. by rewrite E. Qed.
Lemma yields_active :
  yields (p_GetActive : hprog W _) (gives (λ active, seen active ∧ plannable active)).
Proof.
  apply yields_nodes. intros n [Hn Hs]. split; [|done]. exists (GetActiveNodes n). split; [done|].
  split; [done|by apply routable_plannable].
Qed.
(** What the live nodes offer besides. *)
Definition clean_list (l : list Url) : Prop := NoDup l ∧ nonempty_nodes l.
Lemma yields_for_hash x : yields (p_PlanNodesForHash x : hprog W _) (gives clean_list).
Proof.
  apply yields_nodes. intros n [Hn _]. pose proof Hn as (Hi & Hu & _).
  destruct (ns_hash_law x n) as (l & n' & E & Hi' & Ea & ND & Hne & _); [exact Hi|exact Hu|].
  rewrite E. split; [by exists l|by apply (routable_same n)].
Qed.
Lemma yields_plan_nodes : yields (p_PlanNodes : hprog W _) (gives clean_list).
Proof.
  apply yields_nodes. intros n [Hn _]. pose proof Hn as (Hi & Hu & _).
  destruct (ns_plan_law n) as (l & n' & E & Hi' & Ea & ND & Hne & _); [exact Hi|exact Hu|].
  unfold plan_nodes. rewrite E. split; [by exists l|by apply (routable_same n)].
Qed.
End yields.

(** ** Plans *)

Section plans.
Context {W : Type} `{World W} `{Sdk W}.
Context (seen : list Url → Prop) (known : PartitionKeyMetadata → Prop).
Abbreviation yields := (yields (W := W) seen known).

(** A plan that covers a list of active nodes met on the way. *)
Definition covers_seen (p : QueryPlan) : Prop := ∃ active, seen active ∧ plannable active ∧ covers active p.

Lemma yields_default : yields p_DefaultQueryPlan (gives covers_seen).
Proof.
  eapply yields_bind.
  { apply yields_access. intros v Hv. by destruct (high_resolution_now v.2). }
  intros clock _. apply yields_nodes.
  intros n [Hn Hs]. pose proof (routable_plannable n Hn) as Hp. pose proof Hn as (Hi & Hu & Hne).
  destruct (FromNodesSource_covers clock n) as (p & n' & E & Hi' & Ea & Hc); [exact Hi|exact Hu|].
  unfold of_state. rewrite E. split; [|by apply (routable_same n)].
  exists p. split; [done|]. by exists (GetActiveNodes n).
Qed.

Lemma yields_nodes_for hashes out :
  clean_list out → yields (p_nodes_for_hashes hashes out) (gives clean_list).
Proof.
  revert out. induction hashes as [|x hashes IH]; intros out [ND Hne]; [by apply yields_ret|].
  eapply yields_bind; [apply yields_for_hash|]. intros l _. apply IH. split.
  - by apply dedupe_onto_NoDup.
  - by apply dedupe_onto_nonempty.
Qed.
Lemma yields_nodes_plan hashes : yields (p_QueryPlanNodesForHashes hashes) (gives clean_list).
Proof.
  eapply yields_bind; [apply yields_nodes_for; split; constructor|]. intros out Hout.
  case_bool_decide; [apply yields_plan_nodes|by apply yields_ret].
Qed.

(** The seeded order of the active nodes, after nodes that are not active. *)
Definition seeded_route (active : list Url) (seed : Z) (p : QueryPlan) : Prop :=
  ∃ extra order, DrainPlan p = Ok (extra ++ order) ∧
    DrainPlan (WithSortedSeed active seed) = Ok order ∧ order ≡ₚ active ∧
    NoDup extra ∧ ∀ u, u ∈ extra → u ∉ active.
Lemma seeded_route_covers active seed p : NoDup active → seeded_route active seed p → covers active p.
Proof.
  intros ND (extra & order & E & _ & Hp & NDx & Hx). exists (extra ++ order).
  split_and!; [done| |].
  - apply NoDup_app. split_and!; [done| |by rewrite Hp]. intros u Hu. rewrite Hp. by apply Hx.
  - intros u Hu. apply elem_of_app. right. by rewrite Hp.
Qed.
(** The order [QueryPlanForPartitionKey] builds from any two lists it is given. *)
Lemma seeded_order active l seed :
  plannable active → clean_list l →
  ∃ seeded, DrainPlan (WithSortedSeed (SortAndDedupeNodes active) seed) = Ok seeded ∧
    seeded_route active seed (FromOrderedNodes
      (AppendMissingNodes (NodesMissingFrom l (SortAndDedupeNodes active)) seeded)).
Proof.
  intros (ND & Hi & Hu & Hne) [NDl Nel].
  destruct (seeded_drain active seed ND Hi Hu) as (seeded & Ed & Ed' & Hp).
  set (extra := filter (λ u, u ∉ active) l) in *.
  assert (NodesMissingFrom l (SortAndDedupeNodes active) = extra) as ->.
  { rewrite NodesMissingFrom_filter by done. apply filter_ext_elem. intros u _.
    by rewrite elem_of_SortAndDedupe. }
  assert (∀ u, u ∈ extra → u ∉ active) as Hex
    by (intros u Hx; by apply list_elem_of_filter in Hx as [? _]).
  assert (nonempty_nodes seeded) as Nes by (unfold nonempty_nodes; rewrite Hp; apply Hu).
  assert (NoDup seeded) as NDs by (by rewrite Hp).
  exists seeded. split; [done|]. exists extra, seeded.
  split_and!; [|done|done|by apply NoDup_filter|done].
  rewrite AppendMissing_disjoint by (done || intros u Hx; rewrite Hp in Hx; set_solver).
  apply DrainPlan_ordered.
  - apply NoDup_app. split_and!; [by apply NoDup_filter|intros u; rewrite Hp; apply Hex|done].
  - apply Forall_app. split; [by apply nonempty_filter|done].
Qed.

Lemma yields_seeded seed :
  yields (active_nodes ← p_GetActive;
          query_plan_nodes ← p_PlanNodesForHash seed;
          if bool_decide (active_nodes = []) then mret (WithSortedSeed query_plan_nodes seed)
          else
            seeded ← Fin (DrainPlan (WithSortedSeed (SortAndDedupeNodes active_nodes) seed));
            mret (FromOrderedNodes (AppendMissingNodes
              (NodesMissingFrom query_plan_nodes (SortAndDedupeNodes active_nodes)) seeded)))
    (gives (λ p, ∃ active, seen active ∧ plannable active ∧ seeded_route active seed p)).
Proof.
  eapply yields_bind; [apply yields_active|]. intros active [Hs Hp].
  eapply yields_bind; [apply yields_for_hash|]. intros l Hl.
  rewrite bool_decide_eq_false_2 by apply Hp.
  destruct (seeded_order active l seed Hp Hl) as (seeded & E & Hr). rewrite E.
  eexists. split; [done|]. by exists active.
Qed.
Lemma yields_partition_key values table :
  yields (p_QueryPlanForPartitionKey values table) (gives_or_invalid covers_seen).
Proof.
  eapply (yields_bind_or _ _ _ _ (λ _, True)).
  - eapply yields_bind; [apply yields_get_any|]. intros key _.
    case_bool_decide; [by right; eexists|]. destruct (_ !! _); [by left; eexists|by right; eexists].
  - intros seed _. apply yields_or. eapply yields_mono; [apply yields_seeded|].
    intros r (p & -> & active & Hs & Hp & Hr). exists p. split; [done|]. exists active.
    split_and!; [done|done|]. eapply seeded_route_covers; [apply Hp|done].
Qed.

(** *** Discoveries started on the way *)

Lemma yields_erase table : yields (p_erase table) (gives (λ _, True)).
Proof. by exists tt. Qed.
Lemma yields_trigger table : yields (p_TriggerPartitionKeyDiscovery table) (gives (λ _, True)).
Proof.
  unfold p_TriggerPartitionKeyDiscovery. case_bool_decide; [by apply yields_ret|].
  eapply yields_bind; [apply yields_get_any|]. intros key _. destruct (negb _); [by apply yields_ret|].
  eapply (yields_bind _ _ _ _ (λ _, True)).
  { apply yields_locked. intros b. by exists b. }
  intros b _. destruct (negb b); [by apply yields_ret|].
  eapply (yields_hcont _ _ _ _ (λ _, True)).
  { eapply (yields_hcont _ _ _ _ (λ _, True)); [by apply yields_locked|]. by intros []. }
  intros [a|e] _; [by exists a|]. eapply yields_bind; [apply yields_erase|]. intros _ _. by apply yields_ret.
Qed.
Lemma yields_trigger_all tables : yields (p_trigger_all tables) (gives (λ _, True)).
Proof.
  induction tables as [|t tables IH]; [by apply yields_ret|].
  eapply yields_bind; [apply yields_trigger|]. intros b _.
  eapply yields_bind; [apply IH|]. intros rest _. by apply yields_ret.
Qed.
Lemma yields_missing operations : yields (p_missing_tables operations) (gives (λ _, True)).
Proof.
  induction operations as [|op ops IH]; [by apply yields_ret|].
  eapply yields_bind; [apply yields_get_any|]. intros key _.
  eapply yields_bind; [apply IH|]. intros rest _. by apply yields_ret.
Qed.

(** *** Batches *)

Lemma yields_hash op : yields (p_operation_hash op) (gives (λ _, True)).
Proof. eapply yields_bind; [apply yields_get_any|]. intros key _. by apply yields_ret. Qed.
Lemma yields_hashes operations : yields (p_BatchWriteHashes operations) (gives (λ _, True)).
Proof.
  induction operations as [|op ops IH]; [by apply yields_ret|].
  eapply yields_bind; [apply yields_hash|]. intros x _.
  eapply yields_bind; [apply IH|]. intros rest _. by apply yields_ret.
Qed.
(** Each operation whose key is known when it is read casts a vote. *)
Lemma yields_votes candidates operations votes :
  votable candidates →
  yields (p_count_votes candidates operations votes)
    (gives (λ v, ∃ l, v = foldl (flip add_vote) votes l ∧ l ⊆ candidates ∧
       (length l <= length operations)%nat)).
Proof.
  intros Hv. revert votes. induction operations as [|op ops IH]; intros votes.
  { apply yields_ret. exists []. split_and!; [done|set_solver|done]. }
  eapply yields_bind; [apply yields_hash|]. intros [x|] _.
  - destruct (votable_first candidates x Hv) as (E & Hin & Hne). rewrite E. cbn [hcont].
    unfold mbind, hprog_bind. cbn [hcont]. rewrite Hne.
    eapply yields_mono; [apply IH|]. intros r (v & -> & l & Hl & Hsub & Hlen). exists v. split; [done|].
    exists (first_node candidates x :: l). split_and!; [done|set_solver|cbn; lia].
  - eapply yields_mono; [apply IH|]. intros r (v & -> & l & Hl & Hsub & Hlen). exists v. split; [done|].
    exists l. split_and!; [done|done|cbn; lia].
Qed.
Lemma yields_select candidates operations :
  votable candidates → Z.of_nat (length operations) < 2 ^ 31 →
  yields (p_SelectBatchWritePreferredNodesForCandidates candidates operations)
    (gives_or_invalid (λ preferred, NoDup preferred ∧ preferred ⊆ candidates)).
Proof.
  intros Hv Hops. unfold p_SelectBatchWritePreferredNodesForCandidates.
  rewrite bool_decide_eq_false_2 by apply Hv. eapply yields_bind; [by apply yields_votes|].
  intros votes (l & -> & Hsub & Hlen). case_bool_decide; [by right; eexists|].
  left. eexists. split; [done|].
  destruct (preferred_by_votes_spec l) as (ND & Hin & _);
    [eapply key_inj_subseteq; [exact Hsub|apply Hv]|lia|].
  split; [exact ND|]. intros u Hu. apply Hsub, Hin, Hu.
Qed.

(** The order of the appends covers the active nodes, whoever was preferred. *)
Lemma batch_order_covers active l preferred :
  plannable active → clean_list l → NoDup preferred → preferred ⊆ active →
  covers active (FromOrderedNodes (AppendMissingNodes
    (AppendMissingNodes (NodesMissingFrom l (SortAndDedupeNodes active)) preferred)
    (SortAndDedupeNodes active))).
Proof.
  intros (ND & Hi & [Hn Hu] & Hne) [NDl Nel] NDp Hp. eexists.
  split; [by apply batch_order|]. split.
  - apply NoDup_app. split_and!; [by apply NoDup_filter| |apply NoDup_app; split_and!].
    + intros u Hx Hin. apply list_elem_of_filter in Hx as [Hx _].
      rewrite elem_of_app, list_elem_of_filter, elem_of_SortAndDedupe in Hin. set_solver.
    + done.
    + intros u Hup Hf. by apply list_elem_of_filter in Hf as [? _].
    + by apply NoDup_filter, SortAndDedupe_NoDup.
  - intros u Hin. rewrite !elem_of_app. destruct (decide (u ∈ preferred)); [by right; left|].
    do 2 right. apply list_elem_of_filter. by rewrite elem_of_SortAndDedupe.
Qed.

Lemma yields_batch_write operations :
  Z.of_nat (length operations) < 2 ^ 31 →
  yields (p_QueryPlanForBatchWrite operations) (gives_or_invalid covers_seen).
Proof.
  intros Hops. eapply yields_bind; [apply yields_active|]. intros active [Hs Hp].
  eapply yields_bind; [apply yields_hashes|]. intros hashes _.
  eapply yields_bind; [apply yields_nodes_plan|]. intros l Hl.
  pose proof Hp as (ND & Hi & Hu & Hne). rewrite bool_decide_eq_false_2 by done.
  eapply yields_bind_or.
  { apply yields_select; [|done]. by apply votable_sorted. }
  intros preferred [NDp Hpr]. left. eexists. split; [done|]. exists active. split_and!; [done|done|].
  apply batch_order_covers; [done|done|done|]. intros u Hup. apply Hpr in Hup.
  by rewrite elem_of_SortAndDedupe in Hup.
Qed.

(** *** The helper's plans *)

Lemma yields_key_plan values table : yields (p_NewPartitionKeyQueryPlan values table) (gives covers_seen).
Proof.
  eapply yields_bind; [apply yields_get_any|]. intros key _. case_bool_decide.
  - eapply yields_bind; [apply yields_trigger|]. intros b _. apply yields_default.
  - apply yields_catch; [apply yields_partition_key|apply yields_default].
Qed.
Lemma yields_batch_plan operations :
  Z.of_nat (length operations) < 2 ^ 31 →
  yields (p_NewBatchWriteQueryPlan operations) (gives covers_seen).
Proof.
  intros Hops. eapply (yields_bind _ _ _ _ (λ _, True)).
  { eapply yields_bind; [apply yields_missing|]. intros l _. apply yields_trigger_all. }
  intros l _. apply yields_catch; [by apply yields_batch_write|apply yields_default].
Qed.
Lemma yields_item_plan values table :
  yields (p_PartitionKeyQueryPlanFor values table) (gives covers_seen).
Proof.
  eapply yields_bind; [apply yields_get_any|]. intros key _.
  case_bool_decide; [apply yields_key_plan|].
  apply yields_catch; [|apply yields_key_plan].
  destruct (PartitionKeyOnly_cases values key) as [[m ->]|[what ->]].
  - apply yields_or, yields_key_plan.
  - right. by exists what.
Qed.
Lemma yields_write_plan config x : yields (p_write_plan config x) (gives covers_seen).
Proof.
  destruct x; cbn [p_write_plan]; (destruct (negb _); [apply yields_default|apply yields_item_plan]).
Qed.
Lemma yields_operations request operations :
  yields (p_BatchWriteOperationsFor request operations) (gives (λ _, True)).
Proof.
  revert operations. induction request as [|[table writes] request IH]; intros operations;
    [by apply yields_ret|].
  eapply yields_bind; [apply yields_get_any|]. intros key _. apply IH.
Qed.
Lemma yields_batch_item_plan config request :
  Z.of_nat (batch_writes request) < 2 ^ 31 →
  yields (p_BatchWriteItemQueryPlanFor config request) (gives covers_seen).
Proof.
  intros Hr. unfold p_BatchWriteItemQueryPlanFor. destruct (negb _); [apply yields_default|].
  eapply yields_hcont; [eapply (yields_within seen known 0); [apply yields_operations|apply within_operations]|].
  intros r [(operations & -> & _) Hl]. cbn in Hl. case_bool_decide; [apply yields_default|].
  apply yields_batch_plan. lia.
Qed.

(** *** Clients *)

Lemma drained_head p l :
  DrainPlan p = Ok l → l ≠ [] →
  ∃ u, (QueryPlan_Next p).1 = Ok u ∧ Url_Empty u = false ∧ head l = Some u.
Proof.
  intros E Hl. pose proof E as E0. unfold DrainPlan in E. cbn [drain_loop] in E.
  destruct (QueryPlan_Next p) as [[u|e] p'] eqn:En; [|done].
  destruct (Url_Empty u) eqn:Eu; [by simplify_eq|]. exists u. split_and!; [done|done|].
  by eapply DrainPlan_head.
Qed.
(** The client is fixed to the first node of the plan. *)
Definition heads_for (p : QueryPlan) (client : DynamoDBClient) : Prop :=
  ∃ u n, (QueryPlan_Next p).1 = Ok u ∧ Url_Empty u = false ∧ client = FixedClient n ∧
    Url_ToString n = Url_ToString u.
Lemma yields_client p :
  covers_seen p → yields (p_NewDynamoDBForQueryPlan p) (gives (heads_for p)).
Proof.
  intros (active & _ & (_ & _ & _ & Hne) & l & E & _ & Hsub).
  destruct (drained_head p l E) as (u & En & Eu & _).
  { intros ->. destruct active as [|a active]; [done|]. specialize (Hsub a). set_solver. }
  unfold p_NewDynamoDBForQueryPlan. rewrite En. cbn. rewrite Eu. apply yields_locked.
  intros m Hm. split; [done|]. cbn.
  destruct ((m : client_cache) !! Url_ToString u) as [[k c]|] eqn:El.
  - destruct (Hm _ _ El) as (n & Ec & Hn). cbn in Ec. subst c. eexists. split; [done|]. by exists u, n.
  - intros m' _. split; [done|]. eexists. split; [done|]. by exists u, u.
Qed.
End plans.

(** ** What moves the live nodes besides *)

Section moves.
Context {W : Type} `{World W} `{Sdk W}.
Context (seen : list Url → Prop) (known : PartitionKeyMetadata → Prop).
(** The requests of a discovery go through the live nodes. *)
Context (Hdescribe : ∀ t v, routable v.1 → routable (DescribeTable (W := W) t v).2.1).
Abbreviation yields := (yields (W := W) seen known).

Lemma yields_discover_loop n backoff table : yields (p_discover_loop n backoff table) (λ _, True).
Proof.
  revert backoff. induction n as [|n IH]; intros backoff; [done|]. cbn [p_discover_loop].
  eapply yields_hcont.
  { eapply (yields_hcont _ _ _ _ (λ _, True)); [apply yields_out; auto|].
    instantiate (1 := λ _, True). by intros []. }
  intros [key|] _; [|done]. destruct (negb _).
  { eapply yields_bind; [apply yields_set|]. done. }
  case_bool_decide; [done|]. destruct (0 <? backoff); [|apply IH].
  eapply yields_bind; [by apply yields_access|]. intros _ _. apply IH.
Qed.
Lemma yields_update config table : yields (p_UpdatePartitionKeyName config table) (λ _, True).
Proof. unfold p_UpdatePartitionKeyName. case_bool_decide; [done|]. apply yields_discover_loop. Qed.
Lemma yields_worker config table : yields (p_discovery_worker config table) (λ _, True).
Proof.
  apply (yields_hcont _ _ _ _ (λ _, True)).
  - apply (yields_hcont _ _ _ _ (λ _, True)); [|by intros []].
    apply (yields_hcont _ _ _ _ (λ _, True)); [apply yields_update|by intros []].
  - by intros [] _.
Qed.

Lemma Stop_request_routable n : routable n → routable (Stop_request n).
Proof.
  intros Hn. unfold Stop_request. destruct (background_started_ n); [|done].
  apply (routable_same n); [done| |done]. destruct Hn as ([] & _). by split.
Qed.
Lemma yields_join_all l : yields (p_join_all l) (gives (λ _, True)).
Proof. induction l as [|i l IH]; [by apply yields_ret|]. exact IH. Qed.
Lemma yields_destroy : yields p_destroy (gives (λ _, True)).
Proof.
  eapply yields_bind.
  - eapply (yields_bind _ _ _ _ (λ _, True)); [|intros l _; apply yields_join_all].
    apply yields_locked. intros l. by exists l.
  - intros _ _. apply yields_access. intros v Hv. by apply Stop_request_routable.
Qed.
End moves.

(** ** Writes of a known key *)

Definition affinity_on (config : Config) (x : ItemWrite) : bool :=
  match x with
  | PutWrite r => affinity_for config PutItem (PutItemOptions r)
  | UpdateWrite r => affinity_for config UpdateItem (UpdateItemOptions r)
  | DeleteWrite r => affinity_for config DeleteItem (DeleteItemOptions r)
  end.
(** The write is for the value [v] of the key [key] of [table], with affinity. *)
Record key_write (config : Config) (x : ItemWrite) (table key : string) (v : AttributeValue)
    : Prop := {
  kw_affinity : affinity_on config x = true;
  kw_table : c_str (GetTableName (write_request x)) = table;
  kw_nonempty : key ≠ "";
  kw_value : ∃ value, (GetItem (write_request x) : gmap _ _) !! c_str key = Some value ∧
               ToAttributeValue value = Ok v;
}.
Definition key_is (table key : string) (m : PartitionKeyMetadata) : Prop :=
  GetPartitionKeyName table m = key.
Definition routes_by (seen : list Url → Prop) (v : AttributeValue) (p : QueryPlan) : Prop :=
  ∃ active, seen active ∧ plannable active ∧ seeded_route active (AttributeValue_Hash v) p.

Section keyed.
Context {W : Type} `{World W} `{Sdk W} (seen : list Url → Prop).

Lemma yields_get_is table key :
  yields (W := W) seen (key_is table key) (p_GetPartitionKeyName table) (gives (λ k, k = key)).
Proof.
  eapply yields_mono; [apply yields_get|]. intros r (k & -> & m & Hm & ->). eexists. by split.
Qed.
Lemma yields_key_write config x table key v :
  key_write config x table key v →
  yields (W := W) seen (key_is table key) (p_write_plan config x) (gives (routes_by seen v)).
Proof.
  intros [Ha <- Hne (value & Ev & Et)].
  assert (p_write_plan (W := W) config x =
    p_PartitionKeyQueryPlanFor (GetItem (write_request x)) (GetTableName (write_request x))) as ->.
  { destruct x; cbn [p_write_plan affinity_on write_request] in *; by rewrite Ha. }
  eapply yields_bind; [apply yields_get_is|]. intros k ->. rewrite bool_decide_eq_false_2 by done.
  apply yields_catch_ok. unfold PartitionKeyOnlyAttributeMap. rewrite Ev.
  rewrite Et. cbn [mbind hprog_bind result_bind hcont].
  eapply yields_bind; [apply yields_get_is|]. intros k ->. rewrite bool_decide_eq_false_2 by done.
  apply yields_catch_ok. eapply (yields_bind _ _ _ _ (λ seed, seed = AttributeValue_Hash v)).
  { eapply yields_bind; [apply yields_get_is|]. intros k ->. rewrite bool_decide_eq_false_2 by done.
    pose proof (lookup_singleton_eq (M := gmap string) key v) as El. unfold AttributeMap in *.
    rewrite El. by eexists. }
  intros seed ->. apply yields_seeded.
Qed.
End keyed.

(** ** Pools *)

Section calls.
Context {W : Type} `{World W} `{Sdk W} `{Deployment W}.

(** What the SDK does to the live nodes while it sends a request keeps them routable. *)
Record sdk_keeps : Prop := {
  sk_describe t v : routable v.1 → routable (DescribeTable (W := W) t v).2.1;
  sk_item client x v : routable v.1 → routable (send_item (W := W) client x v).2.1;
  sk_batch client r v : routable v.1 → routable (send_batch (W := W) client r v).2.1;
}.
Context (seen : list Url → Prop) (known : PartitionKeyMetadata → Prop) (Hsdk : sdk_keeps).

(** *** What the calls return *)

(** Batches that the vote can count. *)
Definition sized (c : hcall) : Prop :=
  match c with
  | CallBatch r => Z.of_nat (batch_writes r) < 2 ^ 31
  | CallBatchPlan operations => Z.of_nat (length operations) < 2 ^ 31
  | _ => True
  end.
Definition replied (c : hcall) (r : result (hreply W)) : Prop :=
  match c with
  | CallItem _ | CallBatch _ =>
      ∃ p client o, r = Ok (Sent p client o) ∧ covers_seen seen p ∧ heads_for p client
  | CallKeyPlan _ _ | CallBatchPlan _ => ∃ p, r = Ok (Planned p) ∧ covers_seen seen p
  | CallGetKey _ => ∃ key, r = Ok (KeyIs key)
  | CallUpdateKey _ => True
  | CallSetKey _ _ | CallDestroy => r = Ok Nothing
  end.
Lemma yields_send {R} (p : hprog W QueryPlan) P
    (send : DynamoDBClient → R → AlternatorLiveNodes * W → Outcome * (AlternatorLiveNodes * W)) (x : R) :
  (∀ client v, routable v.1 → routable (send client x v).2.1) →
  yields seen known p (gives P) → (∀ plan, P plan → covers_seen seen plan) →
  yields seen known
    ('(p, c, o) ← (plan ← p; client ← p_NewDynamoDBForQueryPlan plan;
                   outcome ← access Surroundings (send client x); mret (plan, client, outcome));
     mret (Sent p c o))
    (λ r, ∃ p client o, r = Ok (Sent p client o) ∧ P p ∧ heads_for p client).
Proof.
  intros Hx Hp HP. eapply (yields_bind _ _ _ _ (λ a, P a.1.1 ∧ heads_for a.1.1 a.1.2)).
  - eapply yields_bind; [exact Hp|]. intros plan Hplan.
    eapply yields_bind; [apply yields_client; eauto|]. intros client Hcl.
    eapply yields_bind; [apply yields_access; auto|]. intros o _. by apply yields_ret.
  - intros [[plan client] o] [Hplan Hcl]. by exists plan, client, o.
Qed.
Lemma yields_program c : sized c → yields seen known (hprogram c) (replied c).
Proof.
  destruct c as [x|r|values table|operations|table|table key|table|]; cbn [sized hprogram replied];
    intros Hs.
  - apply yields_send; [intros; by apply Hsdk|apply yields_write_plan|done].
  - apply yields_send; [intros; by apply Hsdk|by apply yields_batch_item_plan|done].
  - eapply yields_bind; [apply yields_key_plan|]. intros p Hp. by exists p.
  - eapply yields_bind; [by apply yields_batch_plan|]. intros p Hp. by exists p.
  - eapply yields_bind; [apply yields_get_any|]. intros key _. by exists key.
  - eapply yields_bind; [apply yields_set|]. done.
  - eapply yields_hcont; [apply yields_update, Hsdk|]. by intros [].
  - eapply yields_bind; [apply yields_destroy|]. done.
Qed.

(** A write of a key that is known throughout goes by the key's order. *)
Definition key_replied (v : AttributeValue) (r : result (hreply W)) : Prop :=
  ∃ p client o, r = Ok (Sent p client o) ∧ routes_by seen v p ∧ heads_for p client.
Lemma routes_by_covers v p : routes_by seen v p → covers_seen seen p.
Proof.
  intros (active & Hs & Hp & Hr). exists active. split_and!; [done|done|].
  eapply seeded_route_covers; [apply Hp|done].
Qed.
Definition key_spec (table key : string) (v : AttributeValue) (c : hcall) (r : result (hreply W))
    : Prop :=
  match c with
  | CallItem x => key_write deployed x table key v → key_replied v r
  | _ => True
  end.
End calls.

Lemma yields_key_program {W} `{World W} `{Sdk W} `{Deployment W} seen table key v c :
  sdk_keeps (W := W) → sized c →
  yields seen (key_is table key) (hprogram c) (key_spec (W := W) seen table key v c).
Proof.
  intros Hsdk Hs. pose proof (yields_program seen (key_is table key) Hsdk c Hs) as Hy.
  destruct c as [x| | | | | | |]; cbn [key_spec]; try (by eapply yields_mono).
  apply yields_imp; [by eapply yields_mono|]. intros Hx.
  apply yields_send; [intros; by apply Hsdk|by apply yields_key_write|apply routes_by_covers].
Qed.

(** The active nodes of a state. *)
Definition active_in {W} `{Deployment W} (x : hpool W) : list Url :=
  GetActiveNodes (helper_nodes (hmem x).1.1).

Section pools.
Context {W : Type} `{World W} `{Sdk W} `{Deployment W}.
Context (seen : list Url → Prop) (known : PartitionKeyMetadata → Prop) (Hsdk : sdk_keeps (W := W)).

(** Runs in which the outside keeps the live nodes routable, their active nodes
    are always among those [seen], and key names stay as assumed. *)
Inductive wstep : hpool W → hpool W → Prop :=
  | wstep_thread i x y :
      hpool_step i x = Some y → seen (active_in y) → known (partition_keys_ (hmem y).1.1) → wstep x y
  | wstep_env n w x : met seen n → wstep x (env_move n w x).
Lemma wstep_hstep x y : wstep x y → hstep x y.
Proof. intros [i x' y' E _ _|n w x' _]; [by eapply hstep_thread|by apply hstep_env]. Qed.

(** What the calls of a pool are to return; [from] is the number of answers of a
    thread that are not asked about. *)
Context (spec : hcall → result (hreply W) → Prop) (from : nat).
Context (Hspec : ∀ c, sized c → yields seen known (hprogram c) (spec c)).
Definition will_answer (t : hthread W) : Prop :=
  Forall sized (todo t) ∧
  Forall (λ a, spec a.1 a.2) (drop from (answers t)) ∧
  match now t with
  | Idle => True
  | Busy (Called c) p => yields seen known p (spec c)
  | Busy (Worker _) p => yields seen known p (λ _, True)
  end.

Lemma will_answer_worker table : will_answer (new_worker table).
Proof.
  split_and!; [constructor|cbn; rewrite drop_nil; constructor|]. cbn. eapply yields_hcont.
  - apply yields_worker. apply Hsdk.
  - by intros [] _.
Qed.
Lemma will_answer_go j (p q : hprog W (hreply W)) h h' td an :
  (∀ Q, yields seen known p Q → yields seen known q Q) →
  will_answer (mkHThread (Busy j p) h td an) → will_answer (mkHThread (Busy j q) h' td an).
Proof. intros Hq (Htd & Han & Hnow). split_and!; [done|done|]. cbn in *. destruct j; auto. Qed.

Lemma will_answer_step ts n t (μ : (DynamoDBHelper * W) * list nat) t' μ' forked :
  met seen (helper_nodes μ.1.1) → known (partition_keys_ μ.1.1) → cache_ok (fixed_clients_ μ.1.1) →
  will_answer t → hthread_step ts n t μ = Some (t', μ', forked) →
  will_answer t' ∧ Forall will_answer forked ∧ routable (helper_nodes μ'.1.1).
Proof.
  intros Hn Hk Hc Ht E. pose proof Hn as [Hr _]. destruct μ as [σ ids], t as [d h td an].
  unfold hthread_step in E. cbn [fst snd now todo answers holds] in *.
  destruct d as [|j p].
  { destruct Ht as (Htd & Han & _). destruct td as [|c cs]; [done|]. simplify_eq.
    apply Forall_cons in Htd as [Hc' Hcs]. split_and!; [|constructor|done].
    split_and!; [done|done|by apply Hspec]. }
  assert (∀ rg : helper_region, observed seen known rg (region_get rg σ)) as Ho by (by intros []).
  destruct p as [r|rg B f k|m' k|m' k|t0 k|t0 k|t0 k|k|i k].
  - simplify_eq. destruct Ht as (Htd & Han & Hnow). split_and!; [|constructor|done].
    split_and!; [done| |done]. destruct j; [|done]. cbn [answers] in *. rewrite drop_app.
    apply Forall_app. split; [done|]. apply Forall_drop. by constructor.
  - specialize (Ho rg). pose proof Ht as (_ & _ & Hnow). cbn in Hnow.
    assert (left_behind rg (f (region_get rg σ)).2) as Hl
      by (destruct j; by destruct (Hnow _ Ho)).
    destruct (f (region_get rg σ)) as [b v] eqn:Ef. simplify_eq. split_and!; [|constructor|by destruct rg].
    eapply will_answer_go; [|exact Ht]. intros Q HQ. destruct (HQ _ Ho) as [_ Hq]. by rewrite Ef in Hq.
  - destruct (mutex_free ts m'); [|done]. simplify_eq.
    split_and!; [by eapply will_answer_go; [|exact Ht]|constructor|done].
  - simplify_eq. split_and!; [by eapply will_answer_go; [|exact Ht]|constructor|done].
  - unfold insert_in_progress in E. case_bool_decide; simplify_eq;
      (split_and!; [by eapply will_answer_go; [|exact Ht]; intros Q HQ|constructor|done]).
  - simplify_eq. split_and!; [by eapply will_answer_go; [|exact Ht]|constructor|done].
  - destruct (create_thread σ.2) as [[] w]; simplify_eq;
      (split_and!; [by eapply will_answer_go; [|exact Ht]; intros Q HQ| |done]);
      [constructor; [apply will_answer_worker|constructor]|constructor].
  - simplify_eq. split_and!; [by eapply will_answer_go; [|exact Ht]; intros Q HQ|constructor|done].
  - destruct (thread_over ts i); [|done]. simplify_eq.
    split_and!; [by eapply will_answer_go; [|exact Ht]|constructor|done].
Qed.

Record meeting (x : hpool W) : Prop := {
  mt_ok : helper_ok x;
  mt_nodes : met seen (helper_nodes (hmem x).1.1);
  mt_keys : known (partition_keys_ (hmem x).1.1);
}.
(** A step keeps what one thread will answer. *)
Lemma will_answer_pool x y i t :
  wstep x y → meeting x → hthreads x !! i = Some t → will_answer t →
  ∃ t', hthreads y !! i = Some t' ∧ will_answer t'.
Proof.
  intros Hs [Hok Hn Hk] Et Ht. destruct Hs as [j x y E _ _|n w x _]; [|by exists t].
  unfold hpool_step in E. destruct (hthreads x !! j) as [u|] eqn:Eu; [|done]. cbn in E.
  destruct (hthread_step _ _ _ _) as [[[u' μ] forked]|] eqn:Es; [|done]. cbn in E. simplify_eq. cbn.
  apply lookup_lt_Some in Et as Hlt. rewrite lookup_app_l by (by rewrite length_insert).
  destruct (decide (i = j)) as [->|Hne]; [|rewrite list_lookup_insert_ne by done; by exists t].
  rewrite list_lookup_insert_eq by done. simplify_eq. destruct Hok as (gs & _ & Hc).
  exists u'. split; [done|]. by destruct (will_answer_step _ _ _ _ _ _ _ Hn Hk Hc Ht Es).
Qed.
Lemma will_answer_all x y :
  wstep x y → meeting x → Forall will_answer (hthreads x) →
  meeting y ∧ Forall will_answer (hthreads y).
Proof.
  intros Hs [Hok Hn Hk] Hw. assert (helper_ok y) as Hok'.
  { eapply helper_ok_steps; [apply rtc_once, wstep_hstep, Hs|done]. }
  destruct Hs as [i x y E Hsy Hky|n w x Hm]; [|by split]. unfold hpool_step in E.
  destruct (hthreads x !! i) as [t|] eqn:Et; [|done]. cbn in E.
  destruct (hthread_step _ _ _ _) as [[[t' μ] forked]|] eqn:Es; [|done]. cbn in E. simplify_eq.
  cbn in Hsy, Hky. destruct Hok as (gs & _ & Hc). rewrite Forall_lookup in Hw.
  destruct (will_answer_step _ _ _ _ _ _ _ Hn Hk Hc (Hw i t Et) Es) as (Ht' & Hf & Hn').
  split; [by split|]. cbn. apply Forall_app. split; [|done].
  apply Forall_insert; [by apply Forall_lookup|done].
Qed.
Lemma will_answer_run calls h (w : W) x :
  unused h → met seen (helper_nodes h) → known (partition_keys_ h) → Forall (Forall sized) calls →
  rtc wstep (hpool_make calls h w) x → meeting x ∧ Forall will_answer (hthreads x).
Proof.
  intros Hu Hm Hk Hc Hs.
  assert (meeting (hpool_make calls h w) ∧ Forall will_answer (hthreads (hpool_make calls h w))) as Hx.
  { split; [split; [by apply helper_ok_make|done|done]|]. cbn. unfold callers. apply Forall_fmap.
    eapply Forall_impl; [exact Hc|]. intros cs Hcs. split_and!; [done|cbn; rewrite drop_nil; constructor|done]. }
  induction Hs as [|? ? ? Hs _ IH]; [done|]. destruct Hx. apply IH. by eapply will_answer_all.
Qed.
End pools.

(** ** What holds of all answers, and of those of a stretch of a run *)

Section answers.
Context {W : Type} `{World W} `{Sdk W} `{Deployment W} (Hsdk : sdk_keeps (W := W)).

Lemma answers_hold seen known (spec : hcall → result (hreply W) → Prop) calls h (w : W) x :
  (∀ c, sized c → yields seen known (hprogram c) (spec c)) →
  unused h → met seen (helper_nodes h) → known (partition_keys_ h) → Forall (Forall sized) calls →
  rtc (wstep seen known) (hpool_make calls h w) x →
  ∀ i n a, answer_of x i n = Some a → spec a.1 a.2.
Proof.
  intros Hspec Hu Hm Hk Hc Hs i n a E. unfold answer_of in E.
  destruct (hthreads x !! i) as [t|] eqn:Et; [|done]. cbn in E.
  destruct (will_answer_run seen known Hsdk spec 0 Hspec calls h w x Hu Hm Hk Hc Hs) as [_ Hw].
  rewrite Forall_lookup in Hw. destruct (Hw i t Et) as (_ & Han & _).
  rewrite drop_0, Forall_lookup in Han. by eapply Han.
Qed.

(** Nothing assumed of the active nodes but that there are some. *)
Definition anything {A} (_ : A) : Prop := True.
(** A stretch of a run, with the states it goes through. *)
Fixpoint passes (x : hpool W) (ys : list (hpool W)) : Prop :=
  match ys with
  | [] => True
  | y :: ys => wstep anything anything x y ∧ passes y ys
  end.
Fixpoint ends_in (x : hpool W) (ys : list (hpool W)) : hpool W :=
  match ys with
  | [] => x
  | y :: ys => ends_in y ys
  end.
(** The lists of active nodes that occur in some states. *)
Definition active_among (xs : list (hpool W)) (l : list Url) : Prop := ∃ z, z ∈ xs ∧ active_in z = l.

(** The stretch that a schedule drives through. *)
Fixpoint hstates (l : list nat) (x : hpool W) : list (hpool W) :=
  match l with
  | [] => []
  | i :: l => match hpool_step i x with
              | Some y => y :: hstates l y
              | None => hstates l x
              end
  end.
Lemma passes_hstates l x : passes x (hstates l x).
Proof.
  revert x. induction l as [|i l IH]; intros x; [done|]. cbn.
  destruct (hpool_step i x) as [y|] eqn:E; [|apply IH]. split; [by eapply wstep_thread|apply IH].
Qed.
Lemma ends_in_hstates l x : ends_in x (hstates l x) = hdrive l x.
Proof.
  revert x. induction l as [|i l IH]; intros x; [done|]. cbn.
  destruct (hpool_step i x) as [y|] eqn:E; apply IH.
Qed.

Lemma stretch_answers seen spec from i x ys t :
  (∀ c, sized c → yields seen anything (hprogram c) (spec c)) →
  meeting anything anything x → Forall (will_answer anything anything (λ _ _, True) 0) (hthreads x) →
  passes x ys → (∀ z, z ∈ x :: ys → seen (active_in z)) →
  hthreads x !! i = Some t → will_answer seen anything spec from t →
  ∃ t', hthreads (ends_in x ys) !! i = Some t' ∧ will_answer seen anything spec from t'.
Proof.
  intros Hspec. revert x t. induction ys as [|y ys IH]; intros x t Hx Hall Hp Hseen Et Ht; [by exists t|].
  destruct Hp as [Hs Hp].
  assert (meeting anything anything y ∧
    Forall (will_answer anything anything (λ _ _, True) 0) (hthreads y)) as [Hy Hall'].
  { eapply will_answer_all; [done| |done|done|done]. intros c Hc. eapply yields_mono; [by apply yields_program|done]. }
  assert (seen (active_in x)) as Hsx by (apply Hseen; set_solver).
  assert (seen (active_in y)) as Hsy by (apply Hseen; set_solver).
  assert (wstep seen anything x y) as Hs'.
  { destruct Hs as [j x y E _ _|n w x [Hn _]]; [by eapply wstep_thread|by apply wstep_env]. }
  destruct (will_answer_pool seen anything Hsdk spec from Hspec x y i t Hs') as (t' & Et' & Ht');
    [|done|done|].
  { destruct Hx as [? [] ?]. by split. }
  cbn [ends_in].
  apply (IH y t'); try done. intros z Hz. apply Hseen. set_solver.
Qed.
End answers.

Section driving.
Context {W : Type} `{World W} `{Sdk W} `{Deployment W}.
Context (seen : list Url → Prop) (known : PartitionKeyMetadata → Prop).
(** A schedule, with a check of the states it goes through. *)
Fixpoint driven (P : hpool W → bool) (l : list nat) (x : hpool W) : bool :=
  match l with
  | [] => true
  | i :: l => let y := default x (hpool_step i x) in P y && driven P l y
  end.
Lemma wdrive_steps P l x :
  (∀ y, P y = true → seen (active_in y) ∧ known (partition_keys_ (hmem y).1.1)) →
  driven P l x = true → rtc (wstep seen known) x (hdrive l x).
Proof.
  intros HP. revert x. induction l as [|i l IH]; intros x E; [apply rtc_refl|].
  cbn in E. apply andb_true_iff in E as [Ey E]. cbn.
  destruct (hpool_step i x) as [y|] eqn:Es; [|by apply IH].
  eapply rtc_l; [|by apply IH]. destruct (HP y Ey). by eapply wstep_thread.
Qed.

End driving.
