(* ===== verification/HelperThreadProperties.v ===== *)
(** Properties of a [DynamoDBHelper] that several threads use: its discovery
    threads, its mutexes, its destructor, and the plans it makes meanwhile. *)
From S2P Require Import Prelude Uri GoRandom Murmur3 AttributeValue Effects RoutingScope NodeHealth.
From S2P Require Import QueryPlan KeyRouteAffinity HttpCompression Config LocalNodesJson LiveNodes.
From S2P Require Import LiveNodesSelection DynamoDBHelper HelperOperations RoutingProperties.
From S2P Require Import HelperProperties HelperThreads HelperAlone HelperPool HelperProtocol.
From S2P Require Import HelperInvariant HelperSafety HelperWork HelperRoutes.

(** ** Concrete data for the instances *)

(** The service that is up, with an SDK that answers with the client used. *)
Definition send_back {R} (client : DynamoDBClient) (r : R) (v : AlternatorLiveNodes * service_up)
    : DynamoDBClient * (AlternatorLiveNodes * service_up) := (client, v).
#[global] Instance service_up_deployment : Deployment service_up := {
  deployed := any_write;
  Outcome := DynamoDBClient;
  send_item := send_back;
  send_batch := send_back;
}.
Lemma helper_abc_unused : unused helper_abc.
Proof. done. Qed.
Lemma abc_routable : routable (helper_nodes helper_abc).
Proof.
  split_and!; [apply abc_inv|apply abc_usable|].
  assert (bool_decide (GetActiveNodes abc = []) = false) as E by (vm_compute; exact eq_refl).
  by apply bool_decide_eq_false in E.
Qed.
Lemma up_keeps : sdk_keeps (W := service_up).
Proof. split; [by intros t []|by intros client x []|by intros client r []]. Qed.

(** Two threads write to a table whose key is not known, a third destroys the
    helper. *)
Definition two_writers : list (list hcall) :=
  [[CallItem put_order]; [CallItem put_order]; [CallDestroy]].
Definition contended : hpool service_up := hpool_make two_writers helper_abc (mkUp 0).
(** Both read the key name before either claims the table. *)
Definition rush : list nat :=
  replicate 10 0%nat ++ replicate 10 1%nat ++ replicate 40 0%nat ++ replicate 40 1%nat.
Definition claimed_once : hpool service_up := hdrive rush contended.
Definition destroyed : hpool service_up :=
  hdrive (replicate 5 2%nat ++ replicate 40 3%nat ++ replicate 10 2%nat) claimed_once.

(** ** The programs are the methods *)

(** Run alone, the programs that threads interleave are the member functions
    of [DynamoDBHelper]: item and batch writes, plans, [UpdatePartitionKeyName],
    the body of a discovery thread and the destructor leave the same state and
    return or throw the same, although they read each key name with a lock of
    its own where the functions take one snapshot. *)
Theorem threads_run_the_helper {W Out : Type} `{World W} `{Sdk W}
    (send_item : DynamoDBClient → ItemWrite →
       AlternatorLiveNodes * W → Out * (AlternatorLiveNodes * W))
    (send_batch : DynamoDBClient → BatchWriteItemRequest →
       AlternatorLiveNodes * W → Out * (AlternatorLiveNodes * W))
    (config : Config) (σ : DynamoDBHelper * W) :
  helper_config σ.1 = config →
  (∀ x, (o ← hrun (p_item_write config send_item x); mret o.2) σ =
        item_write (λ client x, of_state (send_item client x)) x σ) ∧
  (∀ r, (o ← hrun (p_batch_write config send_batch r); mret o.2) σ =
        Helper_BatchWriteItem (λ client r, of_state (send_batch client r)) r σ) ∧
  (∀ values table, hrun (p_NewPartitionKeyQueryPlan values table) σ =
                   NewPartitionKeyQueryPlan values table σ) ∧
  (∀ operations, hrun (p_NewBatchWriteQueryPlan operations) σ = NewBatchWriteQueryPlan operations σ) ∧
  (∀ table, hrun (p_UpdatePartitionKeyName config table) σ = UpdatePartitionKeyName table σ) ∧
  (∀ table, hrun (p_discovery_worker config table) σ = discovery_worker table σ) ∧
  hrun p_destroy σ = (_ ← DynamoDBHelper_destroy; mret tt) σ.
Proof.
  intros Ec. split_and!; intros.
  - by apply alone_item_write.
  - by apply alone_batch.
  - apply alone_NewPartitionKey.
  - apply alone_NewBatchWrite.
  - by apply alone_update.
  - by apply alone_worker.
  - apply alone_destroy.
Qed.

Lemma threads_run_the_helper_witness :
  let σ := (helper_abc, mkUp 0) in
  (o ← hrun (p_item_write any_write send_back put_order); mret o.2) σ =
    item_write (λ client x, of_state (send_back client x)) put_order σ ∧
  hrun (p_UpdatePartitionKeyName any_write "orders") σ = UpdatePartitionKeyName "orders" σ ∧
  hrun p_destroy σ = (_ ← DynamoDBHelper_destroy; mret tt) σ.
Proof.
  intros σ.
  destruct (threads_run_the_helper send_back send_back any_write σ eq_refl)
    as (Hi & _ & _ & _ & Hu & _ & Hd).
  split_and!; [apply Hi|apply Hu|apply Hd].
Defined.

(** ** Discovery threads *)

(** C12. At every point of every interleaving of threads that use one helper, no
    two discovery threads of the same table have work left; and while no call
    is in progress, every table in [in_progress] is that of a discovery thread
    at work (so that a table is never left behind there), and every discovery
    thread at work has its handle in [workers], for the destructor to join. *)
Theorem discoveries_exclude_one_another {W : Type} `{World W} `{Sdk W} `{Deployment W}
    calls h (w : W) x :
  unused h → rtc hstep (hpool_make calls h w) x →
  (∀ i j ti tj table, hthreads x !! i = Some ti → hthreads x !! j = Some tj →
     discovers ti = Some table → discovers tj = Some table → i = j) ∧
  (no_call (hthreads x) →
     (∀ table, table ∈ in_progress (hmem x).1.1 →
        ∃ i t, hthreads x !! i = Some t ∧ discovers t = Some table) ∧
     (∀ i t table, hthreads x !! i = Some t → discovers t = Some table → i ∈ (hmem x).2)).
Proof.
  intros Hu Hs. destruct (helper_ok_steps _ _ Hs (helper_ok_make calls h w Hu)) as (gs & Hi & _). split.
  - intros i j ti tj table Ei Ej Di Dj. by eapply discovering_once.
  - intros Hn. split.
    + intros table Hin. by eapply claimed_by_worker.
    + intros i t table Et Hd. apply discovers_now in Hd as (p & En & _). by eapply worker_has_handle.
Qed.

Lemma discoveries_exclude_one_another_witness :
  (t ← hthreads claimed_once !! 3%nat; discovers t) = Some "orders" ∧
  (∀ i j ti tj table, hthreads claimed_once !! i = Some ti → hthreads claimed_once !! j = Some tj →
     discovers ti = Some table → discovers tj = Some table → i = j) ∧
  (no_call (hthreads claimed_once) →
     (∀ table, table ∈ in_progress (hmem claimed_once).1.1 →
        ∃ i t, hthreads claimed_once !! i = Some t ∧ discovers t = Some table) ∧
     (∀ i t table, hthreads claimed_once !! i = Some t → discovers t = Some table →
        i ∈ (hmem claimed_once).2)).
Proof.
  split; [vm_compute; exact eq_refl|].
  apply (discoveries_exclude_one_another two_writers helper_abc (mkUp 0)).
  - apply helper_abc_unused.
  - apply hdrive_steps.
Defined.

(** C13. Threads that use one helper neither race nor deadlock: two threads are
    never about to touch the same guarded part, no mutex of the helper is held
    while the live nodes are asked, a request is made or a clock is read, some
    thread can go on unless all are over, and in a run the threads take at most
    as many steps as the calls they make are worth, discovery threads and the
    joins of the destructor included: every call returns. (An SDK client is
    constructed under [fixed_clients_mutex_], which is not an access here.) *)
Theorem helper_no_race_no_deadlock {W : Type} `{World W} `{Sdk W} `{Deployment W}
    calls h (w : W) k x :
  unused h → hsteps k (hpool_make calls h w) x →
  (k <= sum_list (map todo_steps calls))%nat ∧ ¬ hrace x ∧
  (∀ i t, hthreads x !! i = Some t → calls_out t → holds t = None) ∧
  (all_over x ∨ ∃ i y, hpool_step i x = Some y).
Proof.
  intros Hu Hs.
  pose proof (helper_ok_steps _ _ (hsteps_rtc _ _ _ Hs) (helper_ok_make calls h w Hu)) as Hok.
  destruct (hsteps_bound _ _ _ _ Hs (pool_funded_make calls h w)) as [Hk _].
  split_and!; [done|by apply no_hrace|intros i t; by apply calls_out_unlocked|].
  destruct (progress x Hok) as [?|[i [y E]]]; [by left|]. right. by exists i, y.
Qed.

Lemma helper_no_race_no_deadlock_witness :
  turns rush contended = 44%nat ∧
  (turns rush contended <= sum_list (map todo_steps two_writers))%nat ∧ ¬ hrace claimed_once ∧
  (∀ i t, hthreads claimed_once !! i = Some t → calls_out t → holds t = None) ∧
  (all_over claimed_once ∨ ∃ i y, hpool_step i claimed_once = Some y).
Proof.
  split; [vm_compute; exact eq_refl|].
  apply (helper_no_race_no_deadlock two_writers helper_abc (mkUp 0)).
  - apply helper_abc_unused.
  - exact (hdrive_hsteps rush contended).
Defined.

(** C14. When the destructor of a helper that nobody calls any more returns, every
    discovery thread is over, no handle is left and no table is in progress,
    however the discovery threads and the destructor interleave and however
    many discoveries were running when it began. *)
Theorem destructor_waits_for_discoveries {W : Type} `{World W} `{Sdk W} `{Deployment W}
    calls h (w : W) x y d t t' :
  unused h → rtc hstep (hpool_make calls h w) x →
  hthreads x !! d = Some t → now t = Idle → todo t = [CallDestroy] →
  (∀ i u, i ≠ d → hthreads x !! i = Some u → is_worker u) →
  rtc hstep x y → hthreads y !! d = Some t' → over t' = true →
  all_over y ∧ (hmem y).2 = [] ∧ workers (hmem y).1.1 = [] ∧ in_progress (hmem y).1.1 = ∅.
Proof.
  intros Hu Hs Et Hn Htd Hw Hy Et' Ho.
  assert (destroying d y) as Hd.
  { apply (destroying_steps d x y Hy).
    split_and!; [by eapply helper_ok_steps, helper_ok_make|done|]. exists t. split; [done|].
    unfold destructor_at. rewrite Hn. by left. }
  destruct (destroyed_over d y t' Hd Et' Ho) as (Ha & [? ?] & ?). by split_and!.
Qed.

Lemma destructor_waits_for_discoveries_witness :
  (t ← hthreads claimed_once !! 3%nat; discovers t) = Some "orders" ∧
  all_over destroyed ∧ (hmem destroyed).2 = [] ∧ workers (hmem destroyed).1.1 = [] ∧
  in_progress (hmem destroyed).1.1 = ∅.
Proof.
  split; [vm_compute; exact eq_refl|].
  assert ((λ t, (match now t with Idle => true | _ => false end,
                 match todo t with [CallDestroy] => true | _ => false end)) <$>
    hthreads claimed_once !! 2%nat = Some (true, true)) as E1 by (vm_compute; exact eq_refl).
  assert (over <$> hthreads destroyed !! 2%nat = Some true) as E2 by (vm_compute; exact eq_refl).
  destruct (hthreads claimed_once !! 2%nat) as [t|] eqn:Et; [|discriminate E1].
  destruct (hthreads destroyed !! 2%nat) as [t'|] eqn:Et'; [|discriminate E2].
  cbn in E1, E2. injection E1 as En Etd. injection E2 as Eo.
  apply (destructor_waits_for_discoveries two_writers helper_abc (mkUp 0) claimed_once destroyed 2 t t').
  - apply helper_abc_unused.
  - apply hdrive_steps.
  - exact Et.
  - clear -En. by destruct (now t).
  - clear -Etd. by destruct (todo t) as [|[] []].
  - intros i u. apply only_workers_spec. vm_compute. exact eq_refl.
  - apply hdrive_steps.
  - exact Et'.
  - exact Eo.
Defined.

(** ** Plans among threads *)

(** C3. However many threads write through one helper while discoveries run, keys
    become known between two reads of one write, and the live nodes change:
    every write that returns has not thrown, has a plan that tries every node
    that was active at some moment of the write and none twice, and was sent
    through a client of the plan's first node; plans asked for directly cover
    such a set too.  The moments are those of any stretch [x :: ys] of the run
    at whose start the thread was idle, so that the calls it answers in it lie
    in it.  It is assumed that the live nodes start in their invariant with
    active nodes, of which none has an empty host and which are fewer than
    [2^31], that the outside and the SDK keep them so ([routable]), and that
    batches have fewer than [2^31] writes; without active nodes nothing is
    claimed. *)
Theorem writes_are_planned_among_threads {W : Type} `{World W} `{Sdk W} `{Deployment W}
    calls h (w : W) x ys i n t c r :
  sdk_keeps (W := W) → unused h → routable (helper_nodes h) → Forall (Forall sized) calls →
  rtc (wstep anything anything) (hpool_make calls h w) x →
  hthreads x !! i = Some t → now t = Idle → (length (answers t) <= n)%nat →
  passes x ys → answer_of (ends_in x ys) i n = Some (c, r) →
  replied (active_among (x :: ys)) c r.
Proof.
  intros Hsdk Hu Hm Hc Hs Et Hidle Hn Hp E. set (seen := active_among (x :: ys)).
  assert (∀ seen' c, sized c → yields seen' anything (hprogram (W := W) c) (λ _, True)) as Hany.
  { intros seen' c' Hc'. eapply yields_mono; [by apply yields_program|done]. }
  destruct (will_answer_run anything anything Hsdk (λ _ _, True) 0 (Hany anything) calls h w x Hu
    (conj Hm I) I Hc Hs) as [Hx Hall].
  destruct (stretch_answers Hsdk seen (replied seen) (length (answers t)) i x ys t) as (t' & Et' & _ & Ha & _);
    [intros c' Hc'; by apply yields_program|done|done|done|intros z Hz; by exists z|done| |].
  { rewrite Forall_lookup in Hall. destruct (Hall i t Et) as (Htd & _ & _).
    split_and!; [done|by rewrite drop_all|by rewrite Hidle]. }
  unfold answer_of in E. rewrite Et' in E. cbn in E. rewrite Forall_lookup in Ha.
  apply (Ha (n - length (answers t))%nat (c, r)). rewrite lookup_drop. by rewrite Nat.add_sub_assoc, Nat.add_sub_swap, Nat.sub_diag by lia.
Qed.

(** The stretch is the whole run of the second writer. *)
Lemma writes_are_planned_among_threads_witness :
  ∃ c r, answer_of (hdrive rush contended) 1 0 = Some (c, r) ∧
    replied (W := service_up) (active_among (contended :: hstates rush contended)) c r.
Proof.
  destruct (answer_of (hdrive rush contended) 1 0) as [[c r]|] eqn:E.
  2:{ exfalso. apply (f_equal (λ o, match o with Some _ => true | None => false end)) in E.
      vm_compute in E. discriminate E. }
  exists c, r. split; [reflexivity|].
  apply (writes_are_planned_among_threads two_writers helper_abc (mkUp 0) contended
    (hstates rush contended) 1 0 (mkHThread Idle None [CallItem put_order] []) c r).
  - apply up_keeps.
  - apply helper_abc_unused.
  - apply abc_routable.
  - by repeat constructor.
  - apply rtc_refl.
  - done.
  - done.
  - done.
  - apply passes_hstates.
  - rewrite ends_in_hstates. exact E.
Defined.

(** C4. Two writes of one partition key to which affinity applies, by whatever
    threads of a helper and with whatever else going on between their accesses,
    try the active nodes in the same order, each once, after nodes that are not
    active, as long as the key's name is known and the set of active nodes, which
    is not empty, stays: neither throws, and their plans end in that order and
    they go through clients of their plans' first nodes.  [key_write] asks that
    the configured mode covers the write ([affinity_on]), that its item has the
    key attribute, and that its value can be hashed; [seen] that every state of
    the run has the same active nodes, in any order. *)
Theorem threads_share_a_route {W : Type} `{World W} `{Sdk W} `{Deployment W}
    active table key v calls h (w : W) x i1 n1 x1 r1 i2 n2 x2 r2 :
  let seen l := l ≡ₚ active in
  sdk_keeps (W := W) → unused h → met seen (helper_nodes h) →
  key_is table key (partition_keys_ h) → Forall (Forall sized) calls →
  rtc (wstep seen (key_is table key)) (hpool_make calls h w) x →
  answer_of x i1 n1 = Some (CallItem x1, r1) → answer_of x i2 n2 = Some (CallItem x2, r2) →
  key_write deployed x1 table key v → key_write deployed x2 table key v →
  ∃ p1 c1 o1 p2 c2 o2 extra1 extra2 order,
    r1 = Ok (Sent p1 c1 o1) ∧ r2 = Ok (Sent p2 c2 o2) ∧
    DrainPlan p1 = Ok (extra1 ++ order) ∧ DrainPlan p2 = Ok (extra2 ++ order) ∧
    order ≡ₚ active ∧ Forall (λ u, u ∉ active) (extra1 ++ extra2) ∧
    heads_for p1 c1 ∧ heads_for p2 c2.
Proof.
  intros seen Hsdk Hu Hm Hk Hc Hs E1 E2 K1 K2.
  assert (∀ i n a, answer_of x i n = Some a → key_spec seen table key v a.1 a.2) as Ha.
  { apply (answers_hold Hsdk seen (key_is table key) _ calls h w x); try done.
    intros c' Hc'. by apply yields_key_program. }
  destruct (Ha _ _ _ E1 K1) as (p1 & c1 & o1 & Er1 & (A1 & S1 & (_ & Hi1 & _) & R1) & H1').
  destruct (Ha _ _ _ E2 K2) as (p2 & c2 & o2 & Er2 & (A2 & S2 & (_ & Hi2 & _) & R2) & H2').
  cbn in Er1, Er2. subst r1 r2.
  destruct R1 as (e1 & order1 & D1 & O1 & P1 & _ & X1), R2 as (e2 & order2 & D2 & O2 & P2 & _ & X2).
  assert (A1 ≡ₚ A2) as HA by (unfold seen in *; by rewrite S1, S2).
  rewrite (WithSortedSeed_perm A1 A2 _ Hi1 HA) in O1. rewrite O1 in O2. injection O2 as <-.
  exists p1, c1, o1, p2, c2, o2, e1, e2, order1. unfold seen in *.
  split_and!; try done; [by rewrite P1|].
  apply Forall_app. rewrite !Forall_forall. split; intros u Hin.
  - rewrite <-S1. by apply X1.
  - rewrite <-S2. by apply X2.
Qed.

(** Two threads write the user 42, one a put, one a delete. *)
Definition same_user : list (list hcall) :=
  [[CallItem (PutWrite (put_user_request "42"))]; [CallItem (DeleteWrite (delete_user_request "42"))]].
Definition both_written : hpool service_up :=
  hdrive (replicate 7 0%nat ++ replicate 40 1%nat ++ replicate 40 0%nat)
    (hpool_make same_user helper_abc (mkUp 0)).
Lemma key_write_put id :
  key_write any_write (PutWrite (put_user_request id)) "users" "id" (AttributeValue_String (c_str id)).
Proof. split; [done|done|done|]. exists (Aws_STRING id). split; [|done]. by vm_compute. Qed.
Lemma key_write_delete id :
  key_write any_write (DeleteWrite (delete_user_request id)) "users" "id"
    (AttributeValue_String (c_str id)).
Proof. split; [done|done|done|]. exists (Aws_STRING id). split; [|done]. by vm_compute. Qed.

Lemma threads_share_a_route_witness :
  let active := GetActiveNodes abc in
  let answered_call i := option_map fst (answer_of both_written i 0) in
  answered_call 0%nat = Some (CallItem (PutWrite (put_user_request "42"))) ∧
  answered_call 1%nat = Some (CallItem (DeleteWrite (delete_user_request "42"))) ∧
  ∀ r1 r2, option_map snd (answer_of both_written 0 0) = Some r1 →
    option_map snd (answer_of both_written 1 0) = Some r2 →
    ∃ p1 c1 o1 p2 c2 o2 extra1 extra2 order,
      r1 = Ok (Sent p1 c1 o1) ∧ r2 = Ok (Sent p2 c2 o2) ∧
      DrainPlan p1 = Ok (extra1 ++ order) ∧ DrainPlan p2 = Ok (extra2 ++ order) ∧
      order ≡ₚ active ∧ Forall (λ u, u ∉ active) (extra1 ++ extra2) ∧
      heads_for p1 c1 ∧ heads_for p2 c2.
Proof.
  intros active answered_call.
  assert (answered_call 0%nat = Some (CallItem (PutWrite (put_user_request "42")))) as A1
    by (vm_compute; exact eq_refl).
  assert (answered_call 1%nat = Some (CallItem (DeleteWrite (delete_user_request "42")))) as A2
    by (vm_compute; exact eq_refl).
  split_and!; [exact A1|exact A2|]. intros r1 r2 E1 E2. unfold answered_call in A1, A2.
  destruct (answer_of both_written 0 0) as [[c1 r1']|] eqn:F1; [|discriminate E1].
  destruct (answer_of both_written 1 0) as [[c2 r2']|] eqn:F2; [|discriminate E2].
  cbn [option_map fst snd] in A1, A2, E1, E2. injection E1 as ->. injection E2 as ->.
  assert (c1 = CallItem (PutWrite (put_user_request "42"))) as -> by (clear -A1; congruence).
  assert (c2 = CallItem (DeleteWrite (delete_user_request "42"))) as -> by (clear -A2; congruence).
  apply (threads_share_a_route active "users" "id" (AttributeValue_String "42") same_user helper_abc
    (mkUp 0) both_written 0 0 (PutWrite (put_user_request "42")) r1 1 0
    (DeleteWrite (delete_user_request "42")) r2).
  - apply up_keeps.
  - apply helper_abc_unused.
  - split; [apply abc_routable|]. reflexivity.
  - vm_compute. exact eq_refl.
  - by repeat constructor.
  - apply (wdrive_steps _ _ (λ y, bool_decide (active_in y = GetActiveNodes abc) && bool_decide
      (GetPartitionKeyName "users" (partition_keys_ (hmem y).1.1) = "id"))).
    + intros y [->%bool_decide_eq_true Ek%bool_decide_eq_true]%andb_true_iff. by split.
    + vm_compute. exact eq_refl.
  - exact F1.
  - exact F2.
  - apply key_write_put.
  - apply key_write_delete.
Defined.
